(* ===== verification/_CoqProject ===== *)
-Q . S2P
Prelude.v
HttpRequest.v
RequestLine.v
RequestLineFacts.v
RequestLineText.v
ComplexUri.v
ComplexUriSpec.v
HashKey.v
HeaderLine.v
HeaderLineFacts.v
StatusLine.v
CString.v
Numbers.v
Bytes.v
HashTable.v
HashTableSpec.v
RadixTree.v
RadixTreeSpec.v
Crc.v
UriArgs.v
Base64.v
Utf8.v
Escape.v
Memory.v
Queue.v
RbTree.v
RbTreeSpec.v
RbTreeInsert.v
RbTreeDelete.v
RbTreeRemove.v
RbTreeOrder.v
EventTimer.v
Locations.v
LocationsSpec.v
Sprintf.v
Times.v
Calendar.v
TimesText.v
TimesParse.v
DateText.v
LimitReq.v
LimitReqSpec.v
Phases.v
PhasesSpec.v
RoundRobin.v
RoundRobinSpec.v
RoundRobinRequest.v
Resolver.v
ResolverSpec.v
Inet.v
InetSpec.v
NetworkSpec.v
Access.v
Range.v
RangeSpec.v
RangeBody.v
RangeFilter.v
