(* ===== verification/Prelude.v ===== *)
(** * A verification of the core of nginx 1.0.15

    The sources are under src/nginx-1.0.15/src; the names of the definitions are those of
    the C functions, structures and labels wherever they exist.  The build that is modelled
    is the one of a 64-bit little-endian Unix (LP64, x86), without NGX_THREADS and
    NGX_DEBUG; log calls have no effect on what is modelled and are left out.  Integers are
    [Z] with the wrap-around of their C type written out ([u8], [u16], [u32], [u64], [s64]);
    where the C text relies on a wrap that the standard leaves undefined (signed overflow),
    the model has the wrap of the usual compilers.

    ** How C is read

    - A buffer is the list of its bytes and a pointer into it an offset, [-1] for NULL
      ([at_], [rd], [slice] below).  In the functions on C strings a pointer is the list of
      the bytes from it on (CString).  Where an access outside of the memory is possible and
      matters, the function returns [None] for it; [attempt] below also has the [error] of
      functions that return NGX_ERROR.
    - A loop "for (p = b->pos; p < b->last; p++) switch (state)" is a step function on a
      state, and [scan] below runs it: what is said once of [scan] (two pieces of input,
      runs of bytes, invariants) is used for every parser.
    - A structure is a Record, an assignment to a member the notation [r <| f := v |>].
    - Linked structures with shared nodes (queues, trees) live in a heap: Memory has the
      heap, programs on it, a separation logic for the Iris proof mode and weakest
      preconditions for total correctness.  Hash tables, whose elements are packed bytes,
      live in blocks of bytes (Bytes).
    - Loops that are not structural take fuel.  Every such loop has a theorem that the fuel
      its caller gives is enough (the name of the bound is in the file): lengths of the
      input for the parsers, logarithms of the size for the trees, the number of pages, the
      product of phases and redirects for the phases, the number of tries for the balancing.
    - Code outside of the repository, and modules called through pointers, are arguments or
      type classes: [MethodCmp] (the two builds of the comparison macros), [Handlers] (the
      handlers of timers), [Comparator] (the order that a queue is sorted by), [KeyOrder]
      and [OrderedTree] (what a red-black tree promises to a client such as the timers),
      [TreeOps] (insertion into and deletion from the tree of limit_req), [Server] (the
      handlers of the modules, the configuration and the files a request is served with).

    ** The files, and what they show

    Parsing of requests and responses (src/http/ngx_http_parse.c)
    - HttpRequest, RequestLine, RequestLineFacts, RequestLineText: the request line.  A line
      that arrives in pieces is parsed as one that arrives at once; the pointers that are
      left are ordered and inside; a well-formed line is accepted with its fields.
    - ComplexUri, ComplexUriSpec: the normalisation of a URI.  It returns, its result has no
      "." and ".." left, and is the path that decoding, splitting and resolving gives.
    - HeaderLine, HeaderLineFacts, StatusLine: header and status lines, as above.
    - UriArgs: unsafe URIs, arguments, cookies.

    Text and numbers (src/core/ngx_string.c, ngx_times.c, src/http/ngx_http_parse_time.c)
    - CString, Numbers, Base64, Utf8, Escape: searches against their definition, round
      trips, the texts that are refused, lengths.
    - Sprintf: the formatted output without floating point; it never writes past its end.
    - Times, Calendar, TimesText, TimesParse, DateText: the Gregorian calendar against its
      definition by years and months; dates that are written are read back; the parser accepts
      exactly the texts of three formats, with the seconds of their dates.

    Data structures (src/core)
    - Memory, Queue: doubly linked lists; the sort is stable.
    - RbTree, RbTreeSpec, RbTreeInsert, RbTreeDelete, RbTreeRemove, RbTreeOrder: red-black
      trees; both operations keep order, colours and heights, in logarithmic time.
    - EventTimer (src/event/ngx_event_timer.c): timers over any [OrderedTree].
    - Bytes, HashKey, HashTable, HashTableSpec: the hash tables as they lie in memory, up
      to: the table that ngx_hash_init builds is the map of the names it is given.
    - RadixTree, RadixTreeSpec: radix trees as maps from prefixes.
    - Crc: the table-driven sums against the definition by polynomials.

    Serving (src/http)
    - Locations, LocationsSpec: from the location directives to the location of a path,
      through the sorted queue, the grouping and the tree.
    - Phases, PhasesSpec: the array of phase handlers, its engine, redirects and named
      locations; running the array is running the phases by name; no request passes the
      access phase without leave.
    - LimitReq, LimitReqSpec: the request rate: the zone is a map, and in every window of
      time no key gets more than its rate and burst and one more a minute, while the zone
      has memory for its entries and the keys are shorter than 256 bytes.
    - RoundRobin, RoundRobinSpec, RoundRobinRequest: the balancing of upstream servers:
      every call answers inside its arrays, of several servers with a usable one; without
      servers for backup the retries ask none twice; among healthy servers the weights are
      respected.

    Names (src/core/ngx_resolver.c)
    - Resolver, ResolverSpec: DNS queries and responses as bytes: what is read and written
      outside of the memory, which responses are believed, and that names and addresses
      survive the way to the server and back.

    Addresses (src/core/ngx_inet.c, src/http/modules/ngx_http_access_module.c)
    - Inet, InetSpec: addresses as text and back, for IPv4 and IPv6.
    - NetworkSpec: networks as text, and the addresses they match, bit for bit.
    - Access: the allow and deny directives: the first that covers the client decides.

    Byte ranges (src/http/modules/ngx_http_range_filter_module.c, src/core/ngx_buf.h)
    - Range: the parser of the header Range, the header filter and the body filter.
    - RangeSpec: what the texts of a header ask for and when the parser grants it.
    - RangeBody: chains of buffers in memory and in files, and the bytes that go through.
    - RangeFilter: from the header of a request to the header and the bytes of the response,
      for one range and for several.

    Theorems of the form "..._roundtrip", "..._resume", "..._spec", "..._refines" are the
    statements for users of a component; the lemmas before them follow the code.  The
    examples next to a theorem are concrete runs, several of them runs in which the code
    does what it should not (listed as findings).

    ** Not modelled

    - System calls and what only sequences them: sockets, files, processes, the event loop
      and its modules, signals, shared memory, the cache of open files, sendfile.
    - Pools, slabs and locks: allocation is an argument that may fail where the code handles
      the failure.
    - Libraries: PCRE (an argument of the location search), OpenSSL, zlib, MD5.
    - The handlers that are driven by the events of connections (ngx_http_request.c,
      ngx_http_upstream.c and the upstream modules, the mail handlers, the filters with
      their chains of buffers), variables and scripts, and the directives of the modules:
      their states are mostly connections and chains; the parsers and tables that they are
      built on are modelled.
    - Inside the components: "%f" of ngx_vslprintf (floating point), the cached time strings
      (memory barriers), the wildcard tables of ngx_hash.c, the sessions of TLS of the
      balancing. *)
From stdpp Require Export base list option numbers sets.
From Stdlib Require Export ZArith Lia.
From Stdlib Require Strings.Byte Strings.String.
Export String.StringSyntax.

#[global] Open Scope Z_scope.

(** ** Characters and bytes *)

(** A [u_char] is an integer of [0..255]; a character literal of the C source is
    written as the one-letter string, [ch =? "A"]. *)
Abbreviation bytes := (list Z).

Definition is_u_char (c : Z) : Prop := 0 <= c < 256.

Declare Scope chr_scope.
Delimit Scope chr_scope with chr.

Definition chr_parse (b : Byte.byte) : Z := Z.of_N (Byte.to_N b).
Definition chr_print (z : Z) : option Byte.byte := None.

String Notation Z chr_parse chr_print : chr_scope.
#[global] Open Scope chr_scope.

(** The bytes of a string literal, used by the concrete examples. *)
Definition bs (s : String.string) : bytes :=
  (fun b => Z.of_N (Byte.to_N b)) <$> String.list_byte_of_string s.
Arguments bs s%_string_scope : simpl never.

Definition CR : Z := 13.
Definition LF : Z := 10.

#[export] Instance is_u_char_dec (c : Z) : Decision (is_u_char c).
Proof. unfold is_u_char. apply _. Defined.

(** A fact about one byte that a boolean decides is checked on the 256 values. *)
Definition all_u_chars : list Z := Z.of_nat <$> seq 0 256.

Lemma elem_of_all_u_chars c : is_u_char c -> c ∈ all_u_chars.
Proof.
  intros [H1 H2]. unfold all_u_chars. apply list_elem_of_fmap.
  exists (Z.to_nat c). split; [lia|]. apply elem_of_seq. lia.
Qed.

Lemma u_char_forall (f : Z -> bool) :
  forallb f all_u_chars = true -> forall c, is_u_char c -> f c = true.
Proof.
  intros Hf c Hc. rewrite forallb_forall in Hf. apply Hf.
  apply list_elem_of_In, elem_of_all_u_chars, Hc.
Qed.

(** ** Decimal digits *)

Definition is_digit (ch : Z) : bool := ("0" <=? ch) && (ch <=? "9").

(** The number that a string of digits continues from [v]. *)
Definition digits_val (v : Z) (ds : bytes) : Z :=
  fold_left (fun v c => v * 10 + (c - "0")) ds v.

Lemma digits_val_app v l1 l2 : digits_val v (l1 ++ l2) = digits_val (digits_val v l1) l2.
Proof. apply fold_left_app. Qed.

Lemma digits_val_ge v ds :
  0 <= v -> Forall (fun c => is_digit c = true) ds -> v <= digits_val v ds.
Proof.
  intros Hv Hds. revert v Hv. unfold is_digit in Hds.
  induction Hds as [|c ds Hc _ IH]; intros v Hv; simpl; [lia|].
  specialize (IH (v * 10 + (c - "0"))). lia.
Qed.

(** ** Machine integers *)

Definition u8 (z : Z) : Z := z mod 2 ^ 8.
Definition u16 (z : Z) : Z := z mod 2 ^ 16.
Definition u32 (z : Z) : Z := z mod 2 ^ 32.
Definition u64 (z : Z) : Z := z mod 2 ^ 64.

(** The two's complement value of a 64-bit register ([ngx_int_t], [ssize_t],
    [off_t], [time_t] on the LP64 platforms). *)
Definition s64 (z : Z) : Z := (z + 2 ^ 63) mod 2 ^ 64 - 2 ^ 63.

Lemma u8_range z : is_u_char (u8 z).
Proof. apply (Z.mod_pos_bound z (2 ^ 8)). lia. Qed.
Lemma u8_id z : is_u_char z -> u8 z = z.
Proof. intros. apply Z.mod_small. exact H. Qed.
Lemma u16_id z : 0 <= z < 2 ^ 16 -> u16 z = z.
Proof. apply Z.mod_small. Qed.
Lemma u64_id z : 0 <= z < 2 ^ 64 -> u64 z = z.
Proof. apply Z.mod_small. Qed.
Lemma s64_id z : - 2 ^ 63 <= z < 2 ^ 63 -> s64 z = z.
Proof. intros. unfold s64. rewrite Z.mod_small; lia. Qed.
Lemma s64_range z : - 2 ^ 63 <= s64 z < 2 ^ 63.
Proof. unfold s64. pose proof (Z.mod_pos_bound (z + 2 ^ 63) (2 ^ 64)). lia. Qed.
Lemma s64_mod z : s64 z mod 2 ^ 64 = z mod 2 ^ 64.
Proof.
  unfold s64. rewrite Zminus_mod, Zmod_mod, <- Zminus_mod.
  f_equal. lia.
Qed.

(** [ngx_abs] of a 64-bit integer. *)
Definition ngx_abs (v : Z) : Z := if 0 <=? v then v else s64 (- v).

(** The return codes of [core/ngx_core.h]. *)
Definition NGX_OK : Z := 0.
Definition NGX_ERROR : Z := -1.
Definition NGX_AGAIN : Z := -2.
Definition NGX_BUSY : Z := -3.
Definition NGX_HTTP_VERSION_10 : Z := 1000.
Definition NGX_HTTP_FORBIDDEN : Z := 403.
Definition NGX_DONE : Z := -4.
Definition NGX_DECLINED : Z := -5.

(** ** Record update *)

(** [r <| f := v |>] is the record [r] with its field [f] replaced by [v].  A
    record type supports it once its eta expansion is declared as a [Rebuild]
    instance. *)
Class Rebuild (R : Type) := rebuild : R -> R.
Class Updater {R T : Type} (proj : R -> T) := update_field : T -> R -> R.
Arguments update_field {R T} proj {_} _ _ /.

Ltac solve_updater :=
  lazymatch goal with
  | |- @Updater ?R ?T ?proj =>
      let v := fresh "v" in
      let r := fresh "r" in
      intros v r;
      let eta := constr:(_ : Rebuild R) in
      let e := (eval red in (eta r)) in
      let e' := (eval pattern (proj r) in e) in
      lazymatch e' with
      | ?g _ => let x := (eval cbv beta in (g v)) in exact x
      end
  end.
#[export] Hint Extern 0 (Updater _) => solve_updater : typeclass_instances.

Notation "r <| f := v |>" := (update_field f v r)
  (at level 1, left associativity, f at level 11, v at level 200).

(** ** Memory and buffers *)

(** The bytes of one allocation are a list; a pointer into it is the integer
    offset of the byte it points to. *)
Definition rd (mem : bytes) (i : Z) : option Z :=
  if 0 <=? i then mem !! Z.to_nat i else None.

(** [*p] where the code has established that [p] is inside the allocation. *)
Definition at_ (mem : bytes) (i : Z) : Z := default 0 (rd mem i).

(** The offset of a pointer, [-1] for NULL: [0 <= ptr x] says that [x] is set. *)
Definition ptr (x : option Z) : Z := default (-1) x.
Arguments ptr !x /.

Lemma ptr_Some x : 0 <= ptr x -> x = Some (ptr x).
Proof. destruct x; simpl; [done|lia]. Qed.

(** [ngx_buf_t] of [core/ngx_buf.h]: the two pointers the parsers use. *)
Record ngx_buf_t := mk_buf { pos : Z; last : Z }.
#[export] Instance rebuild_buf : Rebuild ngx_buf_t :=
  fun b => mk_buf (pos b) (last b).

(** The bytes of [[a, b)]. *)
Definition slice (mem : bytes) (a b : Z) : bytes :=
  take (Z.to_nat (b - a)) (drop (Z.to_nat a) mem).

Definition zlen {A} (l : list A) : Z := Z.of_nat (length l).

Lemma zlen_app {A} (l1 l2 : list A) : zlen (l1 ++ l2) = zlen l1 + zlen l2.
Proof. unfold zlen. rewrite length_app. lia. Qed.
Lemma zlen_cons {A} (x : A) (l : list A) : zlen (x :: l) = 1 + zlen l.
Proof. unfold zlen. simpl. lia. Qed.
Lemma zlen_nil {A} : zlen (@nil A) = 0.
Proof. reflexivity. Qed.
Lemma zlen_nonneg {A} (l : list A) : 0 <= zlen l.
Proof. unfold zlen. lia. Qed.
Create Rewrite HintDb zlen.
#[export] Hint Rewrite @zlen_app @zlen_cons @zlen_nil : zlen.

Lemma zlen_slice mem a b :
  0 <= a -> a <= b -> b <= zlen mem -> zlen (slice mem a b) = b - a.
Proof. unfold zlen, slice. rewrite length_take, length_drop. lia. Qed.

Lemma slice_split mem a k b :
  0 <= a -> a <= k -> k <= b ->
  slice mem a b = slice mem a k ++ slice mem k b.
Proof.
  intros. unfold slice.
  replace (Z.to_nat (b - a)) with (Z.to_nat (k - a) + Z.to_nat (b - k))%nat by lia.
  replace (Z.to_nat k) with (Z.to_nat a + Z.to_nat (k - a))%nat by lia.
  rewrite <- drop_drop. generalize (drop (Z.to_nat a) mem). intros l.
  symmetry. apply take_take_drop.
Qed.

Lemma slice_mid l1 l2 l3 :
  slice (l1 ++ l2 ++ l3) (zlen l1) (zlen l1 + zlen l2) = l2.
Proof.
  unfold slice, zlen.
  replace (Z.to_nat _) with (length l2) by lia. rewrite Nat2Z.id.
  rewrite drop_app_length. apply take_app_length.
Qed.

Lemma slice_to_end l1 l2 : slice (l1 ++ l2) (zlen l1) (zlen (l1 ++ l2)) = l2.
Proof.
  pose proof (slice_mid l1 l2 []) as H. rewrite app_nil_r in H.
  by rewrite zlen_app.
Qed.

Lemma rd_app_r l1 l2 i : 0 <= i -> rd (l1 ++ l2) (zlen l1 + i) = rd l2 i.
Proof.
  intros. unfold rd, zlen. rewrite (proj2 (Z.leb_le 0 _)) by lia.
  rewrite (proj2 (Z.leb_le 0 i)) by lia.
  rewrite lookup_app_r by lia. f_equal. lia.
Qed.

Lemma rd_slice mem a b q ch :
  0 <= a -> a <= q -> rd (slice mem a b) (q - a) = Some ch -> rd mem q = Some ch.
Proof.
  unfold rd, slice. intros. rewrite (proj2 (Z.leb_le 0 q)) by lia.
  case_match; [|done].
  destruct (decide (Z.to_nat (q - a) < Z.to_nat (b - a))%nat) as [Hlt|Hge].
  - rewrite lookup_take_lt in H1 by done. rewrite lookup_drop in H1.
    rewrite <- H1. f_equal. lia.
  - rewrite lookup_take_ge in H1 by lia. done.
Qed.

Lemma at_rd mem q ch : rd mem q = Some ch -> at_ mem q = ch.
Proof. unfold at_. by intros ->. Qed.

Lemma rd_is_Some mem i : 0 <= i < zlen mem -> is_Some (rd mem i).
Proof.
  intros. unfold rd, zlen in *. rewrite (proj2 (Z.leb_le 0 _)) by lia.
  apply lookup_lt_is_Some. lia.
Qed.

Lemma at_u_char mem i : Forall is_u_char mem -> is_u_char (at_ mem i).
Proof.
  intros H. unfold at_, rd. case_match; [|split; simpl; lia].
  destruct (mem !! Z.to_nat i) as [c|] eqn:E; [|split; simpl; lia].
  simpl. eapply Forall_lookup_1; eauto.
Qed.

Lemma rd_u_char mem q ch : Forall is_u_char mem -> rd mem q = Some ch -> is_u_char ch.
Proof. intros H <-%at_rd. by apply at_u_char. Qed.

Lemma slice_nil mem a b : b <= a -> slice mem a b = [].
Proof. intros. unfold slice. by replace (Z.to_nat (b - a)) with 0%nat by lia. Qed.

Lemma slice_cons mem a b :
  0 <= a < b -> b <= zlen mem -> slice mem a b = at_ mem a :: slice mem (a + 1) b.
Proof.
  intros Ha Hb. destruct (rd_is_Some mem a) as [c Hc]; [lia|].
  rewrite (at_rd _ _ _ Hc). revert Hc. unfold rd, slice.
  rewrite (proj2 (Z.leb_le 0 a)) by lia. intros Hc%drop_S. rewrite Hc.
  replace (Z.to_nat (b - a)) with (S (Z.to_nat (b - (a + 1)))) by lia.
  replace (Z.to_nat (a + 1)) with (S (Z.to_nat a)) by lia. done.
Qed.

Lemma slice_snoc mem a p ch :
  0 <= a <= p -> rd mem p = Some ch -> slice mem a (p + 1) = slice mem a p ++ [ch].
Proof.
  intros Ha Hr. rewrite (slice_split mem a p (p + 1)) by lia. f_equal.
  unfold slice, rd in *. rewrite (proj2 (Z.leb_le 0 p)) in Hr by lia.
  replace (Z.to_nat (p + 1 - p)) with 1%nat by lia. by rewrite (drop_S _ _ _ Hr).
Qed.

Lemma slice_one mem p ch : 0 <= p -> rd mem p = Some ch -> slice mem p (p + 1) = [ch].
Proof. intros. rewrite (slice_snoc mem p p ch) by (lia || done). by rewrite slice_nil by lia. Qed.

Lemma slice_u_char mem a b : Forall is_u_char mem -> Forall is_u_char (slice mem a b).
Proof. intros. unfold slice. by apply Forall_take, Forall_drop. Qed.

(** [ngx_memcmp(a, b, n) == 0] for two strings of the same length [n]; strings of
    different lengths are different. *)
Fixpoint bytes_eqb (l1 l2 : bytes) : bool :=
  match l1, l2 with
  | [], [] => true
  | x :: l1, y :: l2 => (x =? y) && bytes_eqb l1 l2
  | _, _ => false
  end.

Lemma bytes_eqb_eq l1 l2 : bytes_eqb l1 l2 = true <-> l1 = l2.
Proof.
  revert l2. induction l1 as [|x l1 IH]; intros [|y l2]; simpl; try done.
  rewrite andb_true_iff, Z.eqb_eq, IH. split; [by intros [-> ->]|by intros [= -> ->]].
Qed.

Lemma bytes_eqb_length l1 l2 : length l1 <> length l2 -> bytes_eqb l1 l2 = false.
Proof.
  intros Hl. destruct (bytes_eqb l1 l2) eqn:E; [|done].
  apply bytes_eqb_eq in E. by subst.
Qed.

(** ** Bit operations *)

(** [(hi << k) | lo] with a [lo] of [k] bits is a sum. *)
(** One bit of a word, tested with a mask. *)
Lemma land_bit w k : 0 <= k -> negb (Z.land w (2 ^ k) =? 0) = Z.testbit w k.
Proof.
  intros Hk. destruct (Z.testbit w k) eqn:E.
  - rewrite negb_true_iff, Z.eqb_neq. intros H. apply (f_equal (fun x => Z.testbit x k)) in H.
    rewrite Z.land_spec, E, Z.pow2_bits_true, Z.bits_0 in H by done. done.
  - rewrite negb_false_iff, Z.eqb_eq. apply Z.bits_inj'. intros m Hm.
    rewrite Z.land_spec, Z.bits_0, Z.pow2_bits_eqb by done.
    destruct (decide (k = m)) as [<-|Hne]; [by rewrite E|].
    replace (k =? m) with false by lia. by rewrite andb_false_r.
Qed.

Lemma lor_shiftl_add hi lo k :
  0 <= k -> 0 <= lo < 2 ^ k -> Z.lor (Z.shiftl hi k) lo = hi * 2 ^ k + lo.
Proof.
  intros Hk Hlo. rewrite <- Z.add_nocarry_lor; [by rewrite Z.shiftl_mul_pow2 by lia|].
  apply Z.bits_inj'. intros i Hi. rewrite Z.land_spec, Z.bits_0.
  destruct (Z.lt_ge_cases i k).
  - by rewrite Z.shiftl_spec_low by lia.
  - rewrite <- (Z.mod_small lo (2 ^ k)), Z.mod_pow2_bits_high by lia.
    apply andb_false_r.
Qed.

(** ** Functions that can fail *)

(** [None]: the code touches memory it must not, or divides by zero; [Some None]: it returns
    an error. *)
Definition attempt (A : Type) : Type := option (option A).
#[export] Instance attempt_ret : MRet attempt := fun A a => Some (Some a).
#[export] Instance attempt_bind : MBind attempt :=
  fun A B k m => match m with Some (Some a) => k a | Some None => Some None | None => None end.
Definition error {A} : attempt A := Some None.
Definition guard_ (b : bool) : attempt unit := if b then mret tt else error.
Definition access {A} (o : option A) : attempt A := a ← o; Some (Some a).

(** What such a step ensures: it does not fail, and if it goes on, with a result that
    satisfies [P]. *)
Definition ensures {A} (m : attempt A) (P : A -> Prop) : Prop :=
  match m with None => False | Some None => True | Some (Some a) => P a end.

Lemma ensures_bind {A B} (m : attempt A) (k : A -> attempt B) (P : A -> Prop) (Q : B -> Prop) :
  ensures m P -> (forall a, P a -> ensures (k a) Q) -> ensures (m ≫= k) Q.
Proof. intros H Hk. destruct m as [[a|]|]; [by apply Hk|done|done]. Qed.

Lemma ensures_mono {A} (m : attempt A) (P Q : A -> Prop) :
  ensures m P -> (forall a, P a -> Q a) -> ensures m Q.
Proof. unfold ensures. destruct m as [[a|]|]; auto. Qed.

Lemma ensures_ret {A} (a : A) (P : A -> Prop) : P a -> ensures (mret a) P.
Proof. done. Qed.

Lemma ensures_guard b : ensures (guard_ b) (fun _ => b = true).
Proof. by destruct b. Qed.

(** ** Character-at-a-time machines *)

(** The parsers are loops [for (p = b->pos; p < b->last; p++)] around a [switch]
    on a state.  One turn of the loop either goes on with a new state ([Next]) or
    leaves the loop ([Stop]). *)
Inductive action (St R : Type) : Type :=
  | Next (s : St)
  | Stop (r : R).
Arguments Next {St R} s.
Arguments Stop {St R} r.

Definition action_map {St R} (f : St -> St) (g : R -> R) (a : action St R) : action St R :=
  match a with Next s => Next (f s) | Stop r => Stop (g r) end.

Section Scan.
Context {St R : Type} (step : St -> Z -> Z -> action St R).

(** [inl (s, p)]: the loop ran to [b->last]; [inr r]: it was left with [r]. *)
Fixpoint scan (s : St) (p : Z) (l : bytes) : (St * Z) + R :=
  match l with
  | [] => inl (s, p)
  | ch :: l' =>
      match step s p ch with
      | Next s' => scan s' (p + 1) l'
      | Stop r => inr r
      end
  end.

(** Reading the input in two parts is reading it at once. *)
Lemma scan_app s p l1 l2 :
  scan s p (l1 ++ l2) =
  match scan s p l1 with
  | inl (s', p') => scan s' p' l2
  | inr r => inr r
  end.
Proof.
  revert s p. induction l1 as [|ch l1 IH]; intros s p; simpl; [done|].
  destruct (step s p ch); [apply IH | done].
Qed.

Lemma scan_next s p ch l s' :
  step s p ch = Next s' -> scan s p (ch :: l) = scan s' (p + 1) l.
Proof. simpl. by intros ->. Qed.

Lemma scan_stop s p ch l r : step s p ch = Stop r -> scan s p (ch :: l) = inr r.
Proof. simpl. by intros ->. Qed.

Lemma scan_inl_pos s p l s' p' : scan s p l = inl (s', p') -> p' = p + zlen l.
Proof.
  revert s p. induction l as [|ch l IH]; intros s p; simpl.
  - intros [= <- <-]. autorewrite with zlen. lia.
  - destruct (step s p ch); [|done]. intros ->%IH. autorewrite with zlen. lia.
Qed.

(** A change of the state that no turn of the loop notices. *)
Lemma scan_map f g s p l :
  (forall s p ch, step (f s) p ch = action_map f g (step s p ch)) ->
  scan (f s) p l =
  match scan s p l with
  | inl (s', p') => inl (f s', p')
  | inr r => inr (g r)
  end.
Proof.
  intros Hf. revert s p. induction l as [|ch l IH]; intros s p; simpl; [done|].
  rewrite Hf. destruct (step s p ch); simpl; [apply IH|done].
Qed.

(** A run of bytes on which the machine stays in the same state. *)
Lemma scan_run s p l1 l2 :
  (forall q ch, ch ∈ l1 -> step s q ch = Next s) ->
  scan s p (l1 ++ l2) = scan s (p + zlen l1) l2.
Proof.
  revert p. induction l1 as [|ch l1 IH]; intros p Hst; simpl.
  - f_equal. unfold zlen. simpl. lia.
  - rewrite Hst by constructor. rewrite IH by (intros; apply Hst; by constructor).
    f_equal. autorewrite with zlen. lia.
Qed.

(** Invariants of the loop: [P] holds at every turn, and at the turn that
    leaves the loop; [ch] is the byte at offset [q - p] of the input. *)
Lemma scan_inv (P : St -> Z -> Prop) (Q : R -> Prop) s p l :
  (forall s q ch s', P s q -> p <= q < p + zlen l -> rd l (q - p) = Some ch ->
     step s q ch = Next s' -> P s' (q + 1)) ->
  (forall s q ch r, P s q -> p <= q < p + zlen l -> rd l (q - p) = Some ch ->
     step s q ch = Stop r -> Q r) ->
  P s p ->
  match scan s p l with
  | inl (s', p') => P s' p'
  | inr r => Q r
  end.
Proof.
  revert s p. induction l as [|ch l IH]; intros s p HN HS HP; simpl; [done|].
  pose proof (zlen_nonneg l) as Hl. rewrite zlen_cons in HN, HS.
  assert (H0 : rd (ch :: l) (p - p) = Some ch) by (by rewrite Z.sub_diag).
  assert (HR : forall q c, p + 1 <= q -> rd l (q - (p + 1)) = Some c ->
                 rd (ch :: l) (q - p) = Some c).
  { intros q c Hq <-. replace (q - p) with (1 + (q - (p + 1))) by lia.
    apply (rd_app_r [ch]). lia. }
  destruct (step s p ch) as [s'|r] eqn:E.
  - apply IH.
    + intros s0 q c s1 ???. eapply HN; [done|lia|apply HR; [lia|done]].
    + intros s0 q c r ???. eapply HS; [done|lia|apply HR; [lia|done]].
    + eapply HN; [done|lia|done|done].
  - eapply HS; [done|lia|done|done].
Qed.
End Scan.

(** ** State enumerations *)

(** The state of a parser is an [enum] of the function, kept between calls in an
    integer field.  [enum_list] are the enumerators in order, [enum_none z] stands
    for an integer that no case label matches. *)
Class StateEnum (E : Type) := {
  enum_list : list E;
  enum_none : Z -> E;
  enum_to_Z : E -> Z;
  enum_to_Z_none z : enum_to_Z (enum_none z) = z;
  enum_to_Z_list i s : enum_list !! i = Some s -> enum_to_Z s = Z.of_nat i
}.

Section Enum.
Context `{StateEnum E}.

Definition enum_of_Z (z : Z) : E :=
  if 0 <=? z then default (enum_none z) (enum_list !! Z.to_nat z) else enum_none z.

Lemma enum_to_of_Z z : enum_to_Z (enum_of_Z z) = z.
Proof.
  unfold enum_of_Z. destruct (Z.leb_spec 0 z); [|apply enum_to_Z_none].
  destruct (enum_list !! Z.to_nat z) eqn:El; simpl; [|apply enum_to_Z_none].
  apply enum_to_Z_list in El. lia.
Qed.

(** The states that survive being stored in the integer field. *)
Definition storable (s : E) : Prop := enum_of_Z (enum_to_Z s) = s.

Lemma storable_of_Z z : storable (enum_of_Z z).
Proof. unfold storable. by rewrite enum_to_of_Z. Qed.
End Enum.

(** Proves [enum_to_Z_list] for a concrete enumeration. *)
Ltac solve_enum_list :=
  let i := fresh "i" in
  intros i s;
  repeat (destruct i as [|i]; [injection 1 as <-; reflexivity|]);
  discriminate.

(** ** Tactics *)

(** Split the first condition the goal computes on. *)
Ltac split_if :=
  match goal with
  | |- context [if ?b then _ else _] => destruct b eqn:?
  end.

(** Decide closed or hypothesis-determined comparisons, then split what is left. *)
Ltac decide_if :=
  match goal with
  | |- context [if ?b then _ else _] =>
      first
        [ replace b with true by (symmetry; lia)
        | replace b with false by (symmetry; lia) ]
  end.

(** Linear arithmetic with divisions and remainders by constants. *)
Ltac dlia := Z.div_mod_to_equations; lia.

(** A closed decidable fact, by evaluation. *)
Ltac by_decide := apply (proj1 (bool_decide_eq_true _)); vm_compute; reflexivity.

(** A decidable fact about the byte [c], by evaluation on all of them. *)
Ltac by_byte c Hc :=
  apply (proj1 (bool_decide_eq_true _)); revert c Hc;
  match goal with |- forall c, _ -> @?b c = true => apply (u_char_forall b) end;
  vm_compute; reflexivity.
