(* ===== verification/HttpRequest.v ===== *)
(** The request object and [ngx_http_parse_request_line]
    (src/http/ngx_http_request.h, src/http/ngx_http_parse.c). *)
From S2P Require Import Prelude.

(** ** Constants of ngx_http_request.h *)

Definition NGX_HTTP_UNKNOWN : Z := 0x0001.
Definition NGX_HTTP_GET : Z := 0x0002.
Definition NGX_HTTP_HEAD : Z := 0x0004.
Definition NGX_HTTP_POST : Z := 0x0008.
Definition NGX_HTTP_PUT : Z := 0x0010.
Definition NGX_HTTP_DELETE : Z := 0x0020.
Definition NGX_HTTP_MKCOL : Z := 0x0040.
Definition NGX_HTTP_COPY : Z := 0x0080.
Definition NGX_HTTP_MOVE : Z := 0x0100.
Definition NGX_HTTP_OPTIONS : Z := 0x0200.
Definition NGX_HTTP_PROPFIND : Z := 0x0400.
Definition NGX_HTTP_PROPPATCH : Z := 0x0800.
Definition NGX_HTTP_LOCK : Z := 0x1000.
Definition NGX_HTTP_UNLOCK : Z := 0x2000.
Definition NGX_HTTP_PATCH : Z := 0x4000.
Definition NGX_HTTP_TRACE : Z := 0x8000.

Definition NGX_HTTP_LC_HEADER_LEN : Z := 32.

Definition NGX_HTTP_PARSE_HEADER_DONE : Z := 1.
Definition NGX_HTTP_PARSE_INVALID_METHOD : Z := 10.
Definition NGX_HTTP_PARSE_INVALID_REQUEST : Z := 11.
Definition NGX_HTTP_PARSE_INVALID_09_METHOD : Z := 12.
Definition NGX_HTTP_PARSE_INVALID_HEADER : Z := 13.

(** ** The request *)

(** The fields of [struct ngx_http_request_s] that the parsers read or write.
    A pointer field is [None] for NULL and otherwise an offset into the buffer
    the request is read from.  [upstream] says whether the field of that name is
    not NULL; [uri] is the memory [r->uri.data] points to, up to [r->uri.len];
    [exten] is an offset and length in it, [args] an offset and length in the
    request buffer. *)
Record ngx_http_request_t := mk_request {
  method : Z;
  http_version : Z;
  http_protocol_data : option Z;
  upstream : bool;

  uri : bytes;
  args : option Z * Z;
  exten : option Z * Z;

  complex_uri : bool;
  quoted_uri : bool;
  plus_in_uri : bool;
  space_in_uri : bool;
  invalid_header : bool;

  state : Z;
  header_hash : Z;
  lowcase_index : Z;
  lowcase_header : bytes;

  header_name_start : option Z;
  header_name_end : option Z;
  header_start : option Z;
  header_end : option Z;

  uri_start : option Z;
  uri_end : option Z;
  uri_ext : option Z;
  args_start : option Z;
  request_start : option Z;
  request_end : option Z;
  method_end : option Z;
  schema_start : option Z;
  schema_end : option Z;
  host_start : option Z;
  host_end : option Z;
  port_start : option Z;
  port_end : option Z;

  http_minor : Z;
  http_major : Z
}.

#[export] Instance rebuild_request : Rebuild ngx_http_request_t := fun r =>
  mk_request (method r) (http_version r) (http_protocol_data r) (upstream r)
    (uri r) (args r) (exten r)
    (complex_uri r) (quoted_uri r) (plus_in_uri r) (space_in_uri r)
    (invalid_header r)
    (state r) (header_hash r) (lowcase_index r) (lowcase_header r)
    (header_name_start r) (header_name_end r) (header_start r) (header_end r)
    (uri_start r) (uri_end r) (uri_ext r) (args_start r)
    (request_start r) (request_end r) (method_end r)
    (schema_start r) (schema_end r) (host_start r) (host_end r)
    (port_start r) (port_end r) (http_minor r) (http_major r).

(** A request fresh from [ngx_pcalloc], with the settings of
    [ngx_http_init_request]: [method] is [NGX_HTTP_UNKNOWN], everything else is
    zero. *)
Definition new_request : ngx_http_request_t :=
  mk_request NGX_HTTP_UNKNOWN 0 None false [] (None, 0) (None, 0)
    false false false false false 0 0 0 (replicate 32 0)
    None None None None None None None None None None None None None None None
    None None 0 0.

(** ** The table of usual URI characters *)

(** [static uint32_t usual[]], on a system other than Win32. *)
Definition usual : list Z :=
  [0xffffdbfe; 0x7fff37d6; 0xffffffff; 0xffffffff;
   0xffffffff; 0xffffffff; 0xffffffff; 0xffffffff].

(** [usual[ch >> 5] & (1 << (ch & 0x1f))] *)
Definition is_usual (ch : Z) : bool :=
  negb (Z.land (at_ usual (Z.shiftr ch 5)) (Z.shiftl 1 (Z.land ch 0x1f)) =? 0).

(** What the table says, character by character. *)
Definition unusual_chars : list Z :=
  [0; LF; CR; " "; "#"; "%"; "+"; "."; "/"; "?"].

Lemma is_usual_spec ch :
  is_u_char ch -> is_usual ch = negb (bool_decide (ch ∈ unusual_chars)).
Proof.
  intros H. apply eqb_prop.
  revert ch H. apply u_char_forall. vm_compute. reflexivity.
Qed.
