(* ===== verification/RequestLine.v ===== *)
(** [ngx_http_parse_request_line] (src/http/ngx_http_parse.c): the machine that
    reads "METHOD URI HTTP/x.y", one byte at a time, over a buffer that may still
    grow. *)
From S2P Require Import Prelude HttpRequest.

(** ** Comparing a method name *)

(** The macros [ngx_str3_cmp] .. [ngx_str9cmp] exist in two versions.  The class
    is what the parser needs of them; [m] points at the method. *)
Class MethodCmp := {
  ngx_str3_cmp : bytes -> Z -> Z -> Z -> Z -> Z -> bool;
  ngx_str3Ocmp : bytes -> Z -> Z -> Z -> Z -> Z -> bool;
  ngx_str4cmp : bytes -> Z -> Z -> Z -> Z -> Z -> bool;
  ngx_str5cmp : bytes -> Z -> Z -> Z -> Z -> Z -> Z -> bool;
  ngx_str6cmp : bytes -> Z -> Z -> Z -> Z -> Z -> Z -> Z -> bool;
  ngx_str7_cmp : bytes -> Z -> Z -> Z -> Z -> Z -> Z -> Z -> Z -> Z -> bool;
  ngx_str8cmp : bytes -> Z -> Z -> Z -> Z -> Z -> Z -> Z -> Z -> Z -> bool;
  ngx_str9cmp : bytes -> Z -> Z -> Z -> Z -> Z -> Z -> Z -> Z -> Z -> Z -> bool
}.

(** [*(uint32_t * ) m] on a little-endian machine, and the constant it is
    compared with. *)
Definition ld32 (mem : bytes) (m : Z) : Z :=
  Z.lor (Z.shiftl (at_ mem (m + 3)) 24)
    (Z.lor (Z.shiftl (at_ mem (m + 2)) 16)
       (Z.lor (Z.shiftl (at_ mem (m + 1)) 8) (at_ mem m))).

Definition word4 (c0 c1 c2 c3 : Z) : Z :=
  Z.lor (Z.shiftl c3 24) (Z.lor (Z.shiftl c2 16) (Z.lor (Z.shiftl c1 8) c0)).

(** NGX_HAVE_LITTLE_ENDIAN && NGX_HAVE_NONALIGNED *)
Definition cmp_words : MethodCmp := {|
  ngx_str3_cmp mem m c0 c1 c2 c3 := ld32 mem m =? word4 c0 c1 c2 c3;
  ngx_str3Ocmp mem m c0 c1 c2 c3 := ld32 mem m =? word4 c0 c1 c2 c3;
  ngx_str4cmp mem m c0 c1 c2 c3 := ld32 mem m =? word4 c0 c1 c2 c3;
  ngx_str5cmp mem m c0 c1 c2 c3 c4 :=
    (ld32 mem m =? word4 c0 c1 c2 c3) && (at_ mem (m + 4) =? c4);
  ngx_str6cmp mem m c0 c1 c2 c3 c4 c5 :=
    (ld32 mem m =? word4 c0 c1 c2 c3)
    && (Z.land (ld32 mem (m + 4)) 0xffff =? Z.lor (Z.shiftl c5 8) c4);
  ngx_str7_cmp mem m c0 c1 c2 c3 c4 c5 c6 c7 :=
    (ld32 mem m =? word4 c0 c1 c2 c3) && (ld32 mem (m + 4) =? word4 c4 c5 c6 c7);
  ngx_str8cmp mem m c0 c1 c2 c3 c4 c5 c6 c7 :=
    (ld32 mem m =? word4 c0 c1 c2 c3) && (ld32 mem (m + 4) =? word4 c4 c5 c6 c7);
  ngx_str9cmp mem m c0 c1 c2 c3 c4 c5 c6 c7 c8 :=
    (ld32 mem m =? word4 c0 c1 c2 c3) && (ld32 mem (m + 4) =? word4 c4 c5 c6 c7)
    && (at_ mem (m + 8) =? c8)
|}.

(** every other machine *)
Definition cmp_bytes : MethodCmp :=
  let c_at mem m i c := at_ mem (m + i) =? c in {|
  ngx_str3_cmp mem m c0 c1 c2 c3 :=
    c_at mem m 0 c0 && c_at mem m 1 c1 && c_at mem m 2 c2;
  ngx_str3Ocmp mem m c0 c1 c2 c3 :=
    c_at mem m 0 c0 && c_at mem m 2 c2 && c_at mem m 3 c3;
  ngx_str4cmp mem m c0 c1 c2 c3 :=
    c_at mem m 0 c0 && c_at mem m 1 c1 && c_at mem m 2 c2 && c_at mem m 3 c3;
  ngx_str5cmp mem m c0 c1 c2 c3 c4 :=
    c_at mem m 0 c0 && c_at mem m 1 c1 && c_at mem m 2 c2 && c_at mem m 3 c3
    && c_at mem m 4 c4;
  ngx_str6cmp mem m c0 c1 c2 c3 c4 c5 :=
    c_at mem m 0 c0 && c_at mem m 1 c1 && c_at mem m 2 c2 && c_at mem m 3 c3
    && c_at mem m 4 c4 && c_at mem m 5 c5;
  ngx_str7_cmp mem m c0 c1 c2 c3 c4 c5 c6 c7 :=
    c_at mem m 0 c0 && c_at mem m 1 c1 && c_at mem m 2 c2 && c_at mem m 3 c3
    && c_at mem m 4 c4 && c_at mem m 5 c5 && c_at mem m 6 c6;
  ngx_str8cmp mem m c0 c1 c2 c3 c4 c5 c6 c7 :=
    c_at mem m 0 c0 && c_at mem m 1 c1 && c_at mem m 2 c2 && c_at mem m 3 c3
    && c_at mem m 4 c4 && c_at mem m 5 c5 && c_at mem m 6 c6 && c_at mem m 7 c7;
  ngx_str9cmp mem m c0 c1 c2 c3 c4 c5 c6 c7 c8 :=
    c_at mem m 0 c0 && c_at mem m 1 c1 && c_at mem m 2 c2 && c_at mem m 3 c3
    && c_at mem m 4 c4 && c_at mem m 5 c5 && c_at mem m 6 c6 && c_at mem m 7 c7
    && c_at mem m 8 c8
|}.

(** ** The machine *)

Inductive rl_state : Type :=
  | sw_start | sw_method | sw_spaces_before_uri | sw_schema | sw_schema_slash
  | sw_schema_slash_slash | sw_host | sw_port | sw_host_http_09
  | sw_after_slash_in_uri | sw_check_uri | sw_check_uri_http_09 | sw_uri
  | sw_http_09 | sw_http_H | sw_http_HT | sw_http_HTT | sw_http_HTTP
  | sw_first_major_digit | sw_major_digit | sw_first_minor_digit
  | sw_minor_digit | sw_spaces_after_digit | sw_almost_done
  | sw_none (z : Z).   (* a value of [r->state] that no case label matches *)

(** The enumeration is stored in [r->state] between calls. *)
Definition rl_states : list rl_state :=
  [sw_start; sw_method; sw_spaces_before_uri; sw_schema; sw_schema_slash;
   sw_schema_slash_slash; sw_host; sw_port; sw_host_http_09;
   sw_after_slash_in_uri; sw_check_uri; sw_check_uri_http_09; sw_uri;
   sw_http_09; sw_http_H; sw_http_HT; sw_http_HTT; sw_http_HTTP;
   sw_first_major_digit; sw_major_digit; sw_first_minor_digit;
   sw_minor_digit; sw_spaces_after_digit; sw_almost_done].

Definition rl_to_Z (s : rl_state) : Z :=
  match s with
  | sw_start => 0 | sw_method => 1 | sw_spaces_before_uri => 2 | sw_schema => 3
  | sw_schema_slash => 4 | sw_schema_slash_slash => 5 | sw_host => 6
  | sw_port => 7 | sw_host_http_09 => 8 | sw_after_slash_in_uri => 9
  | sw_check_uri => 10 | sw_check_uri_http_09 => 11 | sw_uri => 12
  | sw_http_09 => 13 | sw_http_H => 14 | sw_http_HT => 15 | sw_http_HTT => 16
  | sw_http_HTTP => 17 | sw_first_major_digit => 18 | sw_major_digit => 19
  | sw_first_minor_digit => 20 | sw_minor_digit => 21
  | sw_spaces_after_digit => 22 | sw_almost_done => 23
  | sw_none z => z
  end.

#[export] Instance rl_enum : StateEnum rl_state.
Proof.
  refine {| enum_list := rl_states; enum_none := sw_none; enum_to_Z := rl_to_Z |}.
  - done.
  - solve_enum_list.
Defined.

(** How the loop is left: [return rc] in the middle, or [goto done]. *)
Inductive rl_exit : Type :=
  | Return (rc : Z) (r : ngx_http_request_t)
  | Goto_done (r : ngx_http_request_t) (p : Z).

Definition rl_exit_map (f : ngx_http_request_t -> ngx_http_request_t) (x : rl_exit)
  : rl_exit :=
  match x with Return rc r => Return rc (f r) | Goto_done r p => Goto_done (f r) p end.

Abbreviation rl_action := (action (rl_state * ngx_http_request_t) rl_exit).

(** [break] out of the switch in state [s]. *)
Definition go (s : rl_state) (r : ngx_http_request_t) : rl_action := Next (s, r).
Definition invalid_request (r : ngx_http_request_t) : rl_action :=
  Stop (Return NGX_HTTP_PARSE_INVALID_REQUEST r).

Definition is_alpha_lc (ch : Z) : bool := ("a" <=? ch) && (ch <=? "z").
Definition is_method_char (ch : Z) : bool :=
  (("A" <=? ch) && (ch <=? "Z")) || (ch =? "_").

Section Step.
Context `{MethodCmp} (mem : bytes).

(** [switch (p - m)] of [case sw_method]: the method whose name is the [n] bytes
    at [m]; [None] when [r->method] is left alone. *)
Definition method_of (m n : Z) : option Z :=
  if n =? 3 then
    if ngx_str3_cmp mem m "G" "E" "T" " " then Some NGX_HTTP_GET
    else if ngx_str3_cmp mem m "P" "U" "T" " " then Some NGX_HTTP_PUT
    else None
  else if n =? 4 then
    if at_ mem (m + 1) =? "O" then
      if ngx_str3Ocmp mem m "P" "O" "S" "T" then Some NGX_HTTP_POST
      else if ngx_str3Ocmp mem m "C" "O" "P" "Y" then Some NGX_HTTP_COPY
      else if ngx_str3Ocmp mem m "M" "O" "V" "E" then Some NGX_HTTP_MOVE
      else if ngx_str3Ocmp mem m "L" "O" "C" "K" then Some NGX_HTTP_LOCK
      else None
    else if ngx_str4cmp mem m "H" "E" "A" "D" then Some NGX_HTTP_HEAD
    else None
  else if n =? 5 then
    if ngx_str5cmp mem m "T" "R" "A" "C" "E" then Some NGX_HTTP_TRACE
    else if ngx_str5cmp mem m "P" "A" "T" "C" "H" then Some NGX_HTTP_PATCH
    else if ngx_str5cmp mem m "M" "K" "C" "O" "L" then Some NGX_HTTP_MKCOL
    else None
  else if n =? 6 then
    if ngx_str6cmp mem m "D" "E" "L" "E" "T" "E" then Some NGX_HTTP_DELETE
    else if ngx_str6cmp mem m "U" "N" "L" "O" "C" "K" then Some NGX_HTTP_UNLOCK
    else None
  else if n =? 7 then
    if ngx_str7_cmp mem m "O" "P" "T" "I" "O" "N" "S" " "
    then Some NGX_HTTP_OPTIONS
    else None
  else if n =? 8 then
    if ngx_str8cmp mem m "P" "R" "O" "P" "F" "I" "N" "D"
    then Some NGX_HTTP_PROPFIND
    else None
  else if n =? 9 then
    if ngx_str9cmp mem m "P" "R" "O" "P" "P" "A" "T" "C" "H"
    then Some NGX_HTTP_PROPPATCH
    else None
  else None.

Definition case_start (r : ngx_http_request_t) (p ch : Z) : rl_action :=
  let r := r <| request_start := Some p |> in
  if (ch =? CR) || (ch =? LF) then go sw_start r
  else if negb (is_method_char ch) then
    Stop (Return NGX_HTTP_PARSE_INVALID_METHOD r)
  else go sw_method r.

Definition case_method (r : ngx_http_request_t) (p ch : Z) : rl_action :=
  if ch =? " " then
    let r := r <| method_end := Some (p - 1) |> in
    let m := default 0 (request_start r) in
    let r := match method_of m (p - m) with
             | Some v => r <| method := v |>
             | None => r
             end in
    go sw_spaces_before_uri r
  else if negb (is_method_char ch) then
    Stop (Return NGX_HTTP_PARSE_INVALID_METHOD r)
  else go sw_method r.

Definition case_spaces_before_uri (r : ngx_http_request_t) (p ch : Z) : rl_action :=
  if ch =? "/" then go sw_after_slash_in_uri (r <| uri_start := Some p |>)
  else
    let c := Z.lor ch 0x20 in
    if is_alpha_lc c then go sw_schema (r <| schema_start := Some p |>)
    else if ch =? " " then go sw_spaces_before_uri r
    else invalid_request r.

Definition case_schema (r : ngx_http_request_t) (p ch : Z) : rl_action :=
  let c := Z.lor ch 0x20 in
  if is_alpha_lc c then go sw_schema r
  else if ch =? ":" then go sw_schema_slash (r <| schema_end := Some p |>)
  else invalid_request r.

Definition case_schema_slash (r : ngx_http_request_t) (ch : Z) : rl_action :=
  if ch =? "/" then go sw_schema_slash_slash r else invalid_request r.

Definition case_schema_slash_slash (r : ngx_http_request_t) (p ch : Z) : rl_action :=
  if ch =? "/" then go sw_host (r <| host_start := Some (p + 1) |>)
  else invalid_request r.

(** The single "/" of the schema stands for the missing path. *)
Definition uri_from_schema (r : ngx_http_request_t) : ngx_http_request_t :=
  r <| uri_start := (fun e => e + 1) <$> schema_end r |>
    <| uri_end := (fun e => e + 2) <$> schema_end r |>.

Definition case_host (r : ngx_http_request_t) (p ch : Z) : rl_action :=
  let c := Z.lor ch 0x20 in
  if is_alpha_lc c then go sw_host r
  else if is_digit ch || (ch =? ".") || (ch =? "-") then go sw_host r
  else
    let r := r <| host_end := Some p |> in
    if ch =? ":" then go sw_port r
    else if ch =? "/" then go sw_after_slash_in_uri (r <| uri_start := Some p |>)
    else if ch =? " " then go sw_host_http_09 (uri_from_schema r)
    else invalid_request r.

Definition case_port (r : ngx_http_request_t) (p ch : Z) : rl_action :=
  if is_digit ch then go sw_port r
  else if ch =? "/" then
    go sw_after_slash_in_uri (r <| port_end := Some p |> <| uri_start := Some p |>)
  else if ch =? " " then
    go sw_host_http_09 (uri_from_schema (r <| port_end := Some p |>))
  else invalid_request r.

Definition case_host_http_09 (r : ngx_http_request_t) (p ch : Z) : rl_action :=
  if ch =? " " then go sw_host_http_09 r
  else if ch =? CR then go sw_almost_done (r <| http_minor := 9 |>)
  else if ch =? LF then Stop (Goto_done (r <| http_minor := 9 |>) p)
  else if ch =? "H" then go sw_http_H (r <| http_protocol_data := Some p |>)
  else invalid_request r.

Definition case_after_slash_in_uri (r : ngx_http_request_t) (p ch : Z) : rl_action :=
  if is_usual ch then go sw_check_uri r
  else if ch =? " " then go sw_check_uri_http_09 (r <| uri_end := Some p |>)
  else if ch =? CR then
    go sw_almost_done (r <| uri_end := Some p |> <| http_minor := 9 |>)
  else if ch =? LF then
    Stop (Goto_done (r <| uri_end := Some p |> <| http_minor := 9 |>) p)
  else if ch =? "." then go sw_uri (r <| complex_uri := true |>)
  else if ch =? "%" then go sw_uri (r <| quoted_uri := true |>)
  else if ch =? "/" then go sw_uri (r <| complex_uri := true |>)
  else if ch =? "?" then go sw_uri (r <| args_start := Some (p + 1) |>)
  else if ch =? "#" then go sw_uri (r <| complex_uri := true |>)
  else if ch =? "+" then go sw_after_slash_in_uri (r <| plus_in_uri := true |>)
  else if ch =? 0 then invalid_request r
  else go sw_check_uri r.

Definition case_check_uri (r : ngx_http_request_t) (p ch : Z) : rl_action :=
  if is_usual ch then go sw_check_uri r
  else if ch =? "/" then go sw_after_slash_in_uri (r <| uri_ext := None |>)
  else if ch =? "." then go sw_check_uri (r <| uri_ext := Some (p + 1) |>)
  else if ch =? " " then go sw_check_uri_http_09 (r <| uri_end := Some p |>)
  else if ch =? CR then
    go sw_almost_done (r <| uri_end := Some p |> <| http_minor := 9 |>)
  else if ch =? LF then
    Stop (Goto_done (r <| uri_end := Some p |> <| http_minor := 9 |>) p)
  else if ch =? "%" then go sw_uri (r <| quoted_uri := true |>)
  else if ch =? "?" then go sw_uri (r <| args_start := Some (p + 1) |>)
  else if ch =? "#" then go sw_uri (r <| complex_uri := true |>)
  else if ch =? "+" then go sw_check_uri (r <| plus_in_uri := true |>)
  else if ch =? 0 then invalid_request r
  else go sw_check_uri r.

Definition case_check_uri_http_09 (r : ngx_http_request_t) (p ch : Z) : rl_action :=
  if ch =? " " then go sw_check_uri_http_09 r
  else if ch =? CR then go sw_almost_done (r <| http_minor := 9 |>)
  else if ch =? LF then Stop (Goto_done (r <| http_minor := 9 |>) p)
  else if ch =? "H" then go sw_http_H (r <| http_protocol_data := Some p |>)
  else go sw_check_uri (r <| space_in_uri := true |>).

Definition case_uri (r : ngx_http_request_t) (p ch : Z) : rl_action :=
  if is_usual ch then go sw_uri r
  else if ch =? " " then go sw_http_09 (r <| uri_end := Some p |>)
  else if ch =? CR then
    go sw_almost_done (r <| uri_end := Some p |> <| http_minor := 9 |>)
  else if ch =? LF then
    Stop (Goto_done (r <| uri_end := Some p |> <| http_minor := 9 |>) p)
  else if ch =? "#" then go sw_uri (r <| complex_uri := true |>)
  else if ch =? 0 then invalid_request r
  else go sw_uri r.

Definition case_http_09 (r : ngx_http_request_t) (p ch : Z) : rl_action :=
  if ch =? " " then go sw_http_09 r
  else if ch =? CR then go sw_almost_done (r <| http_minor := 9 |>)
  else if ch =? LF then Stop (Goto_done (r <| http_minor := 9 |>) p)
  else if ch =? "H" then go sw_http_H (r <| http_protocol_data := Some p |>)
  else go sw_uri (r <| space_in_uri := true |>).

(** The four states after "H", each waiting for one character. *)
Definition case_expect (c : Z) (next : rl_state) (r : ngx_http_request_t) (ch : Z)
  : rl_action :=
  if ch =? c then go next r else invalid_request r.

Definition case_first_major_digit (r : ngx_http_request_t) (ch : Z) : rl_action :=
  if (ch <? "1") || (ch >? "9") then invalid_request r
  else go sw_major_digit (r <| http_major := u16 (ch - "0") |>).

Definition case_major_digit (r : ngx_http_request_t) (ch : Z) : rl_action :=
  if ch =? "." then go sw_first_minor_digit r
  else if negb (is_digit ch) then invalid_request r
  else go sw_major_digit (r <| http_major := u16 (http_major r * 10 + ch - "0") |>).

Definition case_first_minor_digit (r : ngx_http_request_t) (ch : Z) : rl_action :=
  if negb (is_digit ch) then invalid_request r
  else go sw_minor_digit (r <| http_minor := u16 (ch - "0") |>).

Definition case_minor_digit (r : ngx_http_request_t) (p ch : Z) : rl_action :=
  if ch =? CR then go sw_almost_done r
  else if ch =? LF then Stop (Goto_done r p)
  else if ch =? " " then go sw_spaces_after_digit r
  else if negb (is_digit ch) then invalid_request r
  else go sw_minor_digit (r <| http_minor := u16 (http_minor r * 10 + ch - "0") |>).

Definition case_spaces_after_digit (r : ngx_http_request_t) (p ch : Z) : rl_action :=
  if ch =? " " then go sw_spaces_after_digit r
  else if ch =? CR then go sw_almost_done r
  else if ch =? LF then Stop (Goto_done r p)
  else invalid_request r.

Definition case_almost_done (r : ngx_http_request_t) (p ch : Z) : rl_action :=
  let r := r <| request_end := Some (p - 1) |> in
  if ch =? LF then Stop (Goto_done r p) else invalid_request r.

(** One turn of the loop. *)
Definition rl_step (sr : rl_state * ngx_http_request_t) (p ch : Z) : rl_action :=
  let '(s, r) := sr in
  match s with
  | sw_start => case_start r p ch
  | sw_method => case_method r p ch
  | sw_spaces_before_uri => case_spaces_before_uri r p ch
  | sw_schema => case_schema r p ch
  | sw_schema_slash => case_schema_slash r ch
  | sw_schema_slash_slash => case_schema_slash_slash r p ch
  | sw_host => case_host r p ch
  | sw_port => case_port r p ch
  | sw_host_http_09 => case_host_http_09 r p ch
  | sw_after_slash_in_uri => case_after_slash_in_uri r p ch
  | sw_check_uri => case_check_uri r p ch
  | sw_check_uri_http_09 => case_check_uri_http_09 r p ch
  | sw_uri => case_uri r p ch
  | sw_http_09 => case_http_09 r p ch
  | sw_http_H => case_expect "T" sw_http_HT r ch
  | sw_http_HT => case_expect "T" sw_http_HTT r ch
  | sw_http_HTT => case_expect "P" sw_http_HTTP r ch
  | sw_http_HTTP => case_expect "/" sw_first_major_digit r ch
  | sw_first_major_digit => case_first_major_digit r ch
  | sw_major_digit => case_major_digit r ch
  | sw_first_minor_digit => case_first_minor_digit r ch
  | sw_minor_digit => case_minor_digit r p ch
  | sw_spaces_after_digit => case_spaces_after_digit r p ch
  | sw_almost_done => case_almost_done r p ch
  | sw_none z => go (sw_none z) r
  end.

(** The code at [done:]. *)
Definition rl_done (r : ngx_http_request_t) (p : Z) : Z * ngx_http_request_t :=
  let r := match request_end r with
           | None => r <| request_end := Some p |>
           | Some _ => r
           end in
  let r := r <| http_version := http_major r * 1000 + http_minor r |>
             <| state := enum_to_Z sw_start |> in
  if (http_version r =? 9) && negb (method r =? NGX_HTTP_GET)
  then (NGX_HTTP_PARSE_INVALID_09_METHOD, r)
  else (NGX_OK, r).

Definition ngx_http_parse_request_line (r : ngx_http_request_t) (b : ngx_buf_t)
  : Z * ngx_http_request_t * ngx_buf_t :=
  match scan rl_step (enum_of_Z (state r), r) (pos b) (slice mem (pos b) (last b)) with
  | inl ((s, r), p) => (NGX_AGAIN, r <| state := enum_to_Z s |>, b <| pos := p |>)
  | inr (Return rc r) => (rc, r, b)
  | inr (Goto_done r p) =>
      let '(rc, r) := rl_done r p in (rc, r, b <| pos := p + 1 |>)
  end.
End Step.


(** ** Resuming after NGX_AGAIN *)

Ltac unfold_rl :=
  unfold case_start, case_method, case_spaces_before_uri, case_schema,
    case_schema_slash, case_schema_slash_slash, case_host, case_port,
    case_host_http_09, case_after_slash_in_uri, case_check_uri,
    case_check_uri_http_09, case_uri, case_http_09, case_expect,
    case_first_major_digit, case_major_digit, case_first_minor_digit,
    case_minor_digit, case_spaces_after_digit, case_almost_done,
    invalid_request, go.

Section Resume.
Context `{MethodCmp} (mem : bytes).

Lemma rl_step_storable s r p ch s' r' :
  storable s -> rl_step mem (s, r) p ch = Next (s', r') -> storable s'.
Proof.
  intros Hs. destruct s; simpl; unfold_rl;
    repeat case_match; intros [= <- <-]; first [reflexivity | assumption].
Qed.

Lemma rl_scan_storable s r p l s' r' p' :
  storable s -> scan (rl_step mem) (s, r) p l = inl ((s', r'), p') -> storable s'.
Proof.
  intros Hs E.
  pose proof (scan_inv (rl_step mem) (fun sr _ => storable sr.1) (fun _ => True)
    (s, r) p l) as HI.
  rewrite E in HI. apply HI; [|done|done].
  intros [s0 r0] q ch [s1 r1] H0 _ _ E1. eapply rl_step_storable; eauto.
Qed.

Lemma rl_step_return s r p ch rc r' :
  rl_step mem (s, r) p ch = Stop (Return rc r') ->
  rc = NGX_HTTP_PARSE_INVALID_METHOD \/ rc = NGX_HTTP_PARSE_INVALID_REQUEST.
Proof.
  destruct s; simpl; unfold_rl;
    repeat case_match; intros [= <- <-]; auto.
Qed.

Lemma rl_scan_return s r p l rc r' :
  scan (rl_step mem) (s, r) p l = inr (Return rc r') ->
  rc = NGX_HTTP_PARSE_INVALID_METHOD \/ rc = NGX_HTTP_PARSE_INVALID_REQUEST.
Proof.
  intros E.
  pose proof (scan_inv (rl_step mem) (fun _ _ => True)
    (fun x => match x with
              | Return rc _ => rc = NGX_HTTP_PARSE_INVALID_METHOD \/
                               rc = NGX_HTTP_PARSE_INVALID_REQUEST
              | Goto_done _ _ => True
              end) (s, r) p l) as HI.
  rewrite E in HI. apply HI; [done| |done].
  intros [s0 r0] q ch [rc1 r1|r1 p1] _ _ _ E1; [|done].
  eapply rl_step_return; eauto.
Qed.

(** The loop neither reads nor writes [r->state]. *)
Lemma rl_step_state z s r p ch :
  rl_step mem (s, r <| state := z |>) p ch =
  action_map (fun sr => (sr.1, sr.2 <| state := z |>)) (rl_exit_map (fun r => r <| state := z |>))
    (rl_step mem (s, r) p ch).
Proof.
  destruct s; simpl; unfold_rl; cbn; unfold uri_from_schema; cbn;
    repeat case_match; simplify_eq; reflexivity.
Qed.
End Resume.

Lemma rl_done_rc r p : (rl_done r p).1 = NGX_OK \/
                       (rl_done r p).1 = NGX_HTTP_PARSE_INVALID_09_METHOD.
Proof. unfold rl_done. case_match; auto. Qed.

Lemma rl_done_request r p :
  (rl_done r p).2 =
  r <| request_end := Some (default p (request_end r)) |>
    <| http_version := http_major r * 1000 + http_minor r |> <| state := 0 |>.
Proof.
  destruct r as [????????????????????????? re ?????????].
  unfold rl_done; cbn. destruct re; cbn; case_match; done.
Qed.

Lemma rl_done_state z r p : rl_done (r <| state := z |>) p = rl_done r p.
Proof.
  destruct r as [????????????????????????? re ?????????].
  unfold rl_done; cbn. destruct re; cbn; case_match; done.
Qed.

(** C23: parsing a request line that arrives in pieces.  Cut the input of a call at
    any point [k].  If the call on the first part asks for more (NGX_AGAIN), calling
    again with what it left in [r] and [b], once the rest is in the buffer, returns
    the code of one call on the whole input, and leaves the same request and the same
    position in the buffer; only after a syntax error, which does not write [b->pos]
    and [r->state], may these two fields differ.  If the first part already decides (a complete line or an
    error), the rest of the input is not looked at. *)
Theorem request_line_resume `{MethodCmp} (mem : bytes) (r : ngx_http_request_t)
    (b : ngx_buf_t) (k : Z) :
  0 <= pos b <= k -> k <= last b -> last b <= zlen mem ->
  let '(rc, r1, b1) := ngx_http_parse_request_line mem r (b <| last := k |>) in
  if rc =? NGX_AGAIN then
    let '(rc2, r2, b2) := ngx_http_parse_request_line mem r1 (b1 <| last := last b |>) in
    let '(rc3, r3, b3) := ngx_http_parse_request_line mem r b in
    rc2 = rc3 /\ r2 <| state := 0 |> = r3 <| state := 0 |> /\
    (rc3 ∈ [NGX_OK; NGX_AGAIN; NGX_HTTP_PARSE_INVALID_09_METHOD] -> r2 = r3 /\ b2 = b3)
  else ngx_http_parse_request_line mem r b = (rc, r1, b1 <| last := last b |>).
Proof.
  intros Hk Hl Hm. destruct b as [p0 n]. unfold ngx_http_parse_request_line.
  cbn [pos last update_field] in *.
  rewrite (slice_split mem p0 k n), scan_app by lia.
  destruct (scan _ _ _ (slice mem p0 k)) as [[[s r1] p]|[rc r1|r1 p]] eqn:E.
  - pose proof (rl_scan_storable mem _ _ _ _ _ _ _ (storable_of_Z _) E) as Hs.
    apply scan_inl_pos in E as ->. rewrite zlen_slice by lia.
    replace (p0 + (k - p0)) with k by lia.
    cbn [pos last state Z.eqb NGX_AGAIN]. 
    rewrite Hs.
    assert (Hmap := scan_map (rl_step mem)
      (fun sr => (sr.1, sr.2 <| state := enum_to_Z s |>))
      (rl_exit_map (fun r => r <| state := enum_to_Z s |>)) (s, r1) k (slice mem k n)).
    cbn [fst snd update_field] in Hmap. rewrite Hmap by (intros [??] ??; apply rl_step_state). clear Hmap.
    destruct (scan _ _ _ (slice mem k n)) as [[[s2 r2] p2]|[rc2 r2|r2 p2]] eqn:E2;
      cbn [rl_exit_map].
    + split_and!; done.
    + apply rl_scan_return in E2. split_and!; [reflexivity..|]. intros Hin. exfalso.
      destruct E2 as [-> | ->]; revert Hin; by apply (bool_decide_eq_false_1 (_ ∈ _)).
    + pose proof (rl_done_state (enum_to_Z s) r2 p2) as Hd. cbn [update_field] in Hd.
      rewrite Hd. destruct (rl_done r2 p2). split_and!; done.
  - apply rl_scan_return in E as [-> | ->]; done.
  - destruct (rl_done r1 p) as [rc r2] eqn:Ed. pose proof (rl_done_rc r1 p) as Hrc.
    rewrite Ed in Hrc. destruct Hrc as [Hrc|Hrc]; cbn in Hrc; rewrite Hrc; done.
Qed.

Definition sample_line : bytes := bs "GET /a?b HTTP/1.0" ++ [CR; LF].

Lemma request_line_resume_witness :
  let parse := @ngx_http_parse_request_line cmp_words sample_line in
  (parse new_request (mk_buf 0 6)).1.1 = NGX_AGAIN /\
  (parse new_request (mk_buf 0 19)).1.1 = NGX_OK /\
  let '(rc, r1, b1) := parse new_request (mk_buf 0 6) in
  if rc =? NGX_AGAIN then
    let '(rc2, r2, b2) := parse r1 (b1 <| last := 19 |>) in
    let '(rc3, r3, b3) := parse new_request (mk_buf 0 19) in
    rc2 = rc3 /\ r2 <| state := 0 |> = r3 <| state := 0 |> /\
    (rc3 ∈ [NGX_OK; NGX_AGAIN; NGX_HTTP_PARSE_INVALID_09_METHOD] -> r2 = r3 /\ b2 = b3)
  else parse new_request (mk_buf 0 19) = (rc, r1, b1 <| last := 19 |>).
Proof.
  split; [vm_compute; reflexivity|]. split; [vm_compute; reflexivity|].
  apply (@request_line_resume cmp_words sample_line new_request (mk_buf 0 19) 6);
    by_decide.
Defined.

(** The version fields have 16 bits and the digits are not counted: this version is
    taken for 1.1. *)
Example request_line_version_wraps :
  let mem := bs "GET / HTTP/65537.65537" ++ [CR; LF] in
  let '(rc, r, _) := @ngx_http_parse_request_line cmp_words mem new_request (mk_buf 0 24) in
  rc = NGX_OK /\ http_version r = 1001.
Proof. vm_compute. done. Qed.
