(* ===== verification/RequestLineFacts.v ===== *)
(** What an accepted request line is: where [ngx_http_parse_request_line] leaves its
    pointers. *)
From S2P Require Import Prelude HttpRequest RequestLine.

(** ** Where the pointers of an accepted request line point *)

Definition started (s : rl_state) : bool :=
  match s with sw_start | sw_none _ => false | _ => true end.

Definition named (s : rl_state) : bool :=
  match s with sw_start | sw_method | sw_none _ => false | _ => true end.

Definition uri_phase (s : rl_state) : bool :=
  match s with
  | sw_start | sw_method | sw_spaces_before_uri | sw_schema | sw_schema_slash
  | sw_schema_slash_slash | sw_host | sw_port | sw_none _ => false
  | _ => true
  end.

Definition uri_end_phase (s : rl_state) : bool :=
  match s with
  | sw_after_slash_in_uri | sw_check_uri | sw_uri => false
  | _ => uri_phase s
  end.

(** The slash after the schema has been read. *)
Definition schema_phase (s : rl_state) : bool :=
  match s with
  | sw_schema_slash_slash | sw_host | sw_port => true
  | _ => false
  end.

(** What the loop maintains about a line whose parsing began at [a]. *)
Record rl_inv (mem : bytes) (a : Z) (s : rl_state) (r : ngx_http_request_t) (p : Z)
  : Prop := {
  inv_pos : 0 <= a <= p;
  inv_known : match s with sw_none _ => False | _ => True end;
  inv_open : request_end r = None;
  inv_started : if started s then a <= ptr (request_start r) < p else True;
  inv_named : if named s
    then ptr (request_start r) <= ptr (method_end r) /\ ptr (method_end r) + 2 <= p
    else True;
  inv_colon : match s with
    | sw_schema_slash => ptr (method_end r) + 2 <= ptr (schema_end r) /\
                         ptr (schema_end r) + 1 = p
    | _ => True
    end;
  inv_schema : if schema_phase s
    then ptr (method_end r) + 2 <= ptr (schema_end r) /\ ptr (schema_end r) + 2 <= p /\
         at_ mem (ptr (schema_end r) + 1) = "/"
    else True;
  inv_uri : if uri_phase s
    then ptr (method_end r) + 2 <= ptr (uri_start r) < p /\
         at_ mem (ptr (uri_start r)) = "/"
    else True;
  inv_uri_end : if uri_end_phase s
    then ptr (uri_start r) < ptr (uri_end r) < p
    else True;
  inv_args : match args_start r with
    | None => True
    | Some v => uri_phase s = true /\ ptr (uri_start r) < v - 1 /\
                v <= (if uri_end_phase s then ptr (uri_end r) else p)
    end
}.

(** What an accepted line looks like when the loop is left at [p]. *)
Record rl_final (mem : bytes) (a : Z) (r : ngx_http_request_t) (p : Z) : Prop := {
  fin_lf : at_ mem p = LF;
  fin_end : match request_end r with
    | None => True
    | Some e => e = p - 1 /\ ptr (uri_end r) <= e
    end;
  fin_start : 0 <= a <= ptr (request_start r);
  fin_method : ptr (request_start r) <= ptr (method_end r);
  fin_uri : ptr (method_end r) + 2 <= ptr (uri_start r);
  fin_slash : at_ mem (ptr (uri_start r)) = "/";
  fin_uri_end : ptr (uri_start r) < ptr (uri_end r) <= p;
  fin_args : match args_start r with
    | None => True
    | Some v => ptr (uri_start r) < v - 1 /\ v <= ptr (uri_end r)
    end
}.

Section Bounds.
Context `{MethodCmp} (mem : bytes) (a : Z).

(** After the case analysis of one turn: compute the fields, then arithmetic. *)
Ltac inv_arith Hinv :=
  destruct Hinv as [Hp Hk Ho Hs Hn Hc Hsc Hu Hue Ha]; constructor;
  cbn in *;
  repeat match goal with
    | H : context [schema_end ?r] |- context [schema_end ?r] => destruct (schema_end r)
    | H : context [args_start ?r] |- context [args_start ?r] => destruct (args_start r)
    end; cbn in *; first [done | lia].

Lemma rl_inv_step s r p ch s' r' :
  rl_inv mem a s r p -> rd mem p = Some ch ->
  rl_step mem (s, r) p ch = Next (s', r') -> rl_inv mem a s' r' (p + 1).
Proof.
  intros Hinv Hch%at_rd.
  destruct s; simpl; unfold_rl; unfold uri_from_schema, update_field;
    repeat case_match; intros [= <- <-].
  all: try inv_arith Hinv.
  (* the slash after the colon *)
  destruct Hinv as [Hp Hk Ho Hs Hn Hc Hsc Hu Hue Ha]; constructor; cbn in *;
    try first [done | lia]; [|destruct (args_start r); first [done | lia]].
  split_and!; [lia..|]. replace (ptr (schema_end r) + 1) with p by lia. lia.
Qed.

Lemma rl_inv_stop s r p ch r' p' :
  rl_inv mem a s r p -> rd mem p = Some ch ->
  rl_step mem (s, r) p ch = Stop (Goto_done r' p') ->
  rl_final mem a r' p /\ p' = p.
Proof.
  intros Hinv Hch%at_rd.
  destruct s; simpl; unfold_rl; unfold uri_from_schema, update_field;
    repeat case_match; intros [= <- <-]; (split; [|reflexivity]).
  all: destruct Hinv as [Hp Hk Ho Hs Hn Hc Hsc Hu Hue Ha]; constructor; cbn in *.
  all: rewrite ?Ho; unfold LF in *.
  all: try (destruct (args_start r); cbn in *); first [done | lia].
Qed.

Lemma rl_scan_final s r p n :
  0 <= p <= n -> n <= zlen mem -> rl_inv mem a s r p ->
  match scan (rl_step mem) (s, r) p (slice mem p n) with
  | inl _ => True
  | inr (Return rc _) => rc <> NGX_OK
  | inr (Goto_done r' p') => rl_final mem a r' p' /\ p <= p' < n
  end.
Proof.
  intros Hp Hn Hinv.
  pose proof (scan_inv (rl_step mem) (fun sr p => rl_inv mem a sr.1 sr.2 p)
    (fun x => match x with
              | Return rc _ => rc <> NGX_OK
              | Goto_done r' p' => rl_final mem a r' p' /\ p <= p' < n
              end) (s, r) p (slice mem p n)) as HI.
  rewrite zlen_slice in HI by lia.
  destruct (scan _ _ _ _) as [|x]; [done|]. apply HI; clear HI; [| |done].
  - intros [s0 r0] q ch [s' r'] H0 Hq Hrd. apply rl_inv_step; [done|].
    eapply rd_slice; [..|exact Hrd]; lia.
  - intros [s0 r0] q ch [rc r'|r' p'] H0 Hq Hrd E.
    + apply rl_step_return in E as [-> | ->]; done.
    + apply rl_inv_stop in E as [? ->]; [split; [done|lia]|done|].
      eapply rd_slice; [..|exact Hrd]; lia.
Qed.
End Bounds.

(** The pointers of an accepted line, in their order. *)
Definition line_pointers (mem : bytes) (b : ngx_buf_t) (r' : ngx_http_request_t)
    (b' : ngx_buf_t) : Prop :=
  exists rs me us ue re,
    request_start r' = Some rs /\ method_end r' = Some me /\
    uri_start r' = Some us /\ uri_end r' = Some ue /\ request_end r' = Some re /\
    pos b <= rs <= me /\ me + 2 <= us < ue /\ ue <= re < pos b' /\
    pos b' <= last b /\ last b' = last b /\
    at_ mem us = "/" /\ at_ mem (pos b' - 1) = LF /\
    (forall v, args_start r' = Some v -> us < v - 1 /\ v <= ue).

(** The pointers an accepted request line leaves in the request.  When a call on
    a fresh request returns NGX_OK, every length the caller computes by subtracting
    two of them is that of a piece of the line: the line lies inside the buffer, the
    method is its beginning, the URI begins with "/" after the method, is not empty
    and ends before the line does, the arguments lie inside the URI, and parsing goes
    on after the line feed. *)
Theorem request_line_pointers `{MethodCmp} (mem : bytes) (r : ngx_http_request_t)
    (b : ngx_buf_t) :
  0 <= pos b <= last b -> last b <= zlen mem ->
  state r = 0 -> request_end r = None -> args_start r = None ->
  let '(rc, r', b') := ngx_http_parse_request_line mem r b in
  rc = NGX_OK ->
  line_pointers mem b r' b'.
Proof.
  intros Hb Hm Hst Hre Has. unfold ngx_http_parse_request_line. rewrite Hst.
  change (enum_of_Z 0) with sw_start.
  pose proof (rl_scan_final mem (pos b) sw_start r (pos b) (last b)) as HF.
  destruct (scan _ _ _ _) as [[[s r1] p]|[rc r1|r1 p]]; [done| |].
  - intros ->. exfalso. apply HF; [lia..| |done].
    constructor; cbn; rewrite ?Has; first [done | lia].
  - destruct HF as [[Hlf He Hs Hme Hu Hsl Hue Ha] Hp]; [lia..| |].
    { constructor; cbn; rewrite ?Has; first [done | lia]. }
    pose proof (rl_done_request r1 p) as Hd. destruct (rl_done r1 p) as [rc r'].
    cbn in Hd. subst r'. intros _.
    exists (ptr (request_start r1)), (ptr (method_end r1)), (ptr (uri_start r1)),
      (ptr (uri_end r1)), (default p (request_end r1)).
    cbn. rewrite <- !ptr_Some by lia.
    replace (p + 1 - 1) with p by lia.
    split_and!; try first [done | lia | destruct (request_end r1); cbn; lia].
    intros v Hv. rewrite Hv in Ha. done.
Qed.

Lemma request_line_pointers_witness :
  let '(rc, r', b') :=
    @ngx_http_parse_request_line cmp_bytes sample_line new_request (mk_buf 0 19) in
  rc = NGX_OK /\
  exists us ue, uri_start r' = Some us /\ uri_end r' = Some ue /\ us < ue /\ pos b' <= 19.
Proof.
  pose proof (@request_line_pointers cmp_bytes sample_line
    new_request (mk_buf 0 19) ltac:(by_decide) ltac:(by_decide) eq_refl eq_refl eq_refl) as H.
  assert ((@ngx_http_parse_request_line cmp_bytes sample_line new_request
             (mk_buf 0 19)).1.1 = NGX_OK) as Hrc by (vm_compute; reflexivity).
  destruct (ngx_http_parse_request_line _ _ _) as [[rc r'] b'].
  split; [exact Hrc|].
  destruct (H Hrc) as (rs & me & us & ue & re & _ & _ & Hus & Hue & _ & _ & [_ ?] & _ & ? & _).
  exists us, ue. auto.
Defined.
