(* ===== verification/RequestLineText.v ===== *)
(** The text of a request line: the names of the methods, in both builds of the
    comparison macros, and the line printed from a method, a URI and a version is
    read back. *)
From S2P Require Import Prelude HttpRequest RequestLine.

(** ** Method names *)

(** The methods nginx knows, by name. *)
Definition method_table : list (bytes * Z) :=
  [(bs "GET", NGX_HTTP_GET); (bs "PUT", NGX_HTTP_PUT); (bs "POST", NGX_HTTP_POST);
   (bs "COPY", NGX_HTTP_COPY); (bs "MOVE", NGX_HTTP_MOVE); (bs "LOCK", NGX_HTTP_LOCK);
   (bs "HEAD", NGX_HTTP_HEAD); (bs "MKCOL", NGX_HTTP_MKCOL);
   (bs "PATCH", NGX_HTTP_PATCH); (bs "TRACE", NGX_HTTP_TRACE);
   (bs "DELETE", NGX_HTTP_DELETE); (bs "UNLOCK", NGX_HTTP_UNLOCK);
   (bs "OPTIONS", NGX_HTTP_OPTIONS); (bs "PROPFIND", NGX_HTTP_PROPFIND);
   (bs "PROPPATCH", NGX_HTTP_PROPPATCH)].

Fixpoint method_lookup (t : list (bytes * Z)) (name : bytes) : option Z :=
  match t with
  | [] => None
  | (k, v) :: t => if bytes_eqb name k then Some v else method_lookup t name
  end.

Definition method_named (name : bytes) : option Z := method_lookup method_table name.
#[global] Arguments method_named name : simpl never.

Lemma word4_sum c0 c1 c2 c3 :
  is_u_char c0 -> is_u_char c1 -> is_u_char c2 -> is_u_char c3 ->
  word4 c0 c1 c2 c3 = c3 * 2 ^ 24 + (c2 * 2 ^ 16 + (c1 * 2 ^ 8 + c0)).
Proof.
  unfold is_u_char, word4. intros.
  rewrite (lor_shiftl_add c1 c0 8), (lor_shiftl_add c2), (lor_shiftl_add c3) by lia.
  done.
Qed.

(** One 32-bit comparison is four byte comparisons. *)
Lemma word4_eqb x0 x1 x2 x3 c0 c1 c2 c3 :
  is_u_char x0 -> is_u_char x1 -> is_u_char x2 -> is_u_char x3 ->
  is_u_char c0 -> is_u_char c1 -> is_u_char c2 -> is_u_char c3 ->
  (word4 x0 x1 x2 x3 =? word4 c0 c1 c2 c3) =
  (x0 =? c0) && (x1 =? c1) && (x2 =? c2) && (x3 =? c3).
Proof. intros. rewrite !word4_sum by done. unfold is_u_char in *. lia. Qed.

Lemma ld32_low x0 x1 x2 x3 c4 c5 :
  is_u_char x0 -> is_u_char x1 -> is_u_char x2 -> is_u_char x3 ->
  is_u_char c4 -> is_u_char c5 ->
  (Z.land (word4 x0 x1 x2 x3) 0xffff =? Z.lor (Z.shiftl c5 8) c4) =
  (x0 =? c4) && (x1 =? c5).
Proof.
  unfold is_u_char. intros. rewrite word4_sum by done.
  change 0xffff with (Z.ones 16). rewrite Z.land_ones, lor_shiftl_add by lia.
  replace (x3 * 2 ^ 24 + (x2 * 2 ^ 16 + (x1 * 2 ^ 8 + x0)))
    with ((x1 * 2 ^ 8 + x0) + (x3 * 2 ^ 8 + x2) * 2 ^ 16) by lia.
  rewrite Z.mod_add, Z.mod_small by lia. lia.
Qed.

Lemma method_named_length name :
  (length name < 3 \/ 9 < length name)%nat -> method_named name = None.
Proof.
  intros H. unfold method_named, method_table, method_lookup.
  rewrite !bytes_eqb_length; [done|..]; vm_compute (length (bs _)); lia.
Qed.

(** Turn one length of name into comparisons of its bytes, and compare the two
    decision trees. *)
Ltac method_length Hm :=
  repeat (rewrite slice_cons by lia); rewrite slice_nil by lia;
  unfold method_of, method_named; cbn [Z.eqb Pos.eqb];
  let t := eval vm_compute in method_table in change method_table with t;
  cbn [ngx_str3_cmp ngx_str3Ocmp ngx_str4cmp ngx_str5cmp ngx_str6cmp ngx_str7_cmp
       ngx_str8cmp ngx_str9cmp cmp_words cmp_bytes method_lookup bytes_eqb];
  change (ld32 ?mem ?m) with (word4 (at_ mem m) (at_ mem (m + 1)) (at_ mem (m + 2))
    (at_ mem (m + 3)));
  rewrite <- ?Z.add_assoc; rewrite ?Z.add_0_r;
  repeat match goal with
    | |- context [Z.add (Zpos ?a) (Zpos ?b)] =>
        let c := eval vm_compute in (Z.add (Zpos a) (Zpos b)) in
        change (Z.add (Zpos a) (Zpos b)) with c
    end;
  repeat match goal with
    | |- context [at_ ?mem ?i] =>
        let x := fresh "x" in
        let Hx := fresh "Hx" in
        pose proof (at_u_char mem i Hm) as Hx;
        set (x := at_ mem i) in *; clearbody x
    end;
  rewrite ?word4_eqb, ?ld32_low by first [assumption | split; lia];
  rewrite ?andb_false_r, ?andb_true_r; cbv iota;
  split; repeat case_match; try reflexivity;
  repeat match goal with
    | H : (_ && _) = true |- _ => apply andb_true_iff in H as [? ?]
    | H : (_ =? _) = true |- _ => apply Z.eqb_eq in H
    end; subst; discriminate.

(** A method is recognised exactly when it is one of the names of the table, on
    both builds of the comparison macros (the one that reads 32-bit words and the one
    that reads bytes).  [m] points at the name, of length [n], which is followed by a
    space; for any other name [r->method] keeps its value. *)
Theorem method_of_named (mem : bytes) (m n : Z) :
  Forall is_u_char mem -> 0 <= m -> 0 <= n -> m + n < zlen mem ->
  at_ mem (m + n) = " " ->
  @method_of cmp_words mem m n = method_named (slice mem m (m + n)) /\
  @method_of cmp_bytes mem m n = method_named (slice mem m (m + n)).
Proof.
  intros Hmem Hm Hn Hlen Hsp.
  destruct (decide (3 <= n <= 9)) as [Hr|Hr].
  2: { rewrite method_named_length.
       - unfold method_of. by rewrite !(proj2 (Z.eqb_neq _ _)) by lia.
       - pose proof (zlen_slice mem m (m + n)). unfold zlen in *. lia. }
  assert (n = 3 \/ n = 4 \/ n = 5 \/ n = 6 \/ n = 7 \/ n = 8 \/ n = 9) as Hcases by lia.
  repeat destruct Hcases as [->|Hcases]; [..|subst n]; clear Hr.
  all: method_length Hmem.
Qed.

(** ** Reading a line back *)

(** A path of plain segments, each begun by "/", none empty but perhaps the last. *)
Definition plain (s : bytes) : Prop := Forall (fun c => is_usual c = true) s.

Fixpoint path_body (segs : list bytes) (final : bytes) : bytes :=
  match segs with
  | [] => final
  | s :: segs => s ++ "/" :: path_body segs final
  end.

Definition args_char (c : Z) : Prop := c ∉ [0; LF; CR; " "; "#"].

Definition args_text (args : option bytes) : bytes :=
  match args with None => [] | Some a => "?" :: a end.

Record request_line := mk_request_line {
  rl_name : bytes;             (* the method *)
  rl_segs : list bytes;        (* the path *)
  rl_final : bytes;
  rl_args : option bytes;
  rl_major : bytes;            (* the digits of the version *)
  rl_minor : bytes
}.

Definition rl_path (t : request_line) : bytes := "/" :: path_body (rl_segs t) (rl_final t).
Definition rl_uri (t : request_line) : bytes := rl_path t ++ args_text (rl_args t).

Definition request_line_text (t : request_line) : bytes :=
  rl_name t ++ " " :: rl_uri t ++ " " :: bs "HTTP/" ++ rl_major t ++
  "." :: rl_minor t ++ [CR; LF].

Record request_line_ok (t : request_line) : Prop := {
  ok_name : rl_name t <> [];
  ok_name_chars : Forall (fun c => is_method_char c = true) (rl_name t);
  ok_segs : Forall (fun s => s <> [] /\ plain s) (rl_segs t);
  ok_final : plain (rl_final t);
  ok_args : match rl_args t with None => True | Some a => Forall args_char a end;
  ok_major : match rl_major t with [] => False | d :: _ => d <> "0" end;
  ok_major_digits : Forall (fun c => is_digit c = true) (rl_major t);
  ok_minor : rl_minor t <> [];
  ok_minor_digits : Forall (fun c => is_digit c = true) (rl_minor t);
  ok_major_16 : digits_val 0 (rl_major t) < 2 ^ 16;
  ok_minor_16 : digits_val 0 (rl_minor t) < 2 ^ 16
}.

(** What the parser leaves in a fresh request [r] after reading [t] at offset [p]. *)
Definition request_line_result (t : request_line) (r : ngx_http_request_t) (p : Z)
  : ngx_http_request_t :=
  let us := p + zlen (rl_name t) + 1 in
  let ue := us + zlen (rl_uri t) in
  let major := digits_val 0 (rl_major t) in
  let minor := digits_val 0 (rl_minor t) in
  r <| request_start := Some p |>
    <| method_end := Some (p + zlen (rl_name t) - 1) |>
    <| method := default (method r) (method_named (rl_name t)) |>
    <| uri_start := Some us |>
    <| args_start := match rl_args t with
                     | None => args_start r
                     | Some _ => Some (us + zlen (rl_path t) + 1)
                     end |>
    <| uri_end := Some ue |>
    <| http_protocol_data := Some (ue + 1) |>
    <| http_major := major |>
    <| http_minor := minor |>
    <| request_end := Some (p + zlen (request_line_text t) - 2) |>
    <| http_version := major * 1000 + minor |>
    <| state := 0 |>.

Section RoundTrip.
Context `{MethodCmp} (mem : bytes).

Abbreviation scan := (scan (rl_step mem)).

Lemma scan_name r p c name l :
  Forall (fun c => is_method_char c = true) (c :: name) ->
  scan (sw_start, r) p ((c :: name) ++ l) =
  scan (sw_method, r <| request_start := Some p |>) (p + zlen (c :: name)) l.
Proof.
  intros Hname. inversion Hname as [|? ? Hc Hn]; subst.
  cbn [app]. erewrite scan_next.
  2: { cbn. unfold case_start. rewrite Hc. unfold is_method_char, CR, LF in *.
       replace ((c =? 13) || (c =? 10)) with false by lia. reflexivity. }
  rewrite scan_run.
  - f_equal. rewrite zlen_cons. lia.
  - intros q ch Hch. cbn. rewrite Forall_forall in Hn. specialize (Hn _ Hch).
    unfold case_method. rewrite Hn. unfold is_method_char in Hn.
    replace (ch =? 32) with false by lia. reflexivity.
Qed.

Lemma scan_plain st r p seg l :
  plain seg -> seg <> [] -> st = sw_after_slash_in_uri \/ st = sw_check_uri ->
  scan (st, r) p (seg ++ l) = scan (sw_check_uri, r) (p + zlen seg) l.
Proof.
  intros Hseg Hne Hst. destruct seg as [|c seg]; [done|].
  inversion Hseg as [|? ? Hc Hs]; subst. cbn [app].
  rewrite (scan_next _ _ _ _ _ (sw_check_uri, r)).
  2: { destruct Hst as [-> | ->]; cbn;
         unfold case_check_uri, case_after_slash_in_uri; by rewrite Hc. }
  rewrite zlen_cons, Z.add_assoc. apply scan_run. intros q ch Hch. cbn.
  rewrite Forall_forall in Hs. unfold case_check_uri. by rewrite (Hs _ Hch).
Qed.

(** A whole path, after the "/" that begins it. *)
Lemma scan_path segs final r p l :
  uri_ext r = None ->
  Forall (fun s => s <> [] /\ plain s) segs -> plain final ->
  scan (sw_after_slash_in_uri, r) p (path_body segs final ++ l) =
  scan (match final with [] => sw_after_slash_in_uri | _ => sw_check_uri end, r)
    (p + zlen (path_body segs final)) l.
Proof.
  intros Hext Hsegs Hfinal.
  assert (Hr : r <| uri_ext := None |> = r) by (destruct r; cbn in *; by subst).
  revert p. induction Hsegs as [|s segs [Hs1 Hs2] _ IH]; intros p; cbn [path_body].
  - destruct final as [|c final]; [|by rewrite scan_plain by auto].
    rewrite zlen_nil, Z.add_0_r. done.
  - rewrite <- app_assoc, scan_plain by auto. cbn [app].
    rewrite (scan_next _ _ _ _ _ (sw_after_slash_in_uri, r)).
    2: { cbn - [update_field]. unfold case_check_uri, go. cbn - [update_field].
         by rewrite Hr. }
    rewrite IH. f_equal. autorewrite with zlen. lia.
Qed.

Lemma scan_args a r p l :
  Forall args_char a ->
  scan (sw_uri, r) p (a ++ l) = scan (sw_uri, r) (p + zlen a) l.
Proof.
  intros Ha. apply scan_run. intros q ch Hch. rewrite Forall_forall in Ha.
  specialize (Ha _ Hch). unfold args_char, CR, LF in Ha. cbn. unfold case_uri.
  case_match; [done|]. rewrite !elem_of_cons in Ha.
  repeat (rewrite (proj2 (Z.eqb_neq _ _)) by (intros ->; apply Ha; auto 6)).
  done.
Qed.

(** A 16-bit field that accumulates digits. *)
Lemma scan_digits st get set ds r p l :
  (forall r q ch, is_digit ch = true ->
     rl_step mem (st, r) q ch = Next (st, set (u16 (get r * 10 + ch - "0")) r)) ->
  (forall v r, get (set v r) = v) -> (forall v w r, set v (set w r) = set v r) ->
  (forall r, set (get r) r = r) ->
  Forall (fun c => is_digit c = true) ds -> 0 <= get r ->
  digits_val (get r) ds < 2 ^ 16 ->
  scan (st, r) p (ds ++ l) = scan (st, set (digits_val (get r) ds) r) (p + zlen ds) l.
Proof.
  intros Hstep Hgs Hss Hid Hds. revert r p.
  induction Hds as [|c ds Hc Hds IH]; intros r p H0 H16.
  - cbn [digits_val fold_left app]. by rewrite Hid, zlen_nil, Z.add_0_r.
  - cbn [app]. rewrite (scan_next _ _ _ _ _ _ (Hstep r p c Hc)).
    change (digits_val (get r) (c :: ds)) with (digits_val (get r * 10 + (c - 48)) ds) in *.
    assert (48 <= c <= 57) by (unfold is_digit in Hc; lia).
    pose proof (digits_val_ge (get r * 10 + (c - 48)) ds ltac:(lia) Hds).
    replace (get r * 10 + c - 48) with (get r * 10 + (c - 48)) by lia.
    rewrite u16_id by lia. rewrite IH; rewrite ?Hgs; [|lia..].
    rewrite Hss. f_equal. autorewrite with zlen. lia.
Qed.

Lemma scan_method_end r q name l :
  method_of mem (default 0 (request_start r)) (q - default 0 (request_start r)) =
    method_named name ->
  scan (sw_method, r) q (" " :: "/" :: l) =
  scan (sw_after_slash_in_uri,
    r <| method_end := Some (q - 1) |>
      <| method := default (method r) (method_named name) |>
      <| uri_start := Some (q + 1) |>) (q + 1 + 1) l.
Proof.
  intros Hm. erewrite scan_next; [|reflexivity]. cbn - [update_field scan].
  change (request_start (r <| method_end := Some (q - 1) |>)) with (request_start r).
  rewrite Hm. erewrite scan_next; [|reflexivity]. f_equal.
  destruct (method_named name); by destruct r.
Qed.

(** The end of the URI, with the arguments if there are any. *)
Lemma scan_args_end st args r q l :
  st = sw_after_slash_in_uri \/ st = sw_check_uri ->
  match args with None => True | Some a => Forall args_char a end ->
  exists st', (st' = sw_check_uri_http_09 \/ st' = sw_http_09) /\
  scan (st, r) q (args_text args ++ " " :: l) =
  scan (st',
    r <| args_start := match args with None => args_start r | Some _ => Some (q + 1) end |>
      <| uri_end := Some (q + zlen (args_text args)) |>)
    (q + zlen (args_text args) + 1) l.
Proof.
  intros Hst Hargs. destruct args as [a|]; cbn [args_text].
  - exists sw_http_09. split; [by right|]. cbn [app].
    rewrite (scan_next _ _ _ _ _ (sw_uri, r <| args_start := Some (q + 1) |>)).
    2: { by destruct Hst as [-> | ->]. }
    rewrite scan_args by done. erewrite scan_next; [|reflexivity].
    autorewrite with zlen. by replace (q + (1 + zlen a)) with (q + 1 + zlen a) by lia.
  - exists sw_check_uri_http_09. split; [by left|]. cbn [app].
    rewrite zlen_nil, Z.add_0_r.
    rewrite (scan_next _ _ _ _ _ (sw_check_uri_http_09, r <| uri_end := Some q |>)).
    2: { by destruct Hst as [-> | ->]. }
    by destruct r.
Qed.

Lemma scan_http st r q l :
  st = sw_check_uri_http_09 \/ st = sw_http_09 ->
  scan (st, r) q (bs "HTTP/" ++ l) =
  scan (sw_first_major_digit, r <| http_protocol_data := Some q |>) (q + 5) l.
Proof.
  intros Hst. change (bs "HTTP/" ++ l) with ("H" :: "T" :: "T" :: "P" :: "/" :: l).
  rewrite (scan_next _ _ _ _ _ (sw_http_H, r <| http_protocol_data := Some q |>)).
  2: { by destruct Hst as [-> | ->]. }
  do 4 (erewrite scan_next; [|reflexivity]). f_equal. lia.
Qed.

Lemma major_step r q ch :
  is_digit ch = true ->
  rl_step mem (sw_major_digit, r) q ch =
  Next (sw_major_digit, r <| http_major := u16 (http_major r * 10 + ch - "0") |>).
Proof.
  intros Hd. cbn - [update_field]. unfold case_major_digit. rewrite Hd.
  unfold is_digit in Hd. by replace (ch =? 46) with false by lia.
Qed.

Lemma minor_step r q ch :
  is_digit ch = true ->
  rl_step mem (sw_minor_digit, r) q ch =
  Next (sw_minor_digit, r <| http_minor := u16 (http_minor r * 10 + ch - "0") |>).
Proof.
  intros Hd. cbn - [update_field]. unfold case_minor_digit. rewrite Hd.
  unfold is_digit, CR, LF in *.
  replace (ch =? 13) with false by lia. replace (ch =? 10) with false by lia.
  by replace (ch =? 32) with false by lia.
Qed.

Lemma scan_version maj min r q l :
  match maj with [] => False | d :: _ => d <> "0" end ->
  Forall (fun c => is_digit c = true) maj ->
  min <> [] -> Forall (fun c => is_digit c = true) min ->
  digits_val 0 maj < 2 ^ 16 -> digits_val 0 min < 2 ^ 16 ->
  let e := q + zlen maj + 1 + zlen min in
  scan (sw_first_major_digit, r) q (maj ++ "." :: min ++ [CR; LF] ++ l) =
  inr (Goto_done (r <| http_major := digits_val 0 maj |>
                    <| http_minor := digits_val 0 min |>
                    <| request_end := Some e |>) (e + 1)).
Proof.
  intros Hd0 Hmaj Hne Hmin H16 H16' e.
  destruct maj as [|d maj]; [done|]. inversion Hmaj as [|? ? Hd Hmaj']; subst.
  destruct min as [|m min]; [done|]. inversion Hmin as [|? ? Hm Hmin']; subst.
  change (digits_val 0 (d :: maj)) with (digits_val (d - "0") maj) in *.
  change (digits_val 0 (m :: min)) with (digits_val (m - "0") min) in *.
  unfold is_digit in Hd, Hm. cbn [app].
  rewrite (scan_next _ _ _ _ _ (sw_major_digit, r <| http_major := d - "0" |>)).
  2: { cbn - [update_field]. unfold case_first_major_digit.
       replace ((d <? 49) || (d >? 57)) with false by lia.
       by rewrite u16_id by lia. }
  rewrite (scan_digits sw_major_digit http_major (fun v r => r <| http_major := v |>));
    [ | exact major_step | done | done | by intros [] | done | cbn; lia | exact H16].
  erewrite scan_next; [|reflexivity].
  rewrite (scan_next _ _ _ _ _ (sw_minor_digit,
    r <| http_major := digits_val (d - "0") maj |> <| http_minor := m - "0" |>)).
  2: { cbn - [update_field]. unfold case_first_minor_digit, is_digit.
       replace ((48 <=? m) && (m <=? 57)) with true by lia. by rewrite u16_id by lia. }
  rewrite (scan_digits sw_minor_digit http_minor (fun v r => r <| http_minor := v |>));
    [ | exact minor_step | done | done | by intros [] | done | cbn; lia | exact H16'].
  erewrite scan_next; [|reflexivity]. erewrite scan_stop; [|reflexivity].
  unfold e. autorewrite with zlen.
  replace (q + (1 + zlen maj) + 1 + (1 + zlen min)) with
    (q + 1 + zlen maj + 1 + 1 + zlen min) by lia.
  replace (q + 1 + zlen maj + 1 + 1 + zlen min + 1 - 1) with
    (q + 1 + zlen maj + 1 + 1 + zlen min) by lia.
  done.
Qed.
End RoundTrip.

(** The name of the method, as the comparison macros see it. *)
Lemma method_of_text (cmp : MethodCmp) pre name l :
  cmp = cmp_words \/ cmp = cmp_bytes ->
  let mem := pre ++ name ++ " " :: l in
  Forall is_u_char mem ->
  method_of mem (zlen pre) (zlen name) = method_named name.
Proof.
  intros Hcmp mem Hmem.
  destruct (method_of_named mem (zlen pre) (zlen name)) as [Hw Hb]; try done.
  1,2: apply zlen_nonneg.
  - unfold mem. autorewrite with zlen. pose proof (zlen_nonneg l). lia.
  - apply at_rd. unfold mem.
    replace (zlen pre + zlen name) with (zlen (pre ++ name) + 0)
      by (autorewrite with zlen; lia).
    rewrite app_assoc, rd_app_r by lia. done.
  - rewrite (slice_mid pre name (" " :: l) : slice mem _ _ = name) in Hw, Hb.
    by destruct Hcmp as [-> | ->].
Qed.

Lemma major_positive maj :
  match maj with [] => False | d :: _ => d <> "0" end ->
  Forall (fun c => is_digit c = true) maj -> 1 <= digits_val 0 maj.
Proof.
  destruct maj as [|d maj]; [done|]. intros Hd H. inversion H as [|? ? Hd' Hm]; subst.
  change (digits_val 0 (d :: maj)) with (digits_val (d - "0") maj).
  unfold is_digit in Hd'. pose proof (digits_val_ge (d - "0") maj ltac:(lia) Hm). lia.
Qed.

(** C24: printing and parsing.  The line [METHOD URI HTTP/x.y CR LF], at any place of
    the buffer and whatever follows it, is accepted, and each field of the request
    holds the part it is named after: the method number, the exact extent of method,
    URI, arguments and line, the version; parsing goes on right after the line.  The
    URI is an absolute path of plain segments, for which none of the flags that ask
    for a second pass is raised, with optional arguments. *)
Theorem request_line_roundtrip (cmp : MethodCmp) (t : request_line)
    (r : ngx_http_request_t) (pre rest : bytes) :
  cmp = cmp_words \/ cmp = cmp_bytes ->
  request_line_ok t ->
  let mem := pre ++ request_line_text t ++ rest in
  Forall is_u_char mem ->
  state r = 0 -> request_end r = None -> uri_ext r = None ->
  ngx_http_parse_request_line mem r (mk_buf (zlen pre) (zlen mem)) =
    (NGX_OK, request_line_result t r (zlen pre),
     mk_buf (zlen pre + zlen (request_line_text t)) (zlen mem)).
Proof.
  intros Hcmp [Hn1 Hn2 Hsegs Hfin Hargs Hmaj Hmajd Hmin Hmind H16 H16'] mem Hmem Hst Hre Hext.
  unfold ngx_http_parse_request_line. cbn [pos last]. rewrite Hst.
  change (enum_of_Z 0) with sw_start.
  unfold mem at 2 3. rewrite slice_to_end.
  assert (Hme : forall p1, p1 = zlen pre + zlen (rl_name t) ->
    method_of mem (zlen pre) (p1 - zlen pre) = method_named (rl_name t)).
  { intros ? ->. replace (_ - _) with (zlen (rl_name t)) by lia.
    unfold mem, request_line_text. rewrite <- app_assoc. cbn [app].
    apply method_of_text; [done|].
    unfold mem, request_line_text in Hmem. rewrite <- app_assoc in Hmem. done. }
  pose proof (major_positive _ Hmaj Hmajd) as Hmaj1.
  pose proof (digits_val_ge 0 (rl_minor t) ltac:(lia) Hmind) as Hmin0.
  destruct t as [name segs fin args maj min].
  unfold request_line_text, rl_uri, rl_path, request_line_result in *.
  cbn [rl_name rl_segs rl_final rl_args rl_major rl_minor] in *.
  destruct name as [|c name]; [done|].
  rewrite <- app_assoc, scan_name by done. cbn [app].
  rewrite (scan_method_end _ _ _ (c :: name)) by (cbn [request_start default]; by apply Hme).
  rewrite <- !app_assoc, scan_path by done. cbn [app].
  match goal with |- context [scan _ (?st, ?r0) ?q _] =>
    destruct (scan_args_end mem st args r0 q
      ((bs "HTTP/" ++ maj ++ "." :: min ++ [CR; LF]) ++ rest)) as (st' & Hst' & ->);
      [destruct fin; auto|done|]
  end.
  rewrite <- !app_assoc, scan_http by done. cbn [app]. rewrite <- !app_assoc.
  rewrite scan_version by done. cbv zeta.
  unfold rl_done. cbn - [zlen Z.add Z.mul Z.sub digits_val Z.eqb].
  replace (_ =? 9) with false by lia.
  cbn [andb].
  f_equal; [f_equal; f_equal|f_equal].
  3: destruct args; [|done].
  all: try (apply (f_equal Some)); unfold rl_path; cbn [rl_segs rl_final];
    autorewrite with zlen; change (zlen (bs "HTTP/")) with 5; lia.
Qed.

Lemma method_of_named_witness :
  let mem := bs "PROPPATCH /a" in
  @method_of cmp_words mem 0 9 = Some NGX_HTTP_PROPPATCH /\
  @method_of cmp_bytes mem 0 9 = Some NGX_HTTP_PROPPATCH.
Proof.
  apply (method_of_named (bs "PROPPATCH /a") 0 9); by_decide.
Defined.

Definition sample_text : request_line :=
  mk_request_line (bs "GET") [bs "a"; bs "bc"] (bs "d") (Some (bs "x=1")) (bs "1") (bs "1").

Lemma sample_text_ok : request_line_ok sample_text.
Proof.
  constructor; unfold plain, args_char; cbn [sample_text rl_name rl_segs rl_final rl_args
    rl_major rl_minor]; by_decide.
Qed.

Lemma request_line_roundtrip_witness :
  let mem := [1; 2] ++ request_line_text sample_text ++ bs "Host:" in
  @ngx_http_parse_request_line cmp_words mem new_request (mk_buf 2 (zlen mem)) =
    (NGX_OK, request_line_result sample_text new_request 2,
     mk_buf (2 + zlen (request_line_text sample_text)) (zlen mem)).
Proof.
  refine (request_line_roundtrip cmp_words sample_text new_request [1; 2] (bs "Host:")
    (or_introl eq_refl) sample_text_ok _ eq_refl eq_refl eq_refl).
  by_decide.
Defined.
