(* ===== verification/ComplexUri.v ===== *)
(** [ngx_http_parse_complex_uri] (src/http/ngx_http_parse.c): the second pass over a
    URI that has "/.", "//", "#" or a quoted character, which writes the decoded and
    normalised path to [r->uri.data]. *)
From S2P Require Import Prelude HttpRequest.

Inductive cu_state : Type :=
  | sw_usual | sw_slash | sw_dot | sw_dot_dot | sw_quoted | sw_quoted_second.

#[export] Instance cu_state_eq_dec : EqDecision cu_state.
Proof. solve_decision. Defined.

(** The variables of the function.  [u] is the memory from [r->uri.data] up to the
    write pointer; [ext] is [r->uri_ext], an offset in it. *)
Record cu_vars := mk_cu {
  cu_st : cu_state;
  cu_quoted : cu_state;
  cu_decoded : Z;
  cu_ch : Z;
  cu_p : Z;
  cu_u : bytes;
  cu_ext : option Z;
  cu_args : option Z;
  cu_plus : bool;
  cu_quoted_uri : bool
}.

#[export] Instance rebuild_cu : Rebuild cu_vars := fun v =>
  mk_cu (cu_st v) (cu_quoted v) (cu_decoded v) (cu_ch v) (cu_p v) (cu_u v)
    (cu_ext v) (cu_args v) (cu_plus v) (cu_quoted_uri v).

(** What one turn of [while (p <= r->uri_end)] comes to. *)
Inductive cu_turn : Type :=
  | Turn (v : cu_vars)
  | Invalid (v : cu_vars)          (* return NGX_HTTP_PARSE_INVALID_REQUEST *)
  | Done (v : cu_vars)             (* goto done *)
  | Args (v : cu_vars).            (* goto args *)

(** [u -= 5; for ( ;; ) ...]: the loop that looks back for a slash.  [k] is one more
    than the index of [u]; the result is the index after the slash, [None] when [u]
    runs below [r->uri.data]. *)
Fixpoint back_to_slash (u : bytes) (k : nat) : option nat :=
  match k with
  | O => None
  | S i => if at_ u (Z.of_nat i) =? "/" then Some k else back_to_slash u i
  end.

Section ComplexUri.
Context (mem : bytes) (merge_slashes : bool).

(** [ch = *p++;] *)
Definition next_ch (v : cu_vars) : cu_vars :=
  v <| cu_ch := at_ mem (cu_p v) |> <| cu_p := cu_p v + 1 |>.

(** [*u++ = c;] *)
Definition put (c : Z) (v : cu_vars) : cu_vars := v <| cu_u := cu_u v ++ [c] |>.

Definition set_st (s : cu_state) (v : cu_vars) : cu_vars := v <| cu_st := s |>.

(** [quoted_state = state; state = sw_quoted;] *)
Definition quote (v : cu_vars) : cu_vars :=
  v <| cu_quoted := cu_st v |> <| cu_st := sw_quoted |>.

Definition is_hex_alpha (c : Z) : bool := ("a" <=? c) && (c <=? "f").

Definition case_usual (v : cu_vars) : cu_turn :=
  let ch := cu_ch v in
  if is_usual ch then Turn (next_ch (put ch v))
  else if ch =? "/" then
    Turn (next_ch (put ch (set_st sw_slash (v <| cu_ext := None |>))))
  else if ch =? "%" then Turn (next_ch (quote v))
  else if ch =? "?" then Args (v <| cu_args := Some (cu_p v) |>)
  else if ch =? "#" then Done v
  else if ch =? "." then
    Turn (next_ch (put ch (v <| cu_ext := Some (zlen (cu_u v) + 1) |>)))
  else if ch =? "+" then Turn (next_ch (put ch (v <| cu_plus := true |>)))
  else Turn (next_ch (put ch v)).

Definition case_slash (v : cu_vars) : cu_turn :=
  let ch := cu_ch v in
  if is_usual ch then Turn (next_ch (put ch (set_st sw_usual v)))
  else if ch =? "/" then
    Turn (next_ch (if merge_slashes then v else put ch v))
  else if ch =? "." then Turn (next_ch (put ch (set_st sw_dot v)))
  else if ch =? "%" then Turn (next_ch (quote v))
  else if ch =? "?" then Args (v <| cu_args := Some (cu_p v) |>)
  else if ch =? "#" then Done v
  else if ch =? "+" then
    Turn (next_ch (put ch (set_st sw_usual (v <| cu_plus := true |>))))
  else Turn (next_ch (put ch (set_st sw_usual v))).

Definition case_dot (v : cu_vars) : cu_turn :=
  let ch := cu_ch v in
  if is_usual ch then Turn (next_ch (put ch (set_st sw_usual v)))
  else if ch =? "/" then
    Turn (next_ch (set_st sw_slash
      (v <| cu_u := take (length (cu_u v) - 1) (cu_u v) |>)))
  else if ch =? "." then Turn (next_ch (put ch (set_st sw_dot_dot v)))
  else if ch =? "%" then Turn (next_ch (quote v))
  else if ch =? "?" then Args (v <| cu_args := Some (cu_p v) |>)
  else if ch =? "#" then Done v
  else if ch =? "+" then
    Turn (next_ch (put ch (set_st sw_usual (v <| cu_plus := true |>))))
  else Turn (next_ch (put ch (set_st sw_usual v))).

Definition case_dot_dot (v : cu_vars) : cu_turn :=
  let ch := cu_ch v in
  if is_usual ch then Turn (next_ch (put ch (set_st sw_usual v)))
  else if ch =? "/" then
    let v := set_st sw_slash v in
    match back_to_slash (cu_u v) (length (cu_u v) - 4) with
    | None => Invalid v
    | Some k => Turn (next_ch (v <| cu_u := take k (cu_u v) |>))
    end
  else if ch =? "%" then Turn (next_ch (quote v))
  else if ch =? "?" then Args (v <| cu_args := Some (cu_p v) |>)
  else if ch =? "#" then Done v
  else if ch =? "+" then
    Turn (next_ch (put ch (set_st sw_usual (v <| cu_plus := true |>))))
  else Turn (next_ch (put ch (set_st sw_usual v))).

Definition case_quoted (v : cu_vars) : cu_turn :=
  let v := v <| cu_quoted_uri := true |> in
  let ch := cu_ch v in
  let c := Z.lor ch 0x20 in
  if is_digit ch then
    Turn (next_ch (set_st sw_quoted_second (v <| cu_decoded := ch - "0" |>)))
  else if is_hex_alpha c then
    Turn (next_ch (set_st sw_quoted_second (v <| cu_decoded := c - "a" + 10 |>)))
  else Invalid v.

(** The decoded character is looked at again, in the state before the "%". *)
Definition case_quoted_second (v : cu_vars) : cu_turn :=
  let ch := cu_ch v in
  let c := Z.lor ch 0x20 in
  if is_digit ch then
    let ch := u8 (Z.shiftl (cu_decoded v) 4 + ch - "0") in
    if (ch =? "%") || (ch =? "#") then Turn (next_ch (put ch (set_st sw_usual v)))
    else if ch =? 0 then Invalid v
    else Turn (set_st (cu_quoted v) (v <| cu_ch := ch |>))
  else if is_hex_alpha c then
    let ch := u8 (Z.shiftl (cu_decoded v) 4 + c - "a" + 10) in
    if ch =? "?" then Turn (next_ch (put ch (set_st sw_usual v)))
    else
      let v := if ch =? "+" then v <| cu_plus := true |> else v in
      Turn (set_st (cu_quoted v) (v <| cu_ch := ch |>))
  else Invalid v.

Definition cu_step (v : cu_vars) : cu_turn :=
  match cu_st v with
  | sw_usual => case_usual v
  | sw_slash => case_slash v
  | sw_dot => case_dot v
  | sw_dot_dot => case_dot_dot v
  | sw_quoted => case_quoted v
  | sw_quoted_second => case_quoted_second v
  end.

(** The loop; [None] when the fuel runs out. *)
Fixpoint cu_loop (fuel : nat) (uri_end : Z) (v : cu_vars) : option cu_turn :=
  if uri_end <? cu_p v then Some (Done v)
  else
    match fuel with
    | O => None
    | S fuel =>
        match cu_step v with
        | Turn v => cu_loop fuel uri_end v
        | t => Some t
        end
    end.

(** The code at [args:], which looks for a "#" in [[p, uri_end)]: [l] are those
    bytes. *)
Fixpoint find_hash (p : Z) (l : bytes) : option Z :=
  match l with
  | [] => None
  | c :: l => if c =? "#" then Some p else find_hash (p + 1) l
  end.

(** The assignments before the two [return NGX_OK], which are the same. *)
Definition cu_finish (v : cu_vars) (r : ngx_http_request_t) : ngx_http_request_t :=
  let r := r <| plus_in_uri := cu_plus v |> <| quoted_uri := cu_quoted_uri v |>
             <| args_start := cu_args v |> <| uri := cu_u v |> in
  let r := match cu_ext v with
           | None => r
           | Some e => r <| exten := (Some e, zlen (cu_u v) - e) |>
           end in
  r <| uri_ext := None |>.

Definition ngx_http_parse_complex_uri (r : ngx_http_request_t)
  : option (Z * ngx_http_request_t) :=
  let us := ptr (uri_start r) in
  let ue := ptr (uri_end r) in
  let v := mk_cu sw_usual sw_usual 0 (at_ mem us) (us + 1) [] None None
             (plus_in_uri r) (quoted_uri r) in
  match cu_loop (Z.to_nat (2 * (ue - us + 1))) ue v with
  | None => None
  | Some (Turn _) => None
  | Some (Invalid v) =>
      Some (NGX_HTTP_PARSE_INVALID_REQUEST,
            r <| plus_in_uri := cu_plus v |> <| quoted_uri := cu_quoted_uri v |>
              <| uri_ext := cu_ext v |> <| args_start := cu_args v |>)
  | Some (Done v) => Some (NGX_OK, cu_finish v r)
  | Some (Args v) =>
      let r := cu_finish v r in
      match find_hash (cu_p v) (slice mem (cu_p v) ue), cu_args v with
      | Some q, Some a =>
          Some (NGX_OK, r <| args := (Some a, q - a) |> <| args_start := None |>)
      | _, _ => Some (NGX_OK, r)
      end
  end.
End ComplexUri.

Example complex_1 :
  let mem := bs "/a/b/.././%2e%2E/c//d.e%3f?x#y " in
  let r := new_request <| uri_start := Some 0 |> <| uri_end := Some 30 |> in
  (fun x => (x.1, uri x.2, exten x.2, args x.2)) <$> ngx_http_parse_complex_uri mem true r =
  Some (NGX_OK, bs "/c/d.e?", (Some 5, 2), (Some 27, 1)).
Proof. vm_compute. reflexivity. Qed.

(** ** Paths as segments *)

(** "/" s1 "/" s2 .. "/" sn "/" cur *)
Fixpoint render (done : list bytes) (cur : bytes) : bytes :=
  match done with
  | [] => "/" :: cur
  | s :: done => "/" :: s ++ render done cur
  end.

Lemma render_snoc done s cur : render (done ++ [s]) cur = render done s ++ "/" :: cur.
Proof.
  induction done as [|s0 done IH]; simpl; [done|]. by rewrite IH, <- app_assoc.
Qed.

Lemma render_app done s t : render done (s ++ t) = render done s ++ t.
Proof.
  induction done as [|s0 done IH]; simpl; [done|]. by rewrite IH, <- app_assoc.
Qed.

Lemma render_length done cur : (1 + length cur <= length (render done cur))%nat.
Proof. induction done; simpl; rewrite ?length_app; lia. Qed.

(** A prefix that ends with a slash ends between two segments. *)
Lemma render_prefix done cur x y :
  Forall (fun s : bytes => "/" ∉ s) done -> "/" ∉ cur ->
  render done cur = x ++ "/" :: y ->
  exists d1 d2, done = d1 ++ d2 /\ x ++ ["/"] = render d1 [].
Proof.
  intros Hd Hc. revert x. induction Hd as [|s done Hs Hd IH]; intros x; simpl.
  - destruct x as [|c x]; simpl.
    + intros _. by exists [], [].
    + intros [= <- ->]. exfalso. apply Hc. set_solver.
  - destruct x as [|c x]; simpl.
    + intros _. by exists [], (s :: done).
    + intros [= <- E]. assert (Hx : exists x', x = s ++ x' /\ render done cur = x' ++ "/" :: y).
      { revert x E. clear - Hs. induction s as [|c s IHs]; intros x E; simpl in *.
        - by exists x.
        - destruct x as [|c' x]; simpl in E.
          + exfalso. apply Hs. injection E as -> _. constructor.
          + injection E as <- E. destruct (IHs ltac:(set_solver) _ E) as (x' & -> & ?).
            by exists x'. }
      destruct Hx as (x' & -> & Ex). destruct (IH x' Ex) as (d1 & d2 & -> & Hr).
      exists (s :: d1), d2. split; [done|]. simpl. by rewrite <- app_assoc, Hr.
Qed.

Lemma back_to_slash_spec u k n :
  back_to_slash u k = Some n -> (k <= length u)%nat ->
  (0 < n <= k)%nat /\ exists x y, u = x ++ "/" :: y /\ take n u = x ++ ["/"].
Proof.
  induction k as [|i IH]; simpl; [done|]. intros E Hk.
  destruct (Z.eqb_spec (at_ u (Z.of_nat i)) "/") as [Hs|]; [|destruct (IH E); [lia|split; [lia|done]]].
  injection E as <-. split; [lia|].
  destruct (lookup_lt_is_Some_2 u i) as [c Hc]; [lia|].
  assert (c = "/") as ->.
  { rewrite <- Hs. unfold at_, rd. rewrite (proj2 (Z.leb_le 0 _)) by lia.
    by rewrite Nat2Z.id, Hc. }
  exists (take i u), (drop (S i) u). split.
  - by rewrite take_drop_middle.
  - by apply take_S_r.
Qed.

(** ** The invariant of the loop *)

Definition dot_seg : bytes := ["."].
Definition dot_dot_seg : bytes := ["."; "."].

(** A segment that was completed: not empty when slashes are merged, not a dot
    segment, and without slashes. *)
Definition seg_ok (merge : bool) (s : bytes) : Prop :=
  ("/" ∉ s) /\ s <> dot_seg /\ s <> dot_dot_seg /\ (merge = true -> s <> []).

(** The state the machine is in, or comes back to after the quoted character. *)
Definition plain_state (v : cu_vars) : cu_state :=
  match cu_st v with
  | sw_quoted | sw_quoted_second => cu_quoted v
  | s => s
  end.

(** What the last segment is in each state. *)
Definition cur_ok (s : cu_state) (cur : bytes) : Prop :=
  match s with
  | sw_usual => cur <> [] /\ cur <> dot_seg /\ cur <> dot_dot_seg
  | sw_slash => cur = []
  | sw_dot => cur = dot_seg
  | sw_dot_dot => cur = dot_dot_seg
  | _ => False
  end.

Definition shape (merge : bool) (s : cu_state) (u : bytes) : Prop :=
  exists done cur, u = render done cur /\ Forall (seg_ok merge) done /\
    ("/" ∉ cur) /\ cur_ok s cur.

(** [e] is the offset after the last dot of [u], and no slash follows it. *)
Definition last_dot (u : bytes) (e : Z) : Prop :=
  exists x y, u = x ++ "." :: y /\ e = zlen x + 1 /\ ("." ∉ y) /\ ("/" ∉ y).

Record cu_inv (merge : bool) (us : Z) (v : cu_vars) : Prop := {
  cu_pos : us + 1 <= cu_p v;
  cu_len : zlen (cu_u v) <= cu_p v - us - 1;
  cu_plain : plain_state v <> sw_quoted /\ plain_state v <> sw_quoted_second;
  cu_shape : shape merge (plain_state v) (cu_u v) \/
    (cu_u v = [] /\ cu_st v = sw_usual /\ cu_ch v = "/" /\ cu_ext v = None /\
     cu_p v = us + 1);
  cu_ext_ok : forall e, cu_ext v = Some e ->
    plain_state v = sw_usual /\ last_dot (cu_u v) e
}.

Lemma last_dot_put u e c :
  c <> "." -> c <> "/" -> last_dot u e -> last_dot (u ++ [c]) e.
Proof.
  intros ?? (x & y & -> & -> & ? & ?). exists x, (y ++ [c]).
  split_and!; [by rewrite <- app_assoc|done|set_solver|set_solver].
Qed.

Lemma last_dot_new u : last_dot (u ++ ["."]) (zlen u + 1).
Proof. exists u, []. split_and!; [done|done|set_solver|set_solver]. Qed.

Section Shape.
Context (merge : bool).

Lemma shape_put s c u :
  c <> "/" -> (c = "." -> s = sw_usual \/ s = sw_dot_dot) ->
  shape merge s u -> shape merge sw_usual (u ++ [c]).
Proof.
  intros Hc Hdot (done & cur & -> & Hd & Hcur & Hok).
  exists done, (cur ++ [c]). split_and!; [by rewrite render_app|done|set_solver|].
  destruct s; cbn in Hok; try done.
  - destruct Hok as (H1 & H2 & H3). split_and!; destruct cur as [|c1 [|c2 [|]]]; try done.
    cbn. intros [= -> ->]. done.
  - subst cur. cbn. split_and!; [done|intros [= ->]; naive_solver|done].
  - subst cur. cbn. split_and!; [done|done|intros [= ->]; naive_solver].
  - subst cur. done.
Qed.

Lemma shape_put_slash s u :
  s = sw_usual \/ (s = sw_slash /\ merge = false) ->
  shape merge s u -> shape merge sw_slash (u ++ ["/"]).
Proof.
  intros Hs (done & cur & -> & Hd & Hcur & Hok).
  exists (done ++ [cur]), []. split_and!; [by rewrite render_snoc| |set_solver|done].
  apply Forall_app. split; [done|]. constructor; [|constructor].
  destruct Hs as [->|[-> Hm]]; cbn in Hok; split_and!; naive_solver.
Qed.

Lemma shape_put_dot s u :
  s = sw_slash \/ s = sw_dot -> shape merge s u ->
  shape merge (if decide (s = sw_slash) then sw_dot else sw_dot_dot) (u ++ ["."]).
Proof.
  intros Hs (done & cur & -> & Hd & Hcur & Hok).
  exists done, (cur ++ ["."]). split_and!; [by rewrite render_app|done|set_solver|].
  by destruct Hs as [-> | ->]; cbn in Hok |- *; subst cur.
Qed.

Lemma shape_drop_dot u :
  shape merge sw_dot u -> shape merge sw_slash (take (length u - 1) u).
Proof.
  intros (done & cur & -> & Hd & Hcur & Hok). cbn in Hok. subst cur.
  change dot_seg with ([] ++ dot_seg). rewrite render_app, length_app. cbn [length dot_seg].
  rewrite Nat.add_sub, take_app_length.
  exists done, []. split_and!; [done|done|set_solver|done].
Qed.

Lemma shape_back u k :
  shape merge sw_dot_dot u -> back_to_slash u (length u - 4) = Some k ->
  shape merge sw_slash (take k u).
Proof.
  intros (done & cur & -> & Hd & Hcur & Hok) Hb.
  apply back_to_slash_spec in Hb as (_ & x & y & Hu & ->); [|lia].
  apply render_prefix in Hu as (d1 & d2 & -> & ->); [| |done].
  - apply Forall_app in Hd as [Hd _].
    exists d1, []. split_and!; [done|done|set_solver|done].
  - eapply Forall_impl; [exact Hd|]. by intros s (? & _).
Qed.
End Shape.

Lemma is_usual_ne ch :
  is_u_char ch -> is_usual ch = true -> ch <> "/" /\ ch <> "." /\ ch <> 0.
Proof.
  intros Hc. rewrite is_usual_spec by done. intros H.
  apply negb_true_iff, bool_decide_eq_false in H. unfold unusual_chars in H.
  split_and!; intros ->; apply H; set_solver.
Qed.

Section Loop.
Context (mem : bytes) (merge : bool) (us : Z).

Lemma cu_step_inv v v' :
  Forall is_u_char mem -> is_u_char (cu_ch v) ->
  cu_inv merge us v -> cu_step mem merge v = Turn v' -> cu_inv merge us v'.
Proof.
  intros Hmem Hc Hinv. pose proof (is_usual_ne _ Hc) as Hu. unfold cu_step.
  destruct v as [st q d ch p u ext ar pl qu]; cbn in *.
  destruct st; unfold case_usual, case_slash, case_dot, case_dot_dot, case_quoted,
    case_quoted_second, next_ch, put, set_st, quote; cbn; repeat case_match;
    try (intros [= <-]); try done.
  all: destruct Hinv as [Hp Hl [Hpl1 Hpl2] Hs He]; unfold plain_state in *; cbn in *.
  all: constructor; unfold plain_state; cbn;
    [lia|autorewrite with zlen; first [lia|unfold zlen in *; rewrite length_take; lia]
    |try done| |].
  all: try (destruct q; done).
  (* the extension stays inside what is written *)
  all: match goal with
    | |- forall e : Z, @?P e =>
        intros e Hext;
        first [ destruct (He e Hext) as [He1 He2]; clear He; first [discriminate He1|subst]
              | injection Hext as <- ];
        (split; [done|
          first [ exact He2
                | replace ch with 46 by lia; apply last_dot_new
                | apply last_dot_put; [lia|lia|exact He2]
                | idtac ]])
    | _ => idtac
    end.
  all: try (destruct Hs as [Hs|(-> & Hs & -> & -> & ?)]; [|try done]).
  all: match goal with |- _ \/ _ => left | _ => idtac end.
  all: first
    [ exact Hs
    | destruct q; done
    | repeat match goal with c := u8 _ |- _ => idtac | |- context [u8 ?x] =>
        set (c := u8 x) in *; clearbody c end;
      eapply shape_put; [..|exact Hs]; lia
    | replace ch with 47 by lia; eapply shape_put_slash; [|exact Hs]; auto
    | replace ch with 46 by lia; eapply shape_put; [..|exact Hs]; [done|by left]
    | replace ch with 46 by lia; apply (shape_put_dot merge sw_slash); auto
    | replace ch with 46 by lia; apply (shape_put_dot merge sw_dot); auto
    | by exists [], []; split_and!; [..|set_solver|]
    | by apply shape_drop_dot
    | eapply shape_put; [..|exact Hs]; [lia|by right]
    | eapply shape_back; [exact Hs|done] ].
Qed.

(** The current character is a byte: it is read from memory or decoded. *)
Lemma cu_step_ch v v' :
  Forall is_u_char mem -> is_u_char (cu_ch v) ->
  cu_step mem merge v = Turn v' -> is_u_char (cu_ch v').
Proof.
  intros Hmem Hc. pose proof (at_u_char mem (cu_p v) Hmem). unfold cu_step.
  destruct (cu_st v); unfold case_usual, case_slash, case_dot, case_dot_dot,
    case_quoted, case_quoted_second, next_ch, put, set_st, quote; cbn;
    repeat case_match; intros [= <-]; cbn; first [done | apply u8_range].
Qed.

(** A turn consumes a character, except the one that has just decoded a quoted
    character, and that one is followed by a turn that consumes. *)
Definition cu_measure (ue : Z) (v : cu_vars) : Z :=
  2 * (ue + 1 - cu_p v) +
  (if decide (cu_st v = sw_quoted_second) then 1 else 0).

Lemma cu_step_measure ue v v' :
  cu_inv merge us v -> cu_step mem merge v = Turn v' ->
  cu_measure ue v' < cu_measure ue v.
Proof.
  intros [_ _ [Hpl1 Hpl2] _ _]. unfold cu_step, cu_measure, plain_state in *.
  destruct (cu_st v) eqn:Est; unfold case_usual, case_slash, case_dot, case_dot_dot,
    case_quoted, case_quoted_second, next_ch, put, set_st, quote; cbn;
    repeat (case_match; cbn); intros [= <-]; cbn; rewrite ?Est; cbn;
    repeat case_decide; cbn; try done; try lia; congruence.
Qed.

(** No byte of the URI, nor the byte after it, is a NUL. *)
Definition no_nul (ue : Z) : Prop := forall i, us <= i <= ue -> at_ mem i <> 0.

Record cu_all (ue : Z) (v : cu_vars) : Prop := {
  cu_all_ch : is_u_char (cu_ch v);
  cu_all_inv : cu_inv merge us v;
  cu_all_p : cu_p v <= ue + 1;
  cu_all_nul : no_nul ue -> cu_ch v <> 0 /\ Forall (fun c => c <> 0) (cu_u v)
}.

Lemma hex_alpha_byte d c :
  is_hex_alpha c = true -> u8 (Z.shiftl d 4 + c - "a" + 10) <> 0.
Proof.
  unfold is_hex_alpha, u8. rewrite Z.shiftl_mul_pow2 by lia. intros H E.
  apply Z.mod_divide in E as [k E]; lia.
Qed.

Lemma cu_step_all ue v v' :
  Forall is_u_char mem -> cu_p v <= ue -> cu_all ue v ->
  cu_step mem merge v = Turn v' -> cu_all ue v'.
Proof.
  intros Hmem Hp [Hc Hinv Hq Hn] E. constructor.
  - by eapply cu_step_ch.
  - by eapply cu_step_inv.
  - revert E. unfold cu_step. destruct (cu_st v); unfold case_usual, case_slash,
      case_dot, case_dot_dot, case_quoted, case_quoted_second, next_ch, put, set_st,
      quote; cbn; repeat case_match; intros [= <-]; cbn; lia.
  - intros Hnul. destruct (Hn Hnul) as [Hn1 Hn2]. clear Hn.
    assert (Hat : at_ mem (cu_p v) <> 0).
    { apply Hnul. destruct Hinv. lia. }
    revert E. unfold cu_step. destruct (cu_st v); unfold case_usual, case_slash,
      case_dot, case_dot_dot, case_quoted, case_quoted_second, next_ch, put, set_st,
      quote; cbn; repeat case_match; intros [= <-]; cbn;
    (split;
     [ first [exact Hat | exact Hn1 | by apply hex_alpha_byte
             | apply Z.eqb_neq; assumption]
     | first [ exact Hn2
             | apply Forall_app; split; [exact Hn2|]; constructor; [|constructor]; lia
             | by apply Forall_take ] ]).
Qed.

(** The loop: invariant kept, and it ends within the fuel. *)
Lemma cu_loop_inv fuel ue v :
  Forall is_u_char mem -> cu_all ue v ->
  cu_measure ue v <= Z.of_nat fuel ->
  exists t v', cu_loop mem merge fuel ue v = Some t /\ cu_all ue v' /\
    ((t = Done v' /\ ue < cu_p v') \/
     (cu_p v' <= ue /\ t = cu_step mem merge v' /\ forall v'', t <> Turn v'')).
Proof.
  intros Hmem. revert v. induction fuel as [|fuel IH]; intros v Hall Hm; cbn [cu_loop];
    (destruct (Z.ltb_spec ue (cu_p v)) as [Hlt|Hge]; [exists (Done v), v; auto 6|]).
  - exfalso. unfold cu_measure in Hm. case_decide; lia.
  - destruct (cu_step mem merge v) as [v'| | |] eqn:E.
    + apply IH; [by eapply cu_step_all|].
      apply (cu_step_measure ue) in E; [lia|apply Hall].
    + exists (Invalid v0), v. rewrite E. auto 8.
    + exists (Done v0), v. rewrite E. auto 8.
    + exists (Args v0), v. rewrite E. auto 8.
Qed.

(** What the last turn does to the variables. *)
Lemma cu_step_leave v v' :
  cu_step mem merge v = Done v' \/ cu_step mem merge v = Args v' ->
  cu_u v' = cu_u v /\ cu_ext v' = cu_ext v /\ cu_p v' = cu_p v /\
  cu_st v' = cu_st v /\ cu_ch v <> "/" /\
  (cu_step mem merge v = Args v' -> cu_args v' = Some (cu_p v')).
Proof.
  unfold cu_step. destruct (cu_st v) eqn:Est; unfold case_usual, case_slash,
    case_dot, case_dot_dot, case_quoted, case_quoted_second, next_ch, put, set_st,
    quote; cbn; repeat case_match; intros [[=]|[=]]; subst; cbn; split_and!;
    first [done | lia | auto].
Qed.
End Loop.

(** ** Results *)

(** What [ngx_http_parse_complex_uri] is called with: the request line parser leaves
    [uri_start] on a "/" (in "GET http://host" on the second one of "://"). *)
Record complex_uri_call (mem : bytes) (r : ngx_http_request_t) : Prop := {
  cc_mem : Forall is_u_char mem;
  cc_start : 0 <= ptr (uri_start r) < ptr (uri_end r);
  cc_end : ptr (uri_end r) < zlen mem;
  cc_slash : at_ mem (ptr (uri_start r)) = "/"
}.

Definition cu_init (mem : bytes) (r : ngx_http_request_t) : cu_vars :=
  mk_cu sw_usual sw_usual 0 (at_ mem (ptr (uri_start r))) (ptr (uri_start r) + 1) []
    None None (plus_in_uri r) (quoted_uri r).

Lemma complex_uri_loop mem merge r :
  complex_uri_call mem r ->
  let us := ptr (uri_start r) in
  let ue := ptr (uri_end r) in
  exists t v, cu_loop mem merge (Z.to_nat (2 * (ue - us + 1))) ue (cu_init mem r) = Some t /\
    cu_all mem merge us ue v /\
    ((t = Done v /\ ue < cu_p v) \/
     (cu_p v <= ue /\ t = cu_step mem merge v /\ forall v', t <> Turn v')).
Proof.
  intros [Hmem Hs He Hsl] us ue. apply cu_loop_inv; [done| |].
  - constructor; cbn.
    + by apply at_u_char.
    + constructor; cbn; [lia|autorewrite with zlen; lia|done| |done].
      right. by rewrite Hsl.
    + lia.
    + intros _. by rewrite Hsl.
  - unfold cu_measure, cu_init. cbn [cu_p cu_st]. case_decide; [done|]. lia.
Qed.

(** The result of a successful call, in terms of the variables of the last turn. *)
Lemma complex_uri_ok mem merge r r' :
  complex_uri_call mem r ->
  ngx_http_parse_complex_uri mem merge r = Some (NGX_OK, r') ->
  exists v, cu_all mem merge (ptr (uri_start r)) (ptr (uri_end r)) v /\
    uri r' = cu_u v /\ shape merge (plain_state v) (cu_u v) /\
    exten r' = match cu_ext v with
               | None => exten r
               | Some e => (Some e, zlen (cu_u v) - e)
               end.
Proof.
  intros Hc. destruct (complex_uri_loop mem merge r Hc) as (t & v & Hl & Hall & Ht).
  unfold ngx_http_parse_complex_uri. fold (cu_init mem r). rewrite Hl.
  assert (Hshape : cu_ch v <> "/" \/ ptr (uri_end r) < cu_p v ->
                   shape merge (plain_state v) (cu_u v)).
  { destruct Hall as [_ [_ _ _ [?|(_ & _ & ? & _ & ?)] _] _ _]; [done|].
    destruct Hc. intros [?|?]; [done|lia]. }
  intros E. exists v. split; [done|].
  destruct Ht as [[-> Hp]|(Hp & -> & Hnt)].
  - injection E as <-. split_and!; [by cbn; case_match|auto|by cbn; case_match].
  - destruct (cu_step mem merge v) as [v'| |v'|v'] eqn:Es; [by edestruct Hnt|done| |].
    + destruct (cu_step_leave mem merge v v') as (Hu & Hx & _ & _ & Hch & _); [auto|].
      injection E as <-. split_and!; [by cbn; case_match|auto|].
      cbn. rewrite Hx. by case_match; rewrite ?Hu.
    + destruct (cu_step_leave mem merge v v') as (Hu & Hx & _ & _ & Hch & _); [auto|].
      split_and!; [|auto|].
      * revert E. unfold cu_finish. destruct (cu_ext v');
          repeat case_match; intros [= <-]; done.
      * revert E. rewrite <- Hx, <- Hu. unfold cu_finish. destruct (cu_ext v');
          repeat case_match; intros [= <-]; done.
Qed.

(** C26: [ngx_http_parse_complex_uri] always returns, and only with [NGX_OK] or
    [NGX_HTTP_PARSE_INVALID_REQUEST]. *)
Theorem complex_uri_total mem merge r :
  complex_uri_call mem r ->
  exists rc r', ngx_http_parse_complex_uri mem merge r = Some (rc, r') /\
    (rc = NGX_OK \/ rc = NGX_HTTP_PARSE_INVALID_REQUEST).
Proof.
  intros Hc. destruct (complex_uri_loop mem merge r Hc) as (t & v & Hl & _ & Ht).
  unfold ngx_http_parse_complex_uri. fold (cu_init mem r). rewrite Hl.
  destruct t as [v'| | |].
  - destruct Ht as [[]|(_ & _ & Ht)]; [done|by edestruct Ht].
  - eauto.
  - eauto.
  - repeat case_match; eauto.
Qed.

(** C2: the path that [ngx_http_parse_complex_uri] accepts is "/"-separated
    segments of which every completed one is neither "." nor "..", nor empty with
    merge_slashes; so no "/../" is left in it.  It is not longer than the URI, has no
    NUL when the URI has none, and the extension, when one is set, is what follows
    the last dot of the last segment. *)
Theorem complex_uri_normal mem merge r r' :
  complex_uri_call mem r ->
  ngx_http_parse_complex_uri mem merge r = Some (NGX_OK, r') ->
  (exists done cur, uri r' = render done cur /\ Forall (seg_ok merge) done /\ "/" ∉ cur) /\
  zlen (uri r') <= ptr (uri_end r) - ptr (uri_start r) /\
  (no_nul mem (ptr (uri_start r)) (ptr (uri_end r)) -> Forall (fun c => c <> 0) (uri r')) /\
  (exten r' = exten r \/
   exists e, exten r' = (Some e, zlen (uri r') - e) /\ last_dot (uri r') e).
Proof.
  intros Hc E. destruct (complex_uri_ok mem merge r r' Hc E) as (v & Hall & -> & Hs & Hx).
  destruct Hall as [_ [_ Hl _ _ He] Hp Hn]. split_and!.
  - destruct Hs as (d & c & -> & ? & ? & _). eauto.
  - lia.
  - intros. by apply Hn.
  - rewrite Hx. destruct (cu_ext v) as [e|]; [|by left]. right. exists e.
    split; [done|]. by apply He.
Qed.

Definition sample_uri : bytes := bs "/a/b/.././%2e%2E/c//d.e%3f?x#y ".
Definition sample_uri_request : ngx_http_request_t :=
  new_request <| uri_start := Some 0 |> <| uri_end := Some 30 |>.

Lemma sample_uri_call : complex_uri_call sample_uri sample_uri_request.
Proof. constructor; by_decide. Qed.

Lemma complex_uri_total_witness :
  exists rc r', ngx_http_parse_complex_uri sample_uri false sample_uri_request = Some (rc, r') /\
    (rc = NGX_OK \/ rc = NGX_HTTP_PARSE_INVALID_REQUEST).
Proof. apply (complex_uri_total sample_uri false), sample_uri_call. Defined.

Lemma complex_uri_normal_witness :
  exists r', ngx_http_parse_complex_uri sample_uri true sample_uri_request = Some (NGX_OK, r') /\
  (exists done cur, uri r' = render done cur /\ Forall (seg_ok true) done /\ "/" ∉ cur) /\
  zlen (uri r') <= 30.
Proof.
  eexists. split; [vm_compute; reflexivity|].
  edestruct (complex_uri_normal sample_uri true sample_uri_request) as (H1 & H2 & _);
    [apply sample_uri_call|vm_compute; reflexivity|]. split; [exact H1|exact H2].
Defined.

(** A dot segment at the end of the path, before the arguments or before the
    fragment stays, and so does the directory it would drop. *)
Example complex_uri_last_dot_dot :
  uri ∘ snd <$> ngx_http_parse_complex_uri (bs "/a/.. ") true
    (new_request <| uri_start := Some 0 |> <| uri_end := Some 5 |>)
  = Some (bs "/a/..").
Proof. reflexivity. Qed.

(** A quoted character cut off by the end of the URI is accepted and dropped. *)
Example complex_uri_cut_quote :
  (fun x => (x.1, uri x.2)) <$> ngx_http_parse_complex_uri (bs "/a%4 HTTP") true
    (new_request <| uri_start := Some 0 |> <| uri_end := Some 4 |>)
  = Some (NGX_OK, bs "/a").
Proof. reflexivity. Qed.

(** Without merge_slashes, a ".." after an empty segment drops two segments. *)
Example complex_uri_drops_two :
  (fun x => (x.1, uri x.2)) <$> ngx_http_parse_complex_uri (bs "/a//../b ") false
    (new_request <| uri_start := Some 0 |> <| uri_end := Some 8 |>)
  = Some (NGX_OK, bs "/b").
Proof. reflexivity. Qed.
