(* ===== verification/ComplexUriSpec.v ===== *)
(** The path [ngx_http_parse_complex_uri] computes, against a reference definition:
    decode the quoted characters, split at slashes, resolve the segments with a
    stack. *)
From S2P Require Import Prelude HttpRequest ComplexUri.

(** ** The reference *)

(** The segments before the last one, resolved against the stack [done]: an empty
    segment is dropped when slashes are merged, a ".." drops the segment before it.
    When that segment is empty (only without merge_slashes) the one before the empty
    segment goes as well; with nothing left the path is refused. *)
Definition drop_segment (rdone : list bytes) : option (list bytes) :=
  match rdone with
  | [] => None
  | [] :: [] => None
  | [] :: _ :: rdone => Some rdone
  | _ :: rdone => Some rdone
  end.

Definition resolve1 (merge : bool) (rdone : list bytes) (s : bytes) : option (list bytes) :=
  if decide (s = []) then Some (if merge then rdone else [] :: rdone)
  else if decide (s = dot_seg) then Some rdone
  else if decide (s = dot_dot_seg) then drop_segment rdone
  else Some (s :: rdone).

(** The stack is kept with its top first. *)
Fixpoint resolve (merge : bool) (rdone : list bytes) (segs : list bytes)
  : option (list bytes) :=
  match segs with
  | [] => Some rdone
  | s :: segs => rdone' ← resolve1 merge rdone s; resolve merge rdone' segs
  end.

Definition normalise (merge : bool) (segs : list bytes) (last : bytes) : option bytes :=
  rdone ← resolve merge [] segs; Some (render (rev rdone) last).

(** A character of the path as the URI has it: itself, or "%" and two hex digits. *)
Inductive piece : Type :=
  | Raw (c : Z)
  | Hex (h l : Z).

Definition hex_val (c : Z) : option Z :=
  if is_digit c then Some (c - "0")
  else if ("a" <=? c) && (c <=? "f") then Some (c - "a" + 10)
  else if ("A" <=? c) && (c <=? "F") then Some (c - "A" + 10)
  else None.

Definition piece_bytes (x : piece) : bytes :=
  match x with Raw c => [c] | Hex h l => ["%"; h; l] end.

(** The character a piece stands for; a quoted NUL stands for nothing. *)
Definition piece_val (x : piece) : option Z :=
  match x with
  | Raw c => if decide (c ∈ ["%"; "?"; "#"]) then None else Some c
  | Hex h l =>
      h ← hex_val h; l ← hex_val l;
      if h * 16 + l =? 0 then None else Some (h * 16 + l)
  end.

(** ** The machine on decoded characters *)

Section Feed.
Context (merge : bool).

(** What a character does to the state and the output. *)
Definition feed (s : cu_state) (u : bytes) (c : Z) : option (cu_state * bytes) :=
  match s with
  | sw_usual => Some (if c =? "/" then sw_slash else sw_usual, u ++ [c])
  | sw_slash =>
      if c =? "/" then Some (sw_slash, if merge then u else u ++ [c])
      else Some (if c =? "." then sw_dot else sw_usual, u ++ [c])
  | sw_dot =>
      if c =? "/" then Some (sw_slash, take (length u - 1) u)
      else Some (if c =? "." then sw_dot_dot else sw_usual, u ++ [c])
  | sw_dot_dot =>
      if c =? "/" then
        k ← back_to_slash u (length u - 4); Some (sw_slash, take k u)
      else Some (sw_usual, u ++ [c])
  | _ => None
  end.

Fixpoint feeds (s : cu_state) (u : bytes) (cs : bytes) : option (cu_state * bytes) :=
  match cs with
  | [] => Some (s, u)
  | c :: cs => su ← feed s u c; feeds su.1 su.2 cs
  end.

Lemma feeds_app s u l1 l2 :
  feeds s u (l1 ++ l2) = su ← feeds s u l1; feeds su.1 su.2 l2.
Proof.
  revert s u. induction l1 as [|c l1 IH]; intros s u; simpl; [done|].
  destruct (feed s u c) as [[s' u']|]; simpl; [apply IH|done].
Qed.

(** The state after a segment. *)
Definition seg_state (s : bytes) : cu_state :=
  if decide (s = []) then sw_slash
  else if decide (s = dot_seg) then sw_dot
  else if decide (s = dot_dot_seg) then sw_dot_dot else sw_usual.

Lemma feeds_usual u s : ("/" ∉ s) -> feeds sw_usual u s = Some (sw_usual, u ++ s).
Proof.
  revert u. induction s as [|c s IH]; intros u Hs; simpl.
  - by rewrite app_nil_r.
  - destruct (Z.eqb_spec c "/") as [->|]; [set_solver|]. simpl.
    rewrite IH by set_solver. by rewrite <- app_assoc.
Qed.

Lemma feeds_seg u s :
  ("/" ∉ s) -> feeds sw_slash u s = Some (seg_state s, u ++ s).
Proof.
  intros Hs. unfold seg_state.
  destruct s as [|c1 s]; [by rewrite app_nil_r|]. simpl.
  destruct (Z.eqb_spec c1 "/") as [->|]; [set_solver|]. simpl.
  destruct (Z.eqb_spec c1 ".") as [->|Hc1]; simpl; cycle 1.
  { rewrite feeds_usual by set_solver. rewrite <- app_assoc.
    rewrite !decide_False by (intros [=]; done). done. }
  destruct s as [|c2 s]; [done|]. simpl.
  destruct (Z.eqb_spec c2 "/") as [->|]; [set_solver|]. simpl.
  destruct (Z.eqb_spec c2 ".") as [->|Hc2]; simpl; cycle 1.
  { rewrite feeds_usual by set_solver. rewrite <- !app_assoc.
    rewrite !decide_False by (intros [=]; done). done. }
  destruct s as [|c3 s]; simpl; [by rewrite <- app_assoc|].
  destruct (Z.eqb_spec c3 "/") as [->|]; [set_solver|]. simpl.
  rewrite feeds_usual by set_solver. by rewrite <- !app_assoc.
Qed.
End Feed.

(** ** The machine computes the reference *)

Lemma render_last_slash d : exists x, render d [] = x ++ ["/"].
Proof.
  induction d as [|s d [x Hx]]; [by exists []|].
  exists ("/" :: s ++ x). simpl. by rewrite Hx, <- app_assoc.
Qed.

Lemma back_to_slash_found x y z :
  ("/" ∉ y) ->
  back_to_slash ((x ++ ["/"]) ++ y ++ z) (length (x ++ ["/"]) + length y)
  = Some (length (x ++ ["/"])).
Proof.
  revert z. induction y as [|c y IH] using rev_ind; intros z Hy.
  - rewrite Nat.add_0_r, length_app, Nat.add_comm. cbn [length Nat.add back_to_slash].
    rewrite (at_rd _ _ "/"); [done|].
    rewrite <- app_assoc, <- (Z.add_0_r (Z.of_nat _)). by rewrite (rd_app_r x).
  - replace (length (x ++ ["/"]) + length (y ++ [c]))%nat
      with (S (length (x ++ ["/"]) + length y)) by (rewrite (length_app y); simpl; lia).
    cbn [back_to_slash].
    rewrite <- (app_assoc y), (at_rd _ _ c).
    + rewrite (proj2 (Z.eqb_neq c "/")) by set_solver. apply IH. set_solver.
    + rewrite (app_assoc _ y). rewrite <- length_app. rewrite <- (Z.add_0_r (Z.of_nat _)).
      by rewrite rd_app_r.
Qed.

(** [u -= 5] and the loop after it, on a path that ends with the segment [t] and
    [n] more characters. *)
Lemma back_over_segment d t z :
  ("/" ∉ t) ->
  back_to_slash (render d t ++ z) (length (render d t)) = Some (length (render d [])).
Proof.
  intros Ht. rewrite <- (app_nil_l t), render_app.
  destruct (render_last_slash d) as [x ->].
  rewrite length_app, <- app_assoc. by apply back_to_slash_found.
Qed.

Section Resolve.
Context (merge : bool).

Lemma feed_dot_dot rdone :
  Forall (fun s : bytes => "/" ∉ s) rdone ->
  feed merge sw_dot_dot (render (rev rdone) dot_dot_seg) "/" =
  rdone' ← drop_segment rdone; Some (sw_slash, render (rev rdone') []).
Proof.
  intros Hd. cbn [feed]. rewrite Z.eqb_refl.
  destruct rdone as [|s rest]; [done|]. cbn [rev].
  rewrite render_snoc. inversion_clear Hd as [|?? Hs Hd'].
  destruct s as [|c0 s0] using rev_ind.
  - destruct rest as [|t rest]; [done|]. cbn [rev drop_segment mbind option_bind].
    rewrite render_snoc, <- app_assoc. inversion_clear Hd' as [|?? Ht _].
    rewrite length_app. cbn [length app].
    replace (length _ + 4 - 4)%nat with (length (render (rev rest) t)) by (cbn; lia).
    rewrite back_over_segment by done. cbn [mbind option_bind]. do 2 f_equal.
    change t with ([] ++ t). rewrite render_app, <- app_assoc.
    apply take_app_length.
  - clear IHs0. replace (drop_segment _) with (Some rest) by (by destruct s0).
    rewrite render_app, <- app_assoc, length_app. cbn [length app].
    replace (length _ + 4 - 4)%nat with (length (render (rev rest) s0)) by (cbn; lia).
    rewrite back_over_segment by set_solver. cbn [mbind option_bind]. do 2 f_equal.
    rewrite <- (app_nil_l s0), render_app, <- app_assoc. apply take_app_length.
Qed.

Lemma feed_slash rdone s :
  Forall (fun s : bytes => "/" ∉ s) rdone ->
  feed merge (seg_state s) (render (rev rdone) s) "/" =
  rdone' ← resolve1 merge rdone s; Some (sw_slash, render (rev rdone') []).
Proof.
  intros Hd. unfold seg_state, resolve1.
  destruct (decide (s = [])) as [->|]; [|destruct (decide (s = dot_seg)) as [->|];
    [|destruct (decide (s = dot_dot_seg)) as [->|]]].
  - cbn. destruct merge; [done|]. cbn. by rewrite render_snoc.
  - cbn. change dot_seg with ([] ++ dot_seg). rewrite render_app, length_app.
    cbn [length dot_seg]. by rewrite Nat.add_sub, take_app_length.
  - by apply feed_dot_dot.
  - cbn. by rewrite render_snoc.
Qed.

Lemma resolve1_no_slash rdone rdone' s :
  Forall (fun s : bytes => "/" ∉ s) rdone -> ("/" ∉ s) ->
  resolve1 merge rdone s = Some rdone' -> Forall (fun s : bytes => "/" ∉ s) rdone'.
Proof.
  intros Hd Hs. unfold resolve1. repeat case_decide; [case_match| | |]; subst;
    try (intros [= <-]; by repeat constructor).
  destruct Hd as [|s1 ? Hs1 Hd]; [done|].
  destruct s1; [|by intros [= <-]].
  destruct Hd; [done|]. by intros [= <-].
Qed.

Lemma feeds_render rdone segs last :
  Forall (fun s : bytes => "/" ∉ s) rdone -> Forall (fun s : bytes => "/" ∉ s) segs ->
  ("/" ∉ last) ->
  snd <$> feeds merge sw_slash (render (rev rdone) []) (drop 1 (render segs last)) =
  rdone' ← resolve merge rdone segs; Some (render (rev rdone') last).
Proof.
  intros Hd Hs Hl. revert rdone Hd.
  induction Hs as [|s segs Hs Hsegs IH]; intros rdone Hd; cbn [render resolve]; rewrite skipn_cons, drop_0.
  - rewrite feeds_seg by done. cbn. by rewrite <- render_app.
  - rewrite feeds_app, feeds_seg by done. cbn [mbind option_bind fst snd].
    rewrite <- render_app. cbn [app].
    assert (Hr : exists x, render segs last = "/" :: x) by (destruct segs; eexists; reflexivity).
    destruct Hr as [x Hx]. rewrite Hx in IH |- *.
    rewrite skipn_cons, drop_0 in IH. cbn [feeds].
    rewrite feed_slash by done.
    destruct (resolve1 merge rdone s) as [rdone'|] eqn:E; cbn [mbind option_bind fst snd].
    + apply (IH rdone'). exact (resolve1_no_slash _ _ _ Hd Hs E).
    + done.
Qed.
End Resolve.

(** ** The loop runs the machine *)

Definition outcome (t : cu_turn) : option bytes :=
  match t with Done v | Args v => Some (cu_u v) | _ => None end.

Lemma slice_cons_inv mem a b c l :
  0 <= a -> b <= zlen mem -> slice mem a b = c :: l ->
  a < b /\ at_ mem a = c /\ slice mem (a + 1) b = l.
Proof.
  intros Ha Hb E. destruct (Z.lt_ge_cases a b) as [Hlt|].
  - rewrite slice_cons in E by lia. by injection E as -> ->.
  - by rewrite slice_nil in E by lia.
Qed.

Lemma cu_loop_fuel mem merge ue n m v t :
  cu_loop mem merge n ue v = Some t -> (n <= m)%nat -> cu_loop mem merge m ue v = Some t.
Proof.
  revert m v. induction n as [|n IH]; intros m v; destruct m as [|m]; cbn [cu_loop];
    case_match; try done; try lia.
  destruct (cu_step mem merge v); try done. intros. apply IH; [done|lia].
Qed.

Section Simulation.
Context (mem : bytes) (merge : bool) (ue : Z).
Hypothesis mem_u_char : Forall is_u_char mem.
Hypothesis ue_in : ue < zlen mem.

(** The loop ends with [X]. *)
Definition yields (v : cu_vars) (X : option bytes) : Prop :=
  exists n t, cu_loop mem merge n ue v = Some t /\ outcome t = X /\ forall v', t <> Turn v'.

Lemma yields_turn v v' X :
  cu_p v <= ue -> cu_step mem merge v = Turn v' -> yields v' X -> yields v X.
Proof.
  intros Hp E (n & t & H). exists (S n), t. cbn [cu_loop].
  rewrite (proj2 (Z.ltb_ge _ _)) by lia. by rewrite E.
Qed.

Lemma yields_leave v t :
  cu_p v <= ue -> cu_step mem merge v = t -> (forall v', t <> Turn v') ->
  yields v (outcome t).
Proof.
  intros Hp E Ht. exists 1%nat, t. cbn [cu_loop].
  rewrite (proj2 (Z.ltb_ge _ _)) by lia. rewrite E. split_and!; [|done|done].
  destruct t; [by edestruct Ht|done..].
Qed.

Lemma yields_end v : ue < cu_p v -> yields v (Some (cu_u v)).
Proof.
  intros Hp. exists O, (Done v). cbn [cu_loop].
  by rewrite (proj2 (Z.ltb_lt _ _)) by lia.
Qed.

(** [v] is about to look at the byte at [p - 1] in the state [s]. *)
Record reads (v : cu_vars) (s : cu_state) (u : bytes) (p : Z) : Prop := {
  reads_st : cu_st v = s;
  reads_u : cu_u v = u;
  reads_p : cu_p v = p;
  reads_ch : cu_ch v = at_ mem (p - 1)
}.

Definition plain (s : cu_state) : Prop := s <> sw_quoted /\ s <> sw_quoted_second.

Lemma feed_plain s u c s' u' : feed merge s u c = Some (s', u') -> plain s'.
Proof.
  unfold feed, plain. destruct s; repeat case_match; try (intros [= <- <-]; done).
  all: destruct (back_to_slash _ _); cbn; [|done]; by intros [= <- <-].
Qed.

Lemma feed_special s u c :
  plain s -> c ∈ ["%"; "?"; "#"] -> feed merge s u c = Some (sw_usual, u ++ [c]).
Proof.
  intros [] Hc. assert (c <> "/" /\ c <> ".") as [H1%Z.eqb_neq H2%Z.eqb_neq].
  { split; intros ->; revert Hc; set_solver. }
  unfold feed. destruct s; try done; by rewrite ?H1, ?H2.
Qed.

Lemma step_feed v :
  is_u_char (cu_ch v) -> plain (cu_st v) -> cu_ch v ∉ ["%"; "?"; "#"] ->
  match feed merge (cu_st v) (cu_u v) (cu_ch v) with
  | None => exists v', cu_step mem merge v = Invalid v'
  | Some (s', u') =>
      exists v', cu_step mem merge v = Turn v' /\ reads v' s' u' (cu_p v + 1)
  end.
Proof.
  intros Hc [Hs1 Hs2] Hsp. pose proof (is_usual_ne _ Hc) as Hu.
  assert (cu_ch v <> "%" /\ cu_ch v <> "?" /\ cu_ch v <> "#") as
    (N1%Z.eqb_neq & N2%Z.eqb_neq & N3%Z.eqb_neq).
  { split_and!; intros E; apply Hsp; rewrite E; set_solver. }
  destruct v as [st q d ch p u ext ar pl qu]; cbn in *.
  unfold feed, cu_step; cbn. destruct st; try done;
    unfold case_usual, case_slash, case_dot, case_dot_dot; cbn; rewrite N1, N2, N3;
    (destruct (is_usual ch);
     [destruct (Hu eq_refl) as (U1%Z.eqb_neq & U2%Z.eqb_neq & _); rewrite ?U1, ?U2|clear Hu]);
    try (destruct (back_to_slash u (length u - 4))); cbn;
    repeat (case_match; cbn); simplify_eq; try lia; try (by eexists).
  all: eexists; split; [reflexivity|].
  all: by constructor; cbn; rewrite ?Z.add_simpl_r.
Qed.

(** One decoded character, read at [p - 1]. *)
Lemma yields_feed v p X :
  is_u_char (cu_ch v) -> plain (cu_st v) -> cu_ch v ∉ ["%"; "?"; "#"] ->
  cu_p v = p -> p <= ue ->
  match feed merge (cu_st v) (cu_u v) (cu_ch v) with
  | None => X = None
  | Some (s', u') => forall v', reads v' s' u' (p + 1) -> yields v' X
  end -> yields v X.
Proof.
  intros Hc Hs Hsp <- Hle. pose proof (step_feed v Hc Hs Hsp) as H.
  destruct (feed _ _ _ _) as [[s' u']|].
  - destruct H as (v' & E & R). intros HX. eapply yields_turn; eauto.
  - destruct H as (v' & E). intros ->. apply (yields_leave v (Invalid v')); [lia|done|done].
Qed.

Lemma hex_val_range c x : hex_val c = Some x -> 0 <= x < 16.
Proof.
  unfold hex_val, is_digit. repeat case_match; intros [= <-]; lia.
Qed.

(** The two tests of a hex digit that the code makes, on each byte. *)
Lemma hex_val_code c :
  is_u_char c ->
  hex_val c = if is_digit c then Some (c - "0")
              else if is_hex_alpha (Z.lor c 0x20)
                   then Some (Z.lor c 0x20 - "a" + 10) else None.
Proof.
  intros Hc. apply (proj1 (bool_decide_eq_true _)). revert c Hc.
  apply (u_char_forall (fun c => bool_decide (hex_val c =
    if is_digit c then Some (c - "0")
    else if is_hex_alpha (Z.lor c 0x20) then Some (Z.lor c 0x20 - "a" + 10) else None))).
  vm_compute. reflexivity.
Qed.

(** The same position and output. *)
Definition same_out (v w : cu_vars) : Prop := cu_u w = cu_u v /\ cu_p w = cu_p v.

Lemma second_digit v x y :
  is_u_char (cu_ch v) -> hex_val (cu_ch v) = Some y -> cu_decoded v = x ->
  0 <= x < 16 -> x * 16 + y <> 0 ->
  exists w, same_out v w /\
    case_quoted_second mem v =
      (if decide (x * 16 + y ∈ ["%"; "?"; "#"])
       then Turn (next_ch mem (put (x * 16 + y) (set_st sw_usual w)))
       else Turn (set_st (cu_quoted v) w)) /\
    (x * 16 + y ∉ ["%"; "?"; "#"] -> cu_ch w = x * 16 + y).
Proof.
  intros Hc Hy Hx Rx Hne. pose proof (hex_val_range _ _ Hy) as Ry.
  rewrite hex_val_code in Hy by done. unfold case_quoted_second. rewrite Hx.
  assert (Hu : u8 (Z.shiftl x 4 + y) = x * 16 + y).
  { rewrite Z.shiftl_mul_pow2 by lia. apply u8_id. split; lia. }
  destruct (is_digit _) eqn:Ed; [|destruct (is_hex_alpha _) eqn:Ea; [|done]];
    injection Hy as Hy.
  - rewrite <- Z.add_sub_assoc, Hy, Hu. unfold is_digit in Ed.
    exists (if decide (x * 16 + y ∈ ["%"; "?"; "#"]) then v
            else v <| cu_ch := x * 16 + y |>).
    repeat case_decide; (split_and!; [done| |done]); repeat case_match; try done; try lia.
    all: exfalso; set_solver by lia.
  - replace (Z.shiftl x 4 + Z.lor (cu_ch v) 32 - "a" + 10)
      with (Z.shiftl x 4 + (Z.lor (cu_ch v) 32 - "a" + 10)) by lia.
    rewrite Hy, Hu. unfold is_hex_alpha in Ea.
    exists (if decide (x * 16 + y ∈ ["%"; "?"; "#"]) then v
            else if x * 16 + y =? "+" then v <| cu_plus := true |> <| cu_ch := x * 16 + y |>
            else v <| cu_ch := x * 16 + y |>).
    repeat case_decide; repeat case_match; split_and!; try done; try lia.
    all: exfalso; set_solver by lia.
Qed.

Lemma yields_hex v h l c p X :
  reads v (cu_st v) (cu_u v) p -> plain (cu_st v) -> cu_ch v = "%" ->
  at_ mem p = h -> at_ mem (p + 1) = l -> is_u_char h -> is_u_char l ->
  piece_val (Hex h l) = Some c -> p + 2 <= ue ->
  match feed merge (cu_st v) (cu_u v) c with
  | None => X = None
  | Some (s', u') => forall v', reads v' s' u' (p + 3) -> yields v' X
  end -> yields v X.
Proof.
  intros [_ _ Hp _] [Hs1 Hs2] Hch Hh Hl Hhc Hlc Hv Hle HX.
  cbn [piece_val] in Hv.
  destruct (hex_val h) as [x|] eqn:Eh; [|done].
  destruct (hex_val l) as [y|] eqn:El; [|done]. cbn in Hv.
  pose proof (hex_val_range _ _ Eh) as Rx. pose proof (hex_val_range _ _ El) as Ry.
  pose proof Eh as Eh'. rewrite hex_val_code in Eh' by done.
  (* "%" *)
  apply (yields_turn v (next_ch mem (quote v))); [lia| |].
  { unfold cu_step. destruct (cu_st v); try done;
      unfold case_usual, case_slash, case_dot, case_dot_dot; by rewrite Hch. }
  (* the first digit *)
  set (v1 := next_ch mem (quote v)).
  apply (yields_turn v1 (next_ch mem (set_st sw_quoted_second
           (v1 <| cu_quoted_uri := true |> <| cu_decoded := x |>)))); [cbn; lia| |].
  { unfold cu_step. cbn [cu_st v1 next_ch quote update_field]. unfold case_quoted.
    cbn [v1 next_ch quote update_field cu_ch cu_st cu_p]. rewrite Hp, Hh.
    repeat case_match; simplify_eq; done. }
  set (v2 := next_ch mem _).
  assert (R2 : cu_p v2 = p + 2 /\ cu_ch v2 = l /\ cu_decoded v2 = x /\
               cu_quoted v2 = cu_st v /\ cu_u v2 = cu_u v /\ cu_st v2 = sw_quoted_second).
  { cbn. rewrite Hp. split_and!; try done. lia. }
  destruct R2 as (R2p & R2c & R2d & R2q & R2u & R2s). clearbody v1 v2.
  (* the second digit *)
  destruct (Z.eqb_spec (x * 16 + y) 0) as [|Hne]; [done|]. injection Hv as Hv.
  destruct (second_digit v2 x y) as (w & [Wu Wp] & Ew & Wc);
    rewrite ?R2c; try done. rewrite Hv in Ew, Wc.
  apply (yields_turn v2 (if decide (c ∈ ["%"; "?"; "#"])
           then next_ch mem (put c (set_st sw_usual w)) else set_st (cu_quoted v2) w));
    [lia|unfold cu_step; rewrite R2s, Ew; by case_decide|].
  case_decide as Hin.
  - rewrite feed_special in HX by done. apply HX. constructor; cbn; [done|congruence|lia|].
    f_equal. lia.
  - apply (yields_feed _ (p + 2)); cbn; rewrite ?Wc, ?R2q, ?Wu, ?R2u by done; try done; try lia.
    + split; lia.
    + destruct (feed _ _ _ _) as [[s' u']|]; [|done].
      by replace (p + 2 + 1) with (p + 3) by lia.
Qed.

(** What follows the path in the URI: nothing, the arguments or the fragment. *)
Definition ends_path (tail : bytes) : Prop :=
  match tail with [] => True | c :: _ => c = "?" \/ c = "#" end.

Lemma yields_tail v p tail :
  reads v (cu_st v) (cu_u v) p -> plain (cu_st v) -> 0 < p -> p - 1 <= ue ->
  ends_path tail -> slice mem (p - 1) ue = tail -> yields v (Some (cu_u v)).
Proof.
  intros [_ _ Hp Hch] [Hs1 Hs2] H0 Hle Ht Hsl. destruct tail as [|c tail].
  - apply yields_end. destruct (Z.lt_ge_cases ue p) as [|]; [lia|].
    rewrite slice_cons in Hsl by lia. done.
  - apply slice_cons_inv in Hsl as (Hlt & Hc & _); [|lia..]. rewrite Hc in Hch.
    assert (exists t, cu_step mem merge v = t /\ outcome t = Some (cu_u v) /\
                      forall v', t <> Turn v') as (t & Et & <- & Hnt).
    { unfold cu_step. destruct (cu_st v); try done;
        unfold case_usual, case_slash, case_dot, case_dot_dot; rewrite Hch;
        (destruct Ht as [-> | ->]; eexists; (split_and!; [reflexivity|done|done])). }
    apply yields_leave; [lia|done|done].
Qed.

Lemma yields_pieces ps tail cs v p :
  reads v (cu_st v) (cu_u v) p -> plain (cu_st v) -> 0 < p -> p - 1 <= ue ->
  ends_path tail -> slice mem (p - 1) ue = (ps ≫= piece_bytes) ++ tail ->
  mapM piece_val ps = Some cs ->
  yields v (snd <$> feeds merge (cu_st v) (cu_u v) cs).
Proof.
  intros Hr Hpl Hp Hle Ht. revert v p cs Hr Hpl Hp Hle.
  induction ps as [|x ps IH]; intros v p cs Hr Hpl Hp Hle Hsl Hcs.
  { injection Hcs as <-. by eapply yields_tail. }
  cbn [mapM] in Hcs. destruct (piece_val x) as [c|] eqn:Hx; [|done].
  destruct (mapM piece_val ps) as [cs'|] eqn:Hcs'; [|done].
  injection Hcs as <-. cbn [feeds].
  destruct x as [c'|h l]; cbn in Hsl.
  - cbn in Hx. case_decide as Hin; [done|]. injection Hx as ->.
    apply slice_cons_inv in Hsl as (Hlt & Hc & Hsl); [|lia..].
    pose proof Hr as [_ _ Hvp Hch]. rewrite Hc in Hch.
    assert (is_u_char c) by (rewrite <- Hc; by apply at_u_char).
    apply (yields_feed _ p); rewrite ?Hch; try done; [lia|].
    destruct (feed _ _ _ _) as [[s' u']|] eqn:Ef; [|done].
    intros v' Hr'. pose proof Hr' as [<- <- _ _]. cbn.
    apply (IH v' (p + 1) cs'); [done|by eapply feed_plain|lia|lia| |done].
    rewrite <- Hsl. f_equal; lia.
  - apply slice_cons_inv in Hsl as (_ & Hc0 & Hsl); [|lia..].
    apply slice_cons_inv in Hsl as (_ & Hh & Hsl); [|lia..].
    apply slice_cons_inv in Hsl as (Hlt & Hl & Hsl); [|lia..].
    rewrite Z.sub_add in Hh, Hl. pose proof Hr as [_ _ _ Hch].
    assert (is_u_char h) by (rewrite <- Hh; by apply at_u_char).
    assert (is_u_char l) by (rewrite <- Hl; by apply at_u_char).
    eapply (yields_hex v h l c p); try done; [by rewrite Hch|lia|].
    destruct (feed _ _ _ _) as [[s' u']|] eqn:Ef; [|done].
    intros v' Hr'. pose proof Hr' as [<- <- _ _]. cbn.
    apply (IH v' (p + 3) cs'); [done|by eapply feed_plain|lia|lia| |done].
    rewrite <- Hsl. f_equal; lia.
Qed.
End Simulation.

(** C1: on a URI whose path is made of plain and of correctly quoted characters,
    [ngx_http_parse_complex_uri] computes the reference: the path is decoded, and its
    segments resolved with a stack; it is refused exactly when a ".." has nothing to
    drop. *)
Theorem complex_uri_refines mem merge r ps tail segs last :
  complex_uri_call mem r -> ends_path tail ->
  slice mem (ptr (uri_start r)) (ptr (uri_end r)) = (ps ≫= piece_bytes) ++ tail ->
  mapM piece_val ps = Some (render segs last) ->
  Forall (fun s : bytes => "/" ∉ s) segs -> "/" ∉ last ->
  match normalise merge segs last with
  | Some path =>
      exists r', ngx_http_parse_complex_uri mem merge r = Some (NGX_OK, r') /\ uri r' = path
  | None =>
      exists r', ngx_http_parse_complex_uri mem merge r
                 = Some (NGX_HTTP_PARSE_INVALID_REQUEST, r')
  end.
Proof.
  intros Hc Ht Hsl Hps Hsegs Hlast. pose proof Hc as [Hmem Hs He Hslash].
  destruct (complex_uri_loop mem merge r Hc) as (t & v & Hl & _).
  assert (Hy : yields mem merge (ptr (uri_end r)) (cu_init mem r)
                 (snd <$> feeds merge sw_usual [] (render segs last))).
  { apply (yields_pieces mem merge _ Hmem He ps tail _ (cu_init mem r)
             (ptr (uri_start r) + 1)); try done; try lia.
    - constructor; cbn; rewrite ?Z.add_simpl_r; done.
    - by rewrite Z.add_simpl_r. }
  assert (Hx : exists x, render segs last = "/" :: x) by (destruct segs; eexists; reflexivity).
  destruct Hx as [x Hx]. pose proof (feeds_render merge [] segs last) as Hf.
  rewrite Hx in Hy, Hf. rewrite skipn_cons, drop_0 in Hf.
  cbn [feeds feed mbind option_bind fst snd app] in Hy.
  change (47 =? "/") with true in Hy. cbn iota in Hy.
  change (rev []) with (@nil bytes) in Hf. cbn [render] in Hf.
  rewrite Hf in Hy by (try constructor; done). clear Hf.
  destruct Hy as (n & t' & Hn & Ho & Hnt).
  assert (t' = t) as ->.
  { apply (cu_loop_fuel _ _ _ _ (n + Z.to_nat (2 * (ptr (uri_end r) - ptr (uri_start r) + 1))))
      in Hn; [|lia].
    eapply cu_loop_fuel in Hl; [|apply Nat.le_add_l]. rewrite Hl in Hn. by injection Hn. }
  unfold normalise. unfold ngx_http_parse_complex_uri. fold (cu_init mem r). rewrite Hl.
  destruct (resolve merge [] segs) as [rdone|]; cbn [mbind option_bind] in Ho |- *.
  - destruct t as [v'| |v'|v']; try done; injection Ho as <-.
    + eexists. split; [reflexivity|]. cbn. by case_match.
    + repeat case_match; eexists; (split; [reflexivity|]); cbn; by case_match.
  - destruct t as [v'| | |]; try done; [by edestruct Hnt|]. eauto.
Qed.

Lemma complex_uri_refines_witness :
  exists r', ngx_http_parse_complex_uri sample_uri true sample_uri_request = Some (NGX_OK, r') /\
    uri r' = bs "/c/d.e?".
Proof.
  apply (complex_uri_refines sample_uri true sample_uri_request
    [Raw "/"; Raw "a"; Raw "/"; Raw "b"; Raw "/"; Raw "."; Raw "."; Raw "/"; Raw "."; Raw "/";
     Hex "2" "e"; Hex "2" "E"; Raw "/"; Raw "c"; Raw "/"; Raw "/"; Raw "d"; Raw "."; Raw "e";
     Hex "3" "f"]
    (bs "?x#y")
    [bs "a"; bs "b"; bs ".."; bs "."; bs ".."; bs "c"; []] (bs "d.e?")).
  - apply sample_uri_call.
  - by left.
  - vm_compute. reflexivity.
  - vm_compute. reflexivity.
  - by_decide.
  - by_decide.
Defined.
