(* ===== verification/HashKey.v ===== *)
(** Hash keys of strings (src/core/ngx_hash.h, src/core/ngx_hash.c) and the case
    folding they use (src/core/ngx_string.h). *)
From S2P Require Import Prelude.

(** [ngx_tolower], [ngx_toupper]: ASCII letters only, whatever the locale. *)
Definition ngx_tolower (c : Z) : Z :=
  if ("A" <=? c) && (c <=? "Z") then Z.lor c 0x20 else c.
Definition ngx_toupper (c : Z) : Z :=
  if ("a" <=? c) && (c <=? "z") then Z.land c (Z.lnot 0x20) else c.

(** [#define ngx_hash(key, c)]: [ngx_uint_t] arithmetic. *)
Definition ngx_hash (key c : Z) : Z := u64 (key * 31 + c).

Fixpoint ngx_hash_from (key : Z) (data : bytes) : Z :=
  match data with
  | [] => key
  | c :: data => ngx_hash_from (ngx_hash key c) data
  end.

Definition ngx_hash_key (data : bytes) : Z := ngx_hash_from 0 data.

Definition ngx_hash_key_lc (data : bytes) : Z := ngx_hash_from 0 (ngx_tolower <$> data).

(** Lowers the string into [dst] and returns its key. *)
Fixpoint ngx_hash_strlow_loop (key : Z) (src : bytes) : bytes * Z :=
  match src with
  | [] => ([], key)
  | c :: src =>
      let d := ngx_tolower c in
      let '(dst, key) := ngx_hash_strlow_loop (ngx_hash key d) src in
      (d :: dst, key)
  end.
Definition ngx_hash_strlow (src : bytes) : bytes * Z := ngx_hash_strlow_loop 0 src.

Lemma ngx_hash_from_app k l1 l2 :
  ngx_hash_from k (l1 ++ l2) = ngx_hash_from (ngx_hash_from k l1) l2.
Proof. revert k. induction l1; intros k; simpl; auto. Qed.

Lemma ngx_hash_range k c : 0 <= ngx_hash k c < 2 ^ 64.
Proof. apply Z.mod_pos_bound. lia. Qed.

Lemma ngx_hash_from_range k l : 0 <= k < 2 ^ 64 -> 0 <= ngx_hash_from k l < 2 ^ 64.
Proof. revert k. induction l; intros k Hk; simpl; [done|]. apply IHl, ngx_hash_range. Qed.

(** The wrap-around may be taken once, at the end: the key is the polynomial in 31
    modulo 2^64. *)
Lemma ngx_hash_from_mod k l :
  ngx_hash_from (u64 k) l = u64 (fold_left (fun k c => k * 31 + c) l k).
Proof.
  revert k. induction l as [|c l IH]; intros k; simpl; [done|].
  unfold ngx_hash. rewrite <- IH. f_equal. unfold u64.
  rewrite Zplus_mod, Zmult_mod, Zmod_mod, <- Zmult_mod, <- Zplus_mod. done.
Qed.

Lemma ngx_tolower_byte c : is_u_char c -> is_u_char (ngx_tolower c).
Proof.
  intros Hc. by_byte c Hc.
Qed.

Lemma ngx_tolower_idemp c :
  is_u_char c -> ngx_tolower (ngx_tolower c) = ngx_tolower c.
Proof.
  intros Hc. by_byte c Hc.
Qed.

Lemma ngx_hash_strlow_spec k src :
  ngx_hash_strlow_loop k src = (ngx_tolower <$> src, ngx_hash_from k (ngx_tolower <$> src)).
Proof.
  revert k. induction src as [|c src IH]; intros k; simpl; [done|]. by rewrite IH.
Qed.

(** The keys of a name: [ngx_hash_strlow] writes the lowered name and returns its
    key; that is the key [ngx_hash_key_lc] computes of any spelling of the name and
    [ngx_hash_key] of the lowered one; the key is a 64-bit integer, the value modulo
    2^64 of the polynomial in 31 of the lowered characters. *)
Theorem ngx_hash_keys (src : bytes) :
  Forall is_u_char src ->
  ngx_hash_strlow src = (ngx_tolower <$> src, ngx_hash_key_lc src) /\
  ngx_hash_key (ngx_tolower <$> src) = ngx_hash_key_lc src /\
  ngx_hash_key_lc (ngx_tolower <$> src) = ngx_hash_key_lc src /\
  ngx_hash_key_lc src = fold_left (fun k c => k * 31 + ngx_tolower c) src 0 mod 2 ^ 64.
Proof.
  intros Hs. unfold ngx_hash_strlow, ngx_hash_key, ngx_hash_key_lc. split_and!.
  - apply ngx_hash_strlow_spec.
  - done.
  - f_equal. rewrite <- list_fmap_compose. apply list_fmap_ext. intros i c Hc. simpl.
    apply ngx_tolower_idemp. by eapply Forall_lookup_1.
  - change 0 with (u64 0) at 1. rewrite ngx_hash_from_mod. unfold u64. f_equal.
    generalize 0. clear Hs. induction src as [|c src IH]; intros k; simpl; auto.
Qed.

Lemma ngx_hash_keys_witness :
  ngx_hash_strlow (bs "Content-Length") = (bs "content-length", ngx_hash_key (bs "content-length")).
Proof.
  destruct (ngx_hash_keys (bs "Content-Length")) as (-> & <- & _); [by_decide|].
  vm_compute. reflexivity.
Defined.
