(* ===== verification/HeaderLine.v ===== *)
(** [ngx_http_parse_header_line] (src/http/ngx_http_parse.c): one line of a request or
    response header, with the hash and the lowered copy of the name. *)
From S2P Require Import Prelude HttpRequest HashKey.

(** [static u_char lowcase[]]: the lowered character of a header name, 0 for the
    others. *)
Definition lowcase : list Z :=
  replicate 32 0 ++
  replicate 13 0 ++ ["-"; 0; 0] ++ bs "0123456789" ++ replicate 6 0 ++
  [0] ++ bs "abcdefghijklmnopqrstuvwxyz" ++ replicate 5 0 ++
  [0] ++ bs "abcdefghijklmnopqrstuvwxyz" ++ replicate 5 0 ++
  replicate 128 0.
Arguments lowcase : simpl never.

Inductive hl_state : Type :=
  | sw_start | sw_name | sw_space_before_value | sw_value | sw_space_after_value
  | sw_ignore_line | sw_almost_done | sw_header_almost_done
  | sw_none (z : Z).

Definition hl_states : list hl_state :=
  [sw_start; sw_name; sw_space_before_value; sw_value; sw_space_after_value;
   sw_ignore_line; sw_almost_done; sw_header_almost_done].

Definition hl_to_Z (s : hl_state) : Z :=
  match s with
  | sw_start => 0 | sw_name => 1 | sw_space_before_value => 2 | sw_value => 3
  | sw_space_after_value => 4 | sw_ignore_line => 5 | sw_almost_done => 6
  | sw_header_almost_done => 7
  | sw_none z => z
  end.

#[export] Instance hl_enum : StateEnum hl_state.
Proof.
  refine {| enum_list := hl_states; enum_none := sw_none; enum_to_Z := hl_to_Z |}.
  - done.
  - solve_enum_list.
Defined.

(** The variables of the loop: [state], [hash], [i] and the request. *)
Record hl_vars := mk_hl {
  hl_st : hl_state;
  hl_hash : Z;
  hl_i : Z;
  hl_r : ngx_http_request_t
}.
#[export] Instance rebuild_hl : Rebuild hl_vars := fun v =>
  mk_hl (hl_st v) (hl_hash v) (hl_i v) (hl_r v).

Inductive hl_exit : Type :=
  | Invalid_header (v : hl_vars)
  | Goto_done (v : hl_vars) (p : Z)
  | Goto_header_done (v : hl_vars) (p : Z).

Abbreviation hl_action := (action hl_vars hl_exit).

Section Step.
Context (mem : bytes) (allow_underscores : bool).

Definition with_r (f : ngx_http_request_t -> ngx_http_request_t) (v : hl_vars) : hl_vars :=
  v <| hl_r := f (hl_r v) |>.
Definition to (s : hl_state) (v : hl_vars) : hl_vars := v <| hl_st := s |>.

(** [hash = ngx_hash(hash, c); r->lowcase_header[i++] = c; i &= 31;] *)
Definition put_name (c : Z) (v : hl_vars) : hl_vars :=
  v <| hl_hash := ngx_hash (hl_hash v) c |>
    <| hl_r := (hl_r v)
         <| lowcase_header := <[Z.to_nat (hl_i v) := c]> (lowcase_header (hl_r v)) |> |>
    <| hl_i := Z.land (hl_i v + 1) (NGX_HTTP_LC_HEADER_LEN - 1) |>.

Definition case_start (v : hl_vars) (p ch : Z) : hl_action :=
  let v := with_r (fun r => r <| header_name_start := Some p |> <| invalid_header := false |>) v in
  if ch =? CR then
    Next (to sw_header_almost_done (with_r (fun r => r <| header_end := Some p |>) v))
  else if ch =? LF then
    Stop (Goto_header_done (with_r (fun r => r <| header_end := Some p |>) v) p)
  else
    let v := to sw_name v in
    let c := at_ lowcase ch in
    if negb (c =? 0) then
      Next (with_r (fun r => r <| lowcase_header := <[0%nat := c]> (lowcase_header r) |>)
              (v <| hl_hash := ngx_hash 0 c |> <| hl_i := 1 |>))
    else if ch =? 0 then Stop (Invalid_header v)
    else Next (with_r (fun r => r <| invalid_header := true |>) v).

(** The three assignments before [goto done] and before [sw_almost_done]. *)
Definition end_name (p : Z) (r : ngx_http_request_t) : ngx_http_request_t :=
  r <| header_name_end := Some p |> <| header_start := Some p |> <| header_end := Some p |>.

Definition case_name (v : hl_vars) (p ch : Z) : hl_action :=
  let c := at_ lowcase ch in
  if negb (c =? 0) then Next (put_name c v)
  else if ch =? "_" then
    if allow_underscores then Next (put_name ch v)
    else Next (with_r (fun r => r <| invalid_header := true |>) v)
  else if ch =? ":" then
    Next (to sw_space_before_value (with_r (fun r => r <| header_name_end := Some p |>) v))
  else if ch =? CR then Next (to sw_almost_done (with_r (end_name p) v))
  else if ch =? LF then Stop (Goto_done (with_r (end_name p) v) p)
  else
    let start := default 0 (header_name_start (hl_r v)) in
    if (ch =? "/") && upstream (hl_r v) && (p - start =? 4)
       && bytes_eqb (slice mem start (start + 4)) (bs "HTTP")
    then Next (to sw_ignore_line v)
    else if ch =? 0 then Stop (Invalid_header v)
    else Next (with_r (fun r => r <| invalid_header := true |>) v).

Definition case_space_before_value (v : hl_vars) (p ch : Z) : hl_action :=
  let empty := fun r => r <| header_start := Some p |> <| header_end := Some p |> in
  if ch =? " " then Next v
  else if ch =? CR then Next (to sw_almost_done (with_r empty v))
  else if ch =? LF then Stop (Goto_done (with_r empty v) p)
  else if ch =? 0 then Stop (Invalid_header v)
  else Next (to sw_value (with_r (fun r => r <| header_start := Some p |>) v)).

Definition case_value (v : hl_vars) (p ch : Z) : hl_action :=
  let ended := with_r (fun r => r <| header_end := Some p |>) v in
  if ch =? " " then Next (to sw_space_after_value ended)
  else if ch =? CR then Next (to sw_almost_done ended)
  else if ch =? LF then Stop (Goto_done ended p)
  else if ch =? 0 then Stop (Invalid_header v)
  else Next v.

Definition case_space_after_value (v : hl_vars) (p ch : Z) : hl_action :=
  if ch =? " " then Next v
  else if ch =? CR then Next (to sw_almost_done v)
  else if ch =? LF then Stop (Goto_done v p)
  else if ch =? 0 then Stop (Invalid_header v)
  else Next (to sw_value v).

Definition case_ignore_line (v : hl_vars) (ch : Z) : hl_action :=
  if ch =? LF then Next (to sw_start v) else Next v.

Definition case_almost_done (v : hl_vars) (p ch : Z) : hl_action :=
  if ch =? LF then Stop (Goto_done v p)
  else if ch =? CR then Next v
  else Stop (Invalid_header v).

Definition case_header_almost_done (v : hl_vars) (p ch : Z) : hl_action :=
  if ch =? LF then Stop (Goto_header_done v p) else Stop (Invalid_header v).

Definition hl_step (v : hl_vars) (p ch : Z) : hl_action :=
  match hl_st v with
  | sw_start => case_start v p ch
  | sw_name => case_name v p ch
  | sw_space_before_value => case_space_before_value v p ch
  | sw_value => case_value v p ch
  | sw_space_after_value => case_space_after_value v p ch
  | sw_ignore_line => case_ignore_line v ch
  | sw_almost_done => case_almost_done v p ch
  | sw_header_almost_done => case_header_almost_done v p ch
  | sw_none _ => Next v
  end.

(** [r->state = state; r->header_hash = hash; r->lowcase_index = i;] *)
Definition hl_save (v : hl_vars) : ngx_http_request_t :=
  (hl_r v) <| state := enum_to_Z (hl_st v) |> <| header_hash := hl_hash v |>
         <| lowcase_index := hl_i v |>.

Definition ngx_http_parse_header_line (r : ngx_http_request_t) (b : ngx_buf_t)
  : Z * ngx_http_request_t * ngx_buf_t :=
  let v := mk_hl (enum_of_Z (state r)) (header_hash r) (lowcase_index r) r in
  match scan hl_step v (pos b) (slice mem (pos b) (last b)) with
  | inl (v, p) => (NGX_AGAIN, hl_save v, b <| pos := p |>)
  | inr (Invalid_header v) => (NGX_HTTP_PARSE_INVALID_HEADER, hl_r v, b)
  | inr (Goto_done v p) => (NGX_OK, hl_save (to sw_start v), b <| pos := p + 1 |>)
  | inr (Goto_header_done v p) =>
      (NGX_HTTP_PARSE_HEADER_DONE, (hl_r v) <| state := enum_to_Z sw_start |>,
       b <| pos := p + 1 |>)
  end.
End Step.

Example header_line_1 :
  let mem := bs "Host:  a b " ++ [CR; LF; "x"] in
  let '(rc, r, b) := ngx_http_parse_header_line mem false new_request (mk_buf 0 14) in
  (rc, header_hash r, take 5 (lowcase_header r), lowcase_index r, header_start r,
   header_end r, pos b)
  = (NGX_OK, ngx_hash_key (bs "host"), bs "host" ++ [0], 4, Some 7, Some 10, 13).
Proof. vm_compute. reflexivity. Qed.

(** ** Resuming after NGX_AGAIN *)

Ltac unfold_hl :=
  unfold hl_step, case_start, case_name, case_space_before_value, case_value,
    case_space_after_value, case_ignore_line, case_almost_done,
    case_header_almost_done.

(** The loop neither reads nor writes the three fields that [hl_save] writes. *)
Definition saved (z h i : Z) (r : ngx_http_request_t) : ngx_http_request_t :=
  r <| state := z |> <| header_hash := h |> <| lowcase_index := i |>.

Definition hl_exit_map (f : hl_vars -> hl_vars) (x : hl_exit) : hl_exit :=
  match x with
  | Invalid_header v => Invalid_header (f v)
  | Goto_done v p => Goto_done (f v) p
  | Goto_header_done v p => Goto_header_done (f v) p
  end.

Section Resume.
Context (mem : bytes) (allow_underscores : bool).

Lemma hl_step_storable v p ch v' :
  storable (hl_st v) -> hl_step mem allow_underscores v p ch = Next v' ->
  storable (hl_st v').
Proof.
  intros Hs. destruct v as [s h i r]; destruct s; unfold_hl; cbn;
    repeat case_match; intros [= <-]; first [reflexivity | assumption].
Qed.

Lemma hl_scan_storable v p l v' p' :
  storable (hl_st v) -> scan (hl_step mem allow_underscores) v p l = inl (v', p') ->
  storable (hl_st v').
Proof.
  intros Hs E.
  pose proof (scan_inv (hl_step mem allow_underscores) (fun v _ => storable (hl_st v))
    (fun _ => True) v p l) as HI.
  rewrite E in HI. apply HI; [|done|done].
  intros v0 q ch v1 H0 _ _ E1. eapply hl_step_storable; eauto.
Qed.

Lemma hl_step_saved z h i v p ch :
  hl_step mem allow_underscores (with_r (saved z h i) v) p ch =
  action_map (with_r (saved z h i)) (hl_exit_map (with_r (saved z h i)))
    (hl_step mem allow_underscores v p ch).
Proof.
  destruct v as [s h0 i0 r]. destruct s; unfold_hl; unfold with_r, to, end_name, put_name, saved; cbn;
    repeat case_match; simplify_eq; reflexivity.
Qed.
End Resume.

(** Parsing a header line that arrives in pieces.  As for the request line, a call
    on the first part of the input followed, after NGX_AGAIN, by a call on the rest is
    one call on the whole: the code is the same, and after NGX_OK and NGX_AGAIN so are
    the whole request, with the hash and the lowered name, and the buffer.  The two
    other codes do not write back the hash and the index (nor, for a bad line, the
    state and the position), which may then differ. *)
Theorem header_line_resume (mem : bytes) (au : bool) (r : ngx_http_request_t)
    (b : ngx_buf_t) (k : Z) :
  0 <= pos b <= k -> k <= last b -> last b <= zlen mem ->
  let '(rc, r1, b1) := ngx_http_parse_header_line mem au r (b <| last := k |>) in
  if rc =? NGX_AGAIN then
    let '(rc2, r2, b2) := ngx_http_parse_header_line mem au r1 (b1 <| last := last b |>) in
    let '(rc3, r3, b3) := ngx_http_parse_header_line mem au r b in
    rc2 = rc3 /\ saved 0 0 0 r2 = saved 0 0 0 r3 /\
    (rc3 = NGX_OK \/ rc3 = NGX_AGAIN -> r2 = r3 /\ b2 = b3) /\
    (rc3 = NGX_HTTP_PARSE_HEADER_DONE -> state r2 = state r3 /\ b2 = b3)
  else ngx_http_parse_header_line mem au r b = (rc, r1, b1 <| last := last b |>).
Proof.
  intros Hk Hl Hm. destruct b as [p0 n]. unfold ngx_http_parse_header_line.
  cbn [pos last update_field] in *.
  rewrite (slice_split mem p0 k n), scan_app by lia.
  destruct (scan _ _ _ (slice mem p0 k)) as [[v p]|[v|v p|v p]] eqn:E; [|done..].
  assert (Hs : storable (hl_st v)) by (eapply hl_scan_storable; [|exact E]; apply storable_of_Z).
  apply scan_inl_pos in E as ->. rewrite zlen_slice by lia.
  replace (p0 + (k - p0)) with k by lia.
  cbn [Z.eqb NGX_AGAIN Pos.eqb pos last].
  pose proof (scan_map (hl_step mem au)
    (with_r (saved (enum_to_Z (hl_st v)) (hl_hash v) (hl_i v)))
    (hl_exit_map (with_r (saved (enum_to_Z (hl_st v)) (hl_hash v) (hl_i v))))
    v k (slice mem k n)) as Hmap.
  replace (mk_hl _ _ _ (hl_save v))
    with (with_r (saved (enum_to_Z (hl_st v)) (hl_hash v) (hl_i v)) v);
    cycle 1.
  { destruct v as [s h i r1]. unfold hl_save, storable in *. cbn in *. by rewrite Hs. }
  rewrite Hmap by (intros; apply hl_step_saved). clear Hmap.
  destruct (scan _ _ _ (slice mem k n)) as [[v2 p2]|[v2|v2 p2|v2 p2]];
    cbn [hl_exit_map]; destruct v2; split_and!; cbn; try done; by intros [].
Qed.

Lemma header_line_resume_witness :
  let mem := bs "Host:  a b " ++ [CR; LF; "x"] in
  let parse := ngx_http_parse_header_line mem false in
  (parse new_request (mk_buf 0 3)).1.1 = NGX_AGAIN /\
  (parse new_request (mk_buf 0 14)).1.1 = NGX_OK /\
  let '(rc, r1, b1) := parse new_request (mk_buf 0 3) in
  if rc =? NGX_AGAIN then
    let '(rc2, r2, b2) := parse r1 (b1 <| last := 14 |>) in
    let '(rc3, r3, b3) := parse new_request (mk_buf 0 14) in
    rc2 = rc3 /\ saved 0 0 0 r2 = saved 0 0 0 r3 /\
    (rc3 = NGX_OK \/ rc3 = NGX_AGAIN -> r2 = r3 /\ b2 = b3) /\
    (rc3 = NGX_HTTP_PARSE_HEADER_DONE -> state r2 = state r3 /\ b2 = b3)
  else parse new_request (mk_buf 0 14) = (rc, r1, b1 <| last := 14 |>).
Proof.
  split; [vm_compute; reflexivity|]. split; [vm_compute; reflexivity|].
  apply (header_line_resume (bs "Host:  a b " ++ [CR; LF; "x"]) false new_request
    (mk_buf 0 14) 3); by_decide.
Defined.
