(* ===== verification/HeaderLineFacts.v ===== *)
(** What an accepted header line is: the invariant of the loop of
    [ngx_http_parse_header_line] and its consequences for the caller. *)
From S2P Require Import Prelude HttpRequest HashKey HeaderLine.

(** ** The lowered name *)

(** The characters a header name may have, and what they are stored as. *)
Definition name_char (au : bool) (c : Z) : bool :=
  negb (at_ lowcase c =? 0) || (au && (c =? "_")).
Definition name_fold (c : Z) : Z :=
  if negb (at_ lowcase c =? 0) then at_ lowcase c else c.

(** [lowcase_header] is a ring of 32 characters: it holds the last ones of [l]. *)
Definition ring (buf l : bytes) : Prop :=
  forall j, 0 <= j < zlen l -> zlen l - 32 <= j -> at_ buf (j mod 32) = at_ l j.

Lemma at_insert (l : bytes) i j c :
  0 <= i < zlen l -> 0 <= j ->
  at_ (<[Z.to_nat i := c]> l) j = if decide (i = j) then c else at_ l j.
Proof.
  intros Hi Hj. unfold at_, rd, zlen in *. rewrite (proj2 (Z.leb_le 0 j)) by lia.
  case_decide as E.
  - subst. rewrite list_lookup_insert_eq by lia. done.
  - rewrite list_lookup_insert_ne by lia. done.
Qed.

Lemma at_app_l (l1 l2 : bytes) j : 0 <= j < zlen l1 -> at_ (l1 ++ l2) j = at_ l1 j.
Proof.
  intros. unfold at_, rd, zlen in *. rewrite (proj2 (Z.leb_le 0 j)) by lia.
  by rewrite lookup_app_l by lia.
Qed.

Lemma at_app_r (l1 l2 : bytes) j : zlen l1 <= j -> at_ (l1 ++ l2) j = at_ l2 (j - zlen l1).
Proof.
  intros. unfold at_. rewrite <- (rd_app_r l1 l2 (j - zlen l1)) by lia. by rewrite Zplus_minus.
Qed.

Lemma ring_put buf l c :
  zlen buf = 32 -> ring buf l ->
  ring (<[Z.to_nat (zlen l mod 32) := c]> buf) (l ++ [c]).
Proof.
  intros Hb Hr j Hj Hj'. autorewrite with zlen in *. pose proof (zlen_nonneg l).
  pose proof (Z.mod_pos_bound (zlen l) 32 ltac:(lia)) as Hm1.
  pose proof (Z.mod_pos_bound j 32 ltac:(lia)) as Hm2.
  rewrite at_insert by lia. case_decide as E.
  - assert (j = zlen l) as ->.
    { pose proof (Z.div_mod j 32 ltac:(lia)).
      pose proof (Z.div_mod (zlen l) 32 ltac:(lia)). lia. }
    by rewrite at_app_r, Z.sub_diag by lia.
  - assert (j <> zlen l) by congruence.
    rewrite at_app_l by lia. apply Hr; lia.
Qed.

Lemma land_31 i : Z.land i (NGX_HTTP_LC_HEADER_LEN - 1) = i mod 32.
Proof. apply (Z.land_ones i 5). lia. Qed.

(** ** The invariant *)

Definition is_text (c : Z) : Prop := c <> CR /\ c <> LF /\ c <> 0.

Section Invariant.
Context (mem : bytes) (au : bool) (a : Z).

(** The name is [[ns, ne)]. *)
Definition name_inv (ns ne : Z) (v : hl_vars) : Prop :=
  a <= ns < ne /\ header_name_start (hl_r v) = Some ns /\
  (invalid_header (hl_r v) = false ->
   let name := slice mem ns ne in
   Forall (fun c => name_char au c = true) name /\
   hl_hash v = ngx_hash_key (name_fold <$> name) /\
   hl_i v = zlen name mod 32 /\
   ring (lowcase_header (hl_r v)) (name_fold <$> name)).

(** What stands between the name and the value: nothing, or a colon and spaces. *)
Definition colon (ne hs : Z) : Prop :=
  at_ mem ne = ":" /\ ne < hs /\ Forall (fun c => c = " ") (slice mem (ne + 1) hs).

(** The value is [[hs, he)]. *)
Definition value_inv (hs he : Z) : Prop :=
  hs <= he /\ Forall is_text (slice mem hs he) /\
  (hs < he -> at_ mem hs <> " " /\ at_ mem (he - 1) <> " ").

Definition line_inv (p : Z) (v : hl_vars) : Prop :=
  exists ns ne hs he,
    name_inv ns ne v /\ header_name_end (hl_r v) = Some ne /\
    header_start (hl_r v) = Some hs /\ header_end (hl_r v) = Some he /\
    ((hs = ne /\ he = ne) \/ colon ne hs) /\ value_inv hs he /\ he <= p /\
    Forall (fun c => c = " " \/ c = CR) (slice mem he p).

(** [name_inv] reads only these. *)
Definition same_name (v w : hl_vars) : Prop :=
  header_name_start (hl_r w) = header_name_start (hl_r v) /\
  invalid_header (hl_r w) = invalid_header (hl_r v) /\
  hl_hash w = hl_hash v /\ hl_i w = hl_i v /\
  lowcase_header (hl_r w) = lowcase_header (hl_r v).

Lemma name_inv_same ns ne v w : same_name v w -> name_inv ns ne v -> name_inv ns ne w.
Proof. intros (E1 & E2 & E3 & E4 & E5). unfold name_inv. by rewrite E1, E2, E3, E4, E5. Qed.

Lemma name_inv_next ns p v w c :
  0 <= a -> rd mem p = Some c -> name_inv ns p v ->
  header_name_start (hl_r w) = header_name_start (hl_r v) ->
  invalid_header (hl_r w) = invalid_header (hl_r v) ->
  name_char au c = true -> zlen (lowcase_header (hl_r v)) = 32 ->
  hl_hash w = ngx_hash (hl_hash v) (name_fold c) ->
  hl_i w = Z.land (hl_i v + 1) (NGX_HTTP_LC_HEADER_LEN - 1) ->
  lowcase_header (hl_r w) = <[Z.to_nat (hl_i v) := name_fold c]> (lowcase_header (hl_r v)) ->
  name_inv ns (p + 1) w.
Proof.
  intros Ha Hc (Hns & Hst & Hn) E1 E2 Hnc Hlen Eh Ei El. unfold name_inv.
  rewrite E1, E2, Eh, Ei, El. split_and!; [lia|lia|done|].
  intros Hinv. destruct (Hn Hinv) as (N1 & N2 & N3 & N4).
  rewrite (slice_snoc _ _ _ c) by (lia || done). cbn.
  rewrite !fmap_app. split_and!.
  - apply Forall_app. split; [done|by constructor].
  - unfold ngx_hash_key. rewrite ngx_hash_from_app, N2. done.
  - autorewrite with zlen. rewrite land_31, N3, Zplus_mod_idemp_l. done.
  - rewrite N3. replace (zlen (slice mem ns p)) with (zlen (name_fold <$> slice mem ns p))
      by (unfold zlen; by rewrite length_fmap). by apply ring_put.
Qed.

Lemma value_inv_next hs p c :
  0 <= hs -> rd mem p = Some c -> value_inv hs p -> hs < p -> is_text c -> c <> " " ->
  value_inv hs (p + 1).
Proof.
  intros H0 Hc (H1 & H2 & H3) Hlt Ht Hsp. split_and!; [lia| |].
  - rewrite (slice_snoc _ _ _ c) by (lia || done). apply Forall_app. split; [done|by constructor].
  - intros _. split; [by apply H3|]. rewrite Z.add_simpl_r. by rewrite (at_rd _ _ _ Hc).
Qed.

Lemma value_inv_empty p : value_inv p p.
Proof. split_and!; [lia|rewrite slice_nil by lia; constructor|lia]. Qed.

(** Spaces inside the value. *)
Lemma value_inv_spaces hs he p c :
  0 <= hs -> rd mem p = Some c -> value_inv hs he -> hs < he <= p ->
  Forall (fun c => c = " ") (slice mem he p) -> is_text c -> c <> " " ->
  value_inv hs (p + 1).
Proof.
  intros H0 Hc (H1 & H2 & H3) Hlt Hs Ht Hsp. split_and!; [lia| |].
  - rewrite (slice_snoc _ _ _ c), (slice_split mem hs he p) by (lia || done).
    rewrite !Forall_app. split_and!; [done| |by constructor].
    eapply Forall_impl; [exact Hs|]. by intros ? ->.
  - intros _. split; [apply H3; lia|]. rewrite Z.add_simpl_r. by rewrite (at_rd _ _ _ Hc).
Qed.

Lemma Forall_slice_next (P : Z -> Prop) b p c :
  0 <= b <= p -> rd mem p = Some c -> P c -> Forall P (slice mem b p) ->
  Forall P (slice mem b (p + 1)).
Proof.
  intros. rewrite (slice_snoc _ _ _ c) by (lia || done). apply Forall_app.
  split; [done|by constructor].
Qed.

Record hl_inv (v : hl_vars) (p : Z) : Prop := {
  inv_a : 0 <= a <= p;
  inv_len : zlen (lowcase_header (hl_r v)) = 32;
  inv_i : 0 <= hl_i v < 32;
  inv_st : match hl_st v with
    | sw_start | sw_ignore_line | sw_header_almost_done => True
    | sw_name => exists ns, name_inv ns p v
    | sw_space_before_value => exists ns ne, name_inv ns ne v /\
        header_name_end (hl_r v) = Some ne /\ colon ne p
    | sw_value => exists ns ne hs, name_inv ns ne v /\
        header_name_end (hl_r v) = Some ne /\ header_start (hl_r v) = Some hs /\
        colon ne hs /\ value_inv hs p /\ hs < p
    | sw_space_after_value => exists ns ne hs he, name_inv ns ne v /\
        header_name_end (hl_r v) = Some ne /\ header_start (hl_r v) = Some hs /\
        header_end (hl_r v) = Some he /\
        colon ne hs /\ value_inv hs he /\ he < p /\ hs < he /\
        Forall (fun c => c = " ") (slice mem he p)
    | sw_almost_done => line_inv p v
    | sw_none _ => False
    end
}.

Lemma name_char_lowcase c : negb (at_ lowcase c =? 0) = true ->
  name_char au c = true /\ name_fold c = at_ lowcase c.
Proof. unfold name_char, name_fold. by intros ->. Qed.

Lemma inv_start v p ch v' :
  hl_inv v p -> hl_st v = sw_start -> rd mem p = Some ch ->
  case_start v p ch = Next v' -> hl_inv v' (p + 1).
Proof.
  intros [Ha Hl Hi _] Hs Hr. destruct v as [s h i r]. unfold case_start. cbn in *.
  case_match; [|case_match; [done|case_match; [|case_match; [done|]]]]; intros [= <-].
  - constructor; cbn; [lia|done|done|done].
  - constructor; cbn; [lia|unfold zlen in *; by rewrite length_insert|lia|].
    exists p. destruct (name_char_lowcase ch) as [N1 N2]; [done|].
    split_and!; [lia|lia|done|]. intros _. cbn. rewrite (slice_one _ _ ch) by (lia || done).
    cbn. rewrite N2. split_and!; [by repeat constructor|done|done|].
    apply (ring_put _ []); [done|]. intros j. change (zlen (@nil Z)) with 0. lia.
  - constructor; cbn; [lia|done|done|]. exists p. split_and!; [lia|lia|done|done].
Qed.

Lemma inv_name v p ch v' :
  hl_inv v p -> hl_st v = sw_name -> rd mem p = Some ch ->
  case_name mem au v p ch = Next v' -> hl_inv v' (p + 1).
Proof.
  intros [Ha Hl Hi Hv] Hs Hr. rewrite Hs in Hv. destruct Hv as [ns Hn].
  destruct v as [s h i r]. unfold case_name, put_name. cbn in *. subst s.
  assert (Hput : forall c, name_char au ch = true -> c = name_fold ch ->
    hl_inv (put_name c (mk_hl sw_name h i r)) (p + 1)).
  { intros c N1 ->. constructor; cbn; [lia|unfold zlen in *; by rewrite length_insert| |].
    - rewrite land_31. apply Z.mod_pos_bound. lia.
    - exists ns. eapply (name_inv_next _ _ _ _ ch (proj1 Ha) Hr Hn); done. }
  assert (Hbad : hl_inv (with_r (fun r => r <| invalid_header := true |>)
                           (mk_hl sw_name h i r)) (p + 1)).
  { constructor; cbn; [lia|done|done|]. exists ns. destruct Hn as (? & ? & _).
    split_and!; [lia|lia|done|done]. }
  case_match eqn:E; [|case_match; [case_match|case_match; [|case_match; [|case_match;
    [done|case_match; [|case_match; [done|]]]]]]]; intros [= <-].
  - destruct (name_char_lowcase ch E). by apply Hput.
  - apply Hput; [|unfold name_fold; by rewrite E]. unfold name_char. rewrite E.
    destruct au; [cbn; lia|done].
  - exact Hbad.
  - constructor; cbn; [lia|done|done|]. exists ns, p. split_and!.
    + eapply name_inv_same; [|exact Hn]. by split_and!.
    + done.
    + split_and!; [rewrite (at_rd _ _ _ Hr); lia|lia|rewrite slice_nil by lia; constructor].
  - constructor; cbn; [lia|done|done|]. exists ns, p, p, p. split_and!.
    + eapply name_inv_same; [|exact Hn]. by split_and!.
    + done.
    + done.
    + done.
    + by left.
    + apply value_inv_empty.
    + lia.
    + rewrite (slice_one _ _ ch) by (lia || done). constructor; [right; lia|constructor].
  - constructor; cbn; [lia|done|done|done].
  - exact Hbad.
Qed.

(** A turn after the name, which does not touch the name. *)
Ltac keep_name :=
  match goal with
  | |- name_inv _ _ _ => eapply name_inv_same; [|eassumption]; by split_and!
  | |- _ => idtac
  end.

Lemma is_text_of ch :
  (ch =? CR) = false -> (ch =? LF) = false -> (ch =? 0) = false -> is_text ch.
Proof. unfold is_text. lia. Qed.

Lemma inv_space_before_value v p ch v' :
  hl_inv v p -> hl_st v = sw_space_before_value -> rd mem p = Some ch ->
  case_space_before_value v p ch = Next v' -> hl_inv v' (p + 1).
Proof.
  intros [Ha Hl Hi Hv] Hs Hr. rewrite Hs in Hv.
  destruct Hv as (ns & ne & Hn & Hne & Hco). pose proof Hco as (Hc1 & Hc2 & Hc3).
  pose proof Hn as (Hns & _).
  destruct v as [s h i r]. unfold case_space_before_value. cbn in *. subst s.
  case_match; [|case_match; [|case_match; [done|case_match; [done|]]]]; intros [= <-].
  all: constructor; cbn; [lia|done|done|].
  - exists ns, ne. split_and!; [done|done|]. split_and!; [done|lia|].
    eapply Forall_slice_next; [lia|done|lia|done].
  - exists ns, ne, p, p. split_and!; keep_name; [done..|by right|apply value_inv_empty|lia|].
    rewrite (slice_one _ _ ch) by (lia || done). constructor; [right; lia|constructor].
  - exists ns, ne, p. split_and!; keep_name; try done; try lia.
    split_and!; [lia| |intros _].
    + rewrite (slice_one _ _ ch) by (lia || done).
      constructor; [by apply is_text_of|constructor].
    + rewrite Z.add_simpl_r, (at_rd _ _ _ Hr). lia.
Qed.

Lemma inv_value v p ch v' :
  hl_inv v p -> hl_st v = sw_value -> rd mem p = Some ch ->
  case_value v p ch = Next v' -> hl_inv v' (p + 1).
Proof.
  intros [Ha Hl Hi Hv] Hs Hr. rewrite Hs in Hv.
  destruct Hv as (ns & ne & hs & Hn & Hne & Hhs & Hco & Hval & Hlt).
  pose proof Hn as (Hns & _). pose proof Hco as (_ & ? & _).
  destruct v as [s h i r]. unfold case_value. cbn in *. subst s.
  case_match; [|case_match; [|case_match; [done|case_match; [done|]]]]; intros [= <-].
  all: constructor; cbn; [lia|done|done|].
  - exists ns, ne, hs, p. split_and!; keep_name; [done..|lia|lia|].
    rewrite (slice_one _ _ ch) by (lia || done). constructor; [lia|constructor].
  - exists ns, ne, hs, p. split_and!; keep_name; [done..|by right|done|lia|].
    rewrite (slice_one _ _ ch) by (lia || done). constructor; [right; lia|constructor].
  - exists ns, ne, hs. split_and!; keep_name; [done..| |lia].
    eapply value_inv_next; [lia|done|done|lia|by apply is_text_of|lia].
Qed.

Lemma inv_space_after_value v p ch v' :
  hl_inv v p -> hl_st v = sw_space_after_value -> rd mem p = Some ch ->
  case_space_after_value v p ch = Next v' -> hl_inv v' (p + 1).
Proof.
  intros [Ha Hl Hi Hv] Hs Hr. rewrite Hs in Hv.
  destruct Hv as (ns & ne & hs & he & Hn & Hne & Hhs & Hhe & Hco & Hval & Hlt & Hlt' & Hsp).
  pose proof Hn as (Hns & _). pose proof Hco as (_ & ? & _).
  destruct v as [s h i r]. unfold case_space_after_value. cbn in *. subst s.
  case_match; [|case_match; [|case_match; [done|case_match; [done|]]]]; intros [= <-].
  all: constructor; cbn; [lia|done|done|].
  - exists ns, ne, hs, he. split_and!; keep_name; [done..|lia|lia|].
    eapply Forall_slice_next; [lia|done|lia|done].
  - exists ns, ne, hs, he. split_and!; keep_name; [done..|by right|done|lia|].
    eapply Forall_slice_next; [lia|done|right; lia|].
    eapply Forall_impl; [exact Hsp|auto].
  - exists ns, ne, hs. split_and!; keep_name; [done..| |lia].
    eapply value_inv_spaces; [lia|done|done|lia|done|by apply is_text_of|lia].
Qed.

Lemma inv_step v p ch v' :
  hl_inv v p -> rd mem p = Some ch -> hl_step mem au v p ch = Next v' -> hl_inv v' (p + 1).
Proof.
  intros Hinv Hr. unfold hl_step. destruct (hl_st v) eqn:Hs.
  - by apply inv_start.
  - by apply inv_name.
  - by apply inv_space_before_value.
  - by apply inv_value.
  - by apply inv_space_after_value.
  - destruct Hinv as [Ha Hl Hi _]. destruct v as [s h i r]. unfold case_ignore_line.
    case_match; intros [= <-]; cbn in *; subst; by constructor; cbn; [lia|..].
  - destruct Hinv as [Ha Hl Hi Hv]. rewrite Hs in Hv.
    destruct Hv as (ns & ne & hs & he & H1 & H2 & H3 & H4 & H5 & H6 & H7 & H8).
    unfold case_almost_done. case_match; [done|]. case_match; [|done]. intros [= <-].
    constructor; [lia|done|done|]. rewrite Hs. exists ns, ne, hs, he.
    pose proof H1 as (? & _).
    assert (ne <= hs) by (destruct H5 as [[]|(_ & ? & _)]; lia).
    destruct H6 as (? & ? & ?). split_and!; try done; try lia.
    eapply Forall_slice_next; [lia|done|right; lia|done].
  - unfold case_header_almost_done. by case_match.
  - by destruct Hinv as [_ _ _ Hv]; rewrite Hs in Hv.
Qed.

Lemma inv_done v p ch v' p' :
  hl_inv v p -> rd mem p = Some ch -> hl_step mem au v p ch = Stop (Goto_done v' p') ->
  p' = p /\ line_inv p v' /\ at_ mem p = LF.
Proof.
  intros [Ha Hl Hi Hv] Hr. destruct v as [s h i r]. unfold hl_step. cbn in *.
  rewrite (at_rd _ _ _ Hr). destruct s; unfold_hl; cbn;
    repeat case_match; try done; intros [= <- <-]; (split_and!; [done| |lia]).
  - destruct Hv as (ns & Hn). exists ns, p, p, p. split_and!; keep_name;
      [done..|by left|apply value_inv_empty|lia|rewrite slice_nil by lia; constructor].
  - destruct Hv as (ns & ne & Hn & Hne & Hco). exists ns, ne, p, p.
    split_and!; keep_name; [done..|by right|apply value_inv_empty|lia|].
    rewrite slice_nil by lia; constructor.
  - destruct Hv as (ns & ne & hs & Hn & Hne & Hhs & Hco & Hval & Hlt).
    exists ns, ne, hs, p. split_and!; keep_name; [done..|by right|done|lia|].
    rewrite slice_nil by lia; constructor.
  - destruct Hv as (ns & ne & hs & he & Hn & Hne & Hhs & Hhe & Hco & Hval & Hlt & Hlt' & Hsp).
    exists ns, ne, hs, he. split_and!; [done..|by right|done|lia|].
    eapply Forall_impl; [exact Hsp|auto].
  - done.
Qed.
End Invariant.

(** ** The header line *)

(** A request whose buffer for the lowered name is in order: [lowcase_header] is an
    array of 32 and [lowcase_index] an index of it. *)
Definition lowcase_ok (r : ngx_http_request_t) : Prop :=
  zlen (lowcase_header r) = 32 /\ 0 <= lowcase_index r < 32.

Definition exit_vars (x : hl_exit) : hl_vars :=
  match x with Invalid_header v | Goto_done v _ | Goto_header_done v _ => v end.

Lemma hl_step_index mem au v p ch :
  let w := match hl_step mem au v p ch with Next v' => v' | Stop x => exit_vars x end in
  lowcase_index (hl_r w) = lowcase_index (hl_r v) /\
  (match hl_step mem au v p ch with
   | Next _ => True
   | Stop _ => hl_i w = hl_i v /\ lowcase_header (hl_r w) = lowcase_header (hl_r v)
   end).
Proof.
  destruct v as [s h i r]; destruct s; unfold_hl; cbn;
    repeat (case_match; cbn); simplify_eq; by split_and!.
Qed.

Lemma header_line_scan mem au r b :
  0 <= pos b <= last b -> last b <= zlen mem -> state r = 0 -> lowcase_ok r ->
  let v := mk_hl sw_start (header_hash r) (lowcase_index r) r in
  match scan (hl_step mem au) v (pos b) (slice mem (pos b) (last b)) with
  | inl (v, p) => zlen (lowcase_header (hl_r v)) = 32 /\ 0 <= hl_i v < 32
  | inr x =>
      lowcase_ok (hl_r (exit_vars x)) /\ 0 <= hl_i (exit_vars x) < 32 /\
      match x with
      | Goto_done v p => p < last b /\ line_inv mem au (pos b) p v /\ at_ mem p = LF
      | _ => True
      end
  end.
Proof.
  intros Hb Hm Hst [Hl Hi] v.
  assert (H0 : hl_inv mem au (pos b) v (pos b)) by (by constructor; cbn; [lia|..]).
  pose proof (scan_inv (hl_step mem au)
    (fun v p => hl_inv mem au (pos b) v p /\ lowcase_index (hl_r v) = lowcase_index r)
    (fun x => lowcase_ok (hl_r (exit_vars x)) /\ 0 <= hl_i (exit_vars x) < 32 /\
      match x with
      | Goto_done v p => p < last b /\ line_inv mem au (pos b) p v /\ at_ mem p = LF
      | _ => True
      end) v (pos b) (slice mem (pos b) (last b))) as HI.
  rewrite zlen_slice in HI by lia.
  assert (HN : forall v1 q ch v2,
    hl_inv mem au (pos b) v1 q /\ lowcase_index (hl_r v1) = lowcase_index r ->
    pos b <= q < pos b + (last b - pos b) ->
    rd (slice mem (pos b) (last b)) (q - pos b) = Some ch ->
    hl_step mem au v1 q ch = Next v2 ->
    hl_inv mem au (pos b) v2 (q + 1) /\ lowcase_index (hl_r v2) = lowcase_index r).
  { intros v1 q ch v2 [Hv Hx] Hq Hrd E. apply rd_slice in Hrd; [|lia..].
    pose proof (hl_step_index mem au v1 q ch) as [Hix _]. rewrite E in Hix.
    split; [by eapply inv_step|by rewrite Hix]. }
  assert (HS : forall v1 q ch x,
    hl_inv mem au (pos b) v1 q /\ lowcase_index (hl_r v1) = lowcase_index r ->
    pos b <= q < pos b + (last b - pos b) ->
    rd (slice mem (pos b) (last b)) (q - pos b) = Some ch ->
    hl_step mem au v1 q ch = Stop x ->
    lowcase_ok (hl_r (exit_vars x)) /\ 0 <= hl_i (exit_vars x) < 32 /\
    match x with
    | Goto_done v p => p < last b /\ line_inv mem au (pos b) p v /\ at_ mem p = LF
    | _ => True
    end).
  { intros v1 q ch x [Hv Hx] Hq Hrd E. apply rd_slice in Hrd; [|lia..].
    pose proof (hl_step_index mem au v1 q ch) as Hix. rewrite E in Hix. cbn in Hix.
    destruct Hix as (I1 & I2 & I3). pose proof Hv as [_ V2 V3 _].
    unfold lowcase_ok. rewrite I1, I2, I3, Hx. split_and!; [done|lia|lia|lia|lia|].
    destruct x as [|v2 p2|]; [done| |done].
    destruct (inv_done mem au (pos b) v1 q ch v2 p2 Hv Hrd E) as (-> & ? & ?).
    split_and!; [lia|done|done]. }
  specialize (HI HN HS (conj H0 eq_refl)).
  destruct (scan _ _ _ _) as [[v' p]|x]; [|exact HI].
  destruct HI as [[_ H1 H2 _] _]. by split.
Qed.

(** C25: what a header line is, when a call at the start of a line returns NGX_OK.
    The line is a name [[ns, ne)], then nothing (the colon may be missing, and the value is
    empty then) or a colon and spaces, then the value
    [[hs, he)], then spaces and carriage returns, then the line feed before the new
    [b->pos].  The value is trimmed and has no line breaks nor NUL.  Unless the header
    is marked invalid, all characters of the name are valid, the hash is that of the
    lowered name, and [lowcase_header] holds the lowered name (its last 32 characters
    when it is longer) with [lowcase_index] its length modulo 32.  The index stays
    inside the array whatever the input. *)
Theorem header_line_ok (mem : bytes) (au : bool) (r : ngx_http_request_t) (b : ngx_buf_t) :
  0 <= pos b <= last b -> last b <= zlen mem -> state r = 0 -> lowcase_ok r ->
  let '(rc, r', b') := ngx_http_parse_header_line mem au r b in
  lowcase_ok r' /\
  (rc = NGX_OK ->
   exists ns ne hs he,
     header_name_start r' = Some ns /\ header_name_end r' = Some ne /\
     header_start r' = Some hs /\ header_end r' = Some he /\
     pos b <= ns < ne /\ he < pos b' <= last b /\
     ((hs = ne /\ he = ne) \/ colon mem ne hs) /\ value_inv mem hs he /\
     Forall (fun c => c = " " \/ c = CR) (slice mem he (pos b' - 1)) /\
     at_ mem (pos b' - 1) = LF /\
     (invalid_header r' = false ->
      let name := slice mem ns ne in
      Forall (fun c => name_char au c = true) name /\
      header_hash r' = ngx_hash_key (name_fold <$> name) /\
      lowcase_index r' = zlen name mod 32 /\
      ring (lowcase_header r') (name_fold <$> name))).
Proof.
  intros Hb Hm Hst Hok. pose proof (header_line_scan mem au r b Hb Hm Hst Hok) as H.
  unfold ngx_http_parse_header_line. rewrite Hst. change (enum_of_Z 0) with sw_start.
  cbv zeta in H |- *.
  destruct (scan _ _ _ _) as [[v p]|[v|v p|v p]]; cbn in H |- *.
  - split; [exact H|done].
  - destruct H as (H & _). split; [exact H|done].
  - destruct H as ([H1 _] & H2 & H3 & (ns & ne & hs & he & Hn & L1 & L2 & L3 & L4 & L5 & L6 & L7) & Hlf).
    split; [by split|]. intros _. exists ns, ne, hs, he.
    destruct Hn as (N1 & N2 & N3). rewrite Z.add_simpl_r.
    split_and!; try done; lia.
  - destruct H as (H & _). split; [exact H|done].
Qed.

(** ** Reading a header line back *)

Section RoundTrip.
Context (mem : bytes) (au : bool).

Abbreviation scan := (scan (hl_step mem au)).

Lemma scan_name_tail name h i r p l :
  Forall (fun c => name_char au c = true) name ->
  exists h' i' lh,
    scan (mk_hl sw_name h i r) p (name ++ l) =
    scan (mk_hl sw_name h' i' (r <| lowcase_header := lh |>)) (p + zlen name) l.
Proof.
  intros Hn. revert h i r p. induction Hn as [|c name Hc _ IH]; intros h i r p.
  - exists h, i, (lowcase_header r). rewrite zlen_nil, Z.add_0_r. by destruct r.
  - cbn [app].
    rewrite (scan_next _ _ _ _ _ (put_name (name_fold c) (mk_hl sw_name h i r))).
    2: { unfold hl_step; cbn [hl_st]. unfold case_name, name_char, name_fold in *.
         destruct (negb (at_ lowcase c =? 0)); [done|]. cbn in Hc.
         apply andb_true_iff in Hc as [-> ->]. done. }
    edestruct (IH (ngx_hash h (name_fold c)) (Z.land (i + 1) (NGX_HTTP_LC_HEADER_LEN - 1))
      (r <| lowcase_header := <[Z.to_nat i := name_fold c]> (lowcase_header r) |>) (p + 1))
      as (h' & i' & lh & E).
    exists h', i', lh. unfold put_name. cbn in E |- *. rewrite E, zlen_cons.
    by rewrite Z.add_assoc.
Qed.

Lemma scan_name_first c h i r p l :
  at_ lowcase c <> 0 ->
  scan (mk_hl sw_start h i r) p (c :: l) =
  scan (mk_hl sw_name (ngx_hash 0 (at_ lowcase c)) 1
    (r <| header_name_start := Some p |> <| invalid_header := false |>
       <| lowcase_header := <[0%nat := at_ lowcase c]> (lowcase_header r) |>)) (p + 1) l.
Proof.
  intros Hf. apply scan_next. unfold hl_step; cbn [hl_st]. unfold case_start.
  assert (c <> CR /\ c <> LF) as [C1%Z.eqb_neq C2%Z.eqb_neq].
  { split; intros ->; apply Hf; reflexivity. }
  rewrite C1, C2. apply Z.eqb_neq in Hf. cbv zeta. by rewrite Hf.
Qed.

Lemma scan_colon h i r p k l :
  scan (mk_hl sw_name h i r) p (":" :: replicate k " " ++ l) =
  scan (mk_hl sw_space_before_value h i (r <| header_name_end := Some p |>))
    (p + 1 + Z.of_nat k) l.
Proof.
  erewrite scan_next; [|reflexivity].
  rewrite scan_run.
  - unfold zlen. by rewrite length_replicate.
  - intros q ch Hch%elem_of_replicate. destruct Hch as [-> _]. done.
Qed.

(** The state after some more of the value. *)
Definition value_state (w : bytes) : hl_state :=
  if decide (List.last w 0 = " ") then sw_space_after_value else sw_value.

Lemma scan_value w st h i r p l :
  st = sw_value \/ st = sw_space_after_value -> Forall is_text w -> w <> [] ->
  exists he, scan (mk_hl st h i r) p (w ++ l) =
    scan (mk_hl (value_state w) h i (r <| header_end := he |>)) (p + zlen w) l.
Proof.
  intros Hst Hw Hne. revert st r p Hst. induction Hw as [|c w Hc Hw IH]; [done|].
  intros st r p Hst.
  assert (Hstep : exists he, hl_step mem au (mk_hl st h i r) p c =
    Next (mk_hl (value_state [c]) h i (r <| header_end := he |>))).
  { destruct Hc as (C1%Z.eqb_neq & C2%Z.eqb_neq & C3%Z.eqb_neq).
    unfold value_state; cbn [List.last].
    destruct Hst as [-> | ->]; unfold hl_step; cbn [hl_st];
      unfold case_value, case_space_after_value; rewrite C1, C2, C3;
      (destruct (Z.eqb_spec c " ") as [->|];
       [rewrite decide_True by done;
        first [by eexists|exists (header_end r); by destruct r]
       |rewrite decide_False by done; exists (header_end r); by destruct r]). }
  destruct Hstep as [he Hstep]. cbn [app]. rewrite (scan_next _ _ _ _ _ _ Hstep).
  destruct w as [|c2 w].
  - exists he. done.
  - destruct (IH ltac:(done) (value_state [c]) (r <| header_end := he |>) (p + 1))
      as [he' E].
    { unfold value_state. case_decide; auto. }
    exists he'. rewrite E. rewrite (zlen_cons c). rewrite Z.add_assoc. by destruct r.
Qed.

Lemma scan_value_line w h i r q l :
  Forall is_text w -> match w with [] => True | c :: _ => c <> " " end ->
  List.last w 0 <> " " ->
  exists v, scan (mk_hl sw_space_before_value h i r) q (w ++ CR :: LF :: l) =
              inr (Goto_done v (q + zlen w + 1)) /\
    hl_r v = r <| header_start := Some q |> <| header_end := Some (q + zlen w) |>.
Proof.
  intros Hw Hf Hl. destruct w as [|c w].
  - rewrite zlen_nil, Z.add_0_r. eexists. split.
    + cbn [app]. erewrite scan_next; [|reflexivity]. by erewrite scan_stop.
    + done.
  - inversion_clear Hw as [|?? (C1%Z.eqb_neq & C2%Z.eqb_neq & C3%Z.eqb_neq) Hw'].
    apply Z.eqb_neq in Hf. cbn [app].
    rewrite (scan_next _ _ _ _ _ (mk_hl sw_value h i (r <| header_start := Some q |>)))
      by (unfold hl_step; cbn [hl_st]; unfold case_space_before_value;
          by rewrite Hf, C1, C2, C3).
    assert (Hend : forall he q, exists v,
      scan (mk_hl sw_value h i (r <| header_start := Some (q - zlen (c :: w)) |>
                                  <| header_end := he |>)) q (CR :: LF :: l) =
        inr (Goto_done v (q + 1)) /\
      hl_r v = r <| header_start := Some (q - zlen (c :: w)) |>
                 <| header_end := Some q |>).
    { intros. eexists. split.
      - erewrite scan_next; [|reflexivity]. by erewrite scan_stop.
      - done. }
    destruct (Hend (header_end r) (q + zlen (c :: w))) as (v & E1 & E2).
    destruct w as [|c2 w].
    + exists v. rewrite <- E1, E2, Z.add_simpl_r. split; [|done]. by destruct r.
    + destruct (scan_value (c2 :: w) sw_value h i (r <| header_start := Some q |>) (q + 1)
        (CR :: LF :: l)) as [he E]; [by left|done|done|]. rewrite E.
      clear v E1 E2. destruct (Hend he (q + zlen (c :: c2 :: w))) as (v & E1 & E2).
      exists v. rewrite Z.add_simpl_r in E1, E2. split; [|done]. rewrite <- E1.
      unfold value_state. rewrite decide_False by done.
      rewrite (zlen_cons c). f_equal. lia.
Qed.
End RoundTrip.

(** A header as text. *)
Record header := mk_header { hd_name : bytes; hd_spaces : nat; hd_value : bytes }.

Definition header_text (t : header) : bytes :=
  hd_name t ++ ":" :: replicate (hd_spaces t) " " ++ hd_value t ++ [CR; LF].

Record header_text_ok (au : bool) (t : header) : Prop := {
  ok_first : match hd_name t with [] => False | c :: _ => at_ lowcase c <> 0 end;
  ok_name : Forall (fun c => name_char au c = true) (hd_name t);
  ok_value : Forall is_text (hd_value t);
  ok_value_first : match hd_value t with [] => True | c :: _ => c <> " " end;
  ok_value_last : List.last (hd_value t) 0 <> " "
}.

(** A well-formed header line is accepted as it is meant: the pointers left in
    the request are those of the name and of the value, the header is not marked
    invalid, the hash is the key of the lowered name, and parsing goes on right after
    the line. *)
Theorem header_line_roundtrip (au : bool) (t : header) (r : ngx_http_request_t)
    (pre rest : bytes) :
  header_text_ok au t -> state r = 0 -> lowcase_ok r ->
  let mem := pre ++ header_text t ++ rest in
  let ns := zlen pre in
  let ne := ns + zlen (hd_name t) in
  let hs := ne + 1 + Z.of_nat (hd_spaces t) in
  exists r',
    ngx_http_parse_header_line mem au r (mk_buf ns (zlen mem)) =
      (NGX_OK, r', mk_buf (ns + zlen (header_text t)) (zlen mem)) /\
    header_name_start r' = Some ns /\ header_name_end r' = Some ne /\
    header_start r' = Some hs /\ header_end r' = Some (hs + zlen (hd_value t)) /\
    invalid_header r' = false /\
    header_hash r' = ngx_hash_key (name_fold <$> hd_name t) /\
    lowcase_index r' = zlen (hd_name t) mod 32.
Proof.
  intros [Hf Hn Hv Hv1 Hv2] Hst Hok mem ns ne hs.
  assert (Hlen : zlen (header_text t) =
    zlen (hd_name t) + (1 + (Z.of_nat (hd_spaces t) + (zlen (hd_value t) + 2)))).
  { unfold header_text. rewrite !zlen_app, !zlen_cons, !zlen_app.
    replace (zlen (replicate _ _)) with (Z.of_nat (hd_spaces t))
      by (unfold zlen; by rewrite length_replicate). done. }
  assert (Hscan : exists v he,
    scan (hl_step mem au) (mk_hl sw_start (header_hash r) (lowcase_index r) r) ns
      (slice mem ns (zlen mem)) = inr (Goto_done v (ns + zlen (header_text t) - 1)) /\
    hl_r v = r <| header_name_start := Some ns |> <| invalid_header := false |>
               <| lowcase_header := lowcase_header (hl_r v) |>
               <| header_name_end := Some ne |> <| header_start := Some hs |>
               <| header_end := Some he |> /\ he = hs + zlen (hd_value t)).
  { destruct (hd_name t) as [|c name] eqn:En; [done|]. inversion_clear Hn as [|?? _ Hn'].
    replace (slice mem ns (zlen mem)) with (header_text t ++ rest)
      by (symmetry; apply slice_to_end).
    unfold header_text. rewrite En. clearbody mem. clear Hok.
    rewrite <- !app_assoc. cbn [app]. rewrite <- !app_assoc. cbn [app].
    rewrite scan_name_first by done.
    match goal with |- context [scan _ (mk_hl sw_name ?h ?i ?r1) ?q (name ++ ?l)] =>
      destruct (scan_name_tail mem au name h i r1 q l Hn') as (h' & i' & lh & E1) end.
    rewrite E1. clear E1.
    rewrite scan_colon.
    replace (ns + 1 + zlen name + 1 + Z.of_nat (hd_spaces t)) with hs
      by (unfold hs, ne, ns; rewrite zlen_cons; lia).
    replace (ns + 1 + zlen name) with ne by (unfold ne, ns; rewrite zlen_cons; lia).
    match goal with |- context [scan _ (mk_hl _ _ _ ?r1) hs _] =>
      destruct (scan_value_line mem au (hd_value t) h' i' r1 hs rest Hv Hv1 Hv2)
        as (v & E1 & E2) end.
    exists v, (hs + zlen (hd_value t)). rewrite E1, E2. split_and!; [|done|done].
    do 2 f_equal. unfold header_text in Hlen. rewrite En in Hlen. cbn [app] in Hlen.
    rewrite Hlen. unfold hs, ne, ns. rewrite zlen_cons. lia. }
  destruct Hscan as (v & he & Hscan & Hr & ->).
  pose proof (header_line_ok mem au r (mk_buf ns (zlen mem))) as Hall.
  unfold ngx_http_parse_header_line in *. rewrite Hst in Hall |- *.
  change (enum_of_Z 0) with sw_start in *. cbn [pos last] in *.
  cbv zeta in Hall |- *. rewrite Hscan in Hall |- *. rewrite Z.sub_add.
  destruct Hall as (_ & Hall); [unfold ns, mem; rewrite zlen_app; pose proof (zlen_nonneg pre);
    pose proof (zlen_nonneg (header_text t ++ rest)); cbn; lia|cbn; lia|done|done|].
  destruct (Hall eq_refl) as (ns' & ne' & hs' & he' & F1 & F2 & F3 & F4 & _ & _ & _ & _ & _ & _ & F5).
  eexists. split; [reflexivity|]. clear Hall.
  assert (invalid_header (hl_r v) = false) by (by rewrite Hr).
  assert (header_name_start (hl_r v) = Some ns) by (by rewrite Hr).
  assert (header_name_end (hl_r v) = Some ne) by (by rewrite Hr).
  change (header_name_start (hl_r v) = Some ns') in F1.
  change (header_name_end (hl_r v) = Some ne') in F2.
  assert (ns' = ns) as -> by congruence. assert (ne' = ne) as -> by congruence.
  assert (Hname : slice mem ns ne = hd_name t).
  { unfold mem, ns, ne, header_text. rewrite <- app_assoc. apply slice_mid. }
  rewrite Hname in F5. destruct (F5 H) as (_ & F6 & F7 & _).
  split_and!; try assumption; [change (header_start (hl_r v) = Some hs)
    |change (header_end (hl_r v) = Some (hs + zlen (hd_value t)))]; by rewrite Hr.
Qed.

Definition sample_header : header := mk_header (bs "Host") 1 (bs "a b").

Lemma header_line_roundtrip_witness :
  exists r',
    ngx_http_parse_header_line (bs "XY" ++ header_text sample_header ++ bs "rest") true
      new_request (mk_buf 2 17) = (NGX_OK, r', mk_buf 13 17) /\
    header_start r' = Some 8 /\ header_end r' = Some 11 /\
    header_hash r' = ngx_hash_key (bs "host").
Proof.
  edestruct (header_line_roundtrip true sample_header new_request (bs "XY") (bs "rest"))
    as (r' & E & _ & _ & H1 & H2 & _ & H3 & _).
  - constructor; unfold is_text; cbn [sample_header hd_name hd_value]; by_decide.
  - reflexivity.
  - unfold lowcase_ok. by_decide.
  - exists r'. split; [exact E|]. split; [exact H1|]. split; [exact H2|].
    rewrite H3. vm_compute. reflexivity.
Defined.

Lemma header_line_ok_witness :
  let mem := bs "A_b:  c " ++ [CR; LF] in
  exists r',
    ngx_http_parse_header_line mem true new_request (mk_buf 0 10) = (NGX_OK, r', mk_buf 10 10) /\
    lowcase_ok r'.
Proof.
  pose proof (header_line_ok (bs "A_b:  c " ++ [CR; LF]) true new_request (mk_buf 0 10)
    ltac:(by_decide) ltac:(by_decide) eq_refl ltac:(unfold lowcase_ok; by_decide)) as H.
  assert (E : exists r', ngx_http_parse_header_line (bs "A_b:  c " ++ [CR; LF]) true
    new_request (mk_buf 0 10) = (NGX_OK, r', mk_buf 10 10)) by (eexists; vm_compute; reflexivity).
  destruct E as [r' E]. rewrite E in H. exists r'. split; [exact E|]. apply H.
Defined.

(** A header whose first character is not a letter, a digit or a dash does not begin a
    new hash nor a new lowered name: it goes on from those of the header before it.
    Here "_b" read after "a" has the hash of "ab". *)
Example header_line_stale_hash :
  let '(_, r1, b1) := ngx_http_parse_header_line (bs "a:1" ++ [LF] ++ bs "_b:2" ++ [LF]) true
    new_request (mk_buf 0 9) in
  let '(rc, r2, _) := ngx_http_parse_header_line (bs "a:1" ++ [LF] ++ bs "_b:2" ++ [LF]) true
    r1 b1 in
  rc = NGX_OK /\ invalid_header r2 = true /\ header_hash r2 = ngx_hash_key (bs "ab").
Proof. vm_compute. done. Qed.
