(* ===== verification/StatusLine.v ===== *)
(** [ngx_http_parse_status_line] (src/http/ngx_http_parse.c): the status line of an
    upstream's response. *)
From S2P Require Import Prelude HttpRequest.

(** [ngx_http_status_t] (src/http/ngx_http.h). *)
Record ngx_http_status_t := mk_status {
  st_code : Z;
  st_count : Z;
  st_start : option Z;
  st_end : option Z
}.
#[export] Instance rebuild_status : Rebuild ngx_http_status_t := fun s =>
  mk_status (st_code s) (st_count s) (st_start s) (st_end s).

Inductive sl_state : Type :=
  | sw_start | sw_H | sw_HT | sw_HTT | sw_HTTP | sw_first_major_digit | sw_major_digit
  | sw_first_minor_digit | sw_minor_digit | sw_status | sw_space_after_status
  | sw_status_text | sw_almost_done
  | sw_none (z : Z).

Definition sl_states : list sl_state :=
  [sw_start; sw_H; sw_HT; sw_HTT; sw_HTTP; sw_first_major_digit; sw_major_digit;
   sw_first_minor_digit; sw_minor_digit; sw_status; sw_space_after_status;
   sw_status_text; sw_almost_done].

Definition sl_to_Z (s : sl_state) : Z :=
  match s with
  | sw_start => 0 | sw_H => 1 | sw_HT => 2 | sw_HTT => 3 | sw_HTTP => 4
  | sw_first_major_digit => 5 | sw_major_digit => 6 | sw_first_minor_digit => 7
  | sw_minor_digit => 8 | sw_status => 9 | sw_space_after_status => 10
  | sw_status_text => 11 | sw_almost_done => 12
  | sw_none z => z
  end.

#[export] Instance sl_enum : StateEnum sl_state.
Proof.
  refine {| enum_list := sl_states; enum_none := sw_none; enum_to_Z := sl_to_Z |}.
  - done.
  - solve_enum_list.
Defined.

Inductive sl_exit : Type :=
  | Return_error (s : ngx_http_status_t)
  | Goto_done (s : ngx_http_status_t) (p : Z).

Abbreviation sl_action := (action (sl_state * ngx_http_status_t) sl_exit).

Definition sl_expect (c : Z) (next : sl_state) (s : ngx_http_status_t) (ch : Z) : sl_action :=
  if ch =? c then Next (next, s) else Stop (Return_error s).

Definition case_first_major_digit (s : ngx_http_status_t) (ch : Z) : sl_action :=
  if (ch <? "1") || ("9" <? ch) then Stop (Return_error s) else Next (sw_major_digit, s).

Definition case_major_digit (s : ngx_http_status_t) (ch : Z) : sl_action :=
  if ch =? "." then Next (sw_first_minor_digit, s)
  else if (ch <? "0") || ("9" <? ch) then Stop (Return_error s)
  else Next (sw_major_digit, s).

Definition case_first_minor_digit (s : ngx_http_status_t) (ch : Z) : sl_action :=
  if (ch <? "0") || ("9" <? ch) then Stop (Return_error s) else Next (sw_minor_digit, s).

Definition case_minor_digit (s : ngx_http_status_t) (ch : Z) : sl_action :=
  if ch =? " " then Next (sw_status, s)
  else if (ch <? "0") || ("9" <? ch) then Stop (Return_error s)
  else Next (sw_minor_digit, s).

Definition case_status (s : ngx_http_status_t) (p ch : Z) : sl_action :=
  if ch =? " " then Next (sw_status, s)
  else if (ch <? "0") || ("9" <? ch) then Stop (Return_error s)
  else
    let s := s <| st_code := u64 (st_code s * 10 + ch - "0") |>
               <| st_count := u64 (st_count s + 1) |> in
    if st_count s =? 3
    then Next (sw_space_after_status, s <| st_start := Some (p - 2) |>)
    else Next (sw_status, s).

Definition case_space_after_status (s : ngx_http_status_t) (p ch : Z) : sl_action :=
  if ch =? " " then Next (sw_status_text, s)
  else if ch =? "." then Next (sw_status_text, s)
  else if ch =? CR then Next (sw_almost_done, s)
  else if ch =? LF then Stop (Goto_done s p)
  else Stop (Return_error s).

Definition case_status_text (s : ngx_http_status_t) (p ch : Z) : sl_action :=
  if ch =? CR then Next (sw_almost_done, s)
  else if ch =? LF then Stop (Goto_done s p)
  else Next (sw_status_text, s).

Definition case_almost_done (s : ngx_http_status_t) (p ch : Z) : sl_action :=
  let s := s <| st_end := Some (p - 1) |> in
  if ch =? LF then Stop (Goto_done s p) else Stop (Return_error s).

Definition sl_step (v : sl_state * ngx_http_status_t) (p ch : Z) : sl_action :=
  let '(st, s) := v in
  match st with
  | sw_start => sl_expect "H" sw_H s ch
  | sw_H => sl_expect "T" sw_HT s ch
  | sw_HT => sl_expect "T" sw_HTT s ch
  | sw_HTT => sl_expect "P" sw_HTTP s ch
  | sw_HTTP => sl_expect "/" sw_first_major_digit s ch
  | sw_first_major_digit => case_first_major_digit s ch
  | sw_major_digit => case_major_digit s ch
  | sw_first_minor_digit => case_first_minor_digit s ch
  | sw_minor_digit => case_minor_digit s ch
  | sw_status => case_status s p ch
  | sw_space_after_status => case_space_after_status s p ch
  | sw_status_text => case_status_text s p ch
  | sw_almost_done => case_almost_done s p ch
  | sw_none z => Next (sw_none z, s)
  end.

Definition ngx_http_parse_status_line (mem : bytes) (r : ngx_http_request_t)
    (b : ngx_buf_t) (status : ngx_http_status_t)
    : Z * ngx_http_request_t * ngx_buf_t * ngx_http_status_t :=
  match scan sl_step (enum_of_Z (state r), status) (pos b) (slice mem (pos b) (last b)) with
  | inl ((st, s), p) => (NGX_AGAIN, r <| state := enum_to_Z st |>, b <| pos := p |>, s)
  | inr (Return_error s) => (NGX_ERROR, r, b, s)
  | inr (Goto_done s p) =>
      let s := match st_end s with None => s <| st_end := Some p |> | Some _ => s end in
      (NGX_OK, r <| state := enum_to_Z sw_start |>, b <| pos := p + 1 |>, s)
  end.

Definition zero_status : ngx_http_status_t := mk_status 0 0 None None.

(** The digits of the code may be apart. *)
Example status_line_spaces :
  let mem := bs "HTTP/1.1 2 0 4" ++ [LF] in
  let '(rc, _, b, s) := ngx_http_parse_status_line mem new_request (mk_buf 0 15) zero_status in
  (rc, b, s) = (NGX_OK, mk_buf 15 15, mk_status 204 3 (Some 11) (Some 14)).
Proof. vm_compute. reflexivity. Qed.

(** ** Resuming after NGX_AGAIN *)

Lemma sl_step_storable v p ch v' :
  storable v.1 -> sl_step v p ch = Next v' -> storable v'.1.
Proof.
  destruct v as [st s]. intros Hs. cbn in Hs.
  destruct st; cbn; unfold sl_expect, case_first_major_digit, case_major_digit,
    case_first_minor_digit, case_minor_digit, case_status, case_space_after_status,
    case_status_text, case_almost_done; cbn;
    repeat case_match; intros [= <-]; first [reflexivity|exact Hs].
Qed.

(** Parsing a status line that arrives in pieces is parsing it at once: the code,
    the status, and, unless the line is bad, the request and the buffer. *)
Theorem status_line_resume (mem : bytes) (r : ngx_http_request_t) (b : ngx_buf_t)
    (s : ngx_http_status_t) (k : Z) :
  0 <= pos b <= k -> k <= last b -> last b <= zlen mem ->
  let '(rc, r1, b1, s1) := ngx_http_parse_status_line mem r (b <| last := k |>) s in
  if rc =? NGX_AGAIN then
    let '(rc2, r2, b2, s2) :=
      ngx_http_parse_status_line mem r1 (b1 <| last := last b |>) s1 in
    let '(rc3, r3, b3, s3) := ngx_http_parse_status_line mem r b s in
    rc2 = rc3 /\ s2 = s3 /\ (rc3 <> NGX_ERROR -> r2 = r3 /\ b2 = b3)
  else ngx_http_parse_status_line mem r b s = (rc, r1, b1 <| last := last b |>, s1).
Proof.
  intros Hk Hl Hm. destruct b as [p0 n]. unfold ngx_http_parse_status_line.
  cbn [pos last update_field] in *.
  rewrite (slice_split mem p0 k n), scan_app by lia.
  destruct (scan _ _ _ (slice mem p0 k)) as [[[st s1] p]|[s1|s1 p]] eqn:E; [|done..].
  assert (Hs : storable st).
  { pose proof (scan_inv sl_step (fun v _ => storable v.1) (fun _ => True)
      (enum_of_Z (state r), s) p0 (slice mem p0 k)) as HI.
    rewrite E in HI. apply HI; [|done|apply storable_of_Z].
    intros v q ch v' ? _ _. by apply sl_step_storable. }
  apply scan_inl_pos in E as ->. rewrite zlen_slice by lia.
  replace (p0 + (k - p0)) with k by lia. cbn [pos last state Z.eqb NGX_AGAIN Pos.eqb].
  rewrite Hs. destruct (scan _ _ _ (slice mem k n)) as [[[st2 s2] p2]|[s2|s2 p2]];
    cbn; split_and!; done.
Qed.

(** ** Reading a status line back *)

Record status_line := mk_status_line {
  sl_major : bytes;
  sl_minor : bytes;
  sl_code : bytes;            (* three digits *)
  sl_text : option bytes      (* what follows the code and a space *)
}.

Definition status_line_text (t : status_line) : bytes :=
  bs "HTTP/" ++ sl_major t ++ "." :: sl_minor t ++ " " :: sl_code t ++
  match sl_text t with None => [] | Some x => " " :: x end ++ [CR; LF].

Record status_line_ok (t : status_line) : Prop := {
  ok_major : match sl_major t with [] => False | d :: _ => d <> "0" end;
  ok_major_digits : Forall (fun c => is_digit c = true) (sl_major t);
  ok_minor : sl_minor t <> [];
  ok_minor_digits : Forall (fun c => is_digit c = true) (sl_minor t);
  ok_code : length (sl_code t) = 3%nat;
  ok_code_digits : Forall (fun c => is_digit c = true) (sl_code t);
  ok_text : match sl_text t with
            | None => True
            | Some x => Forall (fun c => c <> CR /\ c <> LF) x
            end
}.

Lemma sl_scan_http s p l :
  scan sl_step (sw_start, s) p (bs "HTTP/" ++ l) =
  scan sl_step (sw_first_major_digit, s) (p + 5) l.
Proof.
  change (bs "HTTP/" ++ l) with ("H" :: "T" :: "T" :: "P" :: "/" :: l).
  do 5 (erewrite scan_next; [|reflexivity]). f_equal. lia.
Qed.

Lemma sl_scan_digits st s ds p l :
  st = sw_major_digit \/ st = sw_minor_digit ->
  Forall (fun c => is_digit c = true) ds ->
  scan sl_step (st, s) p (ds ++ l) = scan sl_step (st, s) (p + zlen ds) l.
Proof.
  intros Hst Hds. apply scan_run. intros q ch Hch. rewrite Forall_forall in Hds.
  specialize (Hds _ Hch). unfold is_digit in Hds.
  destruct Hst as [-> | ->]; cbn; unfold case_major_digit, case_minor_digit;
    repeat case_match; try done; lia.
Qed.

Lemma sl_scan_version t s p l :
  status_line_ok t ->
  scan sl_step (sw_start, s) p
    (bs "HTTP/" ++ sl_major t ++ "." :: sl_minor t ++ " " :: l) =
  scan sl_step (sw_status, s) (p + 5 + zlen (sl_major t) + 1 + zlen (sl_minor t) + 1) l.
Proof.
  intros [Hm Hmd Hn Hnd _ _ _]. rewrite sl_scan_http.
  destruct (sl_major t) as [|d maj]; [done|]. destruct (sl_minor t) as [|e min]; [done|].
  inversion_clear Hmd as [|?? Hd Hmaj]. inversion_clear Hnd as [|?? He Hmin].
  unfold is_digit in Hd, He. cbn [app].
  rewrite (scan_next _ _ _ _ _ (sw_major_digit, s))
    by (cbn; unfold case_first_major_digit; case_match; [lia|done]).
  rewrite sl_scan_digits by auto.
  erewrite scan_next; [|reflexivity].
  rewrite (scan_next _ _ _ _ _ (sw_minor_digit, s))
    by (cbn; unfold case_first_minor_digit; case_match; [lia|done]).
  rewrite sl_scan_digits by auto.
  erewrite scan_next; [|reflexivity]. f_equal. rewrite !zlen_cons. lia.
Qed.

Lemma sl_scan_code c1 c2 c3 p l :
  Forall (fun c => is_digit c = true) [c1; c2; c3] ->
  scan sl_step (sw_status, zero_status) p ([c1; c2; c3] ++ l) =
  scan sl_step (sw_space_after_status,
    mk_status (digits_val 0 [c1; c2; c3]) 3 (Some p) None) (p + 3) l.
Proof.
  intros H. inversion_clear H as [|?? H1 H']. inversion_clear H' as [|?? H2 H''].
  inversion_clear H'' as [|?? H3 _]. unfold is_digit in *. cbn [app].
  assert (Hstep : forall v n q c, is_digit c = true -> 0 <= v < 100 -> 0 <= n < 2 ->
    sl_step (sw_status, mk_status v n None None) q c =
    Next (sw_status, mk_status (v * 10 + (c - 48)) (n + 1) None None)).
  { intros v n q c Hc Hv Hn. unfold is_digit in Hc. cbn. unfold case_status. cbn.
    rewrite !u64_id by lia. repeat case_match; try lia. repeat f_equal; lia. }
  erewrite scan_next; [|apply Hstep; unfold is_digit; lia].
  erewrite scan_next; [|apply Hstep; unfold is_digit; lia].
  erewrite scan_next; cycle 1.
  { cbn. unfold case_status. cbn. rewrite !u64_id by lia.
    replace (c3 =? 32) with false by lia.
    replace ((c3 <? 48) || (57 <? c3)) with false by lia. reflexivity. }
  unfold digits_val. cbn [fold_left].
  f_equal; [|lia]. f_equal. f_equal; [lia|f_equal; lia].
Qed.

Lemma sl_scan_text t s p l :
  status_line_ok t -> st_end s = None ->
  let x := match sl_text t with None => [] | Some x => " " :: x end in
  scan sl_step (sw_space_after_status, s) p (x ++ CR :: LF :: l) =
  inr (Goto_done (s <| st_end := Some (p + zlen x) |>) (p + zlen x + 1)).
Proof.
  intros [_ _ _ _ _ _ Ht] He x. unfold x. destruct (sl_text t) as [y|]; cycle 1.
  { cbn [app]. erewrite scan_next; [|reflexivity]. erewrite scan_stop; [|reflexivity].
    by rewrite Z.add_simpl_r, Z.add_0_r. }
  cbn [app]. erewrite scan_next; [|reflexivity]. rewrite scan_run.
  - erewrite scan_next; [|reflexivity]. erewrite scan_stop; [|reflexivity].
    rewrite zlen_cons, Z.add_simpl_r, Z.add_assoc. done.
  - intros q ch Hch. rewrite Forall_forall in Ht. destruct (Ht _ Hch).
    cbn. unfold case_status_text. repeat case_match; [lia..|done].
Qed.

(** A well-formed status line is accepted, with the number that its three digits
    are as the code, [start] and [end] around the code and the text, and the position
    right after the line. *)
Theorem status_line_roundtrip (t : status_line) (r : ngx_http_request_t)
    (pre rest : bytes) :
  status_line_ok t -> state r = 0 ->
  let mem := pre ++ status_line_text t ++ rest in
  let e := zlen pre + zlen (status_line_text t) - 2 in
  let x := sl_code t ++ match sl_text t with None => [] | Some x => " " :: x end in
  ngx_http_parse_status_line mem r (mk_buf (zlen pre) (zlen mem)) zero_status =
    (NGX_OK, r <| state := 0 |>, mk_buf (e + 2) (zlen mem),
     mk_status (digits_val 0 (sl_code t)) 3 (Some (e - zlen x)) (Some e)).
Proof.
  intros Hok Hst mem e x. unfold ngx_http_parse_status_line. rewrite Hst. cbn [pos last].
  replace (slice mem _ _) with (status_line_text t ++ rest) by (symmetry; apply slice_to_end).
  change (enum_of_Z 0) with sw_start. clearbody mem.
  assert (He : e = zlen pre + 5 + zlen (sl_major t) + 1 + zlen (sl_minor t) + 1 + zlen x).
  { unfold e, x, status_line_text. autorewrite with zlen. change (zlen (bs "HTTP/")) with 5. lia. }
  clearbody e. unfold status_line_text.
  repeat (rewrite <- !app_assoc; cbn [app]). rewrite sl_scan_version by done.
  destruct Hok as [? ? ? ? Hlen Hcode ?] eqn:E; clear E.
  unfold x in *; clear x.
  destruct (sl_code t) as [|c1 [|c2 [|c3 [|]]]] eqn:Ec; try done.
  rewrite sl_scan_code by done. rewrite sl_scan_text by done.
  rewrite (zlen_app [c1; c2; c3]) in *. change (zlen [c1; c2; c3]) with 3 in *.
  cbn. f_equal; [f_equal; f_equal; lia|f_equal; f_equal; lia].
Qed.

Definition sample_status : status_line :=
  mk_status_line (bs "1") (bs "1") (bs "404") (Some (bs "Not Found")).

Lemma status_line_roundtrip_witness :
  ngx_http_parse_status_line ([7] ++ status_line_text sample_status ++ bs "x") new_request
    (mk_buf 1 26) zero_status =
    (NGX_OK, new_request <| state := 0 |>, mk_buf 25 26, mk_status 404 3 (Some 10) (Some 23)).
Proof.
  refine (status_line_roundtrip sample_status new_request [7] (bs "x") _ eq_refl).
  constructor; cbn [sample_status sl_major sl_minor sl_code sl_text]; by_decide.
Defined.

Lemma status_line_resume_witness :
  let mem := status_line_text sample_status in
  let parse := ngx_http_parse_status_line mem in
  let '(rc, r1, b1, s1) := parse new_request (mk_buf 0 11) zero_status in
  if rc =? NGX_AGAIN then
    let '(rc2, r2, b2, s2) := parse r1 (b1 <| last := 24 |>) s1 in
    let '(rc3, r3, b3, s3) := parse new_request (mk_buf 0 24) zero_status in
    rc2 = rc3 /\ s2 = s3 /\ (rc3 <> NGX_ERROR -> r2 = r3 /\ b2 = b3)
  else parse new_request (mk_buf 0 24) zero_status = (rc, r1, b1 <| last := 24 |>, s1).
Proof.
  apply (status_line_resume (status_line_text sample_status) new_request (mk_buf 0 24)
    zero_status 11); by_decide.
Defined.
