(* ===== verification/CString.v ===== *)
(** Byte-string functions of src/core/ngx_string.c: copying, comparison without case,
    search.

    A pointer into a string is the list of the bytes from there on; past the end of
    the list the code reads the terminating NUL ([hd 0]).  [NULL] is [None]. *)
From S2P Require Import Prelude HashKey.

(** [*s++] *)
Definition ch_ (s : bytes) : Z := List.hd 0 s.
Definition next_ (s : bytes) : bytes := List.tl s.

(** ** Copying *)

Fixpoint ngx_strlow (src : bytes) (n : nat) : bytes :=
  match n with
  | O => []
  | S n => ngx_tolower (ch_ src) :: ngx_strlow (next_ src) n
  end.

(** The bytes written to [dst]; the result is a pointer to the last of them when there
    is one. *)
Fixpoint cpystrn_loop (src : bytes) (n : nat) : bytes :=
  match n with
  | O => [0]
  | S n => if ch_ src =? 0 then [0] else ch_ src :: cpystrn_loop (next_ src) n
  end.

Definition ngx_cpystrn (src : bytes) (n : nat) : bytes * Z :=
  match n with
  | O => ([], 0)
  | S n => let w := cpystrn_loop src n in (w, zlen w - 1)
  end.

(** ** Comparison *)

Fixpoint ngx_strcasecmp (s1 s2 : bytes) : Z :=
  let c1 := ngx_tolower (ch_ s1) in
  let c2 := ngx_tolower (ch_ s2) in
  if c1 =? c2 then
    if negb (c1 =? 0) then
      match s1 with
      | [] => 0                    (* not reached: [c1] is 0 *)
      | _ :: s1 => ngx_strcasecmp s1 (next_ s2)
      end
    else 0
  else s64 (c1 - c2).

Fixpoint ngx_strncasecmp (s1 s2 : bytes) (n : nat) : Z :=
  match n with
  | O => 0
  | S n =>
      let c1 := ngx_tolower (ch_ s1) in
      let c2 := ngx_tolower (ch_ s2) in
      if c1 =? c2 then
        if negb (c1 =? 0) then ngx_strncasecmp (next_ s1) (next_ s2) n else 0
      else s64 (c1 - c2)
  end.

(** [strncmp] of the C library. *)
Fixpoint strncmp (s1 s2 : bytes) (n : nat) : Z :=
  match n with
  | O => 0
  | S n =>
      if ch_ s1 =? ch_ s2 then
        if ch_ s1 =? 0 then 0 else strncmp (next_ s1) (next_ s2) n
      else ch_ s1 - ch_ s2
  end.

(** [memcmp] of the C library. *)
Fixpoint memcmp (s1 s2 : bytes) (n : nat) : Z :=
  match n with
  | O => 0
  | S n => if ch_ s1 =? ch_ s2 then memcmp (next_ s1) (next_ s2) n else ch_ s1 - ch_ s2
  end.

(** The loop of the two functions that compare from the end: [n] is one more than the
    index. *)
Fixpoint rcmp (fold : Z -> Z) (s1 s2 : bytes) (n : nat) : Z :=
  match n with
  | O => 0
  | S i =>
      let c1 := fold (at_ s1 (Z.of_nat i)) in
      let c2 := fold (at_ s2 (Z.of_nat i)) in
      if negb (c1 =? c2) then c1 - c2 else rcmp fold s1 s2 i
  end.

Definition ngx_rstrncmp (s1 s2 : bytes) (n : nat) : Z := rcmp (fun c => c) s1 s2 n.

(** [if (c1 >= 'a' && c1 <= 'z') c1 -= 'a' - 'A';] *)
Definition upper (c : Z) : Z :=
  if ("a" <=? c) && (c <=? "z") then u8 (c - ("a" - "A")) else c.

Definition ngx_rstrncasecmp (s1 s2 : bytes) (n : nat) : Z := rcmp upper s1 s2 n.

Definition ngx_memn2cmp (s1 s2 : bytes) (n1 n2 : Z) : Z :=
  let '(n, z) := if n1 <=? n2 then (n1, -1) else (n2, 1) in
  let m := memcmp s1 s2 (Z.to_nat n) in
  if negb (m =? 0) || (n1 =? n2) then m else z.

Fixpoint ngx_dns_strcmp (s1 s2 : bytes) : Z :=
  let c1 := ngx_tolower (ch_ s1) in
  let c2 := ngx_tolower (ch_ s2) in
  if c1 =? c2 then
    if negb (c1 =? 0) then
      match s1 with
      | [] => 0
      | _ :: s1 => ngx_dns_strcmp s1 (next_ s2)
      end
    else 0
  else
    let c1 := if c1 =? "." then " " else c1 in
    let c2 := if c2 =? "." then " " else c2 in
    s64 (c1 - c2).

(** ** Search *)

(** [s1] is a pointer into [[s1, last)], of which [len] bytes are left. *)
Fixpoint ngx_strlchr (s : bytes) (len : nat) (c : Z) : option bytes :=
  match len with
  | O => None
  | S len => if ch_ s =? c then Some s else ngx_strlchr (next_ s) len c
  end.

(** The two nested loops are one: go on until the first character matches, and the
    rest after it.  [s2] is the string searched, [c2] its first character, [t2] the
    others. *)
Fixpoint strnstr_loop (s1 : bytes) (c2 : Z) (t2 : bytes) (n : Z) (len : nat) : option bytes :=
  match len with
  | O => None
  | S len =>
      let c1 := ch_ s1 in
      if c1 =? 0 then None
      else if negb (c1 =? c2) then strnstr_loop (next_ s1) c2 t2 n len
      else if Z.of_nat len <? n then None
      else if strncmp (next_ s1) t2 (Z.to_nat n) =? 0 then Some s1
      else strnstr_loop (next_ s1) c2 t2 n len
  end.

Definition ngx_strnstr (s1 s2 : bytes) (len : nat) : option bytes :=
  strnstr_loop s1 (ch_ s2) (next_ s2) (zlen (next_ s2)) len.

Fixpoint strstrn_loop (s1 : bytes) (c2 : Z) (t2 : bytes) (n : nat) : option bytes :=
  match s1 with
  | [] => None
  | c1 :: t1 =>
      if c1 =? 0 then None
      else if negb (c1 =? c2) then strstrn_loop t1 c2 t2 n
      else if strncmp t1 t2 n =? 0 then Some s1
      else strstrn_loop t1 c2 t2 n
  end.

Definition ngx_strstrn (s1 s2 : bytes) (n : nat) : option bytes :=
  strstrn_loop s1 (ch_ s2) (next_ s2) n.

Fixpoint strcasestrn_loop (s1 : bytes) (c2 : Z) (t2 : bytes) (n : nat) : option bytes :=
  match s1 with
  | [] => None
  | c1 :: t1 =>
      if c1 =? 0 then None
      else if negb (ngx_tolower c1 =? c2) then strcasestrn_loop t1 c2 t2 n
      else if ngx_strncasecmp t1 t2 n =? 0 then Some s1
      else strcasestrn_loop t1 c2 t2 n
  end.

Definition ngx_strcasestrn (s1 s2 : bytes) (n : nat) : option bytes :=
  strcasestrn_loop s1 (ngx_tolower (ch_ s2)) (next_ s2) n.

(** [k] is [last - n - s1]. *)
Fixpoint strlcasestrn_loop (s1 : bytes) (k : nat) (c2 : Z) (t2 : bytes) (n : nat)
  : option bytes :=
  match k with
  | O => None
  | S k =>
      if negb (ngx_tolower (ch_ s1) =? c2) then strlcasestrn_loop (next_ s1) k c2 t2 n
      else if ngx_strncasecmp (next_ s1) t2 n =? 0 then Some s1
      else strlcasestrn_loop (next_ s1) k c2 t2 n
  end.

(** [len] is [last - s1], [n] the length of [s2] less one. *)
Definition ngx_strlcasestrn (s1 : bytes) (len : Z) (s2 : bytes) (n : nat) : option bytes :=
  strlcasestrn_loop s1 (Z.to_nat (len - Z.of_nat n)) (ngx_tolower (ch_ s2)) (next_ s2) n.

(** ** Properties of comparison *)

(** The bytes of a C string, before the NUL. *)
Definition no_nul (s : bytes) : Prop := Forall (fun c => 0 < c < 256) s.

Lemma no_nul_cons c s : no_nul (c :: s) <-> (0 < c < 256) /\ no_nul s.
Proof. unfold no_nul. by rewrite Forall_cons. Qed.

Lemma tolower_range c : is_u_char c -> (ngx_tolower c = 0 <-> c = 0).
Proof. intros Hc. by_byte c Hc. Qed.

(** Two characters of NUL-terminated strings that are not the same when lowered. *)
Lemma sub_nonzero c1 c2 :
  is_u_char c1 -> is_u_char c2 -> c1 <> c2 -> s64 (c1 - c2) <> 0 /\
  s64 (c1 - c2) = - s64 (c2 - c1).
Proof. intros [] [] ?. rewrite !s64_id by lia. lia. Qed.

Lemma ch_u_char s : no_nul s -> is_u_char (ch_ s).
Proof. destruct 1; split; cbn; lia. Qed.

Lemma next_no_nul s : no_nul s -> no_nul (next_ s).
Proof. destruct 1; [constructor|done]. Qed.

Lemma ch_zero s : no_nul s -> ch_ s = 0 <-> s = [].
Proof. destruct 1; cbn; split; intros; try done; lia. Qed.

Lemma strncasecmp_zero s1 s2 n :
  no_nul s1 -> no_nul s2 ->
  ngx_strncasecmp s1 s2 n = 0 <-> ngx_tolower <$> take n s1 = ngx_tolower <$> take n s2.
Proof.
  revert s1 s2. induction n as [|n IH]; intros s1 s2 H1 H2; [done|]. cbn [ngx_strncasecmp].
  pose proof (ch_u_char _ H1) as U1. pose proof (ch_u_char _ H2) as U2.
  destruct (Z.eqb_spec (ngx_tolower (ch_ s1)) (ngx_tolower (ch_ s2))) as [E|E].
  - destruct (Z.eqb_spec (ngx_tolower (ch_ s1)) 0) as [E0|E0]; cbn [negb].
    + rewrite E0 in E. symmetry in E.
      apply (tolower_range _ U1) in E0. apply (tolower_range _ U2) in E.
      apply (ch_zero _ H1) in E0. apply (ch_zero _ H2) in E. by subst.
    + rewrite IH by (by apply next_no_nul).
      destruct s1 as [|c1 s1]; [done|]. destruct s2 as [|c2 s2].
      { apply (tolower_range _ U1) in E. apply no_nul_cons in H1. cbn in E. lia. }
      cbn in E |- *. rewrite E. split; [congruence|]. intros [= ?]. done.
  - split.
    + apply sub_nonzero in E as [? _]; [done|by apply ngx_tolower_byte..].
    + destruct s1 as [|c1 s1], s2 as [|c2 s2]; cbn in *; congruence.
Qed.

Lemma strcasecmp_strncasecmp s1 s2 n :
  (length s1 < n)%nat -> ngx_strcasecmp s1 s2 = ngx_strncasecmp s1 s2 n.
Proof.
  revert s2 n. induction s1 as [|c1 s1 IH]; intros s2 n Hn; (destruct n as [|n]; [simpl in Hn; lia|]).
  - cbn - [ngx_tolower]. change (ngx_tolower 0) with 0. cbn [negb Z.eqb].
    by destruct (Z.eqb_spec 0 (ngx_tolower (ch_ s2))).
  - cbn - [ngx_tolower]. rewrite (IH (next_ s2) n) by (simpl in Hn; lia). done.
Qed.

Lemma rcmp_zero fold s1 s2 n :
  (n <= length s1)%nat -> (n <= length s2)%nat ->
  rcmp fold s1 s2 n = 0 <-> fold <$> take n s1 = fold <$> take n s2.
Proof.
  induction n as [|n IH]; intros H1 H2; [done|]. cbn [rcmp].
  destruct (lookup_lt_is_Some_2 s1 n) as [c1 E1]; [lia|].
  destruct (lookup_lt_is_Some_2 s2 n) as [c2 E2]; [lia|].
  rewrite (take_S_r _ _ _ E1), (take_S_r _ _ _ E2), !fmap_app. cbn.
  assert (A1 : at_ s1 (Z.of_nat n) = c1) by (apply at_rd; unfold rd; decide_if; by rewrite Nat2Z.id).
  assert (A2 : at_ s2 (Z.of_nat n) = c2) by (apply at_rd; unfold rd; decide_if; by rewrite Nat2Z.id).
  rewrite A1, A2. destruct (Z.eqb_spec (fold c1) (fold c2)) as [E|E]; cbn [negb].
  - rewrite IH by lia. rewrite E. split; [by intros ->|]. intros H.
    apply app_inj_tail in H. naive_solver.
  - split; [lia|]. intros H. apply app_inj_tail in H as [_ H]. congruence.
Qed.

Lemma memcmp_zero s1 s2 n :
  (n <= length s1)%nat -> (n <= length s2)%nat ->
  memcmp s1 s2 n = 0 <-> take n s1 = take n s2.
Proof.
  revert s1 s2. induction n as [|n IH]; intros s1 s2 H1 H2; [done|].
  destruct s1 as [|c1 s1], s2 as [|c2 s2]; cbn in *; try lia.
  destruct (Z.eqb_spec c1 c2) as [->|E].
  - rewrite IH by lia. split; congruence.
  - split; [lia|congruence].
Qed.

(** In [ngx_dns_strcmp] a dot counts as a space, so a space must not be there. *)
Definition dns_key (c : Z) : Z := if ngx_tolower c =? "." then " " else ngx_tolower c.

Lemma dns_key_inj c1 c2 :
  is_u_char c1 -> is_u_char c2 -> c1 <> " " -> c2 <> " " ->
  dns_key c1 = dns_key c2 -> ngx_tolower c1 = ngx_tolower c2.
Proof.
  intros U1 U2 N1 N2.
  assert (K : forall c, is_u_char c -> c <> " " -> ngx_tolower c <> " ").
  { intros c Hc. by_byte c Hc. }
  specialize (K _ U1 N1) as K1. specialize (K _ U2 N2) as K2. unfold dns_key.
  destruct (Z.eqb_spec (ngx_tolower c1) "."), (Z.eqb_spec (ngx_tolower c2) "."); congruence.
Qed.

Lemma ch_ne_space s : " " ∉ s -> ch_ s <> " ".
Proof. destruct s; cbn; [done|]. set_solver. Qed.

Lemma next_not_in (c : Z) s : c ∉ s -> c ∉ next_ s.
Proof. destruct s; cbn; [done|]. set_solver. Qed.

Lemma dns_strcmp_zero s1 s2 :
  no_nul s1 -> no_nul s2 -> (" " ∉ s1) -> (" " ∉ s2) ->
  ngx_dns_strcmp s1 s2 = 0 <-> ngx_strcasecmp s1 s2 = 0.
Proof.
  revert s2. induction s1 as [|c1 s1 IH]; intros s2 H1 H2 N1 N2.
  all: pose proof (ch_u_char _ H1) as U1; pose proof (ch_u_char _ H2) as U2.
  all: pose proof (ch_ne_space _ N1) as S1; pose proof (ch_ne_space _ N2) as S2.
  all: pose proof (dns_key_inj _ _ U1 U2 S1 S2) as Hinj; unfold dns_key in Hinj.
  all: cbn [ngx_dns_strcmp ngx_strcasecmp].
  all: match goal with |- context [if ?x =? ?y then _ else s64 _] =>
         destruct (Z.eqb_spec x y) as [E|E] end.
  1: reflexivity.
  2: { destruct (negb _); [|reflexivity]. apply IH; [by apply next_no_nul in H1|by apply next_no_nul|
         by apply next_not_in in N1|by apply next_not_in]. }
  all: pose proof (ngx_tolower_byte _ U1) as [V1 V1']; pose proof (ngx_tolower_byte _ U2) as [V2 V2'].
  all: assert (Hne : forall x y : Z, 0 <= x < 256 -> 0 <= y < 256 -> x <> y -> s64 (x - y) <> 0)
    by (intros; rewrite s64_id by lia; lia).
  all: split; intros H; exfalso; revert H; apply Hne; try lia.
  all: try (intros H; apply E, Hinj, H).
  all: repeat match goal with |- context [if ?b then _ else _] => destruct b end; lia.
Qed.

(** The order of [ngx_memn2cmp]: bytewise, a prefix first. *)
Fixpoint lex (s1 s2 : bytes) : comparison :=
  match s1, s2 with
  | [], [] => Eq
  | [], _ => Lt
  | _, [] => Gt
  | c1 :: s1, c2 :: s2 => if c1 =? c2 then lex s1 s2 else c1 ?= c2
  end.

Lemma memn2cmp_cons c1 c2 s1 s2 :
  ngx_memn2cmp (c1 :: s1) (c2 :: s2) (zlen (c1 :: s1)) (zlen (c2 :: s2)) =
  if c1 =? c2 then ngx_memn2cmp s1 s2 (zlen s1) (zlen s2) else c1 - c2.
Proof.
  pose proof (zlen_nonneg s1). pose proof (zlen_nonneg s2).
  unfold ngx_memn2cmp. rewrite !zlen_cons.
  replace (1 + zlen s1 =? 1 + zlen s2) with (zlen s1 =? zlen s2)
    by (destruct (Z.eqb_spec (zlen s1) (zlen s2)), (Z.eqb_spec (1 + zlen s1) (1 + zlen s2)); lia).
  replace (1 + zlen s1 <=? 1 + zlen s2) with (zlen s1 <=? zlen s2)
    by (destruct (Z.leb_spec (zlen s1) (zlen s2)), (Z.leb_spec (1 + zlen s1) (1 + zlen s2)); lia).
  destruct (zlen s1 <=? zlen s2);
    match goal with |- context [Z.to_nat (1 + ?x)] =>
      replace (Z.to_nat (1 + x)) with (S (Z.to_nat x)) by lia end;
    cbn [memcmp]; unfold ch_, next_; cbn [List.hd List.tl];
    (destruct (Z.eqb_spec c1 c2); [done|destruct (Z.eqb_spec (c1 - c2) 0); [lia|done]]).
Qed.

Lemma memn2cmp_lex s1 s2 :
  (ngx_memn2cmp s1 s2 (zlen s1) (zlen s2) ?= 0) = lex s1 s2.
Proof.
  revert s2. induction s1 as [|c1 s1 IH]; intros [|c2 s2]; [done|done|done|].
  rewrite memn2cmp_cons. cbn [lex]. destruct (Z.eqb_spec c1 c2); [apply IH|].
  destruct (Z.compare_spec c1 c2), (Z.compare_spec (c1 - c2) 0); (done || lia).
Qed.

(** What the comparisons decide, on strings without NULs (those with a length may
    have any byte).  The case-insensitive ones are 0 exactly on strings that are the
    same when lowered; the ones from the end exactly when the [n] characters are the
    same (up to case); [ngx_memn2cmp] is the lexicographic order, in which a prefix
    comes first; [ngx_dns_strcmp] is 0 exactly when [ngx_strcasecmp] is, on strings
    without spaces, and puts a dot before every other character of a host name. *)
Theorem string_comparisons s1 s2 :
  no_nul s1 -> no_nul s2 ->
  (ngx_strcasecmp s1 s2 = 0 <-> ngx_tolower <$> s1 = ngx_tolower <$> s2) /\
  (forall n, ngx_strncasecmp s1 s2 n = 0 <->
             ngx_tolower <$> take n s1 = ngx_tolower <$> take n s2) /\
  (forall n, (n <= length s1)%nat -> (n <= length s2)%nat ->
     (ngx_rstrncmp s1 s2 n = 0 <-> take n s1 = take n s2) /\
     (ngx_rstrncasecmp s1 s2 n = 0 <-> upper <$> take n s1 = upper <$> take n s2)) /\
  (ngx_memn2cmp s1 s2 (zlen s1) (zlen s2) ?= 0) = lex s1 s2 /\
  ((" " ∉ s1) -> (" " ∉ s2) -> ngx_dns_strcmp s1 s2 = 0 <-> ngx_strcasecmp s1 s2 = 0) /\
  (forall c t, is_u_char c -> " " < c -> c <> "." ->
     ngx_dns_strcmp ("." :: s1) (c :: t) < 0).
Proof.
  intros H1 H2. split_and!.
  - rewrite (strcasecmp_strncasecmp s1 s2 (S (length s1 + length s2))) by lia.
    rewrite strncasecmp_zero by done. by rewrite !take_ge by lia.
  - intros n. by apply strncasecmp_zero.
  - intros n L1 L2. split.
    + unfold ngx_rstrncmp. rewrite rcmp_zero by done. by rewrite !list_fmap_id.
    + by apply rcmp_zero.
  - apply memn2cmp_lex.
  - intros. by apply dns_strcmp_zero.
  - intros c t Hc H32 Hdot. cbn [ngx_dns_strcmp]. unfold ch_, next_. cbn [List.hd List.tl].
    assert (Hk : ngx_tolower "." <> ngx_tolower c /\ " " < ngx_tolower c /\ ngx_tolower c <> ".")
      by (revert H32 Hdot; by_byte c Hc).
    destruct Hk as (K1 & K2 & K3). pose proof (ngx_tolower_byte _ Hc) as [V1 V2].
    apply Z.eqb_neq in K1, K3. rewrite K1, K3. change (ngx_tolower "." =? ".") with true.
    cbn iota. rewrite s64_id by lia. lia.
Qed.

Lemma string_comparisons_witness :
  ngx_strcasecmp (bs "Content-Type") (bs "content-type") = 0 /\
  ngx_memn2cmp (bs "ab") (bs "abc") 2 3 < 0.
Proof.
  destruct (string_comparisons (bs "Content-Type") (bs "content-type")) as (H & _);
    [unfold no_nul; by_decide..|].
  destruct (string_comparisons (bs "ab") (bs "abc")) as (_ & _ & _ & H' & _);
    [unfold no_nul; by_decide..|].
  split; [apply H; vm_compute; reflexivity|].
  apply (proj1 (Z.compare_lt_iff _ _)). etransitivity; [exact H'|vm_compute; reflexivity].
Defined.

(** ** Properties of search *)

(** The reference: the first of [k] positions at which the test holds. *)
Fixpoint search (test : bytes -> bool) (s : bytes) (k : nat) : option bytes :=
  match k with
  | O => None
  | S k => if test s then Some s else search test (List.tl s) k
  end.

Lemma search_Some test s k s' :
  search test s k = Some s' <->
  exists j, (j < k)%nat /\ s' = drop j s /\ test s' = true /\
            forall i, (i < j)%nat -> test (drop i s) = false.
Proof.
  revert s. induction k as [|k IH]; intros s; simpl.
  - split; [done|]. intros (j & ? & _). lia.
  - destruct (test s) eqn:E.
    + split.
      * intros [= <-]. exists O. rewrite drop_0. split_and!; [lia|done|done|lia].
      * intros (j & _ & -> & _ & Hmin). destruct j as [|j]; [by rewrite drop_0|].
        specialize (Hmin O ltac:(lia)). rewrite drop_0 in Hmin. congruence.
    + rewrite IH. split; intros (j & Hj & -> & Ht & Hmin).
      * exists (S j). destruct s as [|c s]; simpl in *; rewrite ?drop_nil in *.
        -- split_and!; [lia|done|done|]. intros i. rewrite drop_nil. done.
        -- split_and!; [lia|done|done|]. intros [|i] ?; [done|]. apply Hmin. lia.
      * destruct j as [|j]; [rewrite drop_0 in Ht; congruence|].
        exists j. destruct s as [|c s]; simpl in *; rewrite ?drop_nil in *; [congruence|].
        split_and!; [lia|done|done|]. intros i ?. apply (Hmin (S i)). lia.
Qed.

Lemma search_None test s k :
  search test s k = None <-> forall i, (i < k)%nat -> test (drop i s) = false.
Proof.
  revert s. induction k as [|k IH]; intros s; simpl.
  - split; [lia|done].
  - destruct (test s) eqn:E.
    + split; [done|]. intros H. specialize (H O ltac:(lia)). rewrite drop_0 in H. congruence.
    + rewrite IH. split.
      * intros H [|i] Hi; [by rewrite drop_0|]. specialize (H i).
        destruct s; simpl in *; rewrite ?drop_nil in *; apply H; lia.
      * intros H i Hi. specialize (H (S i)).
        destruct s; simpl in *; rewrite ?drop_nil in *; apply H; lia.
Qed.

(** [s2] stands at the beginning of [s]; up to case in the second one. *)
Definition starts (s2 s : bytes) : bool := bool_decide (take (length s2) s = s2).
Definition starts_ci (s2 s : bytes) : bool :=
  bool_decide (ngx_tolower <$> take (length s2) s = ngx_tolower <$> s2).

(** A character is found at its first place. *)
Lemma strlchr_found s c rest n :
  (c ∉ s) -> (length s < n)%nat -> ngx_strlchr (s ++ c :: rest) n c = Some (c :: rest).
Proof.
  revert n. induction s as [|d s IH]; intros n Hc Hn; (destruct n as [|n]; [simpl in Hn; lia|]).
  - cbn. by rewrite Z.eqb_refl.
  - cbn. destruct (Z.eqb_spec d c) as [->|]; [set_solver|]. apply IH; [set_solver|simpl in Hn; lia].
Qed.

Lemma strlchr_none s n c : (c ∉ take n s) -> (n <= length s)%nat -> ngx_strlchr s n c = None.
Proof.
  revert s. induction n as [|n IH]; intros s Hc Hn; [done|].
  destruct s as [|d s]; [simpl in Hn; lia|]. cbn. simpl in Hc, Hn.
  destruct (Z.eqb_spec d c) as [->|]; [set_solver|]. apply IH; [set_solver|lia].
Qed.

Lemma strncmp_zero s1 s2 n :
  no_nul s1 -> no_nul s2 -> strncmp s1 s2 n = 0 <-> take n s1 = take n s2.
Proof.
  revert s1 s2. induction n as [|n IH]; intros s1 s2 H1 H2; [done|]. cbn [strncmp].
  pose proof (ch_zero _ H1) as Z1. pose proof (ch_zero _ H2) as Z2.
  destruct (Z.eqb_spec (ch_ s1) (ch_ s2)) as [E|E].
  - destruct (Z.eqb_spec (ch_ s1) 0) as [E0|E0].
    + rewrite E0 in E. symmetry in E. apply Z1 in E0. apply Z2 in E. by subst.
    + rewrite IH by (by apply next_no_nul).
      destruct s1 as [|c1 s1]; [done|]. destruct s2 as [|c2 s2]; [done|].
      cbn in E |- *. subst. split; congruence.
  - split; [lia|]. destruct s1, s2; cbn in *; congruence.
Qed.

Lemma drop_no_nul i s : no_nul s -> no_nul (drop i s).
Proof. apply Forall_drop. Qed.

Section Search.
Context (c2 : Z) (t2 : bytes).
Hypothesis s2_no_nul : no_nul (c2 :: t2).

Lemma starts_cons c t :
  starts (c2 :: t2) (c :: t) = (c =? c2) && bool_decide (take (length t2) t = t2).
Proof.
  unfold starts. simpl. destruct (Z.eqb_spec c c2) as [->|]; simpl.
  - apply bool_decide_ext. split; [by intros [= ->]|by intros ->].
  - apply bool_decide_eq_false. congruence.
Qed.

Lemma starts_ci_cons c t :
  starts_ci (c2 :: t2) (c :: t) =
  (ngx_tolower c =? ngx_tolower c2) &&
  bool_decide (ngx_tolower <$> take (length t2) t = ngx_tolower <$> t2).
Proof.
  unfold starts_ci. simpl. destruct (Z.eqb_spec (ngx_tolower c) (ngx_tolower c2)) as [E|];
    simpl; rewrite ?E.
  - apply bool_decide_ext. split; [by intros [= ?]|intros; by f_equal].
  - apply bool_decide_eq_false. congruence.
Qed.

Lemma strncmp_eqb t :
  no_nul t -> (strncmp t t2 (length t2) =? 0) = bool_decide (take (length t2) t = t2).
Proof.
  intros Ht. apply no_nul_cons in s2_no_nul as [_ H2].
  pose proof (strncmp_zero t t2 (length t2) Ht H2) as Hz. rewrite (take_ge t2) in Hz by lia.
  destruct (Z.eqb_spec (strncmp t t2 (length t2)) 0) as [E|E]; symmetry.
  - by apply bool_decide_eq_true, Hz.
  - apply bool_decide_eq_false. by rewrite <- Hz.
Qed.

Lemma strncasecmp_eqb t :
  no_nul t -> (ngx_strncasecmp t t2 (length t2) =? 0) =
    bool_decide (ngx_tolower <$> take (length t2) t = ngx_tolower <$> t2).
Proof.
  intros Ht. apply no_nul_cons in s2_no_nul as [_ H2].
  pose proof (strncasecmp_zero t t2 (length t2) Ht H2) as Hz.
  rewrite (take_ge t2) in Hz by lia.
  destruct (Z.eqb_spec (ngx_strncasecmp t t2 (length t2)) 0) as [E|E]; symmetry.
  - by apply bool_decide_eq_true, Hz.
  - apply bool_decide_eq_false. by rewrite <- Hz.
Qed.

Lemma strstrn_search s1 :
  no_nul s1 -> ngx_strstrn s1 (c2 :: t2) (length t2) = search (starts (c2 :: t2)) s1 (length s1).
Proof.
  unfold ngx_strstrn. cbn [ch_ next_ List.hd List.tl].
  induction s1 as [|c s1 IH]; intros H1; [done|]. cbn [strstrn_loop length search List.tl].
  apply no_nul_cons in H1 as [Hc H1]. rewrite starts_cons.
  replace (c =? 0) with false by lia.
  destruct (Z.eqb_spec c c2); cbn [negb andb]; [|by apply IH].
  rewrite strncmp_eqb by done. case_match; [done|by apply IH].
Qed.

Lemma strcasestrn_search s1 :
  no_nul s1 ->
  ngx_strcasestrn s1 (c2 :: t2) (length t2) = search (starts_ci (c2 :: t2)) s1 (length s1).
Proof.
  unfold ngx_strcasestrn. cbn [ch_ next_ List.hd List.tl].
  induction s1 as [|c s1 IH]; intros H1; [done|]. cbn [strcasestrn_loop length search List.tl].
  apply no_nul_cons in H1 as [Hc H1]. rewrite starts_ci_cons.
  replace (c =? 0) with false by lia.
  destruct (Z.eqb_spec (ngx_tolower c) (ngx_tolower c2)); cbn [negb andb]; [|by apply IH].
  rewrite strncasecmp_eqb by done. case_match; [done|by apply IH].
Qed.

Lemma strlcasestrn_search s1 len :
  no_nul s1 -> 0 <= len <= zlen s1 ->
  ngx_strlcasestrn s1 len (c2 :: t2) (length t2) =
  search (starts_ci (c2 :: t2)) s1 (Z.to_nat (len - zlen t2)).
Proof.
  unfold ngx_strlcasestrn, zlen. intros H1 Hlen. unfold ch_, next_. cbn [List.hd List.tl].
  assert (Hk : (Z.to_nat (len - Z.of_nat (length t2)) <= length s1)%nat) by lia.
  revert H1 Hk. generalize (Z.to_nat (len - Z.of_nat (length t2))). clear Hlen.
  intros k. revert s1. induction k as [|k IH]; intros s1 H1 Hk; [done|].
  destruct s1 as [|c s1]; [simpl in Hk; lia|]. apply no_nul_cons in H1 as [Hc H1].
  cbn [strlcasestrn_loop search]. unfold ch_, next_. cbn [List.hd List.tl].
  rewrite starts_ci_cons.
  destruct (Z.eqb_spec (ngx_tolower c) (ngx_tolower c2)); cbn [negb andb];
    [|apply IH; [done|simpl in Hk; lia]].
  rewrite strncasecmp_eqb by done. case_match; [done|apply IH; [done|simpl in Hk; lia]].
Qed.

Lemma strnstr_search s1 len :
  no_nul s1 ->
  ngx_strnstr s1 (c2 :: t2) len = search (starts (c2 :: t2)) s1 (len - length t2).
Proof.
  unfold ngx_strnstr. unfold ch_, next_. cbn [List.hd List.tl].
  assert (Hnil : forall k, search (starts (c2 :: t2)) [] k = None).
  { intros k. apply search_None. intros i _. by rewrite drop_nil. }
  revert s1. induction len as [|len IH]; intros s1 H1; [done|].
  cbn [strnstr_loop]. destruct s1 as [|c s1]; [by rewrite Hnil|].
  unfold ch_, next_. cbn [List.hd List.tl].
  pose proof H1 as [Hc H1']%no_nul_cons. replace (c =? 0) with false by lia.
  destruct (Nat.le_gt_cases (length t2) len) as [Hle|Hgt].
  - replace (S len - length t2)%nat with (S (len - length t2)) by lia.
    cbn [search List.tl]. rewrite starts_cons.
    destruct (Z.eqb_spec c c2); cbn [negb andb]; [|by apply IH].
    replace (Z.of_nat len <? zlen t2) with false by (unfold zlen; lia).
    unfold zlen. rewrite Nat2Z.id, strncmp_eqb by done. case_match; [done|by apply IH].
  - replace (S len - length t2)%nat with O by lia. cbn [search].
    destruct (Z.eqb_spec c c2); cbn [negb].
    + by replace (Z.of_nat len <? zlen t2) with true by (unfold zlen; lia).
    + rewrite IH by done. by replace (len - length t2)%nat with O by lia.
Qed.
End Search.

(** The four searches find the first occurrence (up to case for the "case" ones)
    of a string given with its length less one, and report NULL exactly when there is
    none; those with a limit see only occurrences that lie inside it. *)
Theorem string_searches s1 s2 n :
  no_nul s1 -> no_nul s2 -> length s2 = S n ->
  let finds (found : option bytes) (starts : bytes -> bytes -> bool) (k : nat) :=
    match found with
    | Some s' => exists j, (j < k)%nat /\ s' = drop j s1 /\ starts s2 s' = true /\
                   forall i, (i < j)%nat -> starts s2 (drop i s1) = false
    | None => forall i, (i < k)%nat -> starts s2 (drop i s1) = false
    end in
  finds (ngx_strstrn s1 s2 n) starts (length s1) /\
  finds (ngx_strcasestrn s1 s2 n) starts_ci (length s1) /\
  (forall len, finds (ngx_strnstr s1 s2 len) starts (len - n)%nat) /\
  (forall len, 0 <= len <= zlen s1 ->
     finds (ngx_strlcasestrn s1 len s2 n) starts_ci (Z.to_nat (len - Z.of_nat n))).
Proof.
  intros H1 H2 Hn finds. destruct s2 as [|c2 t2]; [done|]. injection Hn as <-.
  assert (Hf : forall starts k, finds (search (starts (c2 :: t2)) s1 k) starts k).
  { intros st k. unfold finds. destruct (search _ _ _) as [s'|] eqn:E.
    - by apply search_Some.
    - by apply search_None. }
  split_and!; [| |intros len|intros len Hlen].
  - rewrite strstrn_search by done. apply Hf.
  - rewrite strcasestrn_search by done. apply Hf.
  - rewrite strnstr_search by done. apply Hf.
  - rewrite strlcasestrn_search by done. apply Hf.
Qed.

Lemma string_searches_witness :
  exists s, ngx_strcasestrn (bs "Mozilla/4.0 (MSIE 6.0)") (bs "msie ") 4 = Some s /\
    starts_ci (bs "msie ") s = true.
Proof.
  destruct (string_searches (bs "Mozilla/4.0 (MSIE 6.0)") (bs "msie ") 4) as (_ & H & _);
    [unfold no_nul; by_decide..|reflexivity|].
  assert (E : ngx_strcasestrn (bs "Mozilla/4.0 (MSIE 6.0)") (bs "msie ") 4 =
    Some (bs "MSIE 6.0)")) by (vm_compute; reflexivity).
  rewrite E in H. destruct H as (j & _ & _ & H & _). by exists (bs "MSIE 6.0)").
Defined.
