(* ===== verification/Numbers.v ===== *)
(** Numbers and text (src/core/ngx_string.c): [ngx_atoi] and its siblings,
    [ngx_atofp], [ngx_hextoi], [ngx_hex_dump] and [ngx_sprintf_num]. *)
From S2P Require Import Prelude.

(** ** Text to number *)

(** The loop that [ngx_atoi], [ngx_atosz], [ngx_atoof] and [ngx_atotm] share, in a
    signed 64-bit register; [None] is [return NGX_ERROR]. *)
Fixpoint ato_loop (value : Z) (line : bytes) : option Z :=
  match line with
  | [] => Some value
  | c :: line =>
      if (c <? "0") || ("9" <? c) then None
      else ato_loop (s64 (value * 10 + (c - "0"))) line
  end.

Definition ato (line : bytes) : Z :=
  match line with
  | [] => NGX_ERROR
  | _ =>
      match ato_loop 0 line with
      | None => NGX_ERROR
      | Some value => if value <? 0 then NGX_ERROR else value
      end
  end.

Definition ngx_atoi : bytes -> Z := ato.
Definition ngx_atosz : bytes -> Z := ato.
Definition ngx_atoof : bytes -> Z := ato.
Definition ngx_atotm : bytes -> Z := ato.

Fixpoint atofp_loop (value dot point : Z) (line : bytes) : option (Z * Z) :=
  match line with
  | [] => Some (value, point)
  | c :: line =>
      if point =? 0 then None
      else if c =? "." then
        if negb (dot =? 0) then None else atofp_loop value 1 point line
      else if (c <? "0") || ("9" <? c) then None
      else atofp_loop (s64 (value * 10 + (c - "0"))) dot (point - dot) line
  end.

(** [while (point--) value = value * 10;] *)
Fixpoint scale10 (value : Z) (point : nat) : Z :=
  match point with O => value | S point => scale10 (s64 (value * 10)) point end.

Definition ngx_atofp (line : bytes) (point : Z) : Z :=
  match line with
  | [] => NGX_ERROR
  | _ =>
      match atofp_loop 0 0 point line with
      | None => NGX_ERROR
      | Some (value, point) =>
          let value := scale10 value (Z.to_nat point) in
          if value <? 0 then NGX_ERROR else value
      end
  end.

Fixpoint hextoi_loop (value : Z) (line : bytes) : option Z :=
  match line with
  | [] => Some value
  | ch :: line =>
      if ("0" <=? ch) && (ch <=? "9") then hextoi_loop (s64 (value * 16 + (ch - "0"))) line
      else
        let c := u8 (Z.lor ch 0x20) in
        if ("a" <=? c) && (c <=? "f")
        then hextoi_loop (s64 (value * 16 + (c - "a" + 10))) line
        else None
  end.

Definition ngx_hextoi (line : bytes) : Z :=
  match line with
  | [] => NGX_ERROR
  | _ =>
      match hextoi_loop 0 line with
      | None => NGX_ERROR
      | Some value => if value <? 0 then NGX_ERROR else value
      end
  end.

(** ** Number to text *)

Definition hex_lower : bytes := bs "0123456789abcdef".
Definition hex_upper : bytes := bs "0123456789ABCDEF".

Fixpoint ngx_hex_dump (src : bytes) : bytes :=
  match src with
  | [] => []
  | c :: src => at_ hex_lower (Z.shiftr c 4) :: at_ hex_lower (Z.land c 0xf) :: ngx_hex_dump src
  end.

Definition NGX_INT64_LEN : nat := 20.
Definition NGX_MAX_UINT32_VALUE : Z := 0xffffffff.

(** The [do .. while] loops fill [temp] from its end; [n] is the room left in it. *)
Fixpoint dec_loop (n : nat) (ui : Z) (p : bytes) : bytes :=
  match n with
  | O => p
  | S n =>
      let p := u8 (ui mod 10 + "0") :: p in
      if ui / 10 =? 0 then p else dec_loop n (ui / 10) p
  end.

Fixpoint hex_loop (digits : bytes) (n : nat) (ui : Z) (p : bytes) : bytes :=
  match n with
  | O => p
  | S n =>
      let p := at_ digits (u32 (Z.land ui 0xf)) :: p in
      if Z.shiftr ui 4 =? 0 then p else hex_loop digits n (Z.shiftr ui 4) p
  end.

Definition num_digits (ui64 hexadecimal : Z) : bytes :=
  if hexadecimal =? 0 then
    if ui64 <=? NGX_MAX_UINT32_VALUE
    then dec_loop NGX_INT64_LEN (u32 ui64) []
    else dec_loop NGX_INT64_LEN ui64 []
  else if hexadecimal =? 1 then hex_loop hex_lower NGX_INT64_LEN ui64 []
  else hex_loop hex_upper NGX_INT64_LEN ui64 [].

(** [while (len++ < width && buf < last) *buf++ = zero;] with [room = last - buf]. *)
Fixpoint pad_loop (zero : Z) (missing : nat) (room : Z) : bytes :=
  match missing with
  | O => []
  | S missing => if 0 <? room then zero :: pad_loop zero missing (room - 1) else []
  end.

(** The bytes written when [room] is [last - buf]. *)
Definition ngx_sprintf_num (room ui64 zero hexadecimal width : Z) : bytes :=
  let p := num_digits ui64 hexadecimal in
  let pad := pad_loop zero (Z.to_nat (width - zlen p)) room in
  let room := room - zlen pad in
  let len := if room <? zlen p then room else zlen p in
  pad ++ take (Z.to_nat len) p.

(** ** Reading numbers *)

Definition is_digits (line : bytes) : Prop := Forall (fun c => is_digit c = true) line.

Lemma s64_wrap a b : a mod 2 ^ 64 = b mod 2 ^ 64 -> s64 a = s64 b.
Proof.
  intros H. unfold s64. rewrite Zplus_mod, H, <- Zplus_mod. done.
Qed.

Lemma s64_mul_add v k d : s64 (s64 v * k + d) = s64 (v * k + d).
Proof.
  apply s64_wrap. rewrite Zplus_mod, Zmult_mod, s64_mod, <- Zmult_mod, <- Zplus_mod. done.
Qed.

Lemma ato_loop_digits v line :
  is_digits line -> ato_loop (s64 v) line = Some (s64 (digits_val v line)).
Proof.
  intros H. revert v. induction H as [|c line Hc _ IH]; intros v; [done|].
  cbn [ato_loop]. unfold is_digit in Hc.
  replace ((c <? "0") || ("9" <? c)) with false by lia.
  rewrite s64_mul_add. apply IH.
Qed.

Lemma ato_loop_error v line : ~ is_digits line -> ato_loop v line = None.
Proof.
  revert v. induction line as [|c line IH]; intros v Hn; [exfalso; apply Hn; constructor|].
  cbn [ato_loop]. destruct (_ || _) eqn:E; [done|]. apply IH. intros H. apply Hn.
  constructor; [unfold is_digit; lia|done].
Qed.

(** [ngx_atoi] (and [ngx_atosz], [ngx_atoof], [ngx_atotm]) returns NGX_ERROR for
    the empty string and for one with a character that is not a digit; otherwise it is
    the decimal number when that fits 63 bits.  A larger number is not detected as
    such: the result is the number modulo 2^64, or NGX_ERROR when that has bit 63. *)
Theorem ngx_atoi_spec (line : bytes) :
  (line = [] \/ ~ is_digits line -> ngx_atoi line = NGX_ERROR) /\
  (line <> [] -> is_digits line ->
   (digits_val 0 line < 2 ^ 63 -> ngx_atoi line = digits_val 0 line) /\
   ngx_atoi line = (let v := digits_val 0 line mod 2 ^ 64 in
                    if v <? 2 ^ 63 then v else NGX_ERROR)) /\
  (ngx_atoi line = NGX_ERROR \/ 0 <= ngx_atoi line < 2 ^ 63).
Proof.
  unfold ngx_atoi, ato. split_and!.
  - intros [->|H]; [done|]. destruct line; [done|]. by rewrite ato_loop_error.
  - intros Hne Hd. destruct line as [|c l]; [done|].
    set (line := c :: l) in *. clearbody line.
    pose proof (ato_loop_digits 0 line Hd) as E. change (s64 0) with 0 in E. rewrite E. clear E.
    pose proof (digits_val_ge 0 line ltac:(lia) Hd) as H0. split.
    + intros Hlt. rewrite s64_id by lia. by decide_if.
    + cbv zeta. unfold s64. set (v := digits_val 0 line) in *.
      pose proof (Z.mod_pos_bound v (2 ^ 64) ltac:(lia)) as Hb.
      rewrite <- (Zplus_mod_idemp_l v). destruct (Z.ltb_spec (v mod 2 ^ 64) (2 ^ 63)).
      * rewrite (Z.mod_small (v mod 2 ^ 64 + 2 ^ 63)) by lia.
        rewrite Z.add_simpl_r. by decide_if.
      * replace (v mod 2 ^ 64 + 2 ^ 63) with (v mod 2 ^ 64 - 2 ^ 63 + 1 * 2 ^ 64) by lia.
        rewrite Z.mod_add, Z.mod_small by lia. by decide_if.
  - destruct line as [|c line]; [by left|].
    destruct (ato_loop 0 (c :: line)) as [v|] eqn:E; [|by left].
    destruct (Z.ltb_spec v 0); [by left|]. right. split; [done|].
    assert (Hr : forall l x, - 2 ^ 63 <= x < 2 ^ 63 -> ato_loop x l = Some v -> v < 2 ^ 63).
    { induction l as [|d l IH]; intros x Hx; cbn [ato_loop]; [intros [= ->]; lia|].
      destruct (_ || _); [done|]. apply IH, s64_range. }
    eapply Hr; [|exact E]. lia.
Qed.

Lemma ngx_atoi_spec_witness :
  ngx_atoi (bs "1048576") = 1048576 /\ ngx_atoi (bs "10a") = NGX_ERROR.
Proof.
  destruct (ngx_atoi_spec (bs "1048576")) as (_ & H & _).
  destruct (ngx_atoi_spec (bs "10a")) as (H' & _).
  split.
  - destruct H as [H _]; [by_decide|unfold is_digits; by_decide|].
    rewrite H; vm_compute; reflexivity.
  - apply H'. right. unfold is_digits. intros Hd. do 2 apply Forall_cons in Hd as [_ Hd].
    apply Forall_cons in Hd as [Hd _]. discriminate Hd.
Defined.

(** 2^64 + 1 is taken for 1. *)
Example ngx_atoi_wraps : ngx_atoi (bs "18446744073709551617") = 1.
Proof. reflexivity. Qed.

(** ** Writing numbers *)

(** The decimal digits of [v]: no zero before them. *)
Definition decimal (v : Z) (ds : bytes) : Prop :=
  is_digits ds /\ digits_val 0 ds = v /\ (ds = ["0"] \/ exists c l, ds = c :: l /\ c <> "0").

Lemma dec_loop_spec n ui p :
  (0 < n)%nat -> 0 <= ui < 10 ^ Z.of_nat n ->
  exists ds, dec_loop n ui p = ds ++ p /\ decimal ui ds /\ (length ds <= n)%nat.
Proof.
  revert ui p. induction n as [|n IH]; intros ui p Hn Hui; [lia|]. cbn [dec_loop].
  pose proof (Z.mod_pos_bound ui 10 ltac:(lia)) as Hm.
  pose proof (Z.div_mod ui 10 ltac:(lia)) as Hdm.
  assert (Hd : is_digit (u8 (ui mod 10 + "0")) = true).
  { rewrite u8_id by (split; lia). unfold is_digit. lia. }
  destruct (Z.eqb_spec (ui / 10) 0) as [E|E].
  - exists [u8 (ui mod 10 + "0")]. split_and!; [done| |simpl; lia].
    split_and!; [by constructor| |].
    + cbn. rewrite u8_id by (split; lia). lia.
    + destruct (Z.eq_dec (ui mod 10) 0) as [->|Hne]; [by left|]. right.
      eexists _, []. split; [done|]. rewrite u8_id by (split; lia). lia.
  - rewrite Nat2Z.inj_succ, Z.pow_succ_r in Hui by lia.
    assert (0 < n)%nat by (destruct n; [cbn in Hui; lia|lia]).
    destruct (IH (ui / 10) (u8 (ui mod 10 + "0") :: p)) as (ds & -> & (D1 & D2 & D3) & Hl);
      [done|lia|].
    exists (ds ++ [u8 (ui mod 10 + "0")]). rewrite <- app_assoc. split_and!; [done| |].
    + split_and!.
      * apply Forall_app. by repeat constructor.
      * rewrite digits_val_app, D2. cbn. rewrite u8_id by (split; lia). lia.
      * right. destruct D3 as [->|(c & l & -> & ?)]; [cbn in D2; lia|].
        by exists c, (l ++ [u8 (ui mod 10 + "0")]).
    + rewrite length_app. simpl. lia.
Qed.

Lemma num_digits_dec ui :
  0 <= ui < 2 ^ 64 ->
  exists ds, num_digits ui 0 = ds /\ decimal ui ds /\ (length ds <= 20)%nat.
Proof.
  intros Hui. unfold num_digits. cbn [Z.eqb].
  destruct (dec_loop_spec NGX_INT64_LEN ui []) as (ds & E & Hd & Hl).
  - unfold NGX_INT64_LEN. lia.
  - unfold NGX_INT64_LEN. lia.
  - rewrite app_nil_r in E. exists ds. split_and!; [|done|done]. rewrite <- E.
    destruct (Z.leb_spec ui NGX_MAX_UINT32_VALUE); [|done].
    unfold NGX_MAX_UINT32_VALUE, u32 in *. by rewrite Z.mod_small by lia.
Qed.

Lemma pad_loop_spec zero missing room :
  0 <= room -> pad_loop zero missing room = take (Z.to_nat room) (replicate missing zero).
Proof.
  revert room. induction missing as [|m IH]; intros room Hr; cbn [pad_loop replicate].
  - by rewrite take_nil.
  - destruct (Z.ltb_spec 0 room).
    + rewrite IH by lia. replace (Z.to_nat room) with (S (Z.to_nat (room - 1))) by lia. done.
    + by replace (Z.to_nat room) with O by lia.
Qed.

(** What is written is what fits of the padded digits. *)
Lemma sprintf_num_take room ui zero hex width :
  0 <= room ->
  ngx_sprintf_num room ui zero hex width =
  take (Z.to_nat room)
    (replicate (Z.to_nat (width - zlen (num_digits ui hex))) zero ++ num_digits ui hex).
Proof.
  intros Hr. unfold ngx_sprintf_num. set (p := num_digits ui hex). rewrite pad_loop_spec by done.
  rewrite take_app. f_equal. rewrite length_replicate.
  set (m := Z.to_nat (width - zlen p)).
  assert (Hz : zlen (take (Z.to_nat room) (replicate m zero)) = Z.min room (Z.of_nat m))
    by (unfold zlen; rewrite length_take, length_replicate; lia).
  rewrite Hz. clearbody m.
  destruct (Z.ltb_spec (room - Z.min room (Z.of_nat m)) (zlen p)) as [H|H].
  - f_equal. lia.
  - unfold zlen in *. rewrite !take_ge by lia. done.
Qed.

(** Hex digits, as [ngx_hextoi] reads them. *)
Definition hex_digit_ok (digits : bytes) : Prop :=
  forall d l v, 0 <= d < 16 ->
    hextoi_loop (s64 v) (at_ digits d :: l) = hextoi_loop (s64 (v * 16 + d)) l.

Lemma hex_digits_ok digits : digits = hex_lower \/ digits = hex_upper -> hex_digit_ok digits.
Proof.
  intros Hd d l v Hr. rewrite <- (s64_mul_add v 16 d).
  assert (Hcase : d = 0 \/ d = 1 \/ d = 2 \/ d = 3 \/ d = 4 \/ d = 5 \/ d = 6 \/ d = 7 \/
    d = 8 \/ d = 9 \/ d = 10 \/ d = 11 \/ d = 12 \/ d = 13 \/ d = 14 \/ d = 15) by lia.
  destruct Hd as [-> | ->]; repeat destruct Hcase as [->|Hcase]; subst; reflexivity.
Qed.

Lemma hex_loop_spec digits n ui p :
  hex_digit_ok digits -> (0 < n)%nat -> 0 <= ui < 16 ^ Z.of_nat n ->
  exists ds, hex_loop digits n ui p = ds ++ p /\ ds <> [] /\ (length ds <= n)%nat /\
    forall v l, hextoi_loop (s64 v) (ds ++ l) =
                hextoi_loop (s64 (v * 16 ^ zlen ds + ui)) l.
Proof.
  intros Hok. revert ui p. induction n as [|n IH]; intros ui p Hn Hui; [lia|]. cbn [hex_loop].
  change (Z.land ui 15) with (Z.land ui (Z.ones 4)).
  rewrite Z.land_ones, Z.shiftr_div_pow2 by lia. change (2 ^ 4) with 16.
  pose proof (Z.mod_pos_bound ui 16 ltac:(lia)) as Hm.
  pose proof (Z.div_mod ui 16 ltac:(lia)) as Hdm.
  unfold u32. rewrite (Z.mod_small (ui mod 16) (2 ^ 32)) by lia.
  destruct (Z.eqb_spec (ui / 16) 0) as [E|E].
  - exists [at_ digits (ui mod 16)]. split_and!; [done|done|simpl; lia|]. intros v l.
    cbn [app]. rewrite Hok by lia. change (zlen _) with 1. do 2 f_equal. lia.
  - rewrite Nat2Z.inj_succ, Z.pow_succ_r in Hui by lia.
    assert (0 < n)%nat by (destruct n; [cbn in Hui; lia|lia]).
    destruct (IH (ui / 16) (at_ digits (ui mod 16) :: p)) as (ds & -> & D1 & Hl & D2); [done|lia|].
    exists (ds ++ [at_ digits (ui mod 16)]). rewrite <- app_assoc. split_and!; [done| |
      rewrite length_app; simpl; lia|].
    + by destruct ds.
    + intros v l. rewrite <- app_assoc, D2. cbn [app]. rewrite Hok by lia.
      rewrite zlen_app, Z.pow_add_r by (pose proof (zlen_nonneg ds); lia || (unfold zlen; simpl; lia)).
      change (zlen [_]) with 1. do 2 f_equal. lia.
Qed.

Lemma num_digits_hex ui hex :
  0 <= ui < 2 ^ 64 -> hex = 1 \/ hex = 2 ->
  exists ds, num_digits ui hex = ds /\ ds <> [] /\ hextoi_loop 0 ds = Some (s64 ui).
Proof.
  intros Hui Hhex. exists (num_digits ui hex). split; [done|].
  assert (exists digits, hex_digit_ok digits /\
    num_digits ui hex = hex_loop digits NGX_INT64_LEN ui []) as (digits & Hok & ->).
  { destruct Hhex as [-> | ->]; [exists hex_lower|exists hex_upper];
      (split; [apply hex_digits_ok; auto|reflexivity]). }
  destruct (hex_loop_spec digits NGX_INT64_LEN ui [] Hok) as (ds & -> & Hne & _ & Hd);
    [unfold NGX_INT64_LEN; lia|unfold NGX_INT64_LEN; lia|].
  rewrite app_nil_r. split; [done|]. specialize (Hd 0 []). rewrite app_nil_r in Hd.
  exact Hd.
Qed.

(** [ngx_sprintf_num] writes the decimal digits of the number, without leading
    zeros, padded on the left to the width, and of that what fits in the buffer, never
    more; every 64-bit number fits the 20 bytes of [temp]. *)
Theorem sprintf_num_dec (room ui zero width : Z) :
  0 <= room -> 0 <= ui < 2 ^ 64 ->
  exists ds, decimal ui ds /\ (length ds <= 20)%nat /\
    ngx_sprintf_num room ui zero 0 width =
      take (Z.to_nat room) (replicate (Z.to_nat (width - zlen ds)) zero ++ ds) /\
    zlen (ngx_sprintf_num room ui zero 0 width) <= room.
Proof.
  intros Hr Hui. destruct (num_digits_dec ui Hui) as (ds & E & Hd & Hl).
  exists ds. rewrite sprintf_num_take, E by done. split_and!; [done..|].
  unfold zlen. rewrite length_take. lia.
Qed.

Lemma is_digits_replicate n : is_digits (replicate n "0").
Proof. apply Forall_replicate. done. Qed.

Lemma digits_val_zeros n ds : digits_val 0 (replicate n "0" ++ ds) = digits_val 0 ds.
Proof. rewrite digits_val_app. f_equal. by induction n. Qed.

Lemma hextoi_zeros n ds : hextoi_loop 0 (replicate n "0" ++ ds) = hextoi_loop 0 ds.
Proof. induction n as [|n IH]; [done|]. exact IH. Qed.

(** Text and number are inverse: what [ngx_sprintf_num] writes of a number of 63
    bits in a buffer that is large enough, in decimal or in hex of either case and
    padded with zeros to any width, [ngx_atoi] and [ngx_hextoi] read back. *)
Theorem number_roundtrip (room ui width : Z) :
  0 <= ui < 2 ^ 63 -> 20 <= room -> width <= room ->
  ngx_atoi (ngx_sprintf_num room ui "0" 0 width) = ui /\
  ngx_hextoi (ngx_sprintf_num room ui "0" 1 width) = ui /\
  ngx_hextoi (ngx_sprintf_num room ui "0" 2 width) = ui.
Proof.
  intros Hui Hroom Hw. 
  assert (Hlen : forall hex, hex = 1 \/ hex = 2 -> (length (num_digits ui hex) <= 20)%nat).
  { intros hex Hh.
    destruct (hex_loop_spec hex_lower 20 ui []) as (d1 & E1 & _ & L1 & _);
      [apply hex_digits_ok; auto|lia|lia|].
    destruct (hex_loop_spec hex_upper 20 ui []) as (d2 & E2 & _ & L2 & _);
      [apply hex_digits_ok; auto|lia|lia|].
    rewrite app_nil_r in E1, E2.
    destruct Hh as [-> | ->]; unfold num_digits, NGX_INT64_LEN; cbn [Z.eqb Pos.eqb];
      by rewrite ?E1, ?E2. }
  assert (Hall : forall hex, (length (num_digits ui hex) <= 20)%nat ->
    ngx_sprintf_num room ui "0" hex width =
    replicate (Z.to_nat (width - zlen (num_digits ui hex))) "0" ++ num_digits ui hex).
  { intros hex Hl. rewrite sprintf_num_take by lia. apply take_ge.
    rewrite length_app, length_replicate. unfold zlen. lia. }
  assert (Hhex : forall hex, hex = 1 \/ hex = 2 -> ngx_hextoi (ngx_sprintf_num room ui "0" hex width) = ui).
  { intros hex Hh. rewrite Hall by auto.
    destruct (num_digits_hex ui hex ltac:(lia) Hh) as (ds & E & Hne & Hv). rewrite E.
    unfold ngx_hextoi. rewrite hextoi_zeros, Hv, s64_id by lia.
    destruct (replicate _ _ ++ ds) eqn:Er; [apply app_nil in Er; naive_solver|].
    by decide_if. }
  split_and!; [|apply Hhex; auto..].
  destruct (num_digits_dec ui ltac:(lia)) as (ds & E & (D1 & D2 & D3) & Hl).
  rewrite Hall by (by rewrite E). rewrite E. set (n := Z.to_nat _). clearbody n.
  destruct (ngx_atoi_spec (replicate n "0" ++ ds)) as (_ & Hspec & _).
  destruct Hspec as [Hspec _].
  - destruct ds; [|by destruct n]. naive_solver.
  - apply Forall_app. split; [apply is_digits_replicate|done].
  - rewrite digits_val_zeros, D2 in Hspec. apply Hspec. lia.
Qed.

Lemma sprintf_num_dec_witness :
  exists ds, decimal 42 ds /\ ngx_sprintf_num 3 42 " " 0 4 = take 3 (replicate (Z.to_nat (4 - zlen ds)) " " ++ ds).
Proof.
  destruct (sprintf_num_dec 3 42 " " 4) as (ds & H1 & _ & H2 & _); [lia|lia|].
  exists ds. split; [exact H1|exact H2].
Defined.

Lemma number_roundtrip_witness :
  ngx_atoi (ngx_sprintf_num 32 1234567890123 "0" 0 16) = 1234567890123 /\
  ngx_hextoi (ngx_sprintf_num 32 1234567890123 "0" 2 0) = 1234567890123.
Proof.
  destruct (number_roundtrip 32 1234567890123 16) as (H & _); [lia..|].
  destruct (number_roundtrip 32 1234567890123 0) as (_ & _ & H'); [lia..|].
  split; [exact H|exact H'].
Defined.

(** ** Fixed point numbers and hex dumps *)

Lemma atofp_loop_digits v dot point ds l :
  is_digits ds -> 0 < point -> dot = 0 \/ (dot = 1 /\ zlen ds <= point) ->
  (dot = 1 -> ds = [] \/ l = [] \/ zlen ds < point) ->
  atofp_loop (s64 v) dot point (ds ++ l) =
  atofp_loop (s64 (digits_val v ds)) dot (point - dot * zlen ds) l.
Proof.
  intros Hds. revert v point. induction Hds as [|c ds Hc _ IH]; intros v point Hp Hdot Hl.
  - rewrite zlen_nil, Z.mul_0_r, Z.sub_0_r. done.
  - cbn [app atofp_loop]. unfold is_digit in Hc. rewrite zlen_cons in *.
    pose proof (zlen_nonneg ds). replace (point =? 0) with false by lia.
    replace (c =? ".") with false by lia.
    replace ((c <? "0") || ("9" <? c)) with false by lia.
    rewrite s64_mul_add.
    destruct ds as [|d ds].
    + cbn [app digits_val fold_left]. rewrite zlen_nil. do 2 f_equal; lia.
    + assert (Hd : dot = 0 \/ dot = 1) by lia. rewrite zlen_cons in *.
      pose proof (zlen_nonneg ds).
      rewrite IH; rewrite ?zlen_cons; [destruct Hd; subst; f_equal; lia|lia|lia|].
      intros ->. right. destruct (Hl eq_refl) as [|[|]]; [done|by left|right; lia].
Qed.

Lemma scale10_spec v n : scale10 (s64 v) n = s64 (v * 10 ^ Z.of_nat n).
Proof.
  revert v. induction n as [|n IH]; intros v; cbn [scale10].
  - by rewrite Z.mul_1_r.
  - replace (s64 v * 10) with (s64 v * 10 + 0) by lia. rewrite s64_mul_add, Z.add_0_r, IH.
    rewrite Nat2Z.inj_succ, Z.pow_succ_r by lia. f_equal. lia.
Qed.

(** [ngx_atofp] reads "int.frac" with at most [point] digits after the dot as the
    number times 10^point, e.g. ngx_atofp("10.5", 4, 2) is 1050; a number with more
    digits after the dot is refused. *)
Theorem ngx_atofp_spec (ds1 ds2 : bytes) (point : Z) :
  is_digits ds1 -> is_digits ds2 -> 0 < point ->
  (zlen ds2 <= point ->
   let v := digits_val 0 (ds1 ++ ds2) * 10 ^ (point - zlen ds2) in
   v < 2 ^ 63 -> ngx_atofp (ds1 ++ "." :: ds2) point = v) /\
  (zlen ds2 > point -> ngx_atofp (ds1 ++ "." :: ds2) point = NGX_ERROR).
Proof.
  intros H1 H2 Hp. pose proof (zlen_nonneg ds2) as H0.
  assert (Hloop : atofp_loop 0 0 point (ds1 ++ "." :: ds2) =
                  atofp_loop (s64 (digits_val 0 ds1)) 1 point ds2).
  { change 0 with (s64 0) at 1. rewrite atofp_loop_digits by (done || lia || auto || (intros; lia)).
    rewrite Z.mul_0_l, Z.sub_0_r. cbn [atofp_loop].
    by replace (point =? 0) with false by lia. }
  unfold ngx_atofp. destruct (ds1 ++ "." :: ds2) as [|c line] eqn:El; [by destruct ds1|].
  rewrite Hloop. clear El Hloop. split.
  - intros Hle Hv. set (v := digits_val 0 (ds1 ++ ds2) * 10 ^ (point - zlen ds2)) in *.
    pose proof (atofp_loop_digits (digits_val 0 ds1) 1 point ds2 [] H2 Hp) as E.
    rewrite app_nil_r in E. rewrite E by auto. clear E. cbn [atofp_loop].
    rewrite Z.mul_1_l, scale10_spec, <- digits_val_app.
    rewrite Z2Nat.id by lia. fold v.
    assert (0 <= v).
    { apply Z.mul_nonneg_nonneg; [|apply Z.pow_nonneg; lia].
      apply digits_val_ge; [lia|by apply Forall_app]. }
    rewrite s64_id by lia. by decide_if.
  - intros Hgt.
    assert (exists a b, ds2 = a ++ b /\ zlen a = point /\ b <> []) as (a & b & -> & Ha & Hb).
    { exists (take (Z.to_nat point) ds2), (drop (Z.to_nat point) ds2).
      rewrite take_drop. split; [done|]. unfold zlen in *. rewrite length_take. split; [lia|].
      intros Hn. apply (f_equal length) in Hn. rewrite length_drop in Hn. simpl in Hn. lia. }
    apply Forall_app in H2 as [H2 _].
    assert (E : forall v p x, is_digits x -> 0 < p -> zlen x = p ->
      atofp_loop v 1 p (x ++ b) = None).
    { clear - Hb. intros v p x Hx. revert v p.
      induction Hx as [|c x Hc Hx IH]; intros v p Hp Hz; [rewrite zlen_nil in Hz; lia|].
      unfold is_digit in Hc. rewrite zlen_cons in Hz. cbn [app atofp_loop].
      replace (p =? 0) with false by lia. replace (c =? ".") with false by lia.
      replace ((c <? "0") || ("9" <? c)) with false by lia.
      destruct x as [|d x]; [|apply IH; [rewrite zlen_cons in Hz; pose proof (zlen_nonneg x); lia|lia]].
      rewrite zlen_nil in Hz. subst p. destruct b; done. }
    by rewrite E.
Qed.

Lemma ngx_atofp_spec_witness : ngx_atofp (bs "10.5") 2 = 1050 /\ ngx_atofp (bs "1.234") 2 = NGX_ERROR.
Proof.
  destruct (ngx_atofp_spec (bs "10") (bs "5") 2) as [H _];
    [unfold is_digits; by_decide..|lia|].
  destruct (ngx_atofp_spec (bs "1") (bs "234") 2) as [_ H'];
    [unfold is_digits; by_decide..|lia|].
  split; [apply H; vm_compute; done|apply H'; reflexivity].
Defined.

(** a hex dump has two digits for each byte, from which [ngx_hextoi] reads the
    bytes back, one by one. *)
Theorem hex_dump_roundtrip (src : bytes) (i : Z) :
  Forall is_u_char src -> 0 <= i < zlen src ->
  zlen (ngx_hex_dump src) = 2 * zlen src /\
  ngx_hextoi (slice (ngx_hex_dump src) (2 * i) (2 * i + 2)) = at_ src i.
Proof.
  intros Hs Hi. split.
  - clear Hi. induction Hs as [|c src Hc _ IH]; [done|]. cbn [ngx_hex_dump].
    rewrite !zlen_cons, IH. lia.
  - revert i Hi. induction Hs as [|c src Hc Hs IH]; intros i Hi; [unfold zlen in Hi; simpl in Hi; lia|].
    rewrite zlen_cons in Hi. cbn [ngx_hex_dump].
    destruct (Z.eq_dec i 0) as [->|Hne].
    + change (at_ (c :: src) 0) with c.
      change (slice _ _ _) with [at_ hex_lower (Z.shiftr c 4); at_ hex_lower (Z.land c 15)].
      by_byte c Hc.
    + replace (slice _ (2 * i) (2 * i + 2))
        with (slice (ngx_hex_dump src) (2 * (i - 1)) (2 * (i - 1) + 2)).
      * rewrite IH by lia. unfold at_. change (c :: src) with ([c] ++ src).
        rewrite <- (rd_app_r [c] src (i - 1)) by lia. change (zlen [c]) with 1. do 2 f_equal. lia.
      * unfold slice. replace (Z.to_nat (2 * i)) with (S (S (Z.to_nat (2 * (i - 1))))) by lia.
        cbn [drop]. f_equal. lia.
Qed.

Lemma hex_dump_roundtrip_witness :
  zlen (ngx_hex_dump [0; 255]) = 4 /\ ngx_hextoi (slice (ngx_hex_dump [0; 255]) 2 4) = 255.
Proof. apply (hex_dump_roundtrip [0; 255] 1); by_decide. Defined.
