(* ===== verification/Bytes.v ===== *)
(** Memory at the level of bytes: allocated blocks, numbers in them (the least significant
    byte first, as on the x86 platforms), and the alignment macros of
    src/core/ngx_config.h. *)
From S2P Require Import Prelude.

(** ** Alignment *)

(** [ngx_align(d, a)] and [ngx_align_ptr(p, a)]. *)
Definition ngx_align (d a : Z) : Z := Z.land (d + (a - 1)) (Z.lnot (a - 1)).
Definition ngx_align_ptr (p a : Z) : Z := Z.land (p + (a - 1)) (Z.lnot (a - 1)).

Lemma ngx_align_eq d k : 0 <= k -> ngx_align d (2 ^ k) = (d + (2 ^ k - 1)) / 2 ^ k * 2 ^ k.
Proof.
  intros Hk. unfold ngx_align. rewrite <- Z.ldiff_land.
  replace (Z.ldiff _ (2 ^ k - 1)) with (Z.ldiff (d + (2 ^ k - 1)) (Z.ones k)) by by rewrite Z.ones_equiv.
  by rewrite Z.ldiff_ones_r, Z.shiftl_mul_pow2, Z.shiftr_div_pow2.
Qed.

(** The first multiple from [d] on. *)
Lemma ngx_align_spec d k :
  0 <= k -> d <= ngx_align d (2 ^ k) < d + 2 ^ k /\ (ngx_align d (2 ^ k)) mod 2 ^ k = 0.
Proof.
  intros Hk. rewrite ngx_align_eq by done. pose proof (Z.pow_pos_nonneg 2 k ltac:(lia) Hk) as Hp.
  pose proof (Z.div_mod (d + (2 ^ k - 1)) (2 ^ k) ltac:(lia)) as H1.
  pose proof (Z.mod_pos_bound (d + (2 ^ k - 1)) (2 ^ k) Hp) as H2.
  rewrite Z.mod_mul by lia. set (q := (d + (2 ^ k - 1)) / 2 ^ k) in *. split; [|done]. lia.
Qed.

(** ** Numbers in memory *)

Fixpoint le (n : nat) (v : Z) : bytes :=
  match n with O => [] | S n => v mod 256 :: le n (v / 256) end.
Fixpoint of_le (l : bytes) : Z := match l with [] => 0 | c :: l => c + 256 * of_le l end.

(** [htonl] on a platform with the least significant byte first. *)
Definition htonl (z : Z) : Z := of_le (reverse (le 4 z)).

Lemma le_length n v : length (le n v) = n.
Proof. revert v. induction n as [|n IH]; intros v; cbn; [done|]. by rewrite IH. Qed.

Lemma zlen_le n v : zlen (le n v) = Z.of_nat n.
Proof. unfold zlen. by rewrite le_length. Qed.

Lemma of_le_le n v : 0 <= v < 256 ^ Z.of_nat n -> of_le (le n v) = v.
Proof.
  revert v. induction n as [|n IH]; intros v Hv; cbn [le of_le]; [cbn in Hv; lia|].
  rewrite Nat2Z.inj_succ, Z.pow_succ_r in Hv by lia.
  rewrite IH; [pose proof (Z.div_mod v 256 ltac:(lia)); lia|].
  split; [apply Z.div_pos; lia|]. apply Z.div_lt_upper_bound; lia.
Qed.

(** ** Blocks *)

(** An allocated block: its address and its bytes. *)
Record block := mk_block { base : Z; data : bytes }.

Definition inside (b : block) (a n : Z) : bool := (base b <=? a) && (a + n <=? base b + zlen (data b)).

(** The [n] bytes at the address [a], and writing there. *)
Definition get_bytes (b : block) (a n : Z) : option bytes :=
  if inside b a n then Some (slice (data b) (a - base b) (a - base b + n)) else None.
Definition put_bytes (b : block) (a : Z) (w : bytes) : option block :=
  if inside b a (zlen w)
  then Some (mk_block (base b)
         (take (Z.to_nat (a - base b)) (data b) ++ w ++ drop (Z.to_nat (a - base b + zlen w)) (data b)))
  else None.

Definition get_u64 (b : block) (a : Z) : option Z := w ← get_bytes b a 8; Some (of_le w).
Definition get_u16 (b : block) (a : Z) : option Z := w ← get_bytes b a 2; Some (of_le w).

(** A block where other bytes were written. *)
Definition same_block (b b' : block) : Prop := base b' = base b /\ zlen (data b') = zlen (data b).

Lemma put_bytes_ok b a w :
  base b <= a -> a + zlen w <= base b + zlen (data b) ->
  exists b', put_bytes b a w = Some b' /\ same_block b b'.
Proof.
  intros H1 H2. unfold put_bytes, inside. rewrite (proj2 (Z.leb_le _ _) H1), (proj2 (Z.leb_le _ _) H2).
  eexists. split; [done|]. split; [done|]. cbn [data base]. unfold zlen in *.
  rewrite !length_app, length_take, length_drop. lia.
Qed.

Lemma get_bytes_inside b a n w : get_bytes b a n = Some w -> base b <= a /\ a + n <= base b + zlen (data b).
Proof. unfold get_bytes, inside. case_match; [|done]. lia. Qed.

Lemma get_put_same b a w b' : put_bytes b a w = Some b' -> get_bytes b' a (zlen w) = Some w.
Proof.
  unfold put_bytes. case_match eqn:E; [|done]. intros [= <-]. unfold inside in E.
  unfold get_bytes, inside. cbn [data base]. pose proof (zlen_nonneg w).
  set (pre := take (Z.to_nat (a - base b)) (data b)).
  assert (Hp : zlen pre = a - base b) by (subst pre; unfold zlen in *; rewrite length_take; lia).
  rewrite (proj2 (Z.leb_le _ _)), (proj2 (Z.leb_le _ _)).
  - cbn [andb]. rewrite <- Hp. by rewrite slice_mid.
  - autorewrite with zlen. rewrite Hp. unfold zlen. rewrite length_drop. lia.
  - lia.
Qed.

Lemma slice_put_other (l w : bytes) p c n :
  0 <= p -> 0 <= c -> 0 <= n -> p + zlen w <= zlen l -> c + n <= zlen l -> p + zlen w <= c \/ c + n <= p ->
  slice (take (Z.to_nat p) l ++ w ++ drop (Z.to_nat (p + zlen w)) l) c (c + n) = slice l c (c + n).
Proof.
  intros Hp Hc Hn Hl Hl2 Hd. unfold slice, zlen in *. rewrite (Z2Nat.inj_add p), Nat2Z.id in * by lia.
  apply list_eq. intros i.
  destruct (decide (i < Z.to_nat (c + n - c))%nat) as [Hi|Hi].
  - rewrite !lookup_take_lt, !lookup_drop by done.
    destruct Hd as [Hd|Hd].
    + rewrite !lookup_app_r by (rewrite length_take; lia). rewrite lookup_drop. f_equal.
      rewrite length_take. lia.
    + rewrite lookup_app_l by (rewrite length_take; lia). apply lookup_take_lt. lia.
  - by rewrite !lookup_take_ge by lia.
Qed.

Lemma get_put_other b a w b' c n :
  put_bytes b a w = Some b' -> 0 <= n -> a + zlen w <= c \/ c + n <= a -> get_bytes b' c n = get_bytes b c n.
Proof.
  intros Hput Hn Hd. pose proof Hput as Hput'. unfold put_bytes in Hput. case_match eqn:E; [|done].
  unfold inside in E. destruct (put_bytes_ok b a w) as (b2 & E2 & Hb & Hl); [lia|lia|].
  rewrite Hput' in E2. injection E2 as <-. unfold get_bytes, inside. rewrite Hb, Hl.
  destruct ((base b <=? c) && (c + n <=? base b + zlen (data b))) eqn:Ei; [|done].
  f_equal. injection Hput as <-. cbn [data]. replace (a - base b + zlen w) with (a - base b + zlen w) by lia.
  apply slice_put_other; lia.
Qed.
