(* ===== verification/HashTable.v ===== *)
(** Hash tables: [ngx_hash_init] and [ngx_hash_find] of src/core/ngx_hash.c, with the
    elements as bytes in one block of memory. *)
From S2P Require Import Prelude HashKey CString Bytes.

(** ** Data *)

(** The size of a pointer. *)
Definition PTR : Z := 8.

(** [ngx_str_t]: the bytes are [None] for a NULL [data]. *)
Record ngx_str_t := mk_str { str_len : Z; str_data : option bytes }.
Definition str (s : bytes) : ngx_str_t := mk_str (zlen s) (Some s).

Record ngx_hash_key_t := mk_hash_key { hk_key : ngx_str_t; key_hash : Z; hk_value : Z }.

(** [ngx_hash_t], with the memory that the buckets point into. *)
Record ngx_hash_t := mk_hash { buckets : list Z; size : Z; elts : block }.

(** The members of an [ngx_hash_elt_t] at [elt]: [value], [len] and [name]. *)
Definition elt_value (b : block) (elt : Z) : option Z := get_u64 b elt.
Definition elt_len (b : block) (elt : Z) : option Z := get_u16 b (elt + 8).
Definition elt_name (elt : Z) : Z := elt + 10.

(** [NGX_HASH_ELT_SIZE] *)
Definition NGX_HASH_ELT_SIZE (len : Z) : Z := PTR + ngx_align (len + 2) PTR.

(** ** [ngx_hash_find] *)

(** [for (i = 0; i < len; i++)]: whether all bytes are equal. *)
Fixpoint same_name (b : block) (a : Z) (name : bytes) : option bool :=
  match name with
  | [] => Some true
  | c :: name =>
      w ← get_bytes b a 1;
      if c =? of_le w then same_name b (a + 1) name else Some false
  end.

(** [while (elt->value)]: the value, or 0 (NULL). *)
Fixpoint find_loop (fuel : nat) (b : block) (elt : Z) (name : bytes) : option Z :=
  match fuel with
  | O => None
  | S fuel =>
      value ← elt_value b elt;
      if value =? 0 then Some 0
      else
        len ← elt_len b elt;
        match (if zlen name =? len then same_name b (elt_name elt) name else Some false) with
        | Some true => Some value
        | Some false => find_loop fuel b (ngx_align_ptr (elt_name elt + len) PTR) name
        | None => None
        end
  end.

(** An element has a byte at least, so that the bytes of the block are enough fuel. *)
Definition ngx_hash_find (hash : ngx_hash_t) (key : Z) (name : bytes) : option Z :=
  if size hash =? 0 then None
  else
    elt ← buckets hash !! Z.to_nat (key mod size hash);
    if elt =? 0 then Some 0 else find_loop (S (length (data (elts hash)))) (elts hash) elt name.

(** ** [ngx_hash_init] *)

Definition u16_add (test : list Z) (key n : Z) : list Z :=
  <[Z.to_nat key := u16 (default 0 (test !! Z.to_nat key) + n)]> test.

(** The loop over the names that fills [test] for a number of buckets; [false]: [goto next]. *)
Fixpoint names_fit (names : list ngx_hash_key_t) (sz bucket_size : Z) (test : list Z) : bool :=
  match names with
  | [] => true
  | n :: names =>
      match str_data (hk_key n) with
      | None => names_fit names sz bucket_size test
      | Some _ =>
          let key := key_hash n mod sz in
          let test := u16_add test key (NGX_HASH_ELT_SIZE (str_len (hk_key n))) in
          if u16 bucket_size <? default 0 (test !! Z.to_nat key) then false
          else names_fit names sz bucket_size test
      end
  end.

(** [for (size = start; size < hinit->max_size; size++)] *)
Fixpoint size_loop (fuel : nat) (names : list ngx_hash_key_t) (sz max_size bucket_size : Z) : option Z :=
  match fuel with
  | O => None
  | S fuel =>
      if sz <? max_size then
        if names_fit names sz bucket_size (replicate (Z.to_nat sz) 0) then Some sz
        else size_loop fuel names (sz + 1) max_size bucket_size
      else None
  end.

(** The sizes of the buckets. *)
Fixpoint count_names (names : list ngx_hash_key_t) (sz : Z) (test : list Z) : list Z :=
  match names with
  | [] => test
  | n :: names =>
      match str_data (hk_key n) with
      | None => count_names names sz test
      | Some _ =>
          count_names names sz (u16_add test (key_hash n mod sz) (NGX_HASH_ELT_SIZE (str_len (hk_key n))))
      end
  end.

Section Init.
(** [ngx_cacheline_size] is set when the process starts. *)
Context (ngx_cacheline_size : Z).

Definition align_bucket (t : Z) : Z := if t =? PTR then t else u16 (ngx_align t ngx_cacheline_size).
Definition total_len (test : list Z) : Z := foldl (fun len t => if t =? PTR then len else len + t) 0 test.

(** [buckets[i] = elts; elts += test[i]] *)
Fixpoint place_buckets (test : list Z) (elts : Z) : list Z :=
  match test with
  | [] => []
  | t :: test => if t =? PTR then 0 :: place_buckets test elts else elts :: place_buckets test (elts + t)
  end.

(** One element: [value], [len], [name]. *)
Definition put_elt (b : block) (elt : Z) (value : Z) (key : ngx_str_t) (d : bytes) : option block :=
  b ← put_bytes b elt (le 8 value);
  b ← put_bytes b (elt + 8) (le 2 (u16 (str_len key)));
  put_bytes b (elt_name elt) (ngx_strlow d (Z.to_nat (str_len key))).

(** The loop that writes the elements. *)
Fixpoint fill_names (names : list ngx_hash_key_t) (sz : Z) (bkts test : list Z) (b : block)
    : option (list Z * block) :=
  match names with
  | [] => Some (test, b)
  | n :: names =>
      match str_data (hk_key n) with
      | None => fill_names names sz bkts test b
      | Some d =>
          let key := key_hash n mod sz in
          let elt := default 0 (bkts !! Z.to_nat key) + default 0 (test !! Z.to_nat key) in
          b ← put_elt b elt (hk_value n) (hk_key n) d;
          fill_names names sz bkts (u16_add test key (NGX_HASH_ELT_SIZE (str_len (hk_key n)))) b
      end
  end.

(** The loop that ends the buckets with a NULL value. *)
Fixpoint end_buckets (bkts test : list Z) (b : block) : option block :=
  match bkts, test with
  | p :: bkts, t :: test =>
      if p =? 0 then end_buckets bkts test b
      else b ← put_bytes b (p + t) (le 8 0); end_buckets bkts test b
  | _, _ => Some b
  end.

(** The first number of buckets that is tried; [None]: a division by zero. *)
Definition first_size (nelts max_size bucket_size : Z) : option Z :=
  let d := u64 bucket_size / (2 * PTR) in
  if d =? 0 then None
  else
    let start := nelts / d in
    let start := if start =? 0 then 1 else start in
    Some (if (10000 <? max_size) && negb (nelts =? 0) && (max_size / nelts <? 100)
          then max_size - 1000 else start).

(** The results of the three allocations: [test]; the buckets; the elements, for a length,
    with what the memory holds. *)
Record allocations := mk_alloc { test_ok : bool; buckets_ok : bool; elts_at : Z -> option (Z * bytes) }.

(** [hinit->max_size], [hinit->bucket_size], the names and their number. *)
Definition ngx_hash_init (al : allocations) (max_size bucket_size : Z) (names : list ngx_hash_key_t)
    : attempt ngx_hash_t :=
  guard_ (forallb (fun n => negb (bucket_size <? NGX_HASH_ELT_SIZE (str_len (hk_key n)) + PTR)) names);;
  guard_ (test_ok al);;
  let bucket_size := bucket_size - PTR in
  start ← access (first_size (zlen names) max_size bucket_size);
  match size_loop (S (Z.to_nat (max_size - start))) names start max_size bucket_size with
  | None => error
  | Some sz =>
      let test := count_names names sz (replicate (Z.to_nat sz) PTR) in
      let test := align_bucket <$> test in
      guard_ (buckets_ok al);;
      match elts_at al (total_len test + ngx_cacheline_size) with
      | None => error
      | Some (p, garbage) =>
          let bkts := place_buckets test (ngx_align_ptr p ngx_cacheline_size) in
          '(test, b) ← access (fill_names names sz bkts (replicate (Z.to_nat sz) 0) (mk_block p garbage));
          b ← access (end_buckets bkts test b);
          mret (mk_hash bkts sz b)
      end
  end.
End Init.
