(* ===== verification/HashTableSpec.v ===== *)
(** [ngx_hash_init] builds a table in which [ngx_hash_find] finds the names it was given,
    and writes inside of the memory that it allocates. *)
From S2P Require Import Prelude HashKey CString Bytes HashTable.

Lemma default_Some {A} (d x : A) : default d (Some x) = x.
Proof. done. Qed.

(** ** Elements in memory *)

Lemma elt_size_spec len :
  0 <= len -> len + 10 <= NGX_HASH_ELT_SIZE len <= len + 17 /\ NGX_HASH_ELT_SIZE len mod 8 = 0.
Proof.
  intros Hl. unfold NGX_HASH_ELT_SIZE, PTR. change 8 with (2 ^ 3) at 2 4 6.
  destruct (ngx_align_spec (len + 2) 3 ltac:(lia)) as [H1 H2]. change (2 ^ 3) with 8 in *. split; [lia|].
  rewrite Zplus_mod, H2. done.
Qed.

(** The address that follows an element. *)
Lemma next_elt a len :
  a mod 8 = 0 -> ngx_align_ptr (elt_name a + len) PTR = a + NGX_HASH_ELT_SIZE len.
Proof.
  intros Ha. unfold elt_name, NGX_HASH_ELT_SIZE, PTR. change ngx_align_ptr with ngx_align.
  change 8 with (2 ^ 3) at 1 3. rewrite !ngx_align_eq by lia. change (2 ^ 3) with 8.
  assert (E : a = 8 * (a / 8)) by dlia. generalize dependent (a / 8). intros q ->.
  replace (8 * q + 10 + len + (8 - 1)) with ((len + 2 + (8 - 1)) + (q + 1) * 8) by lia.
  rewrite Z.div_add by lia. lia.
Qed.

(** The elements [l], one after the other from [a] to [e]. *)
Fixpoint chain (b : block) (a : Z) (l : list (Z * bytes)) (e : Z) : Prop :=
  match l with
  | [] => a = e
  | (v, n) :: l =>
      get_bytes b a 8 = Some (le 8 v) /\ get_bytes b (a + 8) 2 = Some (le 2 (zlen n)) /\
      get_bytes b (a + 10) (zlen n) = Some n /\ chain b (a + NGX_HASH_ELT_SIZE (zlen n)) l e
  end.

Fixpoint used (l : list (Z * bytes)) : Z :=
  match l with [] => 0 | (_, n) :: l => NGX_HASH_ELT_SIZE (zlen n) + used l end.

Lemma used_app l1 l2 : used (l1 ++ l2) = used l1 + used l2.
Proof. induction l1 as [|[v n] l1 IH]; cbn [app used]; lia. Qed.

Lemma used_length l : 10 * Z.of_nat (length l) <= used l.
Proof.
  induction l as [|[v n] l IH]; cbn [used length]; [lia|].
  destruct (elt_size_spec (zlen n) (zlen_nonneg n)). pose proof (zlen_nonneg n). lia.
Qed.

Lemma used_nonneg l : 0 <= used l.
Proof. pose proof (used_length l). lia. Qed.

Lemma chain_end b a l e : chain b a l e -> e = a + used l.
Proof.
  revert a. induction l as [|[v n] l IH]; intros a; cbn [chain used]; [intros ->; lia|].
  intros (_ & _ & _ & H). apply IH in H. lia.
Qed.

Lemma chain_app b a l1 l2 e :
  chain b a (l1 ++ l2) e <-> chain b a l1 (a + used l1) /\ chain b (a + used l1) l2 e.
Proof.
  revert a. induction l1 as [|[v n] l1 IH]; intros a; cbn [chain used app].
  - rewrite Z.add_0_r. naive_solver.
  - rewrite IH. replace (a + NGX_HASH_ELT_SIZE (zlen n) + used l1) with
      (a + (NGX_HASH_ELT_SIZE (zlen n) + used l1)) by lia. naive_solver.
Qed.

(** Bytes written elsewhere leave the elements as they are. *)
Lemma chain_put b a l e c w b' :
  chain b a l e -> put_bytes b c w = Some b' -> e <= c \/ c + zlen w <= a -> chain b' a l e.
Proof.
  intros Hc Hp Hd. revert a Hc Hd. induction l as [|[v n] l IH]; intros a; cbn [chain]; [done|].
  intros (H1 & H2 & H3 & H4) Hd. pose proof (chain_end _ _ _ _ H4). pose proof (used_nonneg l).
  destruct (elt_size_spec (zlen n) (zlen_nonneg n)) as [Hs _]. pose proof (zlen_nonneg n).
  split_and!.
  1-3: rewrite (get_put_other _ _ _ _ _ _ Hp) by lia; done.
  apply IH; [done|lia].
Qed.

(** ** [ngx_hash_find] on a bucket *)

Lemma get_bytes_cons b a c n :
  get_bytes b a (zlen (c :: n)) = Some (c :: n) ->
  get_bytes b a 1 = Some [c] /\ get_bytes b (a + 1) (zlen n) = Some n.
Proof.
  rewrite zlen_cons. unfold get_bytes, inside. pose proof (zlen_nonneg n).
  case_match eqn:E; [|done]. intros [= Hs].
  rewrite (proj2 (Z.leb_le _ _)), (proj2 (Z.leb_le _ _)), (proj2 (Z.leb_le (base b) (a + 1))),
    (proj2 (Z.leb_le (a + 1 + zlen n) _)) by lia. cbn [andb].
  rewrite (slice_split _ (a - base b) (a - base b + 1)) in Hs by lia.
  assert (Hl : zlen (slice (data b) (a - base b) (a - base b + 1)) = 1) by (rewrite zlen_slice; lia).
  destruct (slice (data b) (a - base b) (a - base b + 1)) as [|c' [|]] eqn:E1; try done.
  - injection Hs as -> Hs. split; [done|].
    replace (a + 1 - base b) with (a - base b + 1) by lia.
    etrans; [|exact (f_equal Some Hs)]. do 2 f_equal. lia.
  - rewrite !zlen_cons in Hl. pose proof (zlen_nonneg l). lia.
Qed.

Lemma same_name_spec b a name n :
  zlen name = zlen n -> get_bytes b a (zlen n) = Some n -> same_name b a name = Some (bool_decide (name = n)).
Proof.
  revert a n. induction name as [|c name IH]; intros a [|c' n] Hl Hg;
    [done|unfold zlen in Hl; cbn in Hl; lia..|].
  apply get_bytes_cons in Hg as [H1 H2]. cbn [same_name]. rewrite H1. cbn [mbind option_bind of_le].
  replace (c' + 256 * 0) with c' by lia. rewrite !zlen_cons in Hl. destruct (Z.eqb_spec c c') as [->|Hne].
  - rewrite (IH _ n) by (done || lia). f_equal. apply bool_decide_ext. naive_solver.
  - f_equal. symmetry. apply bool_decide_eq_false. naive_solver.
Qed.

(** The value of the first element of a name, 0 for NULL. *)
Fixpoint assoc (l : list (Z * bytes)) (name : bytes) : Z :=
  match l with [] => 0 | (v, n) :: l => if decide (name = n) then v else assoc l name end.

Definition good (e : Z * bytes) : Prop := 0 < e.1 < 2 ^ 64 /\ zlen e.2 < 2 ^ 16.

Lemma get_u64_le b a v : 0 <= v < 2 ^ 64 -> get_bytes b a 8 = Some (le 8 v) -> get_u64 b a = Some v.
Proof. intros Hv H. unfold get_u64. rewrite H. cbn [mbind option_bind]. by rewrite of_le_le by (cbn; lia). Qed.

Lemma get_u16_le b a v : 0 <= v < 2 ^ 16 -> get_bytes b a 2 = Some (le 2 v) -> get_u16 b a = Some v.
Proof. intros Hv H. unfold get_u16. rewrite H. cbn [mbind option_bind]. by rewrite of_le_le by (cbn; lia). Qed.

Lemma find_loop_spec fuel b a l e name :
  a mod 8 = 0 -> chain b a l e -> Forall good l -> get_bytes b e 8 = Some (le 8 0) ->
  (length l < fuel)%nat -> find_loop fuel b a name = Some (assoc l name).
Proof.
  intros Ha Hc Hg He. revert fuel a Ha Hc. induction Hg as [|[v n] l [Hv Hn] _ IH]; intros fuel a Ha Hc Hf;
    (destruct fuel as [|fuel]; [cbn in Hf; lia|]); cbn [find_loop chain assoc] in *; unfold elt_value, elt_len.
  - subst e. by rewrite (get_u64_le _ _ 0).
  - destruct Hc as (H1 & H2 & H3 & H4). cbn [fst snd] in *. pose proof (zlen_nonneg n).
    rewrite (get_u64_le _ _ v) by (done || lia). cbn [mbind option_bind].
    rewrite (proj2 (Z.eqb_neq v 0)) by lia. rewrite (get_u16_le _ _ (zlen n)) by (done || lia).
    cbn [mbind option_bind]. destruct (elt_size_spec (zlen n)) as [_ Hs]; [done|].
    assert (Hnext : find_loop fuel b (ngx_align_ptr (elt_name a + zlen n) PTR) name = Some (assoc l name)).
    { rewrite next_elt by done. apply IH; [by rewrite Zplus_mod, Ha, Hs|done|cbn in Hf; lia]. }
    destruct (Z.eqb_spec (zlen name) (zlen n)) as [El|El].
    + fold (elt_name a) in H3. rewrite (same_name_spec _ _ _ _ El H3). case_decide as Hd.
      * by rewrite bool_decide_eq_true_2.
      * by rewrite bool_decide_eq_false_2.
    + case_decide as Hd; [by subst|done].
Qed.

(** ** The sizes of the buckets *)

Definition lower (d : bytes) : bytes := ngx_tolower <$> d.

(** The elements of the bucket [i] of [sz], in the order of the names. *)
Definition entry (n : ngx_hash_key_t) : option (Z * bytes) :=
  d ← str_data (hk_key n); Some (hk_value n, lower d).
Definition in_bucket (sz : Z) (i : nat) (n : ngx_hash_key_t) : option (Z * bytes) :=
  if decide (key_hash n mod sz = Z.of_nat i) then entry n else None.
Definition bucket (names : list ngx_hash_key_t) (sz : Z) (i : nat) : list (Z * bytes) :=
  omap (in_bucket sz i) names.

Definition good_name (n : ngx_hash_key_t) : Prop :=
  0 <= str_len (hk_key n) /\ 0 <= key_hash n /\ 0 < hk_value n < 2 ^ 64 /\
  forall d, str_data (hk_key n) = Some d -> str_len (hk_key n) = zlen d.

Definition elt_size (n : ngx_hash_key_t) : Z := NGX_HASH_ELT_SIZE (str_len (hk_key n)).

Lemma zlen_lower d : zlen (lower d) = zlen d.
Proof. unfold zlen, lower. by rewrite length_fmap. Qed.

(** One name: the bucket it goes to, and how much it takes there. *)
Lemma bucket_cons_none n names sz i :
  str_data (hk_key n) = None -> bucket (n :: names) sz i = bucket names sz i.
Proof.
  intros E. unfold bucket. cbn [omap list_omap]. unfold in_bucket, entry at 1. rewrite E. cbn. by case_decide.
Qed.

Lemma bucket_cons n names sz i d :
  str_data (hk_key n) = Some d ->
  bucket (n :: names) sz i =
  (if decide (key_hash n mod sz = Z.of_nat i) then [(hk_value n, lower d)] else []) ++ bucket names sz i.
Proof.
  intros E. unfold bucket. cbn [omap list_omap]. unfold in_bucket at 1, entry at 1. rewrite E. cbn.
  by case_decide.
Qed.

Lemma used_bucket_cons n names sz i d :
  good_name n -> str_data (hk_key n) = Some d ->
  used (bucket (n :: names) sz i) =
  (if decide (key_hash n mod sz = Z.of_nat i) then elt_size n else 0) + used (bucket names sz i).
Proof.
  intros (_ & _ & _ & Hd) E. rewrite (bucket_cons _ _ _ _ _ E), used_app. unfold elt_size. rewrite (Hd d E).
  case_decide; cbn [used]; [rewrite zlen_lower|]; lia.
Qed.

Section Sizes.
Context (sz bs : Z) (Hsz : 0 < sz) (Hbs : 0 <= bs < 2 ^ 15).

Let Fits (n : ngx_hash_key_t) : Prop := good_name n /\ elt_size n <= bs.

Lemma key_index n : good_name n -> (Z.to_nat (key_hash n mod sz) < Z.to_nat sz)%nat /\
  Z.of_nat (Z.to_nat (key_hash n mod sz)) = key_hash n mod sz.
Proof. intros _. pose proof (Z.mod_pos_bound (key_hash n) sz Hsz). lia. Qed.

(** What adding a name to [test] does to the bucket [i]. *)
Lemma u16_add_lookup n test i t :
  Fits n -> length test = Z.to_nat sz -> test !! i = Some t -> 0 <= t < 2 ^ 15 ->
  u16_add test (key_hash n mod sz) (elt_size n) !! i =
  Some (t + if decide (key_hash n mod sz = Z.of_nat i) then elt_size n else 0).
Proof.
  intros [Hg Hs] Hl Hi Ht. destruct (key_index n Hg) as [Hk1 Hk2].
  destruct (elt_size_spec (str_len (hk_key n))) as [Hsize _]; [by destruct Hg|]. fold (elt_size n) in Hsize.
  unfold u16_add. case_decide as Hd.
  - assert (Ei : Z.to_nat (key_hash n mod sz) = i) by lia. rewrite Ei, list_lookup_insert_eq by lia.
    rewrite Hi, default_Some. rewrite u16_id; [done|]. destruct Hg as [Hg _]. split; lia.
  - rewrite list_lookup_insert_ne by lia. rewrite Hi. f_equal. lia.
Qed.

Lemma u16_add_length test key n : length (u16_add test key n) = length test.
Proof. apply length_insert. Qed.

Lemma names_fit_spec names test :
  Forall Fits names -> length test = Z.to_nat sz ->
  (forall i t, test !! i = Some t -> 0 <= t <= bs) ->
  names_fit names sz bs test = true <->
  forall i t, test !! i = Some t -> t + used (bucket names sz i) <= bs.
Proof.
  intros Hf. revert test. induction Hf as [|n names Hn Hf IH]; intros test Hl Ht; cbn [names_fit].
  { split; [|done]. intros _ i t Hi. cbn. specialize (Ht i t Hi). lia. }
  destruct (str_data (hk_key n)) as [d|] eqn:E.
  2:{ rewrite (IH test Hl Ht). split; intros H i t Hi; specialize (H i t Hi);
        rewrite bucket_cons_none in * by done; done. }
  fold (elt_size n). destruct (key_index n) as [Hk1 Hk2]; [apply Hn|].
  set (test' := u16_add test (key_hash n mod sz) (elt_size n)).
  assert (Hadd : forall i t, test !! i = Some t ->
            test' !! i = Some (t + if decide (key_hash n mod sz = Z.of_nat i) then elt_size n else 0)).
  { intros i t Hi. apply u16_add_lookup; [done|done|done|]. specialize (Ht i t Hi). lia. }
  destruct (lookup_lt_is_Some_2 test (Z.to_nat (key_hash n mod sz))) as [t0 Ht0]; [lia|].
  pose proof (Hadd _ _ Ht0) as H0. rewrite decide_True in H0 by lia. rewrite H0, default_Some.
  rewrite u16_id by lia.
  assert (Hused : forall i, used (bucket (n :: names) sz i) =
            (if decide (key_hash n mod sz = Z.of_nat i) then elt_size n else 0) + used (bucket names sz i)).
  { intros i. eapply used_bucket_cons; [apply Hn|done]. }
  destruct (Z.ltb_spec bs (t0 + elt_size n)) as [Hlt|Hge].
  - split; [done|]. intros H. specialize (H _ _ Ht0). rewrite Hused, decide_True in H by lia.
    pose proof (used_nonneg (bucket names sz (Z.to_nat (key_hash n mod sz)))). lia.
  - rewrite IH.
    + split; intros H i t Hi.
      * specialize (H i _ (Hadd i t Hi)). rewrite Hused. lia.
      * destruct (lookup_lt_is_Some_2 test i) as [t1 Ht1].
        { apply lookup_lt_Some in Hi. unfold test' in Hi. by rewrite u16_add_length in Hi. }
        specialize (H i t1 Ht1). rewrite Hused in H. rewrite (Hadd i t1 Ht1) in Hi. injection Hi as <-. lia.
    + unfold test'. by rewrite u16_add_length.
    + intros i t Hi. destruct (lookup_lt_is_Some_2 test i) as [t1 Ht1].
      { apply lookup_lt_Some in Hi. unfold test' in Hi. by rewrite u16_add_length in Hi. }
      rewrite (Hadd i t1 Ht1) in Hi. injection Hi as <-. specialize (Ht i t1 Ht1).
      destruct (elt_size_spec (str_len (hk_key n))) as [Hsize _]; [by destruct Hn as [[? _] _]|].
      fold (elt_size n) in Hsize. destruct Hn as [[? _] _].
      case_decide; [|lia]. assert (i = Z.to_nat (key_hash n mod sz)) as -> by lia.
      rewrite Ht0 in Ht1. injection Ht1 as <-. lia.
Qed.

Lemma count_names_spec names test i t :
  Forall Fits names -> length test = Z.to_nat sz -> test !! i = Some t -> 0 <= t ->
  t + used (bucket names sz i) < 2 ^ 15 ->
  count_names names sz test !! i = Some (t + used (bucket names sz i)).
Proof.
  intros Hf. revert test t. induction Hf as [|n names Hn Hf IH]; intros test t Hl Hi Ht Hu; cbn [count_names].
  { rewrite Hi. f_equal. cbn. lia. }
  destruct (str_data (hk_key n)) as [d|] eqn:E.
  2:{ rewrite bucket_cons_none in * by done. by apply IH. }
  fold (elt_size n). rewrite (used_bucket_cons _ _ _ _ _ (proj1 Hn) E) in *.
  pose proof (used_nonneg (bucket names sz i)).
  destruct (elt_size_spec (str_len (hk_key n))) as [Hsize _]; [by destruct Hn as [[? _] _]|].
  fold (elt_size n) in Hsize. assert (0 <= str_len (hk_key n)) by by destruct Hn as [[? _] _].
  set (x := if decide (key_hash n mod sz = Z.of_nat i) then elt_size n else 0) in *.
  assert (Hx : 0 <= x) by (subst x; case_decide; lia).
  rewrite (IH _ (t + x)); [f_equal; lia|by rewrite u16_add_length|apply u16_add_lookup; [done|done|done|lia]|lia|lia].
Qed.

Lemma count_names_length names test : length (count_names names sz test) = length test.
Proof.
  revert test. induction names as [|n names IH]; intros test; cbn [count_names]; [done|].
  case_match; rewrite IH; [apply u16_add_length|done].
Qed.
End Sizes.

(** A number of buckets that will do: none gets too much. *)
Definition size_fits (names : list ngx_hash_key_t) (bs sz : Z) : Prop :=
  forall i, (i < Z.to_nat sz)%nat -> used (bucket names sz i) <= bs.

Lemma names_fit_zero names bs sz :
  0 < sz -> 0 <= bs < 2 ^ 15 -> Forall (fun n => good_name n /\ elt_size n <= bs) names ->
  names_fit names sz bs (replicate (Z.to_nat sz) 0) = true <-> size_fits names bs sz.
Proof.
  intros Hsz Hbs Hf. rewrite names_fit_spec; [|done|done|done|by rewrite length_replicate|].
  - unfold size_fits. split; intros H.
    + intros i Hi. specialize (H i 0). rewrite lookup_replicate in H. specialize (H (conj eq_refl Hi)). lia.
    + intros i t [-> Hi]%lookup_replicate. specialize (H i Hi). lia.
  - intros i t [-> Hi]%lookup_replicate. lia.
Qed.

Lemma size_loop_spec fuel names sz max_size bs :
  0 < sz -> 0 <= bs < 2 ^ 15 -> Forall (fun n => good_name n /\ elt_size n <= bs) names ->
  max_size - sz < Z.of_nat fuel ->
  match size_loop fuel names sz max_size bs with
  | Some sz' => sz <= sz' < max_size /\ size_fits names bs sz'
  | None => forall sz', sz <= sz' < max_size -> ~ size_fits names bs sz'
  end.
Proof.
  intros Hsz Hbs Hf. revert sz Hsz. induction fuel as [|fuel IH]; intros sz Hsz Hfuel; cbn [size_loop].
  { intros. lia. }
  destruct (Z.ltb_spec sz max_size); [|intros; lia].
  pose proof (names_fit_zero names bs sz Hsz Hbs Hf) as Hz. destruct (names_fit _ _ _ _).
  - split; [lia|]. by apply Hz.
  - specialize (IH (sz + 1) ltac:(lia) ltac:(lia)). destruct (size_loop _ _ _ _ _).
    + destruct IH. split; [lia|done].
    + intros sz' H'. destruct (Z.eq_dec sz' sz) as [->|]; [|apply IH; lia].
      intros Hs. by apply Hz in Hs.
Qed.

(** ** The places of the buckets *)

(** The room that the buckets of the sizes [caps] take: an empty one takes none. *)
Fixpoint total (caps : list Z) : Z :=
  match caps with [] => 0 | c :: caps => (if c =? PTR then 0 else c) + total caps end.

Lemma total_len_total caps : total_len caps = total caps.
Proof.
  unfold total_len. enough (H : forall x, foldl (fun len t => if t =? PTR then len else len + t) x caps = x + total caps)
    by by rewrite H.
  induction caps as [|c caps IH]; intros x; cbn [foldl total]; [lia|]. rewrite IH. destruct (c =? PTR); lia.
Qed.

Lemma total_app l1 l2 : total (l1 ++ l2) = total l1 + total l2.
Proof. induction l1 as [|c l1 IH]; cbn [app total]; lia. Qed.

Lemma total_nonneg caps : Forall (fun c => 0 <= c) caps -> 0 <= total caps.
Proof. induction 1 as [|c caps Hc _ IH]; cbn [total]; [lia|]. destruct (c =? PTR); lia. Qed.

Lemma total_take_le caps i j c :
  Forall (fun c => 0 <= c) caps -> caps !! i = Some c -> c <> PTR -> (i < j)%nat ->
  total (take i caps) + c <= total (take j caps).
Proof.
  intros Hc Hi Hne Hij. replace (take j caps) with (take i caps ++ c :: take (j - S i) (drop (S i) caps)).
  - rewrite total_app. cbn [total]. rewrite (proj2 (Z.eqb_neq _ _) Hne).
    pose proof (total_nonneg (take (j - S i) (drop (S i) caps)) ltac:(by apply Forall_take, Forall_drop)). lia.
  - replace j with (i + S (j - S i))%nat at 2 by lia. by rewrite <- take_take_drop, (drop_S _ _ _ Hi).
Qed.

Lemma place_buckets_lookup caps a i c :
  caps !! i = Some c ->
  place_buckets caps a !! i = Some (if c =? PTR then 0 else a + total (take i caps)).
Proof.
  revert a i. induction caps as [|c0 caps IH]; intros a i; [done|]. intros Hi. cbn [place_buckets].
  destruct i as [|i]; cbn in Hi.
  - injection Hi as ->. destruct (c =? PTR); cbn; [done|]. f_equal. lia.
  - destruct (c0 =? PTR) eqn:E; cbn [lookup list_lookup take total]; rewrite E, (IH _ _ Hi);
      destruct (c =? PTR); try done; f_equal; lia.
Qed.

Lemma place_buckets_length caps a : length (place_buckets caps a) = length caps.
Proof. revert a. induction caps as [|c caps IH]; intros a; cbn [place_buckets]; [done|]. by destruct (c =? PTR); cbn; rewrite IH. Qed.

(** ** Writing the elements *)

(** Where the buckets are: the bucket [i] has the room [cap i] from the address [at_i i] on. *)
Record layout (b : block) (sz : nat) (at_i cap : nat -> Z) (nonempty : nat -> Prop) : Prop := {
  layout_inside i : (i < sz)%nat -> nonempty i -> base b <= at_i i /\ at_i i + cap i <= base b + zlen (data b);
  layout_apart i j : (i < j < sz)%nat -> nonempty i -> nonempty j -> at_i i + cap i <= at_i j
}.

Lemma layout_same b b' sz at_i cap ne : same_block b b' -> layout b sz at_i cap ne -> layout b' sz at_i cap ne.
Proof. intros [H1 H2] [L1 L2]. split; [|done]. intros i Hi Hn. rewrite H1, H2. by apply L1. Qed.

Lemma layout_apart' b sz at_i cap ne i j :
  layout b sz at_i cap ne -> (i < sz)%nat -> (j < sz)%nat -> i <> j -> ne i -> ne j ->
  at_i i + cap i <= at_i j \/ at_i j + cap j <= at_i i.
Proof.
  intros [_ L] Hi Hj Hne Hi' Hj'. destruct (decide (i < j)%nat); [left; by apply L|right; apply L; [lia|done..]].
Qed.

Lemma ngx_strlow_all d : ngx_strlow d (length d) = lower d.
Proof. induction d as [|c d IH]; cbn; [done|]. by rewrite IH. Qed.

(** One element, at the end of those of its bucket. *)
Lemma put_elt_spec b a v key d :
  str_len key = zlen d -> zlen d < 2 ^ 16 ->
  base b <= a -> a + NGX_HASH_ELT_SIZE (zlen d) <= base b + zlen (data b) ->
  exists b', put_elt b a v key d = Some b' /\ same_block b b' /\
    chain b' a [(v, lower d)] (a + NGX_HASH_ELT_SIZE (zlen d)) /\
    (forall l s e, chain b s l e -> e <= a \/ a + NGX_HASH_ELT_SIZE (zlen d) <= s -> chain b' s l e).
Proof.
  intros Hk Hd H1 H2. pose proof (zlen_nonneg d) as H0. destruct (elt_size_spec (zlen d) H0) as [Hs _].
  unfold put_elt. destruct (put_bytes_ok b a (le 8 v)) as (b1 & E1 & Hb1 & Hl1); rewrite ?zlen_le; [lia|lia|].
  rewrite E1. cbn [mbind option_bind].
  destruct (put_bytes_ok b1 (a + 8) (le 2 (u16 (str_len key)))) as (b2 & E2 & Hb2 & Hl2); rewrite ?zlen_le; [lia|lia|].
  rewrite E2. cbn [mbind option_bind]. unfold elt_name.
  rewrite Hk. replace (Z.to_nat (zlen d)) with (length d) by (unfold zlen; lia). rewrite ngx_strlow_all.
  destruct (put_bytes_ok b2 (a + 10) (lower d)) as (b3 & E3 & Hb3 & Hl3); rewrite ?zlen_lower; [lia|lia|].
  exists b3. split_and!; [done|split; lia| |].
  - rewrite Hk, u16_id in E2 by lia. cbn [chain]. rewrite zlen_lower. split_and!; [| | |done].
    + rewrite (get_put_other _ _ _ _ _ _ E3), (get_put_other _ _ _ _ _ _ E2) by (rewrite ?zlen_le, ?zlen_lower; lia).
      exact (get_put_same _ _ _ _ E1).
    + rewrite (get_put_other _ _ _ _ _ _ E3) by lia. exact (get_put_same _ _ _ _ E2).
    + pose proof (get_put_same _ _ _ _ E3) as H. by rewrite zlen_lower in H.
  - intros l s e Hc He. pose proof (chain_end _ _ _ _ Hc). pose proof (used_nonneg l).
    eapply chain_put; [eapply chain_put; [eapply chain_put; [exact Hc|exact E1|]|exact E2|]|exact E3|];
      rewrite ?zlen_le, ?zlen_lower; lia.
Qed.

Section Fill.
Context (sz : Z) (Hsz : 0 < sz) (bs : Z) (Hbs : 0 <= bs < 2 ^ 15).
Context (at_i cap : nat -> Z) (nonempty : nat -> Prop) (bkts : list Z).
Context (Hbkts : forall i, (i < Z.to_nat sz)%nat -> nonempty i -> bkts !! i = Some (at_i i)).

(** The elements written so far: those of [done], for every bucket. *)
Record filled (b : block) (test : list Z) (done : nat -> list (Z * bytes)) : Prop := {
  filled_length : length test = Z.to_nat sz;
  filled_test i : (i < Z.to_nat sz)%nat -> test !! i = Some (used (done i));
  filled_chain i : (i < Z.to_nat sz)%nat -> nonempty i -> chain b (at_i i) (done i) (at_i i + used (done i))
}.

(** What is still to be written fits. *)
Definition room_left (names : list ngx_hash_key_t) (done : nat -> list (Z * bytes)) : Prop :=
  forall i, (i < Z.to_nat sz)%nat ->
    used (done i) + used (bucket names sz i) <= bs /\
    (bucket names sz i <> [] -> nonempty i) /\
    (nonempty i -> used (done i) + used (bucket names sz i) + 8 <= cap i).

Lemma fill_step n d names b test done :
  good_name n -> elt_size n <= bs -> str_data (hk_key n) = Some d ->
  layout b (Z.to_nat sz) at_i cap nonempty -> filled b test done -> room_left (n :: names) done ->
  let k := Z.to_nat (key_hash n mod sz) in
  exists b', put_elt b (default 0 (bkts !! k) + default 0 (test !! k)) (hk_value n) (hk_key n) d = Some b' /\
    same_block b b' /\
    let done' i := done i ++ (if decide (key_hash n mod sz = Z.of_nat i) then [(hk_value n, lower d)] else []) in
    filled b' (u16_add test (key_hash n mod sz) (elt_size n)) done' /\ room_left names done'.
Proof.
  intros Hg Hes E Hl [F1 F2 F3] Hr k. destruct (key_index sz Hsz n Hg) as [Hk1 Hk2]. fold k in Hk1, Hk2.
  assert (Hlen : str_len (hk_key n) = zlen d) by by (destruct Hg as (_ & _ & _ & Hd); apply Hd).
  pose proof (Hr k Hk1) as (Hr1 & Hr2 & Hr3). rewrite (bucket_cons _ _ _ _ _ E), decide_True in Hr1, Hr2, Hr3 by lia.
  assert (Hne : nonempty k) by by apply Hr2. specialize (Hr3 Hne). rewrite used_app in Hr1, Hr3. cbn [used] in Hr1, Hr3.
  rewrite zlen_lower in Hr1, Hr3. rewrite Hbkts, F2, !default_Some by done.
  pose proof (used_nonneg (done k)). pose proof (used_nonneg (bucket names sz k)). pose proof (zlen_nonneg d).
  destruct (elt_size_spec (zlen d)) as [Hs _]; [done|].
  destruct (layout_inside _ _ _ _ _ Hl k Hk1 Hne) as [Hin1 Hin2].
  destruct (put_elt_spec b (at_i k + used (done k)) (hk_value n) (hk_key n) d Hlen) as (b' & Eb & Hsame & Hc & Hframe);
    [unfold elt_size in Hes; rewrite Hlen in Hes; lia|lia|lia|].
  exists b'. split; [done|]. split; [done|]. cbv zeta.
  assert (Hused : forall i, used (done i ++ (if decide (key_hash n mod sz = Z.of_nat i) then [(hk_value n, lower d)] else []))
            = used (done i) + (if decide (key_hash n mod sz = Z.of_nat i) then elt_size n else 0)).
  { intros i. rewrite used_app. unfold elt_size. rewrite Hlen. case_decide; cbn [used]; [rewrite zlen_lower|]; lia. }
  split; [split|].
  - by rewrite u16_add_length.
  - intros i Hi. rewrite Hused. apply (u16_add_lookup sz bs); [done|done|done|done|by apply F2|].
    destruct (Hr i Hi) as (Hr' & _). pose proof (used_nonneg (bucket (n :: names) sz i)).
    pose proof (used_nonneg (done i)). lia.
  - intros i Hi Hnei. rewrite Hused. case_decide as Hd.
    + assert (i = k) as -> by lia. apply chain_app. split.
      * apply Hframe; [by apply F3|lia].
      * unfold elt_size. rewrite Hlen. by rewrite Z.add_assoc.
    + rewrite app_nil_r, Z.add_0_r. apply Hframe; [by apply F3|].
      pose proof (used_nonneg (done i)). destruct (Hr i Hi) as (_ & _ & Hri). specialize (Hri Hnei).
      pose proof (used_nonneg (bucket (n :: names) sz i)).
      destruct (layout_apart' _ _ _ _ _ i k Hl Hi Hk1 ltac:(intros ->; lia) Hnei Hne); lia.
  - intros i Hi. rewrite Hused. destruct (Hr i Hi) as (Q1 & Q2 & Q3).
    rewrite (used_bucket_cons _ _ _ _ _ Hg E) in Q1, Q3. rewrite (bucket_cons _ _ _ _ _ E) in Q2.
    split_and!; [lia| |intros Hx; specialize (Q3 Hx); lia].
    intros Hb. apply Q2. by intros [_ Hn]%app_eq_nil.
Qed.

Lemma fill_names_spec names b test done :
  Forall (fun n => good_name n /\ elt_size n <= bs) names ->
  layout b (Z.to_nat sz) at_i cap nonempty -> filled b test done -> room_left names done ->
  exists test' b', fill_names names sz bkts test b = Some (test', b') /\ same_block b b' /\
    filled b' test' (fun i => done i ++ bucket names sz i).
Proof.
  intros Hf. revert b test done. induction Hf as [|n names [Hg Hs] Hf IH]; intros b test done Hl Hfill Hr; cbn [fill_names].
  { exists test, b. split; [done|]. split; [done|]. destruct Hfill as [F1 F2 F3].
    split; [done|intros i Hi; cbn; rewrite app_nil_r; by apply F2|intros i Hi Hn; cbn; rewrite app_nil_r; by apply F3]. }
  destruct (str_data (hk_key n)) as [d|] eqn:E.
  - destruct (fill_step n d names b test done Hg Hs E Hl Hfill Hr) as (b1 & E1 & Hs1 & Hfill1 & Hr1).
    rewrite E1. cbn [mbind option_bind]. fold (elt_size n).
    destruct (IH _ _ _ (layout_same _ _ _ _ _ _ Hs1 Hl) Hfill1 Hr1) as (test' & b' & E' & Hs' & [F1 F2 F3]).
    exists test', b'. split; [done|]. split; [destruct Hs1, Hs'; split; congruence|].
    assert (Happ : forall i, (done i ++ (if decide (key_hash n mod sz = Z.of_nat i) then [(hk_value n, lower d)] else []))
                       ++ bucket names sz i = done i ++ bucket (n :: names) sz i)
      by (intros i; by rewrite (bucket_cons _ _ _ _ _ E), app_assoc).
    split; [done|intros i Hi; rewrite <- Happ; by apply F2|intros i Hi Hn; rewrite <- Happ; by apply F3].
  - assert (Hb : forall i, bucket (n :: names) sz i = bucket names sz i) by (intros; by apply bucket_cons_none).
    destruct (IH b test done Hl Hfill) as (test' & b' & E' & Hs' & [F1 F2 F3]).
    { intros i Hi. rewrite <- Hb. by apply Hr. }
    exists test', b'. split; [done|]. split; [done|].
    split; [done|intros i Hi; rewrite Hb; by apply F2|intros i Hi Hn; rewrite Hb; by apply F3].
Qed.
End Fill.

(** ** The ends of the buckets *)

Lemma chain_get b b' a l e :
  chain b a l e ->
  (forall c n, 0 <= n -> a <= c -> c + n <= e -> get_bytes b' c n = get_bytes b c n) -> chain b' a l e.
Proof.
  intros Hc Hg. pose proof (chain_end _ _ _ _ Hc) as He. revert a Hc Hg He.
  induction l as [|[v n] l IH]; intros a; cbn [chain used]; [done|]. intros (H1 & H2 & H3 & H4) Hg He.
  pose proof (used_nonneg l). pose proof (zlen_nonneg n). destruct (elt_size_spec (zlen n)) as [Hs _]; [done|].
  split_and!; [rewrite Hg by lia; done..|]. apply IH; [done| |lia]. intros c m Hm Hc Hce. apply Hg; lia.
Qed.

Lemma end_buckets_spec bkts test b :
  (forall i p t, bkts !! i = Some p -> test !! i = Some t -> p <> 0 ->
     0 <= t /\ base b <= p + t /\ p + t + 8 <= base b + zlen (data b)) ->
  (forall i j p t q, (i < j)%nat -> bkts !! i = Some p -> test !! i = Some t -> bkts !! j = Some q ->
     p <> 0 -> q <> 0 -> p + t + 8 <= q) ->
  exists b', end_buckets bkts test b = Some b' /\ same_block b b' /\
    (forall i p t, bkts !! i = Some p -> test !! i = Some t -> p <> 0 -> get_bytes b' (p + t) 8 = Some (le 8 0)) /\
    (forall c n, 0 <= n ->
       (forall i p t, bkts !! i = Some p -> test !! i = Some t -> p <> 0 -> c + n <= p + t \/ p + t + 8 <= c) ->
       get_bytes b' c n = get_bytes b c n).
Proof.
  revert test b. induction bkts as [|p bkts IH]; intros test b Hin Hord; cbn [end_buckets].
  { exists b. split_and!; [done|done|done|done]. }
  destruct test as [|t test]; [exists b; split_and!; done|].
  destruct (Z.eqb_spec p 0) as [->|Hp].
  - destruct (IH test b) as (b' & E & Hs & Hz & Hf).
    + intros i. apply (Hin (S i)).
    + intros i j p t' q Hij. apply (Hord (S i) (S j)). lia.
    + exists b'. split_and!; [done|done| |].
      * intros [|i] p t' Hi Ht Hp; [by injection Hi as <-|]. by apply (Hz i).
      * intros c n Hn Hd. apply Hf; [done|]. intros i. apply (Hd (S i)).
  - destruct (Hin O p t eq_refl eq_refl Hp) as (H0 & H1 & H2).
    destruct (put_bytes_ok b (p + t) (le 8 0)) as (b1 & E1 & Hb1 & Hl1); rewrite ?zlen_le; [lia|lia|].
    rewrite E1. cbn [mbind option_bind]. destruct (IH test b1) as (b' & E & [Hb' Hl'] & Hz & Hf).
    + intros i. rewrite Hb1, Hl1. apply (Hin (S i)).
    + intros i j p' t' q Hij. apply (Hord (S i) (S j)). lia.
    + exists b'. split_and!; [done|split; congruence| |].
      * intros [|i] p' t' Hi Ht Hp'; [|by apply (Hz i)]. injection Hi as <-. injection Ht as <-.
        rewrite Hf; [exact (get_put_same _ _ _ _ E1)|lia|]. intros i q u Hq Hu Hqne. left.
        pose proof (Hord O (S i) p t q ltac:(lia) eq_refl eq_refl Hq Hp Hqne).
        destruct (Hin (S i) q u Hq Hu Hqne). lia.
      * intros c n Hn Hd. rewrite Hf by (done || intros i; apply (Hd (S i))).
        apply (get_put_other _ _ _ _ _ _ E1); [done|]. rewrite zlen_le.
        destruct (Hd O p t eq_refl eq_refl Hp); lia.
Qed.

(** ** The whole table *)

Lemma bucket_good names sz i bs :
  0 <= bs < 2 ^ 15 -> Forall (fun n => good_name n /\ elt_size n <= bs) names -> Forall good (bucket names sz i).
Proof.
  intros Hbs. induction 1 as [|n names [Hg Hs] _ IH]; [constructor|].
  destruct (str_data (hk_key n)) as [d|] eqn:E; [|by rewrite bucket_cons_none].
  rewrite (bucket_cons _ _ _ _ _ E). apply Forall_app. split; [|done]. case_decide; [|done].
  repeat constructor; cbn [fst snd]; [apply Hg..|]. rewrite zlen_lower.
  destruct Hg as (? & _ & _ & Hd). unfold elt_size in Hs. rewrite (Hd d E) in *.
  destruct (elt_size_spec (zlen d)) as [Hz _]; [done|]. lia.
Qed.

(** What [ngx_hash_init] needs: the room of a bucket is a cache line at least, below 32K. *)
Record init_ok (k bucket_size : Z) (al : allocations) (names : list ngx_hash_key_t) : Prop := {
  ok_line : 3 <= k <= 12;
  ok_bucket : 24 <= bucket_size < 2 ^ 15;
  ok_names : Forall good_name names;
  ok_elts n p g : elts_at al n = Some (p, g) -> 0 < p /\ zlen g = n
}.

Section Table.
Context (k bs sz : Z) (names : list ngx_hash_key_t) (Hk : 3 <= k <= 12) (Hsz : 0 < sz).
Context (Hbs : 0 <= bs < 2 ^ 15 - 8) (Hf : Forall (fun n => good_name n /\ elt_size n <= bs) names).
Context (Hfit : size_fits names bs sz).

(** The sizes of the buckets: with the end mark, a whole number of cache lines. *)
Definition bucket_cap (i : nat) : Z := align_bucket (2 ^ k) (PTR + used (bucket names sz i)).
Definition caps : list Z := align_bucket (2 ^ k) <$> count_names names sz (replicate (Z.to_nat sz) PTR).

Lemma used_empty l : used l = 0 <-> l = [].
Proof. split; [|by intros ->]. destruct l; [done|]. pose proof (used_length (p :: l)). cbn [length] in *. lia. Qed.

Lemma bucket_cap_spec i :
  (i < Z.to_nat sz)%nat ->
  if decide (bucket names sz i = []) then bucket_cap i = PTR
  else used (bucket names sz i) + 8 <= bucket_cap i /\ bucket_cap i <> PTR /\ bucket_cap i mod 8 = 0.
Proof.
  intros Hi. specialize (Hfit i Hi). pose proof (used_nonneg (bucket names sz i)). unfold bucket_cap, align_bucket.
  case_decide as Hd; [by rewrite Hd|].
  assert (0 < used (bucket names sz i)) by (destruct (Z.eq_dec (used (bucket names sz i)) 0) as [E%used_empty|]; [done|lia]).
  unfold PTR in *. rewrite (proj2 (Z.eqb_neq _ _)) by lia.
  destruct (ngx_align_spec (8 + used (bucket names sz i)) k) as [H1 H2]; [lia|].
  assert (H3 : 2 ^ k <= 2 ^ 12) by (apply Z.pow_le_mono_r; lia). change (2 ^ 12) with 4096 in H3.
  rewrite u16_id by lia. split_and!; [lia|lia|].
  apply Z.mod_divide; [lia|]. apply Z.divide_trans with (2 ^ k); [|apply Z.mod_divide; lia].
  exists (2 ^ (k - 3)). change 8 with (2 ^ 3). rewrite <- Z.pow_add_r by lia. f_equal. lia.
Qed.

Lemma caps_length : length caps = Z.to_nat sz.
Proof. unfold caps. by rewrite length_fmap, count_names_length, length_replicate. Qed.

Lemma caps_lookup i : (i < Z.to_nat sz)%nat -> caps !! i = Some (bucket_cap i).
Proof.
  intros Hi. unfold caps, bucket_cap. rewrite list_lookup_fmap. specialize (Hfit i Hi).
  rewrite (count_names_spec sz bs) with (t := PTR); [done|lia|lia|done|by rewrite length_replicate| |done|unfold PTR; lia].
  by apply lookup_replicate.
Qed.

Lemma caps_good : Forall (fun c => c = PTR \/ 0 <= c /\ c <> PTR /\ c mod 8 = 0) caps.
Proof.
  apply Forall_lookup. intros i c Hi. assert (Hl : (i < Z.to_nat sz)%nat).
  { rewrite <- caps_length. by eapply lookup_lt_Some. }
  rewrite (caps_lookup i Hl) in Hi. injection Hi as <-. pose proof (bucket_cap_spec i Hl) as H.
  pose proof (used_nonneg (bucket names sz i)). case_decide; [by left|right]. split_and!; [lia|tauto..].
Qed.

Lemma caps_nonneg : Forall (fun c => 0 <= c) caps.
Proof. eapply Forall_impl; [apply caps_good|]. unfold PTR. intros c [->|]; cbn; lia. Qed.

Lemma total_mod8 l : Forall (fun c => c = PTR \/ 0 <= c /\ c <> PTR /\ c mod 8 = 0) l -> total l mod 8 = 0.
Proof.
  induction 1 as [|c l Hc _ IH]; [done|]. cbn [total]. rewrite Zplus_mod, IH.
  destruct (Z.eqb_spec c PTR); [done|]. destruct Hc as [?|(_ & _ & ->)]; done.
Qed.

Context (p : Z) (garbage : bytes) (Hp : 0 < p) (Hg : zlen garbage = total caps + 2 ^ k).
Let A : Z := ngx_align_ptr p (2 ^ k).
Let at_i (i : nat) : Z := A + total (take i caps).
Let nonempty (i : nat) : Prop := bucket names sz i <> [].

Lemma start_spec : p <= A < p + 2 ^ k /\ A mod 8 = 0.
Proof.
  destruct (ngx_align_spec p k) as [H1 H2]; [lia|]. change (ngx_align p (2 ^ k)) with A in *. split; [done|].
  apply Z.mod_divide; [lia|]. apply Z.divide_trans with (2 ^ k); [|apply Z.mod_divide; lia].
  exists (2 ^ (k - 3)). change 8 with (2 ^ 3). rewrite <- Z.pow_add_r by lia. f_equal. lia.
Qed.

Lemma at_i_spec i : (i < Z.to_nat sz)%nat -> 0 < at_i i /\ at_i i mod 8 = 0.
Proof.
  intros Hi. destruct start_spec as [H1 H2]. unfold at_i. split.
  - pose proof (total_nonneg (take i caps) ltac:(apply Forall_take, caps_nonneg)). lia.
  - rewrite Zplus_mod, H2, total_mod8; [done|]. apply Forall_take, caps_good.
Qed.

Lemma layout_init : layout (mk_block p garbage) (Z.to_nat sz) at_i bucket_cap nonempty.
Proof.
  split.
  - intros i Hi Hn. pose proof (bucket_cap_spec i Hi) as Hc. rewrite decide_False in Hc by done.
    destruct start_spec as [H1 _]. cbn [base data]. rewrite Hg.
    pose proof (total_take_le caps i (length caps) (bucket_cap i) caps_nonneg (caps_lookup i Hi) ltac:(tauto)
                  ltac:(rewrite caps_length; lia)) as H. rewrite firstn_all in H.
    pose proof (total_nonneg (take i caps) ltac:(apply Forall_take, caps_nonneg)). unfold at_i. lia.
  - intros i j Hij Hi _. pose proof (bucket_cap_spec i ltac:(lia)) as Hc. rewrite decide_False in Hc by done.
    pose proof (total_take_le caps i j (bucket_cap i) caps_nonneg (caps_lookup i ltac:(lia)) ltac:(tauto) ltac:(lia)).
    unfold at_i. lia.
Qed.

Let bkts : list Z := place_buckets caps A.

Lemma bkts_lookup i :
  (i < Z.to_nat sz)%nat ->
  bkts !! i = Some (if decide (bucket names sz i = []) then 0 else at_i i).
Proof.
  intros Hi. unfold bkts. rewrite (place_buckets_lookup _ _ _ _ (caps_lookup i Hi)). f_equal.
  pose proof (bucket_cap_spec i Hi) as Hc. case_decide; [by rewrite Hc, Z.eqb_refl|].
  by rewrite (proj2 (Z.eqb_neq _ _)) by tauto.
Qed.

Lemma bkts_Some i q : bkts !! i = Some q -> q <> 0 -> (i < Z.to_nat sz)%nat /\ nonempty i /\ q = at_i i.
Proof.
  intros Hi Hq. assert (Hl : (i < Z.to_nat sz)%nat).
  { rewrite <- caps_length, <- (place_buckets_length caps A). by eapply lookup_lt_Some. }
  rewrite (bkts_lookup i Hl) in Hi. injection Hi as <-. case_decide; [done|]. done.
Qed.

(** The elements are written, and the table finds them. *)
Lemma table_built :
  exists test b b', fill_names names sz bkts (replicate (Z.to_nat sz) 0) (mk_block p garbage) = Some (test, b) /\
    end_buckets bkts test b = Some b' /\
    forall key name, 0 <= key ->
      ngx_hash_find (mk_hash bkts sz b') key name =
      Some (assoc (bucket names sz (Z.to_nat (key mod sz))) name).
Proof.
  destruct (fill_names_spec sz Hsz bs ltac:(lia) at_i bucket_cap nonempty bkts) with
    (names := names) (b := mk_block p garbage) (test := replicate (Z.to_nat sz) 0) (done := fun _ : nat => @nil (Z * bytes))
    as (test & b & E & Hsame & [F1 F2 F3]).
  - intros i Hi Hn. rewrite bkts_lookup by done. by rewrite decide_False.
  - done.
  - exact layout_init.
  - split; [by rewrite length_replicate|intros i Hi; cbn; by apply lookup_replicate|intros i Hi Hn; cbn; lia].
  - intros i Hi. cbn [used]. split_and!; [by apply Hfit|done|]. intros Hn.
    pose proof (bucket_cap_spec i Hi) as Hc. rewrite decide_False in Hc by done. lia.
  - cbn [app] in *. exists test, b. pose proof (layout_same _ _ _ _ _ _ Hsame layout_init) as Hl.
    assert (Hcap : forall i, (i < Z.to_nat sz)%nat -> nonempty i -> used (bucket names sz i) + 8 <= bucket_cap i).
    { intros i Hi Hn. pose proof (bucket_cap_spec i Hi) as Hc. rewrite decide_False in Hc by done. tauto. }
    assert (Hend : forall i q t, bkts !! i = Some q -> test !! i = Some t -> q <> 0 ->
              (i < Z.to_nat sz)%nat /\ nonempty i /\ q = at_i i /\ t = used (bucket names sz i)).
    { intros i q t Hq Ht Hq0. destruct (bkts_Some i q Hq Hq0) as (Hi & Hn & ->). rewrite (F2 i Hi) in Ht.
      injection Ht as <-. done. }
    destruct (end_buckets_spec bkts test b) as (b' & E' & Hs' & Hz & Hget).
    + intros i q t Hq Ht Hq0. destruct (Hend i q t Hq Ht Hq0) as (Hi & Hn & -> & ->).
      pose proof (layout_inside _ _ _ _ _ Hl i Hi Hn). pose proof (Hcap i Hi Hn).
      pose proof (used_nonneg (bucket names sz i)). lia.
    + intros i j q t q' Hij Hq Ht Hq' Hq0 Hq0'. destruct (Hend i q t Hq Ht Hq0) as (Hi & Hn & -> & ->).
      destruct (bkts_Some j q' Hq' Hq0') as (Hj & Hnj & ->).
      pose proof (layout_apart _ _ _ _ _ Hl i j ltac:(lia) Hn Hnj). pose proof (Hcap i Hi Hn). lia.
    + exists b'. split; [done|]. split; [done|]. intros key name Hkey. unfold ngx_hash_find. cbn [size buckets elts].
      rewrite (proj2 (Z.eqb_neq sz 0)) by lia. pose proof (Z.mod_pos_bound key sz Hsz) as Hm.
      set (i := Z.to_nat (key mod sz)). assert (Hi : (i < Z.to_nat sz)%nat) by lia.
      rewrite (bkts_lookup i Hi). cbn [mbind option_bind]. case_decide as Hd; [by rewrite Hd|].
      destruct (at_i_spec i Hi) as [Hpos Hmod]. rewrite (proj2 (Z.eqb_neq _ 0)) by lia.
      pose proof (used_length (bucket names sz i)). pose proof (Hcap i Hi Hd).
      destruct (layout_inside _ _ _ _ _ Hl i Hi Hd) as [Hin1 Hin2]. destruct Hs' as [Hb1 Hb2].
      apply (find_loop_spec _ _ _ _ (at_i i + used (bucket names sz i))); [done| | | |].
      * eapply chain_get; [by apply F3|]. intros c n Hn Hc Hce. apply Hget; [done|].
        intros j q t Hq Ht Hq0. destruct (Hend j q t Hq Ht Hq0) as (Hj & Hnj & -> & ->).
        pose proof (Hcap j Hj Hnj). pose proof (used_nonneg (bucket names sz j)).
        destruct (decide (i = j)) as [->|Hne]; [left; lia|].
        destruct (layout_apart' _ _ _ _ _ i j Hl Hi Hj Hne Hd Hnj); lia.
      * by apply (bucket_good _ _ _ bs); [lia|].
      * apply (Hz i); [by rewrite bkts_lookup, decide_False by done|by apply F2|lia].
      * unfold zlen in *. lia.
Qed.
End Table.

Lemma forallb_false {A} (f : A -> bool) l : forallb f l = false -> Exists (fun x => f x = false) l.
Proof.
  induction l as [|x l IH]; cbn [forallb]; [done|]. destruct (f x) eqn:E; [right; by apply IH|by left].
Qed.

Lemma first_size_spec nelts max_size bs :
  0 <= nelts -> 16 <= bs < 2 ^ 64 -> exists start, first_size nelts max_size bs = Some start /\ 0 < start.
Proof.
  intros Hn Hb. unfold first_size, PTR. rewrite u64_id by lia. change (2 * 8) with 16.
  assert (Hd : 1 <= bs / 16) by (apply Z.div_le_lower_bound; lia). rewrite (proj2 (Z.eqb_neq _ 0)) by lia.
  eexists. split; [done|]. pose proof (Z.div_pos nelts (bs / 16) Hn ltac:(lia)).
  destruct (Z.ltb_spec 10000 max_size), (negb (nelts =? 0)), (max_size / nelts <? 100); cbn [andb]; try lia;
    destruct (Z.eqb_spec (nelts / (bs / 16)) 0); lia.
Qed.

(** Why [ngx_hash_init] returns an error: memory, or a name or a bucket that is too large. *)
Definition refused (al : allocations) (max_size bucket_size : Z) (names : list ngx_hash_key_t) : Prop :=
  test_ok al = false \/ buckets_ok al = false \/ (exists n, elts_at al n = None) \/
  Exists (fun n => bucket_size < elt_size n + PTR) names \/
  exists start, first_size (zlen names) max_size (bucket_size - PTR) = Some start /\
    forall sz, start <= sz < max_size -> ~ size_fits names (bucket_size - PTR) sz.

(** The value of the first of the names that is [name] when lowered. *)
Definition value_of (names : list ngx_hash_key_t) (name : bytes) : Z := assoc (omap entry names) name.

Lemma bucket_value_of (H : bytes -> Z) names sz name :
  0 < sz ->
  (forall n d, n ∈ names -> str_data (hk_key n) = Some d -> key_hash n = H (lower d)) ->
  assoc (bucket names sz (Z.to_nat (H name mod sz))) name = value_of names name.
Proof.
  intros Hsz HH. unfold value_of. induction names as [|n names IH]; [done|].
  specialize (IH ltac:(intros; apply HH; [by right|done])).
  destruct (str_data (hk_key n)) as [d|] eqn:E.
  - rewrite (bucket_cons _ _ _ _ _ E). cbn [omap list_omap]. unfold entry at 1. rewrite E. cbn [mbind option_bind assoc].
    pose proof (Z.mod_pos_bound (H name) sz Hsz). rewrite (HH n d ltac:(by left) E).
    destruct (decide (name = lower d)) as [->|Hne].
    + rewrite decide_True by lia. cbn. by rewrite decide_True.
    + case_decide; cbn [app assoc]; [by rewrite decide_False|done].
  - rewrite bucket_cons_none by done. cbn [omap list_omap]. unfold entry at 1. by rewrite E.
Qed.

(** C7: [ngx_hash_init] does not write outside of the memory it allocates, whatever the
    memory holds; it fails only for want of memory, or because a name does not fit a
    bucket, or because every number of buckets gives one of them more than its size.  In
    the table that it builds, [ngx_hash_find] finds of a key and a name the value of the
    first such name of the bucket of the key; when the keys are those of a hash function,
    the value of the first such name given to [ngx_hash_init], and NULL if there is none. *)
Theorem hash_init_find (k max_size bucket_size : Z) (al : allocations) (names : list ngx_hash_key_t) :
  init_ok k bucket_size al names ->
  exists r, ngx_hash_init (2 ^ k) al max_size bucket_size names = Some r /\
  match r with
  | None => refused al max_size bucket_size names
  | Some hash =>
      0 < size hash < max_size /\
      (forall key name, 0 <= key ->
         ngx_hash_find hash key name =
         Some (assoc (bucket names (size hash) (Z.to_nat (key mod size hash))) name)) /\
      forall (H : bytes -> Z) name, (forall x, 0 <= H x) ->
        (forall n d, n ∈ names -> str_data (hk_key n) = Some d -> key_hash n = H (lower d)) ->
        ngx_hash_find hash (H name) name = Some (value_of names name)
  end.
Proof.
  intros [Hk Hb Hnames Helts]. unfold ngx_hash_init.
  destruct (forallb _ names) eqn:Efit.
  2:{ exists None. split; [done|]. right; right; right; left. apply forallb_false in Efit.
      eapply Exists_impl; [exact Efit|]. intros n Hn. cbv beta in Hn. unfold elt_size. lia. }
  assert (Hf : Forall (fun n => good_name n /\ elt_size n <= bucket_size - PTR) names).
  { rewrite forallb_forall in Efit. rewrite Forall_forall in Hnames |- *. intros n Hn. split; [by apply Hnames|].
    apply list_elem_of_In in Hn. specialize (Efit n Hn). cbv beta in Efit. unfold elt_size. lia. }
  destruct (test_ok al) eqn:Etest; [|exists None; split; [done|by left]].
  unfold PTR in *. destruct (first_size_spec (zlen names) max_size (bucket_size - 8)) as (start & Es & Hs);
    [apply zlen_nonneg|lia|].
  cbn [guard_]. rewrite Es. unfold mbind at 1 2 3, attempt_bind at 1 2 3, mret, attempt_ret, access, mbind, option_bind.
  pose proof (size_loop_spec (S (Z.to_nat (max_size - start))) names start max_size (bucket_size - 8)
                Hs ltac:(lia) Hf ltac:(lia)) as Hloop.
  destruct (size_loop _ _ _ _ _) as [sz|].
  2:{ exists None. split; [done|]. right; right; right; right. by exists start. }
  destruct Hloop as [Hsz Hfit].
  destruct (buckets_ok al) eqn:Ebuckets; [|exists None; split; [done|right; by left]].
  cbn [guard_]. destruct (elts_at al _) as [[p garbage]|] eqn:Eelts.
  2:{ exists None. split; [done|]. right; right; left. by eexists. }
  destruct (Helts _ _ _ Eelts) as [Hp Hg]. rewrite total_len_total in Hg.
  destruct (table_built k (bucket_size - 8) sz names Hk ltac:(lia) ltac:(lia) Hf Hfit p garbage Hp Hg)
    as (test & b & b' & E1 & E2 & Hfind).
  unfold caps, PTR in E1, E2, Hfind. rewrite E1. cbn [attempt_bind]. cbv beta iota. rewrite E2. cbn [attempt_bind].
  eexists. split; [done|]. cbn [size]. split; [lia|].
  split; [exact Hfind|]. intros H name HH Hkeys. rewrite Hfind by done. f_equal. apply bucket_value_of; [lia|done].
Qed.

Definition sample_name (s : bytes) (v : Z) : ngx_hash_key_t := mk_hash_key (str s) (ngx_hash_key_lc s) v.
Definition sample_names : list ngx_hash_key_t :=
  [sample_name (bs "Host") 4096; sample_name (bs "Cookie") 8192; mk_hash_key (mk_str 0 None) 0 16;
   sample_name (bs "If-Modified-Since") 12288].
Definition sample_alloc : allocations :=
  mk_alloc true true (fun n => if n =? 192 then Some (100003, replicate 192 170) else None).

Lemma key_lc_nonneg s : 0 <= ngx_hash_key_lc s.
Proof. apply (ngx_hash_from_range 0). lia. Qed.

Lemma good_sample s v : 0 < v < 2 ^ 64 -> good_name (sample_name s v).
Proof.
  intros Hv. unfold good_name, sample_name. cbn [hk_key key_hash hk_value str str_len str_data]. split_and!; [apply zlen_nonneg|apply key_lc_nonneg|lia..|]. by intros d [= <-].
Qed.

Lemma hash_init_find_witness :
  exists hash, ngx_hash_init 64 sample_alloc 512 64 sample_names = Some (Some hash) /\
    ngx_hash_find hash (ngx_hash_key_lc (bs "cookie")) (bs "cookie") = Some 8192.
Proof.
  destruct (hash_init_find 6 512 64 sample_alloc sample_names) as (r & E & Hr).
  - split; [lia|lia| |].
    + repeat apply Forall_cons_2; [apply good_sample; lia..| |apply good_sample; lia|constructor].
      split_and!; cbn; [lia|lia|lia|lia|done].
    + intros n p g. unfold sample_alloc. cbn [elts_at]. destruct (Z.eqb_spec n 192) as [->|]; [|done].
      intros [= <- <-]. split; [lia|by vm_compute].
  - destruct r as [hash|].
    + exists hash. split; [exact E|]. destruct Hr as (_ & _ & Hr). rewrite (Hr ngx_hash_key_lc).
      * by vm_compute.
      * apply key_lc_nonneg.
      * intros n d Hn. unfold sample_names in Hn. rewrite !elem_of_cons, elem_of_nil in Hn.
        intros Hd. destruct_or! Hn; subst n; first [discriminate Hd|injection Hd as <-; vm_compute; reflexivity|destruct Hn].
    + exfalso. vm_compute in E. discriminate E.
Defined.

(** The size of a bucket is compared after it was cut to 16 bits: with a larger one no table
    is found. *)
Example bucket_size_wraps :
  ngx_hash_init 64 sample_alloc 64 65544 [sample_name (bs "host") 16] = Some None.
Proof. by vm_compute. Qed.
