(* ===== verification/RadixTree.v ===== *)
(** Radix trees on 32-bit keys: src/core/ngx_radix_tree.c.  The tables of addresses of the
    geo and access modules. *)
From S2P Require Import Prelude.

(** ** Data *)

(** [(uintptr_t) -1] *)
Definition NGX_RADIX_NO_VALUE : Z := 2 ^ 64 - 1.

(** A node and what is below it; [NULL_] is a NULL pointer. *)
Inductive radix_node := NULL_ | Node (value : Z) (left right : radix_node).

(** The [parent] pointers from a node up to the root: for every one of its ancestors,
    the side it was left by ([true]: right), its value and its other child. *)
Record up := mk_up { went_right : bool; up_value : Z; other : radix_node }.
Abbreviation parents := (list up).

(** The memory for nodes: the length of the [free] list, the bytes left of the page, and
    the number of pages that the pool can still give. *)
Record node_memory := mk_memory { free : nat; page_left : Z; pages : nat }.

(** [ngx_radix_tree_t] *)
Record ngx_radix_tree_t := mk_radix { root : radix_node; memory : node_memory }.

Definition sizeof_node : Z := 32.
Definition ngx_pagesize : Z := 4096.
Definition sizeof_tree : Z := 40.

(** [node->parent] and up: the tree that has [n] below [p]. *)
Definition link (n : radix_node) (u : up) : radix_node :=
  if went_right u then Node (up_value u) (other u) n else Node (up_value u) n (other u).
Definition whole (p : parents) (n : radix_node) : radix_node := fold_left link p n.

Definition set_bit (x bit : Z) : bool := negb (Z.land x bit =? 0).

(** ** Allocation *)

Definition ngx_radix_alloc (m : node_memory) : option node_memory :=
  match free m with
  | S f => Some (mk_memory f (page_left m) (pages m))
  | O =>
      if page_left m <? sizeof_node then
        match pages m with
        | O => None
        | S n => Some (mk_memory 0 (ngx_pagesize - sizeof_node) n)
        end
      else Some (mk_memory 0 (page_left m - sizeof_node) (pages m))
  end.

(** ** Insertion *)

(** The frame of [parents] for a step down. *)
Definition down (right : bool) (v : Z) (l r : radix_node) : up := mk_up right v (if right then l else r).

(** The first loop: [bit] and the node where it stops, and whether [next] is not NULL there. *)
Fixpoint insert_walk (n : radix_node) (bit key mask : Z) (p : parents) : Z * radix_node * parents * bool :=
  match n with
  | NULL_ => (bit, n, p, false)
  | Node v l r =>
      if set_bit bit mask then
        let right := set_bit key bit in
        let next := if right then r else l in
        match next with
        | NULL_ => (bit, n, p, false)
        | Node _ _ _ => insert_walk next (Z.shiftr bit 1) key mask (down right v l r :: p)
        end
      else (bit, n, p, true)
  end.

(** The second loop: the new nodes below [Node v l r]; [false]: no memory.  [bit] has 32 bits,
    which bounds the turns. *)
Fixpoint insert_new (fuel : nat) (bit key mask : Z) (v : Z) (l r : radix_node) (p : parents) (m : node_memory)
    : Z * radix_node * radix_node * parents * node_memory * bool :=
  match fuel with
  | O => (v, l, r, p, m, true)
  | S fuel =>
      if set_bit bit mask then
        match ngx_radix_alloc m with
        | None => (v, l, r, p, m, false)
        | Some m =>
            insert_new fuel (Z.shiftr bit 1) key mask NGX_RADIX_NO_VALUE NULL_ NULL_
              (down (set_bit key bit) v l r :: p) m
        end
      else (v, l, r, p, m, true)
  end.

Definition BIT0 : Z := 0x80000000.

(** The tree and the return code. *)
Definition ngx_radix32tree_insert (tree : ngx_radix_tree_t) (key mask value : Z) : ngx_radix_tree_t * Z :=
  match insert_walk (root tree) BIT0 key mask [] with
  | (_, Node v l r, p, true) =>
      if negb (v =? NGX_RADIX_NO_VALUE) then (tree, NGX_BUSY)
      else (mk_radix (whole p (Node value l r)) (memory tree), NGX_OK)
  | (bit, Node v l r, p, false) =>
      let '(v, l, r, p, m, ok) := insert_new 33 bit key mask v l r p (memory tree) in
      if ok then (mk_radix (whole p (Node value l r)) m, NGX_OK)
      else (mk_radix (whole p (Node v l r)) m, NGX_ERROR)
  | _ => (tree, NGX_ERROR)
  end.

(** ** Deletion *)

Fixpoint delete_walk (bit key mask : Z) (n : radix_node) (p : parents) {struct n} : radix_node * parents :=
  match n with
  | NULL_ => (NULL_, p)
  | Node v l r =>
      if set_bit bit mask then
        let right := set_bit key bit in
        delete_walk (Z.shiftr bit 1) key mask (if right then r else l) (down right v l r :: p)
      else (n, p)
  end.

Definition is_null (n : radix_node) : bool := match n with NULL_ => true | _ => false end.

(** The loop that frees a leaf, and its ancestors that become leaves without a value; the
    result is the node where it stops, and the number of nodes put in the [free] list.
    [None]: the parent of the root is used, a NULL pointer. *)
Fixpoint delete_up (p : parents) (freed : nat) : option (radix_node * parents * nat) :=
  match p with
  | [] => None
  | u :: p =>
      let '(l, r) := if went_right u then (other u, NULL_) else (NULL_, other u) in
      let freed := S freed in
      if negb (is_null r) || negb (is_null l) || negb (up_value u =? NGX_RADIX_NO_VALUE)
         || match p with [] => true | _ => false end
      then Some (Node (up_value u) l r, p, freed)
      else delete_up p freed
  end.

Definition ngx_radix32tree_delete (tree : ngx_radix_tree_t) (key mask : Z) : option (ngx_radix_tree_t * Z) :=
  match delete_walk BIT0 key mask (root tree) [] with
  | (NULL_, _) => Some (tree, NGX_ERROR)
  | (Node v l r, p) =>
      if negb (is_null r) || negb (is_null l) then
        if negb (v =? NGX_RADIX_NO_VALUE)
        then Some (mk_radix (whole p (Node NGX_RADIX_NO_VALUE l r)) (memory tree), NGX_OK)
        else Some (tree, NGX_ERROR)
      else
        '(n, p, freed) ← delete_up p 0;
        let m := memory tree in
        Some (mk_radix (whole p n) (mk_memory (freed + free m) (page_left m) (pages m)), NGX_OK)
  end.

(** ** Search *)

Fixpoint find_walk (n : radix_node) (bit key value : Z) : Z :=
  match n with
  | NULL_ => value
  | Node v l r =>
      let value := if negb (v =? NGX_RADIX_NO_VALUE) then v else value in
      find_walk (if set_bit key bit then r else l) (Z.shiftr bit 1) key value
  end.

Definition ngx_radix32tree_find (tree : ngx_radix_tree_t) (key : Z) : Z :=
  find_walk (root tree) BIT0 key NGX_RADIX_NO_VALUE.

(** ** Creation *)

(** [do ... while (key)] *)
Fixpoint level_loop (fuel : nat) (tree : ngx_radix_tree_t) (key mask inc : Z) : option ngx_radix_tree_t :=
  match fuel with
  | O => Some tree
  | S fuel =>
      let '(tree, rc) := ngx_radix32tree_insert tree key mask NGX_RADIX_NO_VALUE in
      if negb (rc =? NGX_OK) then None
      else
        let key := u32 (key + inc) in
        if key =? 0 then Some tree else level_loop fuel tree key mask inc
  end.

(** [while (preallocate--)] *)
Fixpoint prealloc_loop (n : nat) (tree : ngx_radix_tree_t) (mask inc : Z) : option ngx_radix_tree_t :=
  match n with
  | O => Some tree
  | S n =>
      let mask := Z.lor (Z.shiftr mask 1) BIT0 in
      tree ← level_loop (Z.to_nat (2 ^ 32 / inc)) tree 0 mask inc;
      prealloc_loop n tree mask (Z.shiftr inc 1)
  end.

Definition ngx_radix_tree_create (pages : nat) (preallocate : Z) : option ngx_radix_tree_t :=
  m ← ngx_radix_alloc (mk_memory 0 0 pages);
  let tree := mk_radix (Node NGX_RADIX_NO_VALUE NULL_ NULL_) m in
  if preallocate =? 0 then Some tree
  else
    let preallocate :=
      if preallocate =? -1 then
        let q := ngx_pagesize / sizeof_tree in
        if q =? 128 then 6 else if q =? 256 then 7 else 8
      else preallocate in
    prealloc_loop (Z.to_nat preallocate) tree 0 BIT0.

(** With pages of 4K, 8 levels are allocated, where the comment announces 6 for amd64: the
    division is by the size of the tree, not of a node. *)
Example preallocated_levels : 4096 / sizeof_tree = 102 /\ 4096 / sizeof_node = 128.
Proof. by vm_compute. Qed.
