(* ===== verification/RadixTreeSpec.v ===== *)
(** Radix trees as maps from prefixes to values: insertion, deletion and the search of the
    longest prefix. *)
From S2P Require Import Prelude RadixTree.

(** ** Prefixes *)

(** The value of [bit] when [n] bits of the key are left. *)
Definition bit_of (n : nat) : Z := match n with O => 0 | S n => 2 ^ Z.of_nat n end.

(** The [n] low bits of [key] from the high one on, as long as those of [mask] are set. *)
Fixpoint prefix (n : nat) (key mask : Z) : list bool :=
  match n with
  | O => []
  | S n => if Z.testbit mask (Z.of_nat n) then Z.testbit key (Z.of_nat n) :: prefix n key mask else []
  end.

Definition bits (key : Z) : list bool := prefix 32 key (2 ^ 32 - 1).

Lemma set_bit_0 x : set_bit x 0 = false.
Proof. unfold set_bit. by rewrite Z.land_0_r. Qed.

Lemma set_bit_S x n : set_bit x (bit_of (S n)) = Z.testbit x (Z.of_nat n).
Proof.
  apply land_bit. lia.
Qed.

Lemma set_bit_comm x y : set_bit x y = set_bit y x.
Proof. unfold set_bit. by rewrite Z.land_comm. Qed.

Lemma shift_bit n : Z.shiftr (bit_of (S n)) 1 = bit_of n.
Proof.
  unfold bit_of. rewrite Z.shiftr_div_pow2 by lia. destruct n as [|n]; [done|].
  rewrite Nat2Z.inj_succ, Z.pow_succ_r by lia. change (2 ^ 1) with 2. rewrite Z.mul_comm, Z.div_mul; done.
Qed.

Lemma prefix_length n key mask : (length (prefix n key mask) <= n)%nat.
Proof. induction n as [|n IH]; cbn [prefix]; [done|]. case_match; cbn; lia. Qed.

Lemma bits_length key : length (bits key) = 32%nat.
Proof. done. Qed.

(** ** The map of a tree *)

Definition val (v : Z) : option Z := if v =? NGX_RADIX_NO_VALUE then None else Some v.

Fixpoint get (n : radix_node) (q : list bool) : option Z :=
  match n with
  | NULL_ => None
  | Node v l r => match q with [] => val v | b :: q => get (if b then r else l) q end
  end.

#[export] Instance radix_equiv : Equiv radix_node := fun n n' => forall q, get n q = get n' q.
#[export] Instance radix_equivalence : Equivalence (≡@{radix_node}).
Proof. split; [by intros n q|by intros n n' H q|intros a b c H1 H2 q; by rewrite H1]. Qed.

#[export] Instance get_proper : Proper ((≡) ==> (=) ==> (=)) get.
Proof. intros n n' H q ? <-. apply H. Qed.

#[export] Instance link_proper : Proper ((≡) ==> (=) ==> (≡)) link.
Proof.
  intros n n' H u ? <- q. unfold link. destruct (went_right u), q as [|[] q]; cbn; try done; apply H.
Qed.

#[export] Instance whole_proper : Proper ((=) ==> (≡) ==> (≡)) whole.
Proof.
  intros p ? <-. induction p as [|u p IH]; intros n n' H; [done|]. cbn. apply IH. by rewrite H.
Qed.

(** The path from the root. *)
Definition path (p : parents) : list bool := rev (went_right <$> p).

Lemma path_cons u p : path (u :: p) = path p ++ [went_right u].
Proof. done. Qed.

Lemma get_link n u b q : get (link n u) (b :: q) = if Bool.eqb b (went_right u) then get n q else get (other u) q.
Proof. unfold link. by destruct (went_right u), b. Qed.

Lemma get_link_value n n' u q :
  (forall q', q <> went_right u :: q') -> get (link n u) q = get (link n' u) q.
Proof.
  intros H. destruct q as [|b q]; [unfold link; by destruct (went_right u)|]. rewrite !get_link.
  destruct (Bool.eqb_spec b (went_right u)) as [->|]; [by destruct (H q)|done].
Qed.

(** [q] without the beginning [l]. *)
Fixpoint strip (l q : list bool) : option (list bool) :=
  match l, q with
  | [], _ => Some q
  | a :: l, b :: q => if Bool.eqb a b then strip l q else None
  | _, [] => None
  end.

Lemma strip_app l q : strip l (l ++ q) = Some q.
Proof. induction l as [|a l IH]; cbn; [done|]. by rewrite Bool.eqb_reflx. Qed.

Lemma strip_Some l q q' : strip l q = Some q' -> q = l ++ q'.
Proof.
  revert q. induction l as [|a l IH]; intros q; cbn; [by intros [= ->]|]. destruct q as [|b q]; [done|].
  destruct (Bool.eqb_spec a b) as [->|]; [|done]. by intros ->%IH.
Qed.

(** What is changed below [p] changes at the paths through [p] only. *)
Lemma get_whole_app p n q : get (whole p n) (path p ++ q) = get n q.
Proof.
  revert n q. induction p as [|u p IH]; intros n q; [done|]. rewrite path_cons, <- app_assoc. cbn [whole fold_left].
  fold (whole p (link n u)). rewrite IH. cbn [app]. rewrite get_link. by rewrite Bool.eqb_reflx.
Qed.

Lemma get_whole_other p n n' q :
  (forall q', q <> path p ++ q') -> get (whole p n) q = get (whole p n') q.
Proof.
  revert n n'. induction p as [|u p IH]; intros n n' H; [by destruct (H q)|]. cbn [whole fold_left].
  fold (whole p (link n u)) (whole p (link n' u)).
  destruct (strip (path p) q) as [q'|] eqn:E.
  - apply strip_Some in E as ->. rewrite !get_whole_app. apply get_link_value. intros q'' ->.
    apply (H q''). by rewrite path_cons, <- app_assoc.
  - apply IH. intros q' ->. by rewrite strip_app in E.
Qed.

Lemma get_whole_value p v v' l r q :
  get (whole p (Node v' l r)) q = if decide (q = path p) then val v' else get (whole p (Node v l r)) q.
Proof.
  destruct (strip (path p) q) as [q'|] eqn:E.
  - apply strip_Some in E as ->. rewrite !get_whole_app. destruct q' as [|b q'].
    + rewrite app_nil_r. by rewrite decide_True.
    + rewrite decide_False; [done|]. intros H. rewrite <- (app_nil_r (path p)) in H at 2. by apply app_inv_head in H.
  - assert (Hq : forall q', q <> path p ++ q') by (intros q' ->; by rewrite strip_app in E).
    rewrite decide_False; [by apply get_whole_other|]. intros ->. apply (Hq []). by rewrite app_nil_r.
Qed.

(** ** Nodes *)

Fixpoint count (n : radix_node) : Z :=
  match n with NULL_ => 0 | Node _ l r => 1 + count l + count r end.
Fixpoint count_up (p : parents) : Z := match p with [] => 0 | u :: p => 1 + count (other u) + count_up p end.

Lemma count_whole p n : count (whole p n) = count n + count_up p.
Proof.
  revert n. induction p as [|u p IH]; intros n; cbn [whole fold_left count_up]; [lia|]. fold (whole p (link n u)).
  rewrite IH. unfold link. destruct (went_right u); cbn [count]; lia.
Qed.

(** The nodes that can still be had, with the memory there is. *)
Definition room (m : node_memory) : Z := Z.of_nat (free m) + page_left m / sizeof_node + 128 * Z.of_nat (pages m).

Lemma alloc_spec m :
  0 <= page_left m ->
  match ngx_radix_alloc m with
  | Some m' => room m = room m' + 1 /\ 0 <= page_left m'
  | None => room m = 0
  end.
Proof.
  intros Hp. unfold ngx_radix_alloc, room, sizeof_node, ngx_pagesize. destruct (free m) as [|f].
  - destruct (Z.ltb_spec (page_left m) 32) as [H|H].
    + rewrite (Z.div_small (page_left m)) by lia. destruct (pages m) as [|n]; [done|]. cbn [free page_left pages].
      change ((4096 - 32) / 32) with 127. lia.
    + cbn [free page_left pages]. replace (page_left m) with (page_left m - 32 + 1 * 32) at 1 by lia.
      rewrite Z.div_add by lia. lia.
  - cbn [free page_left pages]. lia.
Qed.

(** ** Insertion *)

Lemma link_down (b : bool) v l r : link (if b then r else l) (down b v l r) = Node v l r.
Proof. by destruct b. Qed.

Lemma insert_walk_spec t n key mask p bit n' p' (found : bool) :
  t <> NULL_ -> insert_walk t (bit_of n) key mask p = (bit, n', p', found) ->
  exists m v' l' r', n' = Node v' l' r' /\ bit = bit_of m /\ (m <= n)%nat /\ whole p' n' = whole p t /\
    path p' ++ prefix m key mask = path p ++ prefix n key mask /\
    if found then prefix m key mask = []
    else exists k, m = S k /\ Z.testbit mask (Z.of_nat k) = true /\
         (if Z.testbit key (Z.of_nat k) then r' else l') = NULL_.
Proof.
  revert n p. induction t as [|v l IHl r IHr]; intros n p Ht; [done|]. clear Ht. cbn [insert_walk].
  destruct n as [|k].
  { change (bit_of 0) with 0. rewrite set_bit_comm, set_bit_0. intros [= <- <- <- <-]. by exists O, v, l, r. }
  rewrite (set_bit_comm _ mask), (set_bit_S mask), (set_bit_S key), shift_bit. cbn [prefix]. destruct (Z.testbit mask (Z.of_nat k)) eqn:Em.
  2:{ intros [= <- <- <- <-]. exists (S k), v, l, r. cbn [prefix]. by rewrite Em. }
  set (b := Z.testbit key (Z.of_nat k)). intros H.
  assert (Hstep : forall t', t' <> NULL_ -> t' = (if b then r else l) ->
            (forall n p, t' <> NULL_ -> insert_walk t' (bit_of n) key mask p = (bit, n', p', found) -> exists m v' l' r', n' = Node v' l' r' /\ bit = bit_of m /\ (m <= n)%nat /\ whole p' n' = whole p t' /\
    path p' ++ prefix m key mask = path p ++ prefix n key mask /\
    if found then prefix m key mask = []
    else exists k, m = S k /\ Z.testbit mask (Z.of_nat k) = true /\
         (if Z.testbit key (Z.of_nat k) then r' else l') = NULL_) ->
            insert_walk t' (bit_of k) key mask (down b v l r :: p) = (bit, n', p', found) ->
            exists m v' l' r', n' = Node v' l' r' /\ bit = bit_of m /\ (m <= S k)%nat /\ whole p' n' = whole p (Node v l r) /\
              path p' ++ prefix m key mask = path p ++ b :: prefix k key mask /\
              if found then prefix m key mask = []
              else exists k, m = S k /\ Z.testbit mask (Z.of_nat k) = true /\
                   (if Z.testbit key (Z.of_nat k) then r' else l') = NULL_).
  { intros t' Ht' -> IH E. destruct (IH _ _ Ht' E) as (m & v' & l' & r' & -> & -> & Hm & Hw & Hp & Hf).
    exists m, v', l', r'. split_and!; [done|done|lia| | |done].
    - rewrite Hw. cbn [whole fold_left]. by rewrite link_down.
    - rewrite Hp, path_cons, <- app_assoc. done. }
  destruct (if b then r else l) as [|v0 l0 r0] eqn:E.
  - injection H as <- <- <- <-. exists (S k), v, l, r. cbn [prefix]. rewrite Em. split_and!; try done.
    by exists k.
  - apply (Hstep (Node v0 l0 r0)); [done|done| |done].
    intros n0 p0. rewrite <- E. destruct b; [apply IHr|apply IHl].
Qed.

(** A new node without a value changes nothing. *)
Lemma new_node_equiv (b : bool) v l r :
  (if b then r else l) = NULL_ -> link (Node NGX_RADIX_NO_VALUE NULL_ NULL_) (down b v l r) ≡ Node v l r.
Proof.
  intros H q. destruct q as [|b' q]; [by destruct b|]. rewrite get_link. cbn [down went_right other].
  destruct (Bool.eqb_spec b' b) as [->|Hne].
  - cbn [get]. rewrite H. destruct q as [|[]]; done.
  - cbn [get]. by destruct b, b'.
Qed.

Lemma insert_new_spec fuel n key mask v l r p m v' l' r' p' m' (ok : bool) :
  (n < fuel)%nat -> 0 <= page_left m ->
  (forall k, n = S k -> Z.testbit mask (Z.of_nat k) = true -> (if Z.testbit key (Z.of_nat k) then r else l) = NULL_) ->
  insert_new fuel (bit_of n) key mask v l r p m = (v', l', r', p', m', ok) ->
  whole p' (Node v' l' r') ≡ whole p (Node v l r) /\ 0 <= page_left m' /\
  count (whole p' (Node v' l' r')) + room m' = count (whole p (Node v l r)) + room m /\
  (if ok then path p' = path p ++ prefix n key mask else room m < Z.of_nat n).
Proof.
  revert n v l r p m. induction fuel as [|fuel IH]; intros n v l r p m Hn Hp Hnull; [lia|]. cbn [insert_new].
  destruct n as [|k].
  { change (bit_of 0) with 0. rewrite set_bit_comm, set_bit_0. intros [= <- <- <- <- <- <-]. cbn [prefix]. rewrite app_nil_r.
    split_and!; done. }
  rewrite (set_bit_comm _ mask), (set_bit_S mask), (set_bit_S key), shift_bit. cbn [prefix]. destruct (Z.testbit mask (Z.of_nat k)) eqn:Em.
  2:{ intros [= <- <- <- <- <- <-]. rewrite app_nil_r. split_and!; done. }
  pose proof (alloc_spec m Hp) as Ha. destruct (ngx_radix_alloc m) as [m1|].
  2:{ intros [= <- <- <- <- <- <-]. split_and!; [done|done|done|lia]. }
  destruct Ha as [Hroom Hp1]. set (b := Z.testbit key (Z.of_nat k)). specialize (Hnull k eq_refl Em). fold b in Hnull.
  intros E. apply IH in E as (H1 & H2 & H3 & H4); [|lia|done|intros k0 _ _; by destruct (Z.testbit key (Z.of_nat k0))].
  assert (Heq : whole (down b v l r :: p) (Node NGX_RADIX_NO_VALUE NULL_ NULL_) ≡ whole p (Node v l r)).
  { cbn [whole fold_left]. fold (whole p (link (Node NGX_RADIX_NO_VALUE NULL_ NULL_) (down b v l r))).
    by rewrite new_node_equiv. }
  split_and!; [by rewrite H1|done| |].
  - rewrite !count_whole in *. cbn [count count_up down other] in *.
    assert (count l + count r = count (if b then l else r)) by (destruct b; rewrite Hnull; cbn [count]; lia). lia.
  - destruct ok; [|lia]. rewrite H4, path_cons, <- app_assoc. done.
Qed.

(** What the operations keep: there is a root, and no value deeper than a key has bits. *)
Record tree_ok (t : ngx_radix_tree_t) : Prop := {
  ok_root : root t <> NULL_;
  ok_memory : 0 <= page_left (memory t);
  ok_depth q : (32 < length q)%nat -> get (root t) q = None
}.

(** The value of a prefix. *)
Definition lookup (t : ngx_radix_tree_t) (q : list bool) : option Z := get (root t) q.
(** All the nodes, used or not. *)
Definition all_nodes (t : ngx_radix_tree_t) : Z := count (root t) + room (memory t).

Lemma whole_not_null p v l r : whole p (Node v l r) <> NULL_.
Proof.
  revert v l r. induction p as [|u p IH]; intros v l r; [done|]. cbn [whole fold_left].
  unfold link. destruct (went_right u); apply IH.
Qed.

Lemma radix_insert_spec t key mask v :
  tree_ok t ->
  let q := prefix 32 key mask in
  let '(t', rc) := ngx_radix32tree_insert t key mask v in
  root t' <> NULL_ /\ 0 <= page_left (memory t') /\ all_nodes t' = all_nodes t /\
  match lookup t q with
  | Some _ => rc = NGX_BUSY /\ t' = t
  | None =>
      rc = NGX_OK /\ (forall q', lookup t' q' = if decide (q' = q) then val v else lookup t q') \/
      rc = NGX_ERROR /\ (forall q', lookup t' q' = lookup t q') /\ room (memory t) < 32
  end.
Proof.
  intros [Hroot Hm Hdepth] q. destruct t as [T m]. cbn [root memory] in *. unfold ngx_radix32tree_insert, lookup. cbn [root memory].
  destruct (insert_walk T BIT0 key mask []) as [[[bit n'] p'] found] eqn:E.
  apply (insert_walk_spec T 32) in E as (k & v' & l' & r' & -> & -> & Hk & Hw & Hp & Hf); [|done].
  change (path [] ++ prefix 32 key mask) with q in Hp. cbn [whole fold_left] in Hw.
  assert (Hget : forall q', get T q' = get (whole p' (Node v' l' r')) q') by by rewrite Hw.
  assert (Hother : forall x q', get (whole p' (Node x l' r')) q' = if decide (q' = path p') then val x else get T q')
    by (intros; rewrite Hget; apply get_whole_value).
  destruct found.
  - rewrite Hf, app_nil_r in Hp. rewrite <- Hp, Hget.
    pose proof (get_whole_app p' (Node v' l' r') []) as Hv. rewrite app_nil_r in Hv. rewrite Hv. cbn [get]. unfold val at 1.
    destruct (Z.eqb_spec v' NGX_RADIX_NO_VALUE) as [->|Hne]; cbn [negb].
    + split_and!; [apply whole_not_null|done| |left; split; [done|]].
      * unfold all_nodes. cbn [root memory]. rewrite <- Hw, !count_whole. done.
      * intros q'. cbn [root]. rewrite Hother. done.
    + done.
  - destruct Hf as (k' & -> & Em & Hnull).
    destruct (insert_new 33 _ _ _ _ _ _ _ _) as [[[[[v2 l2] r2] p2] m2] ok] eqn:E2.
    apply insert_new_spec in E2 as (H1 & H2 & H3 & H4); [|lia|done|by intros ? [= ->]].
    assert (Hq : get T q = None).
    { rewrite Hget, <- Hp, get_whole_app. cbn [prefix]. rewrite Em. cbn [get].
      destruct (Z.testbit key (Z.of_nat k')); rewrite Hnull; by destruct (prefix _ _ _). }
    rewrite Hq. destruct ok.
    + split_and!; [apply whole_not_null|done| |left; split; [done|]].
      * unfold all_nodes. cbn [root memory]. rewrite !count_whole in *. rewrite <- Hw, count_whole. cbn [count] in *. lia.
      * intros q'. cbn [root]. rewrite (get_whole_value p2 v2). rewrite H4, Hp. rewrite H1, <- Hget. done.
    + split_and!; [apply whole_not_null|done| |right; split_and!; [done| |lia]].
      * unfold all_nodes. cbn [root memory]. rewrite <- Hw. lia.
      * intros q'. cbn [root]. by rewrite H1, <- Hget.
Qed.

Lemma insert_depth t t' key mask x :
  tree_ok t -> root t' <> NULL_ -> 0 <= page_left (memory t') ->
  (forall q', lookup t' q' = if decide (q' = prefix 32 key mask) then x else lookup t q') -> tree_ok t'.
Proof.
  intros [H1 H2 H3] Hr Hm Hl. split; [done|done|]. intros q Hq. change (get (root t') q) with (lookup t' q).
  rewrite Hl, decide_False; [by apply H3|]. intros ->. pose proof (prefix_length 32 key mask). lia.
Qed.

(** ** Deletion *)

Lemma delete_walk_spec t n key mask p n' p' :
  delete_walk (bit_of n) key mask t p = (n', p') ->
  exists m, whole p' n' = whole p t /\ path p' ++ prefix m key mask = path p ++ prefix n key mask /\
    (n' = NULL_ \/ prefix m key mask = []).
Proof.
  revert n p. induction t as [|v l IHl r IHr]; intros n p; cbn [delete_walk].
  { intros [= <- <-]. exists n. auto. }
  destruct n as [|k].
  { change (bit_of 0) with 0. rewrite set_bit_comm, set_bit_0. intros [= <- <-]. exists O. auto. }
  rewrite (set_bit_comm _ mask), (set_bit_S mask), (set_bit_S key), shift_bit. cbn [prefix].
  destruct (Z.testbit mask (Z.of_nat k)) eqn:Em.
  2:{ intros [= <- <-]. exists (S k). cbn [prefix]. rewrite Em. auto. }
  destruct (Z.testbit key (Z.of_nat k)); intros H; [apply IHr in H|apply IHl in H];
    destruct H as (m & Hw & Hp & Hn); exists m; rewrite Hw, Hp, path_cons, <- app_assoc; done.
Qed.

Lemma empty_node_equiv : Node NGX_RADIX_NO_VALUE NULL_ NULL_ ≡ NULL_.
Proof. intros [|[] q]; done. Qed.

Lemma delete_up_spec p freed :
  match delete_up p freed with
  | None => p = []
  | Some (n, p', freed') =>
      n <> NULL_ /\ whole p' n ≡ whole p NULL_ /\
      count (whole p' n) + Z.of_nat freed' = count (whole p NULL_) + 1 + Z.of_nat freed
  end.
Proof.
  revert freed. induction p as [|u p IH]; intros freed; cbn [delete_up]; [done|].
  assert (Hlink : link NULL_ u = if went_right u then Node (up_value u) (other u) NULL_ else Node (up_value u) NULL_ (other u))
    by done.
  destruct u as [b v o]. cbn [went_right up_value other] in *.
  assert (Hw : whole (mk_up b v o :: p) NULL_ = whole p (link NULL_ (mk_up b v o))) by done.
  rewrite Hw, Hlink. destruct b; cbn [is_null negb orb].
  all: rewrite ?orb_false_r; destruct (negb (is_null o) || _ || _) eqn:E.
  1, 3: (split_and!; [done|done|lia]).
  all: apply orb_false_iff in E as [[Eo Ev]%orb_false_iff Ep]; destruct o; [|done]; destruct p as [|u' p]; [done|].
  all: apply negb_false_iff, Z.eqb_eq in Ev; subst v; specialize (IH (S freed)).
  all: destruct (delete_up (u' :: p) (S freed)) as [[[n p'] freed']|]; [|done].
  all: destruct IH as (H1 & H2 & H3); split_and!; [done|by rewrite H2, empty_node_equiv|].
  all: rewrite !count_whole in *; cbn [count] in *; lia.
Qed.

Lemma delete_spec t key mask :
  tree_ok t ->
  let q := prefix 32 key mask in
  match ngx_radix32tree_delete t key mask with
  | None => q = [] /\ exists v, root t = Node v NULL_ NULL_
  | Some (t', rc) =>
      tree_ok t' /\ all_nodes t' = all_nodes t /\
      (rc = NGX_ERROR /\ t' = t /\ lookup t q = None \/
       rc = NGX_OK /\ forall q', lookup t' q' = if decide (q' = q) then None else lookup t q')
  end.
Proof.
  intros Hok q. pose proof Hok as [Hroot Hm Hdepth]. destruct t as [T m]. cbn [root memory] in *.
  unfold ngx_radix32tree_delete, lookup. cbn [root memory].
  destruct (delete_walk BIT0 key mask T []) as [n' p'] eqn:E. apply (delete_walk_spec T 32) in E as (k & Hw & Hp & Hn).
  change (path [] ++ prefix 32 key mask) with q in Hp. cbn [whole fold_left] in Hw.
  destruct n' as [|v l r].
  { split_and!; [done|done|left; split_and!; [done|done|]]. by rewrite <- Hw, <- Hp, get_whole_app. }
  destruct Hn as [?|Hn]; [done|]. rewrite Hn, app_nil_r in Hp.
  assert (Hq : get T q = val v).
  { rewrite <- Hw, <- Hp. pose proof (get_whole_app p' (Node v l r) []) as H. by rewrite app_nil_r in H. }
  assert (Hset : forall x q', get (whole p' (Node x l r)) q' = if decide (q' = q) then val x else get T q')
    by (intros; rewrite (get_whole_value p' v), Hp, Hw; done).
  destruct (is_null r && is_null l) eqn:Eleaf.
  - destruct r, l; try done. cbn [is_null negb orb]. pose proof (delete_up_spec p' 0) as Hup.
    destruct (delete_up p' 0) as [[[n p2] freed]|]; cbn [mbind option_bind].
    2:{ subst p'. split; [by rewrite <- Hp|]. exists v. by rewrite <- Hw. }
    destruct Hup as (Hn2 & Hequiv & Hcount). assert (Hl : forall q', get (whole p2 n) q' = if decide (q' = q) then None else get T q').
    { intros q'. rewrite (Hequiv q'), <- (whole_proper p' p' eq_refl _ _ empty_node_equiv q'). apply Hset. }
    split_and!.
    + apply (insert_depth _ _ key mask None Hok); [destruct n; [done|apply whole_not_null]|done|exact Hl].
    + unfold all_nodes, room in *. cbn [root memory free page_left pages]. rewrite <- Hw, !count_whole in *. cbn [count] in *. lia.
    + right. split; [done|exact Hl].
  - replace (negb (is_null r) || negb (is_null l)) with true by (destruct r, l; done).
    unfold val in Hq. destruct (Z.eqb_spec v NGX_RADIX_NO_VALUE) as [->|Hne]; cbn [negb].
    + split_and!; [done|done|left; done].
    + split_and!.
      * apply (insert_depth _ _ key mask None Hok); [apply whole_not_null|done|exact (Hset NGX_RADIX_NO_VALUE)].
      * unfold all_nodes. cbn [root memory]. rewrite <- Hw, !count_whole. done.
      * right. split; [done|exact (Hset NGX_RADIX_NO_VALUE)].
Qed.

(** ** Search *)

Fixpoint best (g : list bool -> option Z) (l : list bool) (v : Z) : Z :=
  let v := default v (g []) in
  match l with [] => v | b :: l => best (fun q => g (b :: q)) l v end.

Lemma best_none g l v : (forall q, g q = None) -> best g l v = v.
Proof. revert g. induction l as [|b l IH]; intros g Hg; cbn [best]; rewrite Hg; [done|]. by apply IH. Qed.

Lemma find_walk_none n bit key v : (forall q, get n q = None) -> find_walk n bit key v = v.
Proof.
  revert bit v. induction n as [|x l IHl r IHr]; intros bit v Hn; [done|]. cbn [find_walk].
  pose proof (Hn []) as H. cbn [get] in H. unfold val in H. destruct (x =? NGX_RADIX_NO_VALUE); [|done]. cbn [negb].
  destruct (set_bit key bit); [apply IHr|apply IHl]; intros q; [apply (Hn (true :: q))|apply (Hn (false :: q))].
Qed.

Lemma ones_bit n : (n < 32)%nat -> Z.testbit (2 ^ 32 - 1) (Z.of_nat n) = true.
Proof. intros Hn. change (2 ^ 32 - 1) with (Z.ones 32). apply Z.ones_spec_low. lia. Qed.

Lemma find_walk_best t n key v :
  (n <= 32)%nat -> (forall q, (n < length q)%nat -> get t q = None) ->
  find_walk t (bit_of n) key v = best (get t) (prefix n key (2 ^ 32 - 1)) v.
Proof.
  revert n v. induction t as [|x l IHl r IHr]; intros n v Hn Hd.
  { cbn [find_walk]. symmetry. by apply best_none. }
  assert (Hv : default v (val x) = if negb (x =? NGX_RADIX_NO_VALUE) then x else v)
    by (unfold val; by destruct (x =? NGX_RADIX_NO_VALUE)).
  cbn [find_walk]. rewrite <- Hv. destruct n as [|k].
  - change (bit_of 0) with 0. rewrite set_bit_0. cbn [prefix best get]. apply find_walk_none.
    intros q. apply (Hd (false :: q)). cbn. lia.
  - rewrite set_bit_S, shift_bit. cbn [prefix]. rewrite ones_bit by lia. cbn [best get].
    destruct (Z.testbit key (Z.of_nat k)); [apply IHr|apply IHl]; try lia; intros q Hq.
    + apply (Hd (true :: q)). cbn. lia.
    + apply (Hd (false :: q)). cbn. lia.
Qed.

(** [v] is the value of the longest beginning of [l] that has one; [v0] if none has. *)
Definition longest (g : list bool -> option Z) (l : list bool) (v0 v : Z) : Prop :=
  (exists i, (i <= length l)%nat /\ g (take i l) = Some v /\ forall j, (i < j <= length l)%nat -> g (take j l) = None) \/
  (v = v0 /\ forall i, (i <= length l)%nat -> g (take i l) = None).

Lemma best_longest g l v0 : longest g l v0 (best g l v0).
Proof.
  revert g v0. induction l as [|b l IH]; intros g v0; cbn [best].
  - destruct (g []) as [v|] eqn:E; cbn.
    + left. exists O. split_and!; [done|done|]. cbn. lia.
    + right. split; [done|]. intros i _. by rewrite take_nil.
  - destruct (IH (fun q => g (b :: q)) (default v0 (g []))) as [(i & Hi & Hg & Hlater)|[Hv Hnone]].
    + left. exists (S i). split_and!; [cbn; lia|done|]. intros [|j] Hj; [lia|]. apply Hlater. cbn in Hj. lia.
    + rewrite Hv. destruct (g []) as [v|] eqn:E; cbn.
      * left. exists O. split_and!; [lia|done|]. intros [|j] Hj; [lia|]. apply Hnone. cbn in Hj. lia.
      * right. split; [done|]. intros [|i] Hi; [done|]. apply Hnone. cbn in Hi. lia.
Qed.

Lemma find_spec t key :
  tree_ok t -> longest (lookup t) (bits key) NGX_RADIX_NO_VALUE (ngx_radix32tree_find t key).
Proof.
  intros [_ _ Hd]. unfold ngx_radix32tree_find. rewrite (find_walk_best _ 32) by done. apply best_longest.
Qed.

(** ** Creation *)

(** A tree without a value. *)
Definition empty_tree (t : ngx_radix_tree_t) : Prop := tree_ok t /\ forall q, lookup t q = None.

Lemma insert_no_value t key mask t' rc :
  empty_tree t -> ngx_radix32tree_insert t key mask NGX_RADIX_NO_VALUE = (t', rc) -> empty_tree t'.
Proof.
  intros [Hok Hl] E. pose proof (radix_insert_spec t key mask NGX_RADIX_NO_VALUE Hok) as H. cbv zeta in H. rewrite E, Hl in H.
  destruct H as (H1 & H2 & _ & H3).
  assert (Hl' : forall q, lookup t' q = None).
  { intros q. destruct H3 as [[_ H3]|(_ & H3 & _)]; rewrite H3; [|done]. by case_decide. }
  split; [|done]. apply (insert_depth t t' key mask None Hok H1 H2). intros q. rewrite Hl', Hl. by case_decide.
Qed.

Lemma level_loop_empty fuel t key mask inc t' :
  empty_tree t -> level_loop fuel t key mask inc = Some t' -> empty_tree t'.
Proof.
  revert t key. induction fuel as [|fuel IH]; intros t key Ht; cbn [level_loop]; [by intros [= <-]|].
  destruct (ngx_radix32tree_insert t key mask NGX_RADIX_NO_VALUE) as [t1 rc] eqn:E.
  apply insert_no_value in E; [|done]. destruct (negb _); [done|].
  destruct (u32 (key + inc) =? 0); [by intros [= <-]|]. by apply IH.
Qed.

Lemma prealloc_loop_empty n t mask inc t' :
  empty_tree t -> prealloc_loop n t mask inc = Some t' -> empty_tree t'.
Proof.
  revert t mask inc. induction n as [|n IH]; intros t mask inc Ht; cbn [prealloc_loop]; [by intros [= <-]|].
  destruct (level_loop _ _ _ _ _) as [t1|] eqn:E; cbn [mbind option_bind]; [|done].
  apply level_loop_empty in E; [|done]. by apply IH.
Qed.

Lemma create_empty pages preallocate t : ngx_radix_tree_create pages preallocate = Some t -> empty_tree t.
Proof.
  unfold ngx_radix_tree_create. pose proof (alloc_spec (mk_memory 0 0 pages) ltac:(done)) as Ha.
  destruct (ngx_radix_alloc _) as [m|]; cbn [mbind option_bind]; [|done]. destruct Ha as [_ Hm].
  assert (H0 : empty_tree (mk_radix (Node NGX_RADIX_NO_VALUE NULL_ NULL_) m)).
  { assert (Hl : forall q, get (Node NGX_RADIX_NO_VALUE NULL_ NULL_) q = None) by (intros q; apply empty_node_equiv).
    split; [split; [done|done|]|]; intros; apply Hl. }
  destruct (preallocate =? 0); [by intros [= <-]|]. by apply prealloc_loop_empty.
Qed.

(** C8: a radix tree is a map from the prefixes of keys, of 32 bits at most, to values.  A
    new tree is the empty map.  Insertion adds the prefix when it is not there, and changes
    nothing when it is, with NGX_BUSY, or when less than 32 nodes can be had and memory runs
    out.  Deletion removes the prefix, the memory of its nodes being kept for later ones;
    the only prefix whose deletion uses a NULL pointer is the empty one in a tree of the
    root alone.  The search gives the value of the longest prefix of the key. *)
Theorem radix_tree_map (t : ngx_radix_tree_t) (key mask value : Z) :
  tree_ok t ->
  let q := prefix 32 key mask in
  (let '(t', rc) := ngx_radix32tree_insert t key mask value in
   tree_ok t' /\ all_nodes t' = all_nodes t /\
   match lookup t q with
   | Some _ => rc = NGX_BUSY /\ t' = t
   | None =>
       rc = NGX_OK /\ (forall q', lookup t' q' = if decide (q' = q) then val value else lookup t q') \/
       rc = NGX_ERROR /\ (forall q', lookup t' q' = lookup t q') /\ room (memory t) < 32
   end) /\
  match ngx_radix32tree_delete t key mask with
  | None => q = [] /\ exists v, root t = Node v NULL_ NULL_
  | Some (t', rc) =>
      tree_ok t' /\ all_nodes t' = all_nodes t /\
      (rc = NGX_ERROR /\ t' = t /\ lookup t q = None \/
       rc = NGX_OK /\ forall q', lookup t' q' = if decide (q' = q) then None else lookup t q')
  end /\
  longest (lookup t) (bits key) NGX_RADIX_NO_VALUE (ngx_radix32tree_find t key) /\
  forall pages preallocate t0,
    ngx_radix_tree_create pages preallocate = Some t0 -> tree_ok t0 /\ forall q, lookup t0 q = None.
Proof.
  intros Hok q. split_and!; [|by apply delete_spec|by apply find_spec|by intros p pre t0 H; apply create_empty in H].
  pose proof (radix_insert_spec t key mask value Hok) as H. cbv zeta in H. fold q in H.
  destruct (ngx_radix32tree_insert t key mask value) as [t' rc]. destruct H as (H1 & H2 & H3 & H4).
  split_and!; [|done|done].
  destruct (lookup t q); [by destruct H4 as [_ ->]|]. destruct H4 as [[_ H4]|(_ & H4 & _)].
  - by apply (insert_depth t t' key mask (val value)).
  - apply (insert_depth t t' key mask (lookup t q)); [done|done|done|]. intros q'. rewrite H4. fold q. case_decide; congruence.
Qed.

Definition net10 : Z := 0x0A000000.
Definition mask8 : Z := 0xFF000000.

Lemma radix_tree_map_witness :
  let t := mk_radix (Node NGX_RADIX_NO_VALUE NULL_ NULL_) (mk_memory 0 4064 1) in
  tree_ok t /\ (ngx_radix32tree_insert t net10 mask8 7).2 = NGX_OK.
Proof.
  cbv zeta. set (t := mk_radix _ _).
  assert (Hok : tree_ok t) by (split; [done|done|intros [|[] q]; done]).
  split; [exact Hok|]. destruct (radix_tree_map t net10 mask8 7 Hok) as [H _].
  destruct (ngx_radix32tree_insert t net10 mask8 7) as [t' rc] eqn:E. destruct H as (_ & _ & H).
  change (lookup t (prefix 32 net10 mask8)) with (@None Z) in H. destruct H as [[H _]|(_ & _ & H)]; [exact H|].
  vm_compute in H. discriminate H.
Defined.

(** The prefix of all addresses, inserted and deleted: the code goes to the parent of the
    root. *)
Example delete_root :
  let t := mk_radix (Node NGX_RADIX_NO_VALUE NULL_ NULL_) (mk_memory 0 4064 1) in
  ngx_radix32tree_delete (ngx_radix32tree_insert t 0 0 7).1 0 0 = None.
Proof. by vm_compute. Qed.
