(* ===== verification/Crc.v ===== *)
(** Checksums: the CRC-32 of src/core/ngx_crc32.h and src/core/ngx_crc32.c, by two tables,
    [ngx_crc] of src/core/ngx_crc.h and [ngx_murmur_hash2] of src/core/ngx_murmurhash.c. *)
From S2P Require Import Prelude.

(** ** CRC-32 *)

Definition ngx_crc32_table16 : list Z :=
  [0x00000000; 0x1db71064; 0x3b6e20c8; 0x26d930ac;
   0x76dc4190; 0x6b6b51f4; 0x4db26158; 0x5005713c;
   0xedb88320; 0xf00f9344; 0xd6d6a3e8; 0xcb61b38c;
   0x9b64c2b0; 0x86d3d2d4; 0xa00ae278; 0xbdbdf21c].

Definition ngx_crc32_table256 : list Z :=
  [0x00000000; 0x77073096; 0xee0e612c; 0x990951ba;
   0x076dc419; 0x706af48f; 0xe963a535; 0x9e6495a3;
   0x0edb8832; 0x79dcb8a4; 0xe0d5e91e; 0x97d2d988;
   0x09b64c2b; 0x7eb17cbd; 0xe7b82d07; 0x90bf1d91;
   0x1db71064; 0x6ab020f2; 0xf3b97148; 0x84be41de;
   0x1adad47d; 0x6ddde4eb; 0xf4d4b551; 0x83d385c7;
   0x136c9856; 0x646ba8c0; 0xfd62f97a; 0x8a65c9ec;
   0x14015c4f; 0x63066cd9; 0xfa0f3d63; 0x8d080df5;
   0x3b6e20c8; 0x4c69105e; 0xd56041e4; 0xa2677172;
   0x3c03e4d1; 0x4b04d447; 0xd20d85fd; 0xa50ab56b;
   0x35b5a8fa; 0x42b2986c; 0xdbbbc9d6; 0xacbcf940;
   0x32d86ce3; 0x45df5c75; 0xdcd60dcf; 0xabd13d59;
   0x26d930ac; 0x51de003a; 0xc8d75180; 0xbfd06116;
   0x21b4f4b5; 0x56b3c423; 0xcfba9599; 0xb8bda50f;
   0x2802b89e; 0x5f058808; 0xc60cd9b2; 0xb10be924;
   0x2f6f7c87; 0x58684c11; 0xc1611dab; 0xb6662d3d;
   0x76dc4190; 0x01db7106; 0x98d220bc; 0xefd5102a;
   0x71b18589; 0x06b6b51f; 0x9fbfe4a5; 0xe8b8d433;
   0x7807c9a2; 0x0f00f934; 0x9609a88e; 0xe10e9818;
   0x7f6a0dbb; 0x086d3d2d; 0x91646c97; 0xe6635c01;
   0x6b6b51f4; 0x1c6c6162; 0x856530d8; 0xf262004e;
   0x6c0695ed; 0x1b01a57b; 0x8208f4c1; 0xf50fc457;
   0x65b0d9c6; 0x12b7e950; 0x8bbeb8ea; 0xfcb9887c;
   0x62dd1ddf; 0x15da2d49; 0x8cd37cf3; 0xfbd44c65;
   0x4db26158; 0x3ab551ce; 0xa3bc0074; 0xd4bb30e2;
   0x4adfa541; 0x3dd895d7; 0xa4d1c46d; 0xd3d6f4fb;
   0x4369e96a; 0x346ed9fc; 0xad678846; 0xda60b8d0;
   0x44042d73; 0x33031de5; 0xaa0a4c5f; 0xdd0d7cc9;
   0x5005713c; 0x270241aa; 0xbe0b1010; 0xc90c2086;
   0x5768b525; 0x206f85b3; 0xb966d409; 0xce61e49f;
   0x5edef90e; 0x29d9c998; 0xb0d09822; 0xc7d7a8b4;
   0x59b33d17; 0x2eb40d81; 0xb7bd5c3b; 0xc0ba6cad;
   0xedb88320; 0x9abfb3b6; 0x03b6e20c; 0x74b1d29a;
   0xead54739; 0x9dd277af; 0x04db2615; 0x73dc1683;
   0xe3630b12; 0x94643b84; 0x0d6d6a3e; 0x7a6a5aa8;
   0xe40ecf0b; 0x9309ff9d; 0x0a00ae27; 0x7d079eb1;
   0xf00f9344; 0x8708a3d2; 0x1e01f268; 0x6906c2fe;
   0xf762575d; 0x806567cb; 0x196c3671; 0x6e6b06e7;
   0xfed41b76; 0x89d32be0; 0x10da7a5a; 0x67dd4acc;
   0xf9b9df6f; 0x8ebeeff9; 0x17b7be43; 0x60b08ed5;
   0xd6d6a3e8; 0xa1d1937e; 0x38d8c2c4; 0x4fdff252;
   0xd1bb67f1; 0xa6bc5767; 0x3fb506dd; 0x48b2364b;
   0xd80d2bda; 0xaf0a1b4c; 0x36034af6; 0x41047a60;
   0xdf60efc3; 0xa867df55; 0x316e8eef; 0x4669be79;
   0xcb61b38c; 0xbc66831a; 0x256fd2a0; 0x5268e236;
   0xcc0c7795; 0xbb0b4703; 0x220216b9; 0x5505262f;
   0xc5ba3bbe; 0xb2bd0b28; 0x2bb45a92; 0x5cb36a04;
   0xc2d7ffa7; 0xb5d0cf31; 0x2cd99e8b; 0x5bdeae1d;
   0x9b64c2b0; 0xec63f226; 0x756aa39c; 0x026d930a;
   0x9c0906a9; 0xeb0e363f; 0x72076785; 0x05005713;
   0x95bf4a82; 0xe2b87a14; 0x7bb12bae; 0x0cb61b38;
   0x92d28e9b; 0xe5d5be0d; 0x7cdcefb7; 0x0bdbdf21;
   0x86d3d2d4; 0xf1d4e242; 0x68ddb3f8; 0x1fda836e;
   0x81be16cd; 0xf6b9265b; 0x6fb077e1; 0x18b74777;
   0x88085ae6; 0xff0f6a70; 0x66063bca; 0x11010b5c;
   0x8f659eff; 0xf862ae69; 0x616bffd3; 0x166ccf45;
   0xa00ae278; 0xd70dd2ee; 0x4e048354; 0x3903b3c2;
   0xa7672661; 0xd06016f7; 0x4969474d; 0x3e6e77db;
   0xaed16a4a; 0xd9d65adc; 0x40df0b66; 0x37d83bf0;
   0xa9bcae53; 0xdebb9ec5; 0x47b2cf7f; 0x30b5ffe9;
   0xbdbdf21c; 0xcabac28a; 0x53b39330; 0x24b4a3a6;
   0xbad03605; 0xcdd70693; 0x54de5729; 0x23d967bf;
   0xb3667a2e; 0xc4614ab8; 0x5d681b02; 0x2a6f2b94;
   0xb40bbe37; 0xc30c8ea1; 0x5a05df1b; 0x2d02ef8d].

Definition at_index (table : list Z) (i : Z) : Z := default 0 (table !! Z.to_nat i).

(** [ngx_crc32_table_short] points to the small table, or to a copy of it. *)
Fixpoint crc32_short_loop (crc : Z) (p : bytes) : Z :=
  match p with
  | [] => crc
  | c :: p =>
      let crc := Z.lxor (at_index ngx_crc32_table16 (Z.land (Z.lxor crc (Z.land c 0xf)) 0xf)) (Z.shiftr crc 4) in
      let crc := Z.lxor (at_index ngx_crc32_table16 (Z.land (Z.lxor crc (Z.shiftr c 4)) 0xf)) (Z.shiftr crc 4) in
      crc32_short_loop crc p
  end.

Definition ngx_crc32_short (p : bytes) : Z := Z.lxor (crc32_short_loop 0xffffffff p) 0xffffffff.

Fixpoint crc32_long_loop (crc : Z) (p : bytes) : Z :=
  match p with
  | [] => crc
  | c :: p =>
      crc32_long_loop
        (Z.lxor (at_index ngx_crc32_table256 (Z.land (Z.lxor crc c) 0xff)) (Z.shiftr crc 8)) p
  end.

Definition ngx_crc32_long (p : bytes) : Z := Z.lxor (crc32_long_loop 0xffffffff p) 0xffffffff.

Definition ngx_crc32_init : Z := 0xffffffff.
Definition ngx_crc32_update (crc : Z) (p : bytes) : Z := crc32_long_loop crc p.
Definition ngx_crc32_final (crc : Z) : Z := Z.lxor crc 0xffffffff.

(** ** The other sums *)

Fixpoint crc_loop (sum : Z) (data : bytes) : Z :=
  match data with
  | [] => sum
  | c :: data => crc_loop (u32 (u32 (Z.lor (Z.shiftr sum 1) (Z.shiftl sum 31)) + c)) data
  end.
Definition ngx_crc (data : bytes) : Z := crc_loop 0 data.

Definition MURMUR : Z := 0x5bd1e995.

(** [while (len >= 4)]; the second component is what is left. *)
Fixpoint murmur_loop (h : Z) (data : bytes) : Z * bytes :=
  match data with
  | d0 :: d1 :: d2 :: d3 :: data =>
      let k := u32 (Z.lor (Z.lor (Z.lor d0 (Z.shiftl d1 8)) (Z.shiftl d2 16)) (Z.shiftl d3 24)) in
      let k := u32 (k * MURMUR) in
      let k := Z.lxor k (Z.shiftr k 24) in
      let k := u32 (k * MURMUR) in
      let h := u32 (h * MURMUR) in
      murmur_loop (Z.lxor h k) data
  | _ => (h, data)
  end.

Definition ngx_murmur_hash2 (data : bytes) : Z :=
  let '(h, rest) := murmur_loop (u32 (zlen data)) data in
  let h :=
    match rest with
    | [d0; d1; d2] =>
        u32 (Z.lxor (Z.lxor (Z.lxor h (Z.shiftl d2 16)) (Z.shiftl d1 8)) d0 * MURMUR)
    | [d0; d1] => u32 (Z.lxor (Z.lxor h (Z.shiftl d1 8)) d0 * MURMUR)
    | [d0] => u32 (Z.lxor h d0 * MURMUR)
    | _ => h
    end in
  let h := Z.lxor h (Z.shiftr h 13) in
  let h := u32 (h * MURMUR) in
  Z.lxor h (Z.shiftr h 15).

(** ** The reference: division by the polynomial, bit after bit *)

Definition POLY : Z := 0xedb88320.
Definition crc_bit (c : Z) : Z := Z.lxor (Z.shiftr c 1) (if Z.odd c then POLY else 0).
Definition crc_byte (crc b : Z) : Z := Nat.iter 8 crc_bit (Z.lxor crc b).
Definition crc32 (p : bytes) : Z := Z.lxor (foldl crc_byte 0xffffffff p) 0xffffffff.

Lemma crc_bit_lxor a b : crc_bit (Z.lxor a b) = Z.lxor (crc_bit a) (crc_bit b).
Proof.
  unfold crc_bit. rewrite Z.shiftr_lxor, <- (Z.bit0_odd (Z.lxor a b)), Z.lxor_spec, !Z.bit0_odd.
  apply Z.bits_inj'. intros i Hi. rewrite !Z.lxor_spec.
  destruct (Z.odd a), (Z.odd b); cbn [xorb]; rewrite ?Z.bits_0;
    destruct (Z.testbit (Z.shiftr a 1) i), (Z.testbit (Z.shiftr b 1) i), (Z.testbit POLY i); done.
Qed.

Lemma iter_lxor n a b : Nat.iter n crc_bit (Z.lxor a b) = Z.lxor (Nat.iter n crc_bit a) (Nat.iter n crc_bit b).
Proof. induction n as [|n IH]; [done|]. by rewrite !Nat.iter_succ, IH, crc_bit_lxor. Qed.

(** Without a low bit, only the shift is left. *)
Lemma iter_shift n z : 0 <= z -> Nat.iter n crc_bit (Z.shiftl z (Z.of_nat n)) = z.
Proof.
  intros Hz. revert z Hz. induction n as [|n IH]; intros z Hz; [cbn; apply Z.shiftl_0_r|].
  rewrite Nat.iter_succ_r. rewrite <- (IH z Hz) at 2. f_equal. unfold crc_bit.
  rewrite Nat2Z.inj_succ, !Z.shiftl_mul_pow2, Z.pow_succ_r by lia.
  replace (z * (2 * 2 ^ Z.of_nat n)) with (z * 2 ^ Z.of_nat n * 2) by ring.
  rewrite Z.odd_mul, andb_false_r, Z.lxor_0_r. rewrite Z.shiftr_div_pow2 by lia. by rewrite Z.div_mul.
Qed.

Lemma split_low n x : 0 <= x -> 0 <= n -> x = Z.lxor (Z.land x (Z.ones n)) (Z.shiftl (Z.shiftr x n) n).
Proof.
  intros Hx Hn. apply Z.bits_inj'. intros i Hi. rewrite Z.lxor_spec, Z.land_spec.
  destruct (Z.lt_ge_cases i n).
  - rewrite Z.ones_spec_low, andb_true_r, Z.shiftl_spec_low, xorb_false_r by lia. done.
  - rewrite Z.ones_spec_high, andb_false_r, Z.shiftl_spec_high, Z.shiftr_spec by lia.
    cbn [xorb]. f_equal. lia.
Qed.

(** A table holds the values of the low bits. *)
Lemma table_steps n table x :
  0 <= x -> (forall i, 0 <= i < 2 ^ Z.of_nat n -> at_index table i = Nat.iter n crc_bit i) ->
  Nat.iter n crc_bit x = Z.lxor (at_index table (Z.land x (Z.ones (Z.of_nat n)))) (Z.shiftr x (Z.of_nat n)).
Proof.
  intros Hx Ht. rewrite Ht.
  - rewrite (split_low (Z.of_nat n) x) at 1 by lia. rewrite iter_lxor. f_equal.
    apply iter_shift. by apply Z.shiftr_nonneg.
  - rewrite Z.land_ones by lia. apply Z.mod_pos_bound. lia.
Qed.

Lemma table_check n table :
  forallb (fun i => at_index table (Z.of_nat i) =? Nat.iter n crc_bit (Z.of_nat i)) (seq 0 (2 ^ n)) = true ->
  forall i, 0 <= i < 2 ^ Z.of_nat n -> at_index table i = Nat.iter n crc_bit i.
Proof.
  intros H i Hi. rewrite forallb_forall in H. specialize (H (Z.to_nat i)).
  rewrite Z2Nat.id in H by lia. apply Z.eqb_eq, H, in_seq. rewrite <- (Nat2Z.id (2 ^ n)), Nat2Z.inj_pow.
  change (Z.of_nat 2) with 2. lia.
Qed.

Lemma table16 i : 0 <= i < 2 ^ Z.of_nat 4 -> at_index ngx_crc32_table16 i = Nat.iter 4 crc_bit i.
Proof. apply table_check. by vm_compute. Qed.
Lemma table256 i : 0 <= i < 2 ^ Z.of_nat 8 -> at_index ngx_crc32_table256 i = Nat.iter 8 crc_bit i.
Proof. apply table_check. by vm_compute. Qed.

Lemma crc_bit_nonneg c : 0 <= c -> 0 <= crc_bit c.
Proof.
  intros H. unfold crc_bit. apply Z.lxor_nonneg. split; [|intros _; by apply Z.shiftr_nonneg].
  by destruct (Z.odd c).
Qed.

Lemma iter_nonneg n c : 0 <= c -> 0 <= Nat.iter n crc_bit c.
Proof. intros H. induction n as [|n IH]; [done|]. rewrite Nat.iter_succ. by apply crc_bit_nonneg. Qed.

Lemma crc_byte_nonneg crc b : 0 <= crc -> is_u_char b -> 0 <= crc_byte crc b.
Proof.
  intros H [Hb _]. unfold crc_byte. apply iter_nonneg. apply Z.lxor_nonneg. split; intros; done.
Qed.

Lemma shiftr_byte crc b n : is_u_char b -> 8 <= n -> Z.shiftr (Z.lxor crc b) n = Z.shiftr crc n.
Proof.
  intros [H1 H2] Hn. rewrite Z.shiftr_lxor, (Z.shiftr_div_pow2 b) by lia.
  rewrite (Z.div_small b); [apply Z.lxor_0_r|].
  pose proof (Z.pow_le_mono_r 2 8 n ltac:(lia) Hn). lia.
Qed.

Lemma long_step crc b :
  0 <= crc -> is_u_char b ->
  Z.lxor (at_index ngx_crc32_table256 (Z.land (Z.lxor crc b) 0xff)) (Z.shiftr crc 8) = crc_byte crc b.
Proof.
  intros Hc Hb. unfold crc_byte. rewrite (table_steps 8 ngx_crc32_table256); [|by apply Z.lxor_nonneg; destruct Hb|exact table256].
  change (Z.of_nat 8) with 8. rewrite (shiftr_byte crc b 8) by (done || lia). done.
Qed.

Lemma short_step crc b :
  0 <= crc -> is_u_char b ->
  let crc1 := Z.lxor (at_index ngx_crc32_table16 (Z.land (Z.lxor crc (Z.land b 0xf)) 0xf)) (Z.shiftr crc 4) in
  Z.lxor (at_index ngx_crc32_table16 (Z.land (Z.lxor crc1 (Z.shiftr b 4)) 0xf)) (Z.shiftr crc1 4) = crc_byte crc b.
Proof.
  intros Hc Hb crc1. pose proof Hb as [Hb1 Hb2].
  assert (Hlow : 0 <= Z.land b 0xf < 16) by (change 0xf with (Z.ones 4); rewrite Z.land_ones by lia; apply Z.mod_pos_bound; lia).
  assert (Hhigh : 0 <= Z.shiftr b 4 < 16) by (rewrite Z.shiftr_div_pow2 by lia; change (2 ^ 4) with 16; split; [apply Z.div_pos|apply Z.div_lt_upper_bound]; lia).
  assert (Hnib : forall x c, 0 <= x -> 0 <= c < 16 ->
            Z.lxor (at_index ngx_crc32_table16 (Z.land (Z.lxor x c) 0xf)) (Z.shiftr x 4) = Nat.iter 4 crc_bit (Z.lxor x c)).
  { intros x c Hx Hcx. rewrite (table_steps 4 ngx_crc32_table16); [|by apply Z.lxor_nonneg; lia|exact table16].
    change (Z.of_nat 4) with 4. rewrite Z.shiftr_lxor, (Z.shiftr_div_pow2 c) by lia.
    rewrite (Z.div_small c) by (change (2 ^ 4) with 16; lia). by rewrite Z.lxor_0_r. }
  assert (H1 : crc1 = Nat.iter 4 crc_bit (Z.lxor crc (Z.land b 0xf))) by (apply Hnib; [done|lia]).
  rewrite Hnib; [|rewrite H1; apply iter_nonneg, Z.lxor_nonneg; lia|lia].
  rewrite H1. unfold crc_byte. change 8%nat with (4 + 4)%nat. rewrite Nat.iter_add. f_equal.
  rewrite (split_low 4 b) at 3 by lia. change (Z.ones 4) with 0xf.
  rewrite <- Z.lxor_assoc, (iter_lxor 4 (Z.lxor crc (Z.land b 0xf))). f_equal.
  symmetry. apply (iter_shift 4). lia.
Qed.

Lemma short_loop crc p : 0 <= crc -> Forall is_u_char p -> crc32_short_loop crc p = foldl crc_byte crc p.
Proof.
  intros Hc Hp. revert crc Hc. induction Hp as [|b p Hb _ IH]; intros crc Hc; [done|]. cbn [crc32_short_loop foldl].
  cbv zeta. rewrite (short_step crc b Hc Hb). apply IH. by apply crc_byte_nonneg.
Qed.

Lemma long_loop crc p : 0 <= crc -> Forall is_u_char p -> crc32_long_loop crc p = foldl crc_byte crc p.
Proof.
  intros Hc Hp. revert crc Hc. induction Hp as [|b p Hb _ IH]; intros crc Hc; [done|]. cbn [crc32_long_loop foldl].
  rewrite (long_step crc b Hc Hb). apply IH. by apply crc_byte_nonneg.
Qed.

(** C36: the table of 16 elements and the table of 256 compute the same sum, the CRC-32 by
    its definition, the division by the polynomial bit after bit; summing in pieces gives
    the same sum too. *)
Theorem crc32_tables (p q : bytes) :
  Forall is_u_char p -> Forall is_u_char q ->
  ngx_crc32_short p = crc32 p /\ ngx_crc32_long p = crc32 p /\
  ngx_crc32_final (ngx_crc32_update (ngx_crc32_update ngx_crc32_init p) q) = crc32 (p ++ q).
Proof.
  intros Hp Hq. unfold ngx_crc32_short, ngx_crc32_long, ngx_crc32_final, ngx_crc32_update, ngx_crc32_init, crc32.
  rewrite short_loop, !long_loop by (done || lia). rewrite foldl_app. split_and!; [done|done|].
  rewrite long_loop; [done| |done].
  clear Hq. generalize (Z.le_refl 0). assert (H : 0 <= 0xffffffff) by lia. revert H. generalize 0xffffffff. induction Hp as [|b p Hb _ IH]; intros crc Hc _; [done|].
  cbn [foldl]. apply IH; [by apply crc_byte_nonneg|done].
Qed.

Lemma crc32_tables_witness : ngx_crc32_short (bs "123456789") = 0xcbf43926.
Proof.
  destruct (crc32_tables (bs "123456789") []) as (H & _); [by_decide|by_decide|].
  rewrite H. by vm_compute.
Defined.
