(* ===== verification/UriArgs.v ===== *)
(** The smaller functions of src/http/ngx_http_parse.c: the check of a URI that an
    internal redirect names, the arguments, and the values of a header such as
    "Cookie". *)
From S2P Require Import Prelude HttpRequest HashKey CString.

(** ** [ngx_http_parse_unsafe_uri] *)

(** [ngx_path_separator], on a system other than Win32. *)
Definition ngx_path_separator (c : Z) : bool := c =? "/".

Inductive unsafe_result : Type :=
  | Unsafe                                       (* return NGX_ERROR *)
  | Safe (uri_len : Z) (args : option (bytes * Z)).  (* [uri->len], [args] when set *)

(** [p] is the pointer, with [len] bytes left of [total]. *)
Fixpoint unsafe_loop (p : bytes) (len : nat) (total : Z) : unsafe_result :=
  match len with
  | O => Safe total None
  | S n =>
      let ch := ch_ p in
      let p := next_ p in
      if is_usual ch then unsafe_loop p n total
      else if ch =? "?" then Safe (total - Z.of_nat len) (Some (p, Z.of_nat n))
      else if ch =? 0 then Unsafe
      else if ngx_path_separator ch && (2 <? Z.of_nat len)
              && ((at_ p 0 =? ".") && (at_ p 1 =? ".") && ngx_path_separator (at_ p 2))
      then Unsafe
      else unsafe_loop p n total
  end.

(** [p] is the memory from [uri->data] on, [len] is [uri->len]. *)
Definition ngx_http_parse_unsafe_uri (p : bytes) (len : nat) : unsafe_result :=
  if Nat.eqb len 0 || (ch_ p =? "?") then Unsafe
  else if (at_ p 0 =? ".") && Nat.eqb len 3 && (at_ p 1 =? ".")
          && ngx_path_separator (at_ p 2)
  then Unsafe
  else unsafe_loop p len (Z.of_nat len).

(** ** [ngx_http_split_args] *)

(** [args->len] is 0 when there is no "?"; then [args->data] is not set. *)
Definition ngx_http_split_args (uri : bytes) : bytes * bytes :=
  match ngx_strlchr uri (length uri) "?" with
  | Some p =>
      let p_off := (length uri - length p)%nat in
      (take p_off uri, next_ p)
  | None => (uri, [])
  end.

(** ** [ngx_http_arg] *)

Section Arg.
Context (data name : bytes).

(** The offset of a pointer into [data]. *)
Definition off (p : bytes) : Z := zlen data - zlen p.

(** One turn of [for ( ; p < last; p++)]; [None] is [return NGX_DECLINED], the value
    is an offset and a length in [data]. *)
Fixpoint arg_loop (fuel : nat) (p : bytes) : option (Z * Z) :=
  match fuel with
  | O => None
  | S fuel =>
      if negb (off p <? zlen data) then None
      else
        match ngx_strlcasestrn p (zlen p - 1) name (length name - 1) with
        | None => None
        | Some p =>
            if ((off p =? 0) || (at_ data (off p - 1) =? "&"))
               && (at_ p (zlen name) =? "=")
            then
              let value := off p + zlen name + 1 in
              let e := match ngx_strlchr p (length p) "&" with
                       | None => zlen data
                       | Some p => off p
                       end in
              Some (value, e - value)
            else arg_loop fuel (next_ p)
        end
  end.

Definition ngx_http_arg : option (Z * Z) :=
  if zlen data =? 0 then None else arg_loop (length data) data.
End Arg.

(** ** [ngx_http_parse_multi_header_lines] *)

(** [while (start < end && *start == ' ') start++;] *)
Fixpoint skip_spaces (s : bytes) : bytes :=
  match s with c :: t => if c =? " " then skip_spaces t else s | [] => [] end.

(** The loop at [skip:], up to and with the separator. *)
Fixpoint skip_token (s : bytes) : bytes :=
  match s with
  | ch :: t => if (ch =? ";") || (ch =? ",") then t else skip_token t
  | [] => []
  end.

(** [for (last = start; last < end && *last != ';'; last++)] *)
Fixpoint until_semicolon (s : bytes) : bytes :=
  match s with c :: t => if c =? ";" then [] else c :: until_semicolon t | [] => [] end.

(** The inner loop on one header value.  [Some v] is [return i] with the value [v]
    when one is asked for. *)
Fixpoint header_value_loop (fuel : nat) (name : bytes) (want : bool) (start : bytes)
  : option bytes :=
  match fuel with
  | O => None
  | S fuel =>
      match start with
      | [] => None
      | _ =>
          let skip s := header_value_loop fuel name want (skip_spaces (skip_token s)) in
          if negb (ngx_strncasecmp start name (length name) =? 0) then skip start
          else
            let start := skip_spaces (drop (length name) start) in
            if negb want then
              match start with
              | [] => Some []
              | c :: _ => if c =? "," then Some [] else skip start
              end
            else
              match start with
              | [] => skip start
              | c :: start =>
                  if negb (c =? "=") then skip start
                  else Some (until_semicolon (skip_spaces start))
              end
      end
  end.

(** The outer loop on the header values, in order; the result has the index. *)
Fixpoint multi_header_loop (i : Z) (headers : list bytes) (name : bytes) (want : bool)
  : option (Z * bytes) :=
  match headers with
  | [] => None
  | h :: headers =>
      if zlen h <? zlen name then multi_header_loop (i + 1) headers name want
      else
        match header_value_loop (length h) name want h with
        | Some v => Some (i, v)
        | None => multi_header_loop (i + 1) headers name want
        end
  end.

Definition ngx_http_parse_multi_header_lines (headers : list bytes) (name : bytes)
    (want : bool) : option (Z * bytes) :=
  multi_header_loop 0 headers name want.

Example multi_header_1 :
  ngx_http_parse_multi_header_lines [bs "x=1"; bs "ab=1; a = 2;B=3"] (bs "A") true
  = Some (1, bs "2").
Proof. vm_compute. reflexivity. Qed.

Example http_arg_1 :
  ngx_http_arg (bs "xa=1&b&A=3&a=4") (bs "a") = Some (9, 1).
Proof. vm_compute. reflexivity. Qed.

(** ** What a safe URI is *)

(** The path of a URI, before the "?". *)
Fixpoint path_of (uri : bytes) : bytes :=
  match uri with c :: t => if c =? "?" then [] else c :: path_of t | [] => [] end.

(** "/../" somewhere in it. *)
Definition has_dot_dot (s : bytes) : Prop := exists x y, s = x ++ bs "/../" ++ y.

Lemma dot_dot_bytes : bs "/../" = ["/"; "."; "."; "/"].
Proof. reflexivity. Qed.

Lemma has_dot_dot_cons c s :
  has_dot_dot (c :: s) <-> (c = "/" /\ exists y, s = "." :: "." :: "/" :: y) \/ has_dot_dot s.
Proof.
  unfold has_dot_dot. rewrite dot_dot_bytes. split.
  - intros (x & y & E). destruct x as [|d x].
    + injection E as -> ->. left. eauto.
    + injection E as -> ->. right. eauto.
  - intros [[-> [y ->]]|(x & y & ->)].
    + by exists [], y.
    + by exists (c :: x), y.
Qed.

Lemma path_of_dots s y : path_of s = "." :: "." :: "/" :: y -> exists z, s = "." :: "." :: "/" :: z.
Proof.
  destruct s as [|c1 s]; cbn [path_of]; [done|]. case_match; [done|]. intros [= -> E].
  destruct s as [|c2 s]; cbn [path_of] in E; [done|]. case_match; [done|]. injection E as -> E.
  destruct s as [|c3 s]; cbn [path_of] in E; [done|]. case_match; [done|]. injection E as -> E.
  eauto.
Qed.

Lemma usual_slash c : is_u_char c -> is_usual c = true -> c <> "/" /\ c <> "?" /\ c <> 0.
Proof.
  intros Hc. rewrite is_usual_spec by done. intros H.
  apply negb_true_iff, bool_decide_eq_false in H. unfold unusual_chars in H.
  split_and!; intros ->; apply H; set_solver.
Qed.

(** The whole of [s] is a path that ends in "/.." and the byte after it is a slash: the code
    looks at that byte. *)
Definition dots_then_slash (s after : bytes) : Prop :=
  ch_ after = "/" /\ exists x, path_of s = x ++ bs "/.." /\ path_of s = s.

Lemma dots_then_slash_cons c s after :
  c <> "?" ->
  dots_then_slash (c :: s) after <-> (ch_ after = "/" /\ c = "/" /\ s = bs "..") \/ dots_then_slash s after.
Proof.
  intros Hc. unfold dots_then_slash. cbn [path_of]. rewrite (proj2 (Z.eqb_neq c "?") Hc). split.
  - intros (Ha & x & E1 & [= E2]). rewrite E2 in E1. destruct x as [|c' x]; injection E1 as -> E1.
    + left. done.
    + right. split; [done|]. exists x. by rewrite E2.
  - intros [(Ha & -> & ->)|(Ha & x & E1 & E2)]; (split; [done|]).
    + by exists [].
    + exists (c :: x). by rewrite E2 in *; subst s.
Qed.

(** The loop, on [s] followed by [after] in memory. *)
Lemma unsafe_loop_spec s after total :
  Forall is_u_char s ->
  match unsafe_loop (s ++ after) (length s) total with
  | Safe len a =>
      ~ has_dot_dot (path_of s) /\ 0 ∉ path_of s /\ ~ dots_then_slash s after /\
      len = total - zlen s + zlen (path_of s) /\
      match a with
      | None => path_of s = s
      | Some (p, n) => s ++ after = path_of s ++ "?" :: p /\
                       zlen s = zlen (path_of s) + 1 + n
      end
  | Unsafe =>
      has_dot_dot (path_of s) \/ 0 ∈ path_of s \/ dots_then_slash s after
  end.
Proof.
  intros Hs. revert total. induction Hs as [|c s Hc Hs IH]; intros total; cbn [length unsafe_loop].
  - cbn. split_and!; [|set_solver| |unfold zlen; simpl; lia|done].
    + intros (x & y & E). by destruct x.
    + intros (_ & x & E & _). by destruct x.
  - cbn [app]. unfold ch_, next_. cbn [List.hd List.tl].
    assert (Hnext : forall total, c <> "?" -> c <> 0 ->
      (c = "/" -> forall y, path_of s <> "." :: "." :: "/" :: y) ->
      ~ (ch_ after = "/" /\ c = "/" /\ s = bs "..") ->
      match unsafe_loop (s ++ after) (length s) total with
      | Safe len a =>
          ~ has_dot_dot (path_of (c :: s)) /\ 0 ∉ path_of (c :: s) /\ ~ dots_then_slash (c :: s) after /\
          len = total - zlen (c :: s) + zlen (path_of (c :: s)) /\
          match a with
          | None => path_of (c :: s) = c :: s
          | Some (p, n) => c :: s ++ after = path_of (c :: s) ++ "?" :: p /\
                           zlen (c :: s) = zlen (path_of (c :: s)) + 1 + n
          end
      | Unsafe =>
          has_dot_dot (path_of (c :: s)) \/ 0 ∈ path_of (c :: s) \/ dots_then_slash (c :: s) after
      end).
    { intros total' Hq H0 Hd Hdots. specialize (IH total'). pose proof (dots_then_slash_cons c s after Hq) as Hcons. cbn [path_of].
      rewrite (proj2 (Z.eqb_neq c "?")) by done.
      destruct (unsafe_loop _ _ _) as [|len a].
      - rewrite has_dot_dot_cons. destruct IH as [?|[?|?]]; [by left; right|right; left; set_solver|right; right; tauto].
      - rewrite has_dot_dot_cons. destruct IH as (I1 & I2 & I0 & I3 & I4).
        split_and!; [|set_solver|tauto|rewrite !zlen_cons; lia|].
        + intros [[-> [y Hy]]|?]; [|done]. by eapply Hd.
        + destruct a as [[p n]|]; [|by f_equal]. destruct I4 as [I4 I5].
          split; [by rewrite I4|rewrite !zlen_cons; lia]. }
    destruct (is_usual c) eqn:Eu.
    { destruct (usual_slash c Hc Eu) as (N1 & N2 & N3). apply Hnext; tauto. }
    destruct (Z.eqb_spec c "?") as [->|Hq].
    { cbn [path_of]. change ("?" =? "?") with true. cbn iota.
      split_and!; [|set_solver| |unfold zlen; cbn [length]; lia|done|unfold zlen; cbn [length]; lia].
      - intros (x & y & E). by destruct x.
      - intros (_ & x & E & _). by destruct x. }
    destruct (Z.eqb_spec c 0) as [->|H0].
    { right; left. cbn. set_solver. }
    unfold ngx_path_separator.
    destruct (Z.eqb_spec c "/") as [->|Hslash]; cbn [andb]; [|apply Hnext; tauto].
    destruct (Z.ltb_spec 2 (Z.of_nat (S (length s)))) as [Hlen|Hlen]; cbn [andb].
    2: { apply Hnext; [done|done| |].
         - intros _ y Hy. apply path_of_dots in Hy as [z ->]. simpl in Hlen. lia.
         - intros (_ & _ & ->). simpl in Hlen. lia. }
    destruct s as [|d1 [|d2 s]]; [simpl in Hlen; lia..|]. cbn [app].
    change (at_ (d1 :: d2 :: s ++ after) 0) with d1.
    change (at_ (d1 :: d2 :: s ++ after) 1) with d2.
    replace (at_ (d1 :: d2 :: s ++ after) 2) with (ch_ (s ++ after)) by (by destruct (s ++ after)).
    assert (Hmiss : ~ (d1 = "." /\ d2 = "." /\ ch_ (s ++ after) = "/") ->
      ("/" = "/" -> forall y, path_of (d1 :: d2 :: s) <> "." :: "." :: "/" :: y) /\
      ~ (ch_ after = "/" /\ "/" = "/" /\ d1 :: d2 :: s = bs "..")).
    { intros Hn. split.
      - intros _ y [z Hy]%path_of_dots. injection Hy as -> -> ->. by apply Hn.
      - intros (Ha & _ & [= -> -> ->]). by apply Hn. }
    destruct (Z.eqb_spec d1 ".") as [->|]; cbn [andb]; [|apply Hnext; [done|done|apply Hmiss; tauto..]].
    destruct (Z.eqb_spec d2 ".") as [->|]; cbn [andb]; [|apply Hnext; [done|done|apply Hmiss; tauto..]].
    destruct (Z.eqb_spec (ch_ (s ++ after)) "/") as [E|E]; [|apply Hnext; [done|done|apply Hmiss; tauto..]].
    destruct s as [|d3 s].
    + right; right. split; [exact E|]. by exists [].
    + left. cbn in E. subst d3. exists [], (path_of s). reflexivity.
Qed.

(** The URIs that the function refuses, by their path (what precedes the "?"). *)
Definition refused (uri after : bytes) : Prop :=
  path_of uri = [] \/ uri = bs "../" \/ has_dot_dot (path_of uri) \/ 0 ∈ path_of uri \/
  dots_then_slash uri after.

(** C27: [ngx_http_parse_unsafe_uri] refuses a URI exactly when its path (what precedes
    the "?") is empty, has a NUL or a "/../", when the whole URI is "../", or when it ends in
    "/.." and the byte after the URI in memory is a slash: the code looks at that byte.  For
    every other URI the length that remains is that of the path, and the arguments, set when
    there is a "?", are what follows it. *)
Theorem unsafe_uri_spec uri after :
  Forall is_u_char uri ->
  match ngx_http_parse_unsafe_uri (uri ++ after) (length uri) with
  | Safe len a =>
      ~ refused uri after /\ len = zlen (path_of uri) /\
      match a with
      | None => path_of uri = uri
      | Some (p, n) => uri ++ after = path_of uri ++ "?" :: p /\
                       zlen uri = zlen (path_of uri) + 1 + n
      end
  | Unsafe => refused uri after
  end.
Proof.
  intros Hu. unfold ngx_http_parse_unsafe_uri, refused.
  destruct uri as [|c uri]; [by left|]. cbn [length Nat.eqb orb].
  change (ch_ ((c :: uri) ++ after)) with c.
  destruct (Z.eqb_spec c "?") as [->|Hq]; [by left|].
  pose proof (unsafe_loop_spec (c :: uri) after (zlen (c :: uri)) Hu) as H.
  destruct (_ && ngx_path_separator _) eqn:E.
  - right; left. rewrite !andb_true_iff in E. destruct E as (((E1 & E2) & E3) & E4).
    destruct uri as [|d1 [|d2 [|]]]; try done.
    assert (c = "." /\ d1 = "." /\ d2 = "/") as (-> & -> & ->); [|reflexivity].
    clear H. change ((c =? ".") = true) in E1. change ((d1 =? ".") = true) in E3.
    change ((d2 =? "/") = true) in E4. lia.
  - change (Z.of_nat (S (length uri))) with (zlen (c :: uri)).
    cbn [length] in H. destruct (unsafe_loop _ _ _) as [|len a]; [tauto|].
    destruct H as (? & ? & ? & -> & ?). split_and!; [|lia|done].
    assert (path_of (c :: uri) <> []) by (cbn [path_of]; by rewrite (proj2 (Z.eqb_neq c "?"))).
    assert (c :: uri <> bs "../") by (intros [= -> ->]; done). tauto.
Qed.

Lemma unsafe_uri_spec_witness :
  ngx_http_parse_unsafe_uri (bs "/a/b?c=/../ ") 11 = Safe 4 (Some (bs "c=/../ ", 6)) /\
  ~ refused (bs "/a/b?c=/../") (bs " ").
Proof.
  pose proof (unsafe_uri_spec (bs "/a/b?c=/../") (bs " ") ltac:(by_decide)) as H.
  assert (E : ngx_http_parse_unsafe_uri (bs "/a/b?c=/../ ") 11 = Safe 4 (Some (bs "c=/../ ", 6)))
    by (vm_compute; reflexivity).
  split; [exact E|].
  change (bs "/a/b?c=/../" ++ bs " ") with (bs "/a/b?c=/../ ") in H.
  change (length (bs "/a/b?c=/../")) with 11%nat in H. rewrite E in H. apply H.
Defined.

(** A "../" at the beginning is only seen when it is the whole URI. *)
Example unsafe_uri_leading_dots :
  ngx_http_parse_unsafe_uri (bs "../etc/passwd") 13 = Safe 13 None.
Proof. vm_compute. reflexivity. Qed.

(** ** Finding an argument *)

(** The reference: the arguments are split at "&"; the value is what follows "name=" in
    the first one that begins so, up to case. *)
Fixpoint join_args (segs : list bytes) : bytes :=
  match segs with
  | [] => []
  | [s] => s
  | s :: segs => s ++ "&" :: join_args segs
  end.

Definition is_arg (name s : bytes) : bool :=
  starts_ci name s && (at_ s (zlen name) =? "=").

Fixpoint find_arg (name : bytes) (segs : list bytes) : option bytes :=
  match segs with
  | [] => None
  | s :: segs =>
      if is_arg name s then Some (drop (S (length name)) s) else find_arg name segs
  end.

(** The first of [n] positions from [k] on at which [P] holds. *)
Fixpoint first_from (P : nat -> bool) (k n : nat) : option nat :=
  match n with
  | O => None
  | S n => if P k then Some k else first_from P (S k) n
  end.

Lemma first_from_skip P k n m :
  (m <= n)%nat -> (forall i, (i < m)%nat -> P (k + i)%nat = false) ->
  first_from P k n = first_from P (k + m) (n - m).
Proof.
  revert k n. induction m as [|m IH]; intros k n Hm HP.
  - by rewrite Nat.add_0_r, Nat.sub_0_r.
  - destruct n as [|n]; [lia|]. cbn [first_from]. rewrite <- (Nat.add_0_r k) at 1.
    rewrite HP by lia. rewrite (IH (S k)).
    + f_equal; lia.
    + lia.
    + intros i Hi. rewrite <- (HP (S i)) by lia. f_equal. lia.
Qed.

Lemma first_from_none P k n :
  (forall i, (i < n)%nat -> P (k + i)%nat = false) -> first_from P k n = None.
Proof. intros HP. rewrite (first_from_skip P k n n); [by rewrite Nat.sub_diag|lia|done]. Qed.

Lemma tl_drop (l : bytes) n : List.tl (drop n l) = drop (S n) l.
Proof.
  revert l. induction n as [|n IH]; intros l; [by destruct l|].
  destruct l as [|c l]; [done|]. simpl. by rewrite IH.
Qed.

Section ArgSpec.
Context (data name : bytes).
Hypothesis data_no_nul : no_nul data.
Hypothesis name_no_nul : no_nul name.
Hypothesis name_ne : name <> [].

(** A position of [data] at which the argument is found. *)
Definition cand (j : nat) : bool :=
  (Nat.eqb j 0 || (at_ data (Z.of_nat j - 1) =? "&")) && is_arg name (drop j data).

(** The value of the argument found there. *)
Definition arg_at (j : nat) : Z * Z :=
  let value := Z.of_nat j + zlen name + 1 in
  let e := match ngx_strlchr (drop j data) (length (drop j data)) "&" with
           | None => zlen data
           | Some p => off data p
           end in
  (value, e - value).

Lemma off_drop j : (j <= length data)%nat -> off data (drop j data) = Z.of_nat j.
Proof. intros. unfold off, zlen. rewrite length_drop. lia. Qed.

(** A match needs the whole name and one more character. *)
Lemma is_arg_short s : (length s <= length name)%nat -> is_arg name s = false.
Proof.
  intros Hl. unfold is_arg. apply andb_false_iff. right. apply Z.eqb_neq.
  unfold at_, rd, zlen. rewrite (proj2 (Z.leb_le 0 _)) by lia.
  rewrite Nat2Z.id, lookup_ge_None_2 by done. done.
Qed.

Lemma arg_loop_spec fuel k :
  (length data - k <= fuel)%nat ->
  arg_loop data name fuel (drop k data) =
  arg_at <$> first_from cand k (length data - k).
Proof.
  revert k. induction fuel as [|fuel IH]; intros k Hf.
  { by replace (length data - k)%nat with O by lia. }
  cbn [arg_loop]. destruct (Nat.le_gt_cases (length data) k) as [Hk|Hk].
  { replace (length data - k)%nat with O by lia.
    rewrite drop_ge by done. unfold off. change (zlen (@nil Z)) with 0.
    by rewrite Z.sub_0_r, Z.ltb_irrefl. }
  rewrite off_drop by lia. replace (Z.of_nat k <? zlen data) with true by (unfold zlen; lia).
  cbn [negb]. destruct name as [|c2 t2] eqn:En; [done|].
  change (length (c2 :: t2) - 1)%nat with (length t2 - 0)%nat. rewrite Nat.sub_0_r.
  rewrite <- En in *.
  assert (Hlen : zlen (drop k data) = Z.of_nat (length data - k))
    by (unfold zlen; by rewrite length_drop).
  pose proof (strlcasestrn_search c2 t2 ltac:(by rewrite <- En) (drop k data)
    (zlen (drop k data) - 1) ltac:(by apply drop_no_nul) ltac:(lia)) as Hsearch.
  rewrite <- En in Hsearch. rewrite Hsearch. clear Hsearch.
  set (m := Z.to_nat _).
  assert (Hm : (m + length name = length data - k)%nat \/
               (m = O /\ length data - k <= length name)%nat).
  { unfold m. rewrite Hlen. rewrite En. unfold zlen. simpl. lia. }
  assert (Hbeyond : forall i, (m <= i)%nat -> cand (k + i) = false).
  { intros i Hi. unfold cand. rewrite is_arg_short, andb_false_r; [done|].
    rewrite length_drop. lia. }
  destruct (search _ _ _) as [s'|] eqn:Es; cycle 1.
  { rewrite search_None in Es. rewrite first_from_none; [done|]. intros i Hi.
    destruct (Nat.lt_ge_cases i m) as [Him|Him]; [|by apply Hbeyond].
    unfold cand, is_arg. rewrite <- drop_drop, Es by done. by rewrite andb_false_r. }
  apply search_Some in Es as (j & Hj & -> & Hst & Hmin). rewrite drop_drop.
  rewrite off_drop by lia.
  rewrite (first_from_skip cand k _ j); [|lia|].
  2: { intros i Hi. unfold cand, is_arg. rewrite <- drop_drop, Hmin by done.
       by rewrite andb_false_r. }
  replace (length data - k - j)%nat with (S (length data - S (k + j))) by lia.
  cbn [first_from].
  assert (Hc : cand (k + j) = ((Z.of_nat (k + j) =? 0) || (at_ data (Z.of_nat (k + j) - 1) =? "&"))
                              && (at_ (drop (k + j) data) (zlen name) =? "=")).
  { unfold cand, is_arg. rewrite drop_drop in Hst. rewrite Hst. cbn [andb]. f_equal. f_equal.
    destruct (Nat.eqb_spec (k + j) 0), (Z.eqb_spec (Z.of_nat (k + j)) 0); lia || done. }
  rewrite <- Hc. destruct (cand (k + j)); [done|].
  rewrite <- IH by lia. f_equal. apply tl_drop.
Qed.

Hypothesis name_no_amp : "&" ∉ name.

Lemma tolower_amp c : is_u_char c -> ngx_tolower "&" = ngx_tolower c -> c = "&".
Proof. intros Hc. by_byte c Hc. Qed.

Lemma is_arg_app s rest : is_arg name (s ++ "&" :: rest) = is_arg name s.
Proof.
  unfold is_arg. destruct (Nat.lt_ge_cases (length s) (length name)) as [Hl|Hl].
  - fold (is_arg name s). rewrite is_arg_short by lia. apply andb_false_iff. left.
    unfold starts_ci. apply bool_decide_eq_false. intros E. apply name_no_amp.
    apply (f_equal (fun l => l !! length s)) in E. rewrite !list_lookup_fmap in E.
    rewrite lookup_take_lt, lookup_app_r, Nat.sub_diag in E by lia. cbn in E.
    destruct (name !! length s) as [c|] eqn:Ec; [|done]. injection E as E.
    apply list_elem_of_lookup_2 in Ec.
    assert (c = "&") as <-; [|done].
    unfold no_nul in name_no_nul. rewrite Forall_forall in name_no_nul.
    assert (Hc : is_u_char c) by (specialize (name_no_nul c Ec); split; lia).
    by apply tolower_amp.
  - assert (Hs : starts_ci name (s ++ "&" :: rest) = starts_ci name s)
      by (unfold starts_ci; by rewrite take_app_le by lia).
    rewrite Hs. destruct (starts_ci name s); [cbn [andb]|done].
    destruct (Nat.lt_ge_cases (length name) (length s)) as [Hl'|Hl'].
    + f_equal. unfold at_, rd, zlen. decide_if. by rewrite Nat2Z.id, lookup_app_l by lia.
    + unfold at_, rd, zlen. decide_if.
      rewrite Nat2Z.id, lookup_app_r, (lookup_ge_None_2 s) by lia.
      by replace (length name - length s)%nat with O by lia.
Qed.

Definition arg_value (ol : Z * Z) : bytes := slice data ol.1 (ol.1 + ol.2).

Lemma at_mid pre s rest i :
  data = pre ++ s ++ rest -> (i < length s)%nat ->
  at_ data (Z.of_nat (length pre + i)) ∈ s.
Proof.
  intros -> Hi. destruct (lookup_lt_is_Some_2 s i Hi) as [c Hc].
  rewrite (at_rd _ _ c); [by eapply list_elem_of_lookup_2|].
  unfold rd. rewrite (proj2 (Z.leb_le 0 _)) by lia. rewrite Nat2Z.id, lookup_app_r by lia.
  rewrite lookup_app_l by lia. rewrite <- Hc. f_equal. lia.
Qed.

(** No argument begins inside a segment. *)
Lemma cand_inside pre s rest i :
  data = pre ++ s ++ rest -> ("&" ∉ s) -> (0 < i <= length s)%nat ->
  cand (length pre + i) = false.
Proof.
  intros Hd Hs Hi. unfold cand.
  replace (Nat.eqb (length pre + i) 0) with false by (symmetry; apply Nat.eqb_neq; lia).
  pose proof (at_mid pre s rest (i - 1) Hd ltac:(lia)) as Hin.
  replace (Z.of_nat (length pre + (i - 1))) with (Z.of_nat (length pre + i) - 1) in Hin by lia.
  destruct (Z.eqb_spec (at_ data (Z.of_nat (length pre + i) - 1)) "&") as [E|]; [|done].
  by rewrite E in Hin.
Qed.

Definition at_segment (pre : bytes) : Prop := pre = [] \/ exists x, pre = x ++ ["&"].

Lemma cand_start pre t :
  data = pre ++ t -> at_segment pre -> cand (length pre) = is_arg name t.
Proof.
  intros Hd Hp. unfold cand. rewrite Hd at 2. rewrite drop_app_length.
  destruct Hp as [->|[x ->]]; [done|].
  replace (at_ data _) with "&"; [by rewrite orb_true_r|].
  symmetry. apply at_rd. rewrite Hd, <- app_assoc, length_app. simpl.
  replace (Z.of_nat (length x + 1) - 1) with (zlen x + 0) by (unfold zlen; lia).
  by rewrite rd_app_r.
Qed.

Lemma arg_value_at pre s rest :
  data = pre ++ s ++ rest -> ("&" ∉ s) -> (rest = [] \/ exists r, rest = "&" :: r) ->
  is_arg name s = true ->
  arg_value (arg_at (length pre)) = drop (S (length name)) s.
Proof.
  intros Hd Hs Hr Ha.
  assert (Hl : (length name < length s)%nat).
  { destruct (Nat.lt_ge_cases (length name) (length s)); [done|].
    by rewrite is_arg_short in Ha. }
  unfold arg_value, arg_at. cbn [fst snd].
  replace (drop (length pre) data) with (s ++ rest) by (by rewrite Hd, drop_app_length).
  match goal with |- context [?a + (?e - ?a)] => set (e1 := e); replace (a + (e1 - a)) with e1 by lia end.
  assert (He : e1 = zlen pre + zlen s).
  { unfold e1. destruct Hr as [->|[r ->]].
    - rewrite app_nil_r, strlchr_none; [|by rewrite take_ge|done].
      rewrite Hd, app_nil_r, zlen_app. done.
    - rewrite strlchr_found; [|done|rewrite length_app; simpl; lia].
      unfold off. rewrite Hd, !zlen_app. lia. }
  rewrite He, Hd. unfold zlen. rewrite (app_assoc pre).
  replace (Z.of_nat (length pre) + Z.of_nat (length name) + 1)
    with (zlen (pre ++ take (S (length name)) s))
    by (unfold zlen; rewrite length_app, length_take; lia).
  rewrite <- (take_drop (S (length name)) s) at 1. rewrite (app_assoc pre).
  rewrite <- app_assoc.
  replace (Z.of_nat (length pre) + Z.of_nat (length s))
    with (zlen (pre ++ take (S (length name)) s) + zlen (drop (S (length name)) s)).
  - apply slice_mid.
  - unfold zlen. rewrite length_app, length_take, length_drop. lia.
Qed.

Lemma first_from_segments segs pre :
  data = pre ++ join_args segs -> at_segment pre -> segs <> [] ->
  Forall (fun s : bytes => "&" ∉ s) segs ->
  (fun j => arg_value (arg_at j)) <$>
    first_from cand (length pre) (length data - length pre) = find_arg name segs.
Proof.
  intros Hd Hp Hne Hs. revert pre Hd Hp Hne.
  induction Hs as [|s segs Hs Hsegs IH]; intros pre Hd Hp Hne; [done|].
  assert (Hlen : (length data - length pre)%nat = length (join_args (s :: segs)))
    by (rewrite Hd, length_app; lia).
  cbn [find_arg]. destruct segs as [|s2 segs].
  - cbn [join_args] in *.
    pose proof (cand_start pre s Hd Hp) as Hc.
    assert (Hd' : data = pre ++ s ++ []) by (by rewrite app_nil_r).
    rewrite Hlen. destruct (is_arg name s) eqn:Ea.
    + destruct s as [|c s]; [by rewrite is_arg_short in Ea by (simpl; lia)|].
      cbn [length first_from]. rewrite Hc. cbn [fmap option_fmap option_map]. f_equal.
      apply (arg_value_at pre (c :: s) [] Hd'); auto.
    + rewrite first_from_none; [done|]. intros [|i] Hi; [by rewrite Nat.add_0_r|].
      apply (cand_inside pre s [] (S i) Hd'); [done|lia].
  - change (join_args (s :: s2 :: segs)) with (s ++ "&" :: join_args (s2 :: segs)) in *.
    pose proof (cand_start pre _ Hd Hp) as Hc. rewrite is_arg_app in Hc.
    destruct (is_arg name s) eqn:Ea.
    + rewrite Hlen, length_app. rewrite Nat.add_comm. cbn [length Nat.add first_from].
      rewrite Hc. cbn [fmap option_fmap option_map]. f_equal.
      apply (arg_value_at pre s _ Hd); eauto.
    + rewrite (first_from_skip cand _ _ (S (length s))).
      * replace (length pre + S (length s))%nat with (length (pre ++ s ++ ["&"]))
          by (rewrite !length_app; simpl; lia).
        replace (length data - length pre - S (length s))%nat
          with (length data - length (pre ++ s ++ ["&"]))%nat
          by (rewrite !length_app; simpl; lia).
        apply IH; [by rewrite Hd, <- !app_assoc|right; by exists (pre ++ s); rewrite <- app_assoc|done].
      * rewrite Hlen, length_app. simpl. lia.
      * intros [|i] Hi; [by rewrite Nat.add_0_r|].
        apply (cand_inside pre s _ (S i) Hd); [done|lia].
Qed.
End ArgSpec.

(** [ngx_http_arg] finds the argument that a reference finds which splits the
    arguments at "&" and takes the first one that begins with the name (up to case) and
    "=": it returns the offset and the length of what follows the "=" in that argument,
    or NGX_DECLINED when there is none. *)
Theorem http_arg_spec (segs : list bytes) (name : bytes) :
  let data := join_args segs in
  no_nul data -> no_nul name -> name <> [] -> ("&" ∉ name) ->
  segs <> [] -> Forall (fun s : bytes => "&" ∉ s) segs ->
  arg_value data <$> ngx_http_arg data name = find_arg name segs.
Proof.
  intros data Hd Hn Hne Hamp Hsegs Hs. unfold ngx_http_arg.
  assert (Hfirst := first_from_segments data name Hd Hn Hamp segs [] eq_refl (or_introl eq_refl) Hsegs Hs).
  cbn [length] in Hfirst. destruct (Z.eqb_spec (zlen data) 0) as [E|E].
  - rewrite <- Hfirst. unfold zlen in E. by replace (length data - 0)%nat with O by lia.
  - pose proof (arg_loop_spec data name Hd Hn Hne (length data) 0 ltac:(lia)) as Hloop.
    rewrite drop_0 in Hloop. rewrite Hloop, <- Hfirst. by destruct (first_from _ _ _).
Qed.

Lemma http_arg_spec_witness :
  arg_value (bs "xa=1&b&A=3&a=4") <$> ngx_http_arg (bs "xa=1&b&A=3&a=4") (bs "a") = Some (bs "3").
Proof.
  apply (http_arg_spec [bs "xa=1"; bs "b"; bs "A=3"; bs "a=4"] (bs "a"));
    unfold no_nul; by_decide.
Defined.

(** ** Finding a cookie *)

(** A header value "k1=v1; k2=v2; ..". *)
Fixpoint cookies_text (l : list (bytes * bytes)) : bytes :=
  match l with
  | [] => []
  | [(k, v)] => k ++ "=" :: v
  | (k, v) :: l => k ++ "=" :: v ++ ";" :: " " :: cookies_text l
  end.

Definition cookie_key (k : bytes) : Prop :=
  k <> [] /\ Forall (fun c => c ∉ [";"; ","; "="; " "] /\ 0 < c < 256) k.
Definition cookie_value (v : bytes) : Prop :=
  Forall (fun c => c ∉ [";"; ","] /\ 0 < c < 256) v /\ ch_ v <> " ".

Fixpoint find_cookie (name : bytes) (l : list (bytes * bytes)) : option bytes :=
  match l with
  | [] => None
  | (k, v) :: l =>
      if bool_decide (ngx_tolower <$> k = ngx_tolower <$> name) then Some v
      else find_cookie name l
  end.

Lemma skip_token_app x c t :
  Forall (fun c => c ∉ [";"; ","]) x -> c = ";" \/ c = "," ->
  skip_token (x ++ c :: t) = t.
Proof.
  intros Hx Hc. induction Hx as [|d x Hd _ IH]; cbn [app skip_token].
  - by destruct Hc as [-> | ->].
  - destruct (Z.eqb_spec d ";") as [->|]; [exfalso; apply Hd; set_solver|].
    destruct (Z.eqb_spec d ",") as [->|]; [exfalso; apply Hd; set_solver|]. exact IH.
Qed.

Lemma skip_token_end x : Forall (fun c => c ∉ [";"; ","]) x -> skip_token x = [].
Proof.
  induction 1 as [|d x Hd _ IH]; cbn [skip_token]; [done|].
  destruct (Z.eqb_spec d ";") as [->|]; [exfalso; apply Hd; set_solver|].
  destruct (Z.eqb_spec d ",") as [->|]; [exfalso; apply Hd; set_solver|]. exact IH.
Qed.

Lemma until_semicolon_app x t :
  Forall (fun c => c ∉ [";"; ","]) x -> t = [] \/ (exists u, t = ";" :: u) ->
  until_semicolon (x ++ t) = x.
Proof.
  intros Hx Ht. induction Hx as [|d x Hd _ IH]; cbn [app until_semicolon].
  - by destruct Ht as [->|[u ->]].
  - destruct (Z.eqb_spec d ";") as [->|]; [exfalso; apply Hd; set_solver|]. by rewrite IH.
Qed.

Lemma skip_spaces_id s : ch_ s <> " " -> skip_spaces s = s.
Proof. destruct s as [|c s]; [done|]. cbn. intros H. by rewrite (proj2 (Z.eqb_neq c " ")). Qed.

Lemma cookie_key_head k t : cookie_key k -> ch_ (k ++ t) <> " ".
Proof.
  intros [Hne Hk]. destruct Hk as [|c k [Hc _] _]; [done|]. cbn. intros ->. apply Hc. set_solver.
Qed.

Lemma cookies_text_head l : Forall (fun kv => cookie_key kv.1 /\ cookie_value kv.2) l ->
  ch_ (cookies_text l) <> " ".
Proof.
  intros H. destruct H as [|[k v] l [Hk _] _]; [done|]. cbn in Hk.
  destruct l as [|[??] ?]; cbn [cookies_text]; by apply cookie_key_head.
Qed.

(** The rest of a token is skipped, up to the next cookie. *)
Lemma skip_rest x tail l :
  Forall (fun c => c ∉ [";"; ","]) x ->
  Forall (fun kv => cookie_key kv.1 /\ cookie_value kv.2) l ->
  (tail = [] /\ l = []) \/ tail = ";" :: " " :: cookies_text l ->
  skip_spaces (skip_token (x ++ tail)) = cookies_text l.
Proof.
  intros Hx Hl [[-> ->]| ->].
  - by rewrite app_nil_r, skip_token_end.
  - rewrite skip_token_app by auto. cbn [skip_spaces]. change (" " =? " ") with true. cbn iota.
    by apply skip_spaces_id, cookies_text_head.
Qed.

Lemma cookie_token_chars k v :
  cookie_key k -> cookie_value v -> Forall (fun c => c ∉ [";"; ","]) (k ++ "=" :: v).
Proof.
  intros [_ Hk] [Hv _]. apply Forall_app. split; [|constructor].
  - eapply Forall_impl; [exact Hk|]. cbn. intros c [Hc _]. set_solver.
  - set_solver.
  - eapply Forall_impl; [exact Hv|]. by intros c [Hc _].
Qed.

(** A key that is not the name: the token is skipped, whether or not the name is the
    beginning of the key. *)
Lemma name_prefix_of_key k v tail name :
  cookie_key k -> cookie_value v -> cookie_key name -> no_nul tail ->
  ngx_tolower <$> k <> ngx_tolower <$> name ->
  ngx_strncasecmp (k ++ "=" :: v ++ tail) name (length name) = 0 ->
  exists c k', drop (length name) (k ++ "=" :: v ++ tail) = c :: k' ++ "=" :: v ++ tail /\
    c <> " " /\ c <> "=" /\ Forall (fun c => c ∉ [";"; ","]) (k' ++ "=" :: v).
Proof.
  intros Hk Hv [Hnne Hn] Htail Hkn E. pose proof Hk as [Hkne Hk']. pose proof Hv as [Hv' _].
  assert (Hnn : no_nul name) by (eapply Forall_impl; [exact Hn|]; by intros ? [_ ?]).
  assert (Hkv : no_nul (k ++ "=" :: v ++ tail)).
  { apply Forall_app. split; [eapply Forall_impl; [exact Hk'|]; by intros ? [_ ?]|].
    constructor; [lia|]. apply Forall_app. split; [|done].
    eapply Forall_impl; [exact Hv'|]. by intros ? [_ ?]. }
  apply strncasecmp_zero in E; [|done|done]. rewrite (take_ge name) in E by lia.
  destruct (Nat.lt_ge_cases (length name) (length k)) as [Hl|Hl].
  - destruct (drop (length name) k) as [|c k'] eqn:Ed.
    { apply (f_equal length) in Ed. rewrite length_drop in Ed. simpl in Ed. lia. }
    exists c, k'. rewrite drop_app_le, Ed by lia. split; [done|].
    assert (Hin : Forall (fun c => c ∉ [";"; ","; "="; " "] /\ 0 < c < 256) (c :: k'))
      by (rewrite <- Ed; by apply Forall_drop).
    inversion_clear Hin as [|?? [Hc _] Hk'']. split_and!; [set_solver|set_solver|].
    apply Forall_app. split; [|constructor; [set_solver|]].
    + eapply Forall_impl; [exact Hk''|]. cbn. intros d [Hd _]. set_solver.
    + eapply Forall_impl; [exact Hv'|]. by intros ? [? _].
  - exfalso. destruct (Nat.eq_dec (length name) (length k)) as [Heq|Hne].
    + apply Hkn. rewrite Heq, take_app_length in E. done.
    + (* the name would have the "=" *)
      apply (f_equal (fun l => l !! length k)) in E. rewrite !list_lookup_fmap in E.
      rewrite lookup_take_lt, lookup_app_r, Nat.sub_diag in E by lia. cbn in E.
      destruct (name !! length k) as [c|] eqn:Ec; [|done]. injection E as E.
      eapply Forall_lookup_1 in Ec; [|exact Hn]. destruct Ec as [Hc1 Hc2].
      assert (c = "="); [|subst; set_solver].
      assert (Hc : is_u_char c) by (split; lia).
      clear - E Hc. revert E. by_byte c Hc.
Qed.

Lemma cookies_text_length k v l :
  (length (cookies_text l) < length (cookies_text ((k, v) :: l)))%nat.
Proof.
  destruct l as [|[k2 v2] l]; [cbn; rewrite length_app; simpl; lia|].
  change (cookies_text ((k, v) :: (k2, v2) :: l))
    with (k ++ "=" :: v ++ ";" :: " " :: cookies_text ((k2, v2) :: l)).
  rewrite length_app. cbn [length]. rewrite length_app. cbn [length]. lia.
Qed.

Lemma cookies_no_nul l :
  Forall (fun kv => cookie_key kv.1 /\ cookie_value kv.2) l -> no_nul (cookies_text l).
Proof.
  assert (Hkey : forall k, cookie_key k -> no_nul k)
    by (intros k [_ Hk]; eapply Forall_impl; [exact Hk|]; by intros ? [_ ?]).
  assert (Hval : forall v, cookie_value v -> no_nul v)
    by (intros v [Hv _]; eapply Forall_impl; [exact Hv|]; by intros ? [_ ?]).
  induction 1 as [|[k v] l [Hk Hv] _ IH]; [constructor|]. cbn in Hk, Hv.
  destruct l as [|[k2 v2] l]; cbn [cookies_text].
  - apply Forall_app. split; [by apply Hkey|]. constructor; [lia|by apply Hval].
  - apply Forall_app. split; [by apply Hkey|]. constructor; [lia|].
    apply Forall_app. split; [by apply Hval|]. do 2 (constructor; [lia|]). exact IH.
Qed.

Lemma cookie_loop fuel l name :
  Forall (fun kv => cookie_key kv.1 /\ cookie_value kv.2) l -> cookie_key name ->
  (length (cookies_text l) <= fuel)%nat ->
  header_value_loop fuel name true (cookies_text l) = find_cookie name l.
Proof.
  intros Hl Hn. revert fuel. induction Hl as [|[k v] l [Hk Hv] Hl IH]; intros fuel Hf.
  { by destruct fuel. }
  cbn [fst snd] in Hk, Hv. pose proof (cookies_text_length k v l) as Hlt.
  destruct fuel as [|fuel]; [lia|].
  assert (exists tail, cookies_text ((k, v) :: l) = k ++ "=" :: v ++ tail /\ no_nul tail /\
    ((tail = [] /\ l = []) \/ tail = ";" :: " " :: cookies_text l)) as (tail & Et & Htn & Htail).
  { destruct l as [|[k2 v2] l].
    - exists []. cbn. rewrite app_nil_r. split_and!; [done|constructor|auto].
    - exists (";" :: " " :: cookies_text ((k2, v2) :: l)).
      split; [reflexivity|]. split; [|by right].
      do 2 (constructor; [lia|]). by apply cookies_no_nul. }
  rewrite Et. cbn [find_cookie header_value_loop].
  assert (Hm : forall (A : Type) (x y : A),
    match k ++ "=" :: v ++ tail with [] => x | _ => y end = y) by (by destruct k).
  rewrite Hm. clear Hm. cbn zeta.
  assert (Hskip : forall x, Forall (fun c => c ∉ [";"; ","]) x ->
    header_value_loop fuel name true (skip_spaces (skip_token (x ++ tail))) =
    find_cookie name l).
  { intros x Hx. rewrite (skip_rest x tail l) by done. apply IH. lia. }
  destruct (Z.eqb_spec (ngx_strncasecmp (k ++ "=" :: v ++ tail) name (length name)) 0)
    as [E|E]; cbn [negb].
  - case_bool_decide as Hkn.
    + assert (Hlen : length k = length name)
        by (apply (f_equal length) in Hkn; by rewrite !length_fmap in Hkn).
      rewrite <- Hlen, drop_app_length. cbn [skip_spaces].
      change ("=" =? " ") with false. cbn iota. change (negb ("=" =? "=")) with false. cbn iota.
      f_equal. destruct Hv as [Hv Hsp]. rewrite skip_spaces_id.
      * apply until_semicolon_app.
        -- eapply Forall_impl; [exact Hv|]. by intros ? [? _].
        -- destruct Htail as [[-> _]| ->]; eauto.
      * destruct v as [|d v]; [|done]. destruct Htail as [[-> _]| ->]; done.
    + destruct (name_prefix_of_key k v tail name) as (c & k' & -> & Hc1 & Hc2 & Hch); try done.
      rewrite skip_spaces_id by done. rewrite (proj2 (Z.eqb_neq c "=")) by done. cbn [negb].
      rewrite app_comm_cons, app_assoc. by apply Hskip.
  - rewrite bool_decide_eq_false_2.
    + rewrite app_comm_cons, app_assoc. by apply Hskip, cookie_token_chars.
    + intros Hkn. apply E. apply strncasecmp_zero.
      * rewrite <- Et. by apply cookies_no_nul; constructor.
      * destruct Hn as [_ Hn]. eapply Forall_impl; [exact Hn|]. by intros ? [_ ?].
      * assert (Hlen : length k = length name)
          by (apply (f_equal length) in Hkn; by rewrite !length_fmap in Hkn).
        rewrite <- Hlen at 1. rewrite take_app_length, take_ge by lia. done.
Qed.

Lemma find_cookie_length name l v :
  find_cookie name l = Some v -> (length name <= length (cookies_text l))%nat.
Proof.
  induction l as [|[k v'] l IH]; cbn [find_cookie]; [done|]. case_bool_decide as Hkn.
  - intros _. apply (f_equal length) in Hkn. rewrite !length_fmap in Hkn.
    destruct l as [|[??] ?]; cbn [cookies_text]; rewrite length_app; lia.
  - intros H%IH. pose proof (cookies_text_length k v' l). lia.
Qed.

Lemma multi_header_loop_spec i headers name :
  Forall (Forall (fun kv => cookie_key kv.1 /\ cookie_value kv.2)) headers ->
  cookie_key name ->
  match multi_header_loop i (cookies_text <$> headers) name true with
  | Some (j, v) => exists n h, j = i + Z.of_nat n /\ headers !! n = Some h /\
      find_cookie name h = Some v /\
      forall m h', (m < n)%nat -> headers !! m = Some h' -> find_cookie name h' = None
  | None => Forall (fun h => find_cookie name h = None) headers
  end.
Proof.
  intros Hh Hn. revert i. induction Hh as [|h headers Hkv _ IH]; intros i; [constructor|].
  cbn [fmap list_fmap multi_header_loop].
  assert (Hnone : find_cookie name h = None ->
    match multi_header_loop (i + 1) (cookies_text <$> headers) name true with
    | Some (j, v) => exists n h0, j = i + Z.of_nat n /\ (h :: headers) !! n = Some h0 /\
        find_cookie name h0 = Some v /\
        forall m h', (m < n)%nat -> (h :: headers) !! m = Some h' -> find_cookie name h' = None
    | None => Forall (fun h => find_cookie name h = None) (h :: headers)
    end).
  { intros Hf. specialize (IH (i + 1)).
    destruct (multi_header_loop _ _ _ _) as [[j v]|]; [|by constructor].
    destruct IH as (n & h0 & -> & Hn0 & Hv & Hmin). exists (S n), h0.
    split_and!; [lia|done|done|]. intros [|m] h' Hm; cbn; [by intros [= <-]|].
    apply Hmin. lia. }
  destruct (Z.ltb_spec (zlen (cookies_text h)) (zlen name)) as [Hlt|].
  - apply Hnone. destruct (find_cookie name h) as [v|] eqn:E; [|done].
    apply find_cookie_length in E. unfold zlen in Hlt. lia.
  - rewrite cookie_loop by done. destruct (find_cookie name h) as [v|] eqn:E; [|by apply Hnone].
    exists O, h. split_and!; [lia|done|done|lia].
Qed.

(** [ngx_http_parse_multi_header_lines] looks a cookie up: in headers whose values
    are "k1=v1; k2=v2; ..", it returns the value of the first cookie with the name (up to
    case) in the first header that has one, with the index of that header. *)
Theorem multi_header_cookie (headers : list (list (bytes * bytes))) (name : bytes) :
  Forall (Forall (fun kv => cookie_key kv.1 /\ cookie_value kv.2)) headers ->
  cookie_key name ->
  match ngx_http_parse_multi_header_lines (cookies_text <$> headers) name true with
  | Some (i, v) => exists h, headers !! Z.to_nat i = Some h /\ find_cookie name h = Some v /\
      forall j h', (j < Z.to_nat i)%nat -> headers !! j = Some h' -> find_cookie name h' = None
  | None => Forall (fun h => find_cookie name h = None) headers
  end.
Proof.
  intros Hh Hn. unfold ngx_http_parse_multi_header_lines.
  pose proof (multi_header_loop_spec 0 headers name Hh Hn) as H.
  destruct (multi_header_loop _ _ _ _) as [[i v]|]; [|done].
  destruct H as (n & h & -> & H1 & H2 & H3). rewrite Z.add_0_l, Nat2Z.id. eauto.
Qed.

Lemma multi_header_cookie_witness :
  let headers := [[(bs "x", bs "1")]; [(bs "ab", bs "1"); (bs "a", bs "2"); (bs "B", bs "3")]] in
  match ngx_http_parse_multi_header_lines (cookies_text <$> headers) (bs "A") true with
  | Some (i, v) => exists h, headers !! Z.to_nat i = Some h /\ find_cookie (bs "A") h = Some v /\
      forall j h', (j < Z.to_nat i)%nat -> headers !! j = Some h' -> find_cookie (bs "A") h' = None
  | None => Forall (fun h => find_cookie (bs "A") h = None) headers
  end.
Proof.
  apply (multi_header_cookie
    [[(bs "x", bs "1")]; [(bs "ab", bs "1"); (bs "a", bs "2"); (bs "B", bs "3")]] (bs "A"));
    unfold cookie_key, cookie_value; by_decide.
Defined.

(** A cookie without "=" hides the one after it: the ";" is taken for the "=" that is
    not there, and skipping goes on to the next one. *)
Example cookie_hidden :
  ngx_http_parse_multi_header_lines [bs "a; a=1"] (bs "a") true = None.
Proof. vm_compute. reflexivity. Qed.
