(* ===== verification/Base64.v ===== *)
(** Base64 (src/core/ngx_string.c, src/core/ngx_string.h). *)
From S2P Require Import Prelude.

Definition basis64 : bytes :=
  bs "ABCDEFGHIJKLMNOPQRSTUVWXYZabcdefghijklmnopqrstuvwxyz0123456789+/".

(** [ngx_base64_encoded_length], [ngx_base64_decoded_length]: what the callers
    allocate. *)
Definition ngx_base64_encoded_length (len : Z) : Z := (len + 2) / 3 * 4.
Definition ngx_base64_decoded_length (len : Z) : Z := (len + 3) / 4 * 3.

Definition b64 (i : Z) : Z := at_ basis64 i.

(** The bytes written to [dst->data]; [dst->len] is their number. *)
Fixpoint ngx_encode_base64 (s : bytes) : bytes :=
  match s with
  | s0 :: s1 :: s2 :: s =>
      b64 (Z.land (Z.shiftr s0 2) 0x3f) ::
      b64 (Z.lor (Z.shiftl (Z.land s0 3) 4) (Z.shiftr s1 4)) ::
      b64 (Z.lor (Z.shiftl (Z.land s1 0x0f) 2) (Z.shiftr s2 6)) ::
      b64 (Z.land s2 0x3f) :: ngx_encode_base64 s
  | [s0; s1] =>
      [b64 (Z.land (Z.shiftr s0 2) 0x3f);
       b64 (Z.lor (Z.shiftl (Z.land s0 3) 4) (Z.shiftr s1 4));
       b64 (Z.shiftl (Z.land s1 0x0f) 2); "="]
  | [s0] =>
      [b64 (Z.land (Z.shiftr s0 2) 0x3f); b64 (Z.shiftl (Z.land s0 3) 4); "="; "="]
  | [] => []
  end.

(** [basis64] of [ngx_decode_base64]: 77 is for a character not of the alphabet. *)
Definition decode_basis : bytes :=
  [77; 77; 77; 77; 77; 77; 77; 77; 77; 77; 77; 77; 77; 77; 77; 77;
   77; 77; 77; 77; 77; 77; 77; 77; 77; 77; 77; 77; 77; 77; 77; 77;
   77; 77; 77; 77; 77; 77; 77; 77; 77; 77; 77; 62; 77; 77; 77; 63;
   52; 53; 54; 55; 56; 57; 58; 59; 60; 61; 77; 77; 77; 77; 77; 77;
   77; 0; 1; 2; 3; 4; 5; 6; 7; 8; 9; 10; 11; 12; 13; 14;
   15; 16; 17; 18; 19; 20; 21; 22; 23; 24; 25; 77; 77; 77; 77; 77;
   77; 26; 27; 28; 29; 30; 31; 32; 33; 34; 35; 36; 37; 38; 39; 40;
   41; 42; 43; 44; 45; 46; 47; 48; 49; 50; 51; 77; 77; 77; 77; 77;
   77; 77; 77; 77; 77; 77; 77; 77; 77; 77; 77; 77; 77; 77; 77; 77;
   77; 77; 77; 77; 77; 77; 77; 77; 77; 77; 77; 77; 77; 77; 77; 77;
   77; 77; 77; 77; 77; 77; 77; 77; 77; 77; 77; 77; 77; 77; 77; 77;
   77; 77; 77; 77; 77; 77; 77; 77; 77; 77; 77; 77; 77; 77; 77; 77;
   77; 77; 77; 77; 77; 77; 77; 77; 77; 77; 77; 77; 77; 77; 77; 77;
   77; 77; 77; 77; 77; 77; 77; 77; 77; 77; 77; 77; 77; 77; 77; 77;
   77; 77; 77; 77; 77; 77; 77; 77; 77; 77; 77; 77; 77; 77; 77; 77;
   77; 77; 77; 77; 77; 77; 77; 77; 77; 77; 77; 77; 77; 77; 77; 77].

(** [basis64] of [ngx_decode_base64url]. *)
Definition decode_basis_url : bytes :=
  [77; 77; 77; 77; 77; 77; 77; 77; 77; 77; 77; 77; 77; 77; 77; 77;
   77; 77; 77; 77; 77; 77; 77; 77; 77; 77; 77; 77; 77; 77; 77; 77;
   77; 77; 77; 77; 77; 77; 77; 77; 77; 77; 77; 77; 77; 62; 77; 77;
   52; 53; 54; 55; 56; 57; 58; 59; 60; 61; 77; 77; 77; 77; 77; 77;
   77; 0; 1; 2; 3; 4; 5; 6; 7; 8; 9; 10; 11; 12; 13; 14;
   15; 16; 17; 18; 19; 20; 21; 22; 23; 24; 25; 77; 77; 77; 77; 63;
   77; 26; 27; 28; 29; 30; 31; 32; 33; 34; 35; 36; 37; 38; 39; 40;
   41; 42; 43; 44; 45; 46; 47; 48; 49; 50; 51; 77; 77; 77; 77; 77;
   77; 77; 77; 77; 77; 77; 77; 77; 77; 77; 77; 77; 77; 77; 77; 77;
   77; 77; 77; 77; 77; 77; 77; 77; 77; 77; 77; 77; 77; 77; 77; 77;
   77; 77; 77; 77; 77; 77; 77; 77; 77; 77; 77; 77; 77; 77; 77; 77;
   77; 77; 77; 77; 77; 77; 77; 77; 77; 77; 77; 77; 77; 77; 77; 77;
   77; 77; 77; 77; 77; 77; 77; 77; 77; 77; 77; 77; 77; 77; 77; 77;
   77; 77; 77; 77; 77; 77; 77; 77; 77; 77; 77; 77; 77; 77; 77; 77;
   77; 77; 77; 77; 77; 77; 77; 77; 77; 77; 77; 77; 77; 77; 77; 77;
   77; 77; 77; 77; 77; 77; 77; 77; 77; 77; 77; 77; 77; 77; 77; 77].

Section Decode.
Context (basis : bytes).

(** The first loop: the length before the "=", [None] at a bad character. *)
Fixpoint valid_length (len : Z) (src : bytes) : option Z :=
  match src with
  | [] => Some len
  | c :: src =>
      if c =? "=" then Some len
      else if at_ basis c =? 77 then None
      else valid_length (len + 1) src
  end.

Definition byte0 (s0 s1 : Z) : Z :=
  u8 (Z.lor (Z.shiftl (at_ basis s0) 2) (Z.shiftr (at_ basis s1) 4)).
Definition byte1 (s1 s2 : Z) : Z :=
  u8 (Z.lor (Z.shiftl (at_ basis s1) 4) (Z.shiftr (at_ basis s2) 2)).
Definition byte2 (s2 s3 : Z) : Z :=
  u8 (Z.lor (Z.shiftl (at_ basis s2) 6) (at_ basis s3)).

(** The loop and the two conditions after it, on the [len] valid characters. *)
Fixpoint decode_loop (s : bytes) : bytes :=
  match s with
  | s0 :: s1 :: s2 :: s3 :: s => byte0 s0 s1 :: byte1 s1 s2 :: byte2 s2 s3 :: decode_loop s
  | [s0; s1; s2] => [byte0 s0 s1; byte1 s1 s2]
  | [s0; s1] => [byte0 s0 s1]
  | _ => []
  end.

(** [None] is NGX_ERROR. *)
Definition ngx_decode_base64_internal (src : bytes) : option bytes :=
  match valid_length 0 src with
  | None => None
  | Some len =>
      if len mod 4 =? 1 then None else Some (decode_loop (take (Z.to_nat len) src))
  end.
End Decode.

Definition ngx_decode_base64 (src : bytes) : option bytes :=
  ngx_decode_base64_internal decode_basis src.
Definition ngx_decode_base64url (src : bytes) : option bytes :=
  ngx_decode_base64_internal decode_basis_url src.

Example base64_1 : ngx_encode_base64 (bs "user:pass") = bs "dXNlcjpwYXNz".
Proof. vm_compute. reflexivity. Qed.
Example base64_2 : ngx_decode_base64url (bs "_-8=ignored") = Some [255; 239].
Proof. vm_compute. reflexivity. Qed.

(** ** Decoding what was encoded *)

Arguments basis64 : simpl never.
Arguments decode_basis : simpl never.

(** Induction by triples. *)
Lemma triple_ind (P : bytes -> Prop) :
  P [] -> (forall a, P [a]) -> (forall a b, P [a; b]) ->
  (forall a b c s, P s -> P (a :: b :: c :: s)) -> forall s, P s.
Proof.
  intros H0 H1 H2 H3 s. assert (H : P s /\ (forall a, P (a :: s)) /\ forall a b, P (a :: b :: s)).
  { induction s as [|c s (I1 & I2 & I3)]; split_and!; auto. }
  apply H.
Qed.

(** A 6-bit digit survives. *)
Lemma basis_b64 i : 0 <= i < 64 -> at_ decode_basis (b64 i) = i /\ b64 i <> "=".
Proof.
  intros Hi.
  assert (H : Forall (fun j => at_ decode_basis (b64 (Z.of_nat j)) = Z.of_nat j /\
                               b64 (Z.of_nat j) <> "=") (seq 0 64)) by by_decide.
  rewrite Forall_forall in H. rewrite <- (Z2Nat.id i) by lia. apply H. apply elem_of_seq. lia.
Qed.

Lemma digit_a s0 : is_u_char s0 -> Z.land (Z.shiftr s0 2) 0x3f = s0 / 4.
Proof. intros Hs. by_byte s0 Hs. Qed.
Lemma digit_b s0 s1 :
  is_u_char s0 -> is_u_char s1 ->
  Z.lor (Z.shiftl (Z.land s0 3) 4) (Z.shiftr s1 4) = s0 mod 4 * 16 + s1 / 16.
Proof.
  intros [] []. change 3 with (Z.ones 2). rewrite Z.land_ones, Z.shiftr_div_pow2 by lia.
  apply (lor_shiftl_add _ _ 4); [lia|]. change (2 ^ 4) with 16. dlia.
Qed.
Lemma digit_c s1 s2 :
  is_u_char s1 -> is_u_char s2 ->
  Z.lor (Z.shiftl (Z.land s1 0x0f) 2) (Z.shiftr s2 6) = s1 mod 16 * 4 + s2 / 64.
Proof.
  intros [] []. change 15 with (Z.ones 4). rewrite Z.land_ones, Z.shiftr_div_pow2 by lia.
  apply (lor_shiftl_add _ _ 2); [lia|]. change (2 ^ 6) with 64. change (2 ^ 2) with 4. dlia.
Qed.
Lemma digit_d s2 : Z.land s2 0x3f = s2 mod 64.
Proof. apply (Z.land_ones s2 6). lia. Qed.
Lemma digit_b1 s0 : is_u_char s0 -> Z.shiftl (Z.land s0 3) 4 = s0 mod 4 * 16 + 0 / 16.
Proof. intros Hs. by_byte s0 Hs. Qed.
Lemma digit_c1 s1 : is_u_char s1 -> Z.shiftl (Z.land s1 0x0f) 2 = s1 mod 16 * 4 + 0 / 64.
Proof. intros Hs. by_byte s1 Hs. Qed.

(** The digits of a triple: 6 bits each. *)
Definition da (s0 : Z) : Z := b64 (s0 / 4).
Definition db (s0 s1 : Z) : Z := b64 (s0 mod 4 * 16 + s1 / 16).
Definition dc (s1 s2 : Z) : Z := b64 (s1 mod 16 * 4 + s2 / 64).
Definition dd (s2 : Z) : Z := b64 (s2 mod 64).

Lemma encode_triple s0 s1 s2 s :
  is_u_char s0 -> is_u_char s1 -> is_u_char s2 ->
  ngx_encode_base64 (s0 :: s1 :: s2 :: s) =
  da s0 :: db s0 s1 :: dc s1 s2 :: dd s2 :: ngx_encode_base64 s.
Proof.
  intros. cbn [ngx_encode_base64].
  by rewrite digit_a, digit_b, digit_c, digit_d by done.
Qed.

(** A byte put together from the bits of two digits. *)
Lemma byte_of_digits hi lo k c :
  0 <= k -> 0 <= lo < 2 ^ k -> is_u_char c -> (hi * 2 ^ k + lo) mod 2 ^ 8 = c ->
  u8 (Z.lor (Z.shiftl hi k) lo) = c.
Proof. intros. by rewrite lor_shiftl_add. Qed.

Lemma decode_byte0 s0 s1 :
  is_u_char s0 -> is_u_char s1 -> byte0 decode_basis (da s0) (db s0 s1) = s0.
Proof.
  intros [] []. unfold byte0, da, db.
  destruct (basis_b64 (s0 / 4)) as [-> _]; [dlia|].
  destruct (basis_b64 (s0 mod 4 * 16 + s1 / 16)) as [-> _]; [dlia|].
  rewrite Z.shiftr_div_pow2 by lia. change (2 ^ 4) with 16.
  apply byte_of_digits; [lia| |by split|]; change (2 ^ 2) with 4; change (2 ^ 8) with 256; dlia.
Qed.
Lemma decode_byte1 s0 s1 s2 :
  is_u_char s0 -> is_u_char s1 -> is_u_char s2 ->
  byte1 decode_basis (db s0 s1) (dc s1 s2) = s1.
Proof.
  intros [] [] []. unfold byte1, db, dc.
  destruct (basis_b64 (s0 mod 4 * 16 + s1 / 16)) as [-> _]; [dlia|].
  destruct (basis_b64 (s1 mod 16 * 4 + s2 / 64)) as [-> _]; [dlia|].
  rewrite Z.shiftr_div_pow2 by lia. change (2 ^ 2) with 4.
  apply byte_of_digits; [lia| |by split|]; change (2 ^ 4) with 16; change (2 ^ 8) with 256; dlia.
Qed.
Lemma decode_byte2 s1 s2 :
  is_u_char s1 -> is_u_char s2 -> byte2 decode_basis (dc s1 s2) (dd s2) = s2.
Proof.
  intros [] []. unfold byte2, dc, dd.
  destruct (basis_b64 (s1 mod 16 * 4 + s2 / 64)) as [-> _]; [dlia|].
  destruct (basis_b64 (s2 mod 64)) as [-> _]; [dlia|].
  apply byte_of_digits; [lia| |by split|]; change (2 ^ 6) with 64; change (2 ^ 8) with 256; dlia.
Qed.

(** What the encoder writes: valid digits, then the padding. *)
Lemma encode_shape s :
  Forall is_u_char s ->
  exists ds pad, ngx_encode_base64 s = ds ++ pad /\
    Forall (fun c => c <> "=" /\ at_ decode_basis c <> 77) ds /\
    (pad = [] \/ pad = ["="] \/ pad = ["="; "="]) /\ zlen ds mod 4 <> 1 /\
    decode_loop decode_basis ds = s.
Proof.
  assert (Hd : forall i, 0 <= i < 64 -> b64 i <> "=" /\ at_ decode_basis (b64 i) <> 77).
  { intros i Hi. destruct (basis_b64 i Hi) as [-> ?]. split; [done|lia]. }
  assert (Ha : forall s0, is_u_char s0 -> da s0 <> "=" /\ at_ decode_basis (da s0) <> 77)
    by (intros s0 []; apply Hd; dlia).
  assert (Hb : forall s0 s1, is_u_char s0 -> is_u_char s1 ->
    db s0 s1 <> "=" /\ at_ decode_basis (db s0 s1) <> 77) by (intros s0 s1 [] []; apply Hd; dlia).
  assert (Hc : forall s1 s2, is_u_char s1 -> is_u_char s2 ->
    dc s1 s2 <> "=" /\ at_ decode_basis (dc s1 s2) <> 77) by (intros s1 s2 [] []; apply Hd; dlia).
  assert (Hdd : forall s2, is_u_char s2 -> dd s2 <> "=" /\ at_ decode_basis (dd s2) <> 77)
    by (intros s2 []; apply Hd; dlia).
  assert (H0 : is_u_char 0) by (split; lia).
  induction s as [|a|a b|a b c s IH] using triple_ind; intros Hs.
  - exists [], []. by split_and!; auto.
  - apply Forall_cons in Hs as [Ua _]. exists [da a; db a 0], ["="; "="].
    split_and!; [|by auto|by auto|done|].
    + cbn [ngx_encode_base64 app]. by rewrite digit_a, digit_b1.
    + cbn [decode_loop]. by rewrite decode_byte0.
  - apply Forall_cons in Hs as [Ua [Ub _]%Forall_cons].
    exists [da a; db a b; dc b 0], ["="]. split_and!; [|by auto 6|by auto|done|].
    + cbn [ngx_encode_base64 app]. by rewrite digit_a, digit_b, digit_c1.
    + cbn [decode_loop]. by rewrite decode_byte0, decode_byte1.
  - apply Forall_cons in Hs as [Ua [Ub [Uc Hs]%Forall_cons]%Forall_cons].
    destruct (IH Hs) as (ds & pad & E & H1 & H2 & H3 & H4).
    exists (da a :: db a b :: dc b c :: dd c :: ds), pad. split_and!; [|auto 6|done| |].
    + by rewrite encode_triple, E.
    + rewrite !zlen_cons. replace (1 + (1 + (1 + (1 + zlen ds)))) with (zlen ds + 1 * 4) by lia.
      by rewrite Z.mod_add.
    + cbn [decode_loop]. by rewrite decode_byte0, decode_byte1, decode_byte2, H4.
Qed.

Lemma valid_length_shape basis n ds pad :
  Forall (fun c => c <> "=" /\ at_ basis c <> 77) ds ->
  (pad = [] \/ exists l, pad = "=" :: l) ->
  valid_length basis n (ds ++ pad) = Some (n + zlen ds).
Proof.
  intros Hds Hpad. revert n. induction Hds as [|c ds [H1 H2] _ IH]; intros n.
  - rewrite zlen_nil, Z.add_0_r. by destruct Hpad as [->|[l ->]].
  - cbn [app valid_length]. rewrite (proj2 (Z.eqb_neq c "=")) by done.
    rewrite (proj2 (Z.eqb_neq (at_ basis c) 77)) by done. rewrite IH, zlen_cons. f_equal. lia.
Qed.

(** C29: decoding what was encoded gives the bytes back, whatever they are, and the
    encoder writes exactly the number of bytes that its callers allocate for it. *)
Theorem base64_roundtrip (s : bytes) :
  Forall is_u_char s ->
  ngx_decode_base64 (ngx_encode_base64 s) = Some s /\
  zlen (ngx_encode_base64 s) = ngx_base64_encoded_length (zlen s).
Proof.
  intros Hs. split.
  - destruct (encode_shape s Hs) as (ds & pad & -> & Hds & Hpad & Hmod & Hdec).
    unfold ngx_decode_base64, ngx_decode_base64_internal.
    rewrite valid_length_shape; [|done|destruct Hpad as [-> | [-> | ->]]; eauto].
    rewrite Z.add_0_l, (proj2 (Z.eqb_neq _ 1)) by done.
    unfold zlen. by rewrite Nat2Z.id, take_app_length, Hdec.
  - clear Hs. induction s as [|a|a b|a b c s IH] using triple_ind; [done..|].
    cbn [ngx_encode_base64]. rewrite !zlen_cons, IH. unfold ngx_base64_encoded_length. dlia.
Qed.

Lemma valid_length_bad basis n ds c l :
  Forall (fun c => c <> "=" /\ at_ basis c <> 77) ds -> c <> "=" -> at_ basis c = 77 ->
  valid_length basis n (ds ++ c :: l) = None.
Proof.
  intros Hds Hc H77. revert n. induction Hds as [|d ds [H1 H2] _ IH]; intros n; cbn [app valid_length].
  - rewrite (proj2 (Z.eqb_neq c "=")) by done. by rewrite H77.
  - rewrite (proj2 (Z.eqb_neq d "=")) by done.
    rewrite (proj2 (Z.eqb_neq (at_ basis d) 77)) by done. apply IH.
Qed.

(** Induction by groups of four. *)
Lemma group_ind (P : bytes -> Prop) :
  P [] -> (forall a, P [a]) -> (forall a b, P [a; b]) -> (forall a b c, P [a; b; c]) ->
  (forall a b c d s, P s -> P (a :: b :: c :: d :: s)) -> forall s, P s.
Proof.
  intros H0 H1 H2 H3 H4 s.
  assert (H : P s /\ (forall a, P (a :: s)) /\ (forall a b, P (a :: b :: s)) /\
              forall a b c, P (a :: b :: c :: s)).
  { induction s as [|d s (I1 & I2 & I3 & I4)]; split_and!; auto. }
  apply H.
Qed.

Lemma decode_loop_length basis ds :
  zlen ds mod 4 <> 1 -> zlen (decode_loop basis ds) = zlen ds * 3 / 4.
Proof.
  induction ds as [|a|a b|a b c|a b c d s IH] using group_ind; intros Hm; try done.
  cbn [decode_loop]. rewrite !zlen_cons in *. rewrite IH; dlia.
Qed.

(** C30: what the decoders accept.  With either alphabet, the characters before the
    first "=" (or the end) must be digits, and their number not 1 modulo 4: then the
    result has three bytes for each four digits, no more than the callers allocate;
    otherwise the result is NGX_ERROR. *)
Theorem base64_decode_spec (basis ds rest : bytes) :
  Forall (fun c => c <> "=" /\ at_ basis c <> 77) ds ->
  (rest = [] \/ (exists l, rest = "=" :: l) ->
   if decide (zlen ds mod 4 = 1)
   then ngx_decode_base64_internal basis (ds ++ rest) = None
   else exists out, ngx_decode_base64_internal basis (ds ++ rest) = Some out /\
          zlen out = zlen ds * 3 / 4 /\
          zlen out <= ngx_base64_decoded_length (zlen (ds ++ rest))) /\
  (forall c l, rest = c :: l -> c <> "=" -> at_ basis c = 77 ->
   ngx_decode_base64_internal basis (ds ++ rest) = None).
Proof.
  intros Hds. unfold ngx_decode_base64_internal. split.
  - intros Hrest. rewrite valid_length_shape, Z.add_0_l by done. case_decide as Hm.
    + by rewrite Hm.
    + rewrite (proj2 (Z.eqb_neq _ 1)) by done. eexists. split; [reflexivity|].
      replace (take _ _) with ds by (unfold zlen; by rewrite Nat2Z.id, take_app_length).
      rewrite decode_loop_length by done. unfold ngx_base64_decoded_length.
      rewrite zlen_app. pose proof (zlen_nonneg rest). pose proof (zlen_nonneg ds).
      split; [done|]. dlia.
  - intros c l -> H1 H2. by rewrite valid_length_bad.
Qed.

Lemma base64_roundtrip_witness :
  ngx_decode_base64 (ngx_encode_base64 [0; 255; 16; 7]) = Some [0; 255; 16; 7].
Proof. apply (base64_roundtrip [0; 255; 16; 7]). by_decide. Defined.

Lemma base64_decode_spec_witness :
  ngx_decode_base64_internal decode_basis_url (bs "ab-_c" ++ []) = None /\
  ngx_decode_base64_internal decode_basis_url (bs "ab" ++ bs "+") = None.
Proof.
  destruct (base64_decode_spec decode_basis_url (bs "ab-_c") []) as [H1 _]; [by_decide|].
  destruct (base64_decode_spec decode_basis_url (bs "ab") (bs "+")) as [_ H2]; [by_decide|].
  split; [exact (H1 (or_introl eq_refl))|by apply (H2 "+" [])].
Defined.
