(* ===== verification/Utf8.v ===== *)
(** UTF-8 (src/core/ngx_string.c).  As in [CString], a pointer is the list of the bytes
    from it on. *)
From S2P Require Import Prelude CString.

(** The results of [ngx_utf8_decode] that are not characters. *)
Definition utf8_incomplete : Z := 0xfffffffe.
Definition utf8_error : Z := 0xffffffff.

(** [while (len) { i = *( *p)++; ... }]; the result has the pointer where the loop is
    left, and [None] for the return inside it. *)
Fixpoint utf8_continue (len : nat) (u : Z) (p : bytes) : option Z * bytes :=
  match len with
  | O => (Some u, p)
  | S len =>
      let i := ch_ p in
      let p := next_ p in
      if i <? 0x80 then (None, p)
      else utf8_continue len (u32 (Z.lor (Z.shiftl u 6) (Z.land i 0x3f))) p
  end.

(** [n] is a [size_t], and [n - 1] is computed in it. *)
Definition ngx_utf8_decode (p : bytes) (n : Z) : Z * bytes :=
  let u := ch_ p in
  let decode u valid len :=
    if u64 (n - 1) <? Z.of_nat len then (utf8_incomplete, p)
    else
      match utf8_continue len u (next_ p) with
      | (None, p) => (utf8_error, p)
      | (Some u, p) => (if valid <? u then u else utf8_error, p)
      end in
  if 0xf0 <=? u then decode (Z.land u 0x07) 0xffff 3%nat
  else if 0xe0 <=? u then decode (Z.land u 0x0f) 0x7ff 2%nat
  else if 0xc2 <=? u then decode (Z.land u 0x1f) 0x7f 1%nat
  else (utf8_error, next_ p).

(** [rest] is [last - p]; the decoder is given the whole length [n].  [None] when the
    fuel, one more than the bytes, runs out. *)
Fixpoint utf8_length_loop (fuel : nat) (p : bytes) (rest n len : Z) : option Z :=
  if negb (0 <? rest) then Some len
  else
    match fuel with
    | O => None
    | S fuel =>
        if ch_ p <? 0x80 then utf8_length_loop fuel (next_ p) (rest - 1) n (len + 1)
        else
          let '(c, p') := ngx_utf8_decode p n in
          if 0x10ffff <? c then Some n
          else utf8_length_loop fuel p' (rest - (zlen p - zlen p')) n (len + 1)
    end.

Definition ngx_utf8_length (p : bytes) (n : nat) : option Z :=
  utf8_length_loop n p (Z.of_nat n) (Z.of_nat n) 0.

(** The bytes written to [dst].  [n] is the number of characters that may still be
    written. *)
Fixpoint utf8_cpystrn_loop (n : nat) (src : bytes) (len : Z) : bytes :=
  match n with
  | O => [0]
  | S n =>
      let c := ch_ src in
      if c <? 0x80 then
        if negb (c =? 0) then c :: utf8_cpystrn_loop n (next_ src) (u64 (len - 1))
        else [c]
      else
        let '(u, next) := ngx_utf8_decode src len in
        if 0x10ffff <? u then [0]         (* [*dst = c] is overwritten *)
        else
          let k := (length src - length next)%nat in
          take k src ++ utf8_cpystrn_loop n next (u64 (len - Z.of_nat k))
  end.

Definition ngx_utf8_cpystrn (src : bytes) (n : nat) (len : Z) : bytes :=
  match n with
  | O => []
  | S n => utf8_cpystrn_loop n src len
  end.

(** ** The encoding *)

(** The standard encoding of a character. *)
Definition utf8_encode (c : Z) : bytes :=
  if c <? 0x80 then [c]
  else if c <? 0x800 then [0xc0 + c / 64; 0x80 + c mod 64]
  else if c <? 0x10000 then [0xe0 + c / 4096; 0x80 + c / 64 mod 64; 0x80 + c mod 64]
  else [0xf0 + c / 262144; 0x80 + c / 4096 mod 64; 0x80 + c / 64 mod 64; 0x80 + c mod 64].

Lemma utf8_continue_step len u i p :
  0 <= i < 64 -> 0 <= u < 67108864 ->
  utf8_continue (S len) u ((0x80 + i) :: p) = utf8_continue len (u * 64 + i) p.
Proof.
  intros Hi Hu. cbn [utf8_continue]. unfold ch_, next_. cbn [List.hd List.tl].
  replace (0x80 + i <? 0x80) with false by lia.
  assert (Hl : Z.land (0x80 + i) 0x3f = i).
  { change 63 with (Z.ones 6). rewrite Z.land_ones by lia. change (2 ^ 6) with 64.
    replace (128 + i) with (i + 2 * 64) by lia. rewrite Z.mod_add, Z.mod_small by lia. done. }
  rewrite Hl, lor_shiftl_add by (change (2 ^ 6) with 64; lia).
  unfold u32. rewrite Z.mod_small; [done|]. change (2 ^ 6) with 64. lia.
Qed.

Lemma land_low u k m : 0 <= m -> 0 <= u < 2 ^ m -> Z.land (k * 2 ^ m + u) (Z.ones m) = u.
Proof.
  intros Hm Hu. rewrite Z.land_ones by lia. rewrite Z.add_comm, Z.mod_add by lia.
  apply Z.mod_small. lia.
Qed.

(** A character of two bytes and more is decoded, and the pointer moved after it. *)
Lemma utf8_decode_encode c rest n :
  0x80 <= c <= 0x10ffff -> zlen (utf8_encode c) <= n < 2 ^ 64 ->
  ngx_utf8_decode (utf8_encode c ++ rest) n = (c, rest).
Proof.
  intros Hc. unfold utf8_encode. replace (c <? 0x80) with false by lia.
  destruct (Z.ltb_spec c 0x800); [|destruct (Z.ltb_spec c 0x10000)];
    rewrite !zlen_cons, zlen_nil; intros Hn;
    cbn [app]; unfold ngx_utf8_decode, ch_; cbn [List.hd].
  - replace (0xf0 <=? 0xc0 + c / 64) with false by dlia.
    replace (0xe0 <=? 0xc0 + c / 64) with false by dlia.
    replace (0xc2 <=? 0xc0 + c / 64) with true by dlia.
    rewrite u64_id by lia. rewrite (proj2 (Z.ltb_ge (n - 1) (Z.of_nat 1))) by lia.
    replace (Z.land (0xc0 + c / 64) 0x1f) with (c / 64)
      by (symmetry; apply (land_low (c / 64) 6 5); [lia|change (2 ^ 5) with 32; dlia]).
    unfold next_; cbn [List.tl]. rewrite utf8_continue_step by dlia.
    cbn [utf8_continue]. replace (c / 64 * 64 + c mod 64) with c by dlia.
    by replace (0x7f <? c) with true by lia.
  - replace (0xf0 <=? 0xe0 + c / 4096) with false by dlia.
    replace (0xe0 <=? 0xe0 + c / 4096) with true by dlia.
    rewrite u64_id by lia. rewrite (proj2 (Z.ltb_ge (n - 1) (Z.of_nat 2))) by lia.
    replace (Z.land (0xe0 + c / 4096) 0x0f) with (c / 4096)
      by (symmetry; apply (land_low (c / 4096) 14 4); [lia|change (2 ^ 4) with 16; dlia]).
    unfold next_; cbn [List.tl].
    rewrite !utf8_continue_step by dlia.
    cbn [utf8_continue].
    replace ((c / 4096 * 64 + c / 64 mod 64) * 64 + c mod 64) with c by dlia.
    by replace (0x7ff <? c) with true by lia.
  - replace (0xf0 <=? 0xf0 + c / 262144) with true by dlia.
    rewrite u64_id by lia. rewrite (proj2 (Z.ltb_ge (n - 1) (Z.of_nat 3))) by lia.
    replace (Z.land (0xf0 + c / 262144) 0x07) with (c / 262144)
      by (symmetry; apply (land_low (c / 262144) 30 3); [lia|change (2 ^ 3) with 8; dlia]).
    unfold next_; cbn [List.tl].
    rewrite !utf8_continue_step by dlia.
    cbn [utf8_continue].
    replace (((c / 262144 * 64 + c / 4096 mod 64) * 64 + c / 64 mod 64) * 64 + c mod 64)
      with c by dlia.
    by replace (0xffff <? c) with true by lia.
Qed.

Lemma utf8_continue_bound len u p c p' :
  0 <= u -> (u + 1) * 64 ^ Z.of_nat len <= 2 ^ 32 -> (len <= length p)%nat ->
  utf8_continue len u p = (Some c, p') ->
  0 <= c < (u + 1) * 64 ^ Z.of_nat len /\ p' = drop len p /\
  Forall (fun i => 0x80 <= i) (take len p).
Proof.
  revert u p. induction len as [|len IH]; intros u p Hu Hb Hp.
  - intros [= <- <-]. rewrite drop_0. split_and!; [lia|lia|done|constructor].
  - destruct p as [|i p]; [simpl in Hp; lia|]. cbn [utf8_continue].
    unfold ch_, next_. cbn [List.hd List.tl].
    destruct (Z.ltb_spec i 0x80); [done|].
    rewrite Nat2Z.inj_succ, Z.pow_succ_r in * by lia.
    pose proof (Z.pow_pos_nonneg 64 (Z.of_nat len) ltac:(lia) ltac:(lia)) as H64.
    change (Z.land i 63) with (Z.land i (Z.ones 6)). rewrite Z.land_ones by lia.
    change (2 ^ 6) with 64. pose proof (Z.mod_pos_bound i 64 ltac:(lia)) as Hm.
    rewrite lor_shiftl_add by (change (2 ^ 6) with 64; lia). change (2 ^ 6) with 64.
    unfold u32. rewrite Z.mod_small by nia. intros E.
    apply IH in E as (E1 & E2 & E3); [|lia|nia|simpl in Hp; lia].
    split_and!; [lia|nia|done|by constructor].
Qed.

(** The decoder.  It undoes the standard encoding of every character of two bytes
    and more, and moves the pointer right after it.  Whatever bytes it reads, a result
    up to 0x10ffff is at least 0x80, was read from as many bytes as its standard
    encoding has (no overlong form is taken) and no more than the length given, of
    which the first is not a continuation byte and the others are not ASCII. *)
Theorem utf8_decode_spec (p : bytes) (n : Z) :
  (forall c rest, p = utf8_encode c ++ rest -> 0x80 <= c <= 0x10ffff ->
     zlen (utf8_encode c) <= n < 2 ^ 64 -> ngx_utf8_decode p n = (c, rest)) /\
  (forall c p', Forall is_u_char p -> 1 <= n <= zlen p -> zlen p < 2 ^ 64 ->
     ngx_utf8_decode p n = (c, p') -> c <= 0x10ffff ->
     0x80 <= c /\ p' = drop (length (utf8_encode c)) p /\ zlen (utf8_encode c) <= n /\
     0xc2 <= ch_ p /\
     Forall (fun i => 0x80 <= i) (take (length (utf8_encode c) - 1) (next_ p))).
Proof.
  split; [intros c rest ->; by apply utf8_decode_encode|].
  intros c p' Hp Hn Hlen. unfold ngx_utf8_decode. rewrite u64_id by lia.
  destruct p as [|u p]; [unfold zlen in Hn; simpl in Hn; lia|].
  unfold ch_, next_. cbn [List.hd List.tl]. rewrite zlen_cons in Hn.
  apply Forall_cons in Hp as [Hu Hp].
  assert (Hcase : forall v m valid k r,
    0 <= v < m -> m * 64 ^ Z.of_nat k <= valid * 64 + 64 -> valid * 64 + 64 <= 2 ^ 32 ->
    0x80 <= valid + 1 -> 0xc2 <= u ->
    (forall x, valid < x < m * 64 ^ Z.of_nat k -> x <= 0x10ffff -> length (utf8_encode x) = S k) ->
    r = (if n - 1 <? Z.of_nat k then (utf8_incomplete, u :: p)
         else match utf8_continue k v p with
              | (None, p0) => (utf8_error, p0)
              | (Some u0, p0) => (if valid <? u0 then u0 else utf8_error, p0)
              end) ->
    r = (c, p') -> c <= 0x10ffff ->
    0x80 <= c /\ p' = drop (length (utf8_encode c)) (u :: p) /\ zlen (utf8_encode c) <= n /\
    0xc2 <= u /\ Forall (fun i => 0x80 <= i) (take (length (utf8_encode c) - 1) p)).
  { intros v m valid k r Hv Hm Hm' Hvalid Hu2 Henc -> E Hc.
    destruct (Z.ltb_spec (n - 1) (Z.of_nat k)) as [|Hk]; [injection E as <- _; done|].
    destruct (utf8_continue k v p) as [[x|] p0] eqn:Ex; [|injection E as <- _; done].
    destruct (Z.ltb_spec valid x); [|injection E as <- _; done]. injection E as <- <-.
    pose proof (Z.pow_pos_nonneg 64 (Z.of_nat k) ltac:(lia) ltac:(lia)) as H64.
    apply utf8_continue_bound in Ex as (Ex & -> & Hall);
      [|lia|nia|unfold zlen in Hn; lia].
    pose proof (Henc x ltac:(nia) Hc) as Hl. unfold zlen. rewrite Hl.
    split_and!; [lia|done|lia|done|]. by replace (S k - 1)%nat with k by lia. }
  assert (Hl4 : forall x, 0xffff < x -> length (utf8_encode x) = 4%nat).
  { intros x Hx. unfold utf8_encode. by repeat decide_if. }
  assert (Hl3 : forall x, 0x7ff < x < 0x10000 -> length (utf8_encode x) = 3%nat).
  { intros x Hx. unfold utf8_encode. by repeat decide_if. }
  assert (Hl2 : forall x, 0x7f < x < 0x800 -> length (utf8_encode x) = 2%nat).
  { intros x Hx. unfold utf8_encode. by repeat decide_if. }
  destruct (Z.leb_spec 0xf0 u); [|destruct (Z.leb_spec 0xe0 u); [|destruct (Z.leb_spec 0xc2 u)]].
  - intros E. eapply (Hcase (Z.land u 7) 8 0xffff 3%nat); [..|exact E]; try lia.
    + change 7 with (Z.ones 3). rewrite Z.land_ones by lia. apply Z.mod_pos_bound. lia.
    + intros x Hx _. apply Hl4. lia.
    + done.
  - intros E. eapply (Hcase (Z.land u 15) 16 0x7ff 2%nat); [..|exact E]; try lia.
    + change 15 with (Z.ones 4). rewrite Z.land_ones by lia. apply Z.mod_pos_bound. lia.
    + intros x Hx _. apply Hl3. lia.
    + done.
  - intros E. eapply (Hcase (Z.land u 31) 32 0x7f 1%nat); [..|exact E]; try lia.
    + change 31 with (Z.ones 5). rewrite Z.land_ones by lia. apply Z.mod_pos_bound. lia.
    + intros x Hx _. apply Hl2. lia.
    + done.
  - intros [= <- <-]. done.
Qed.

Lemma utf8_decode_spec_witness :
  ngx_utf8_decode [0xe2; 0x82; 0xac; 0x41] 4 = (0x20ac, [0x41]) /\ 0x80 <= 0x20ac.
Proof.
  destruct (utf8_decode_spec [0xe2; 0x82; 0xac; 0x41] 4) as [H1 H2].
  assert (E : ngx_utf8_decode [0xe2; 0x82; 0xac; 0x41] 4 = (0x20ac, [0x41]))
    by (apply H1; by_decide).
  split; [exact E|]. eapply H2; [by_decide|by_decide|by_decide|exact E|by_decide].
Defined.

(** Leading bytes from 0xf8 on and continuation bytes from 0xc0 on are taken. *)
Example utf8_decode_lenient :
  ngx_utf8_decode [0xf9; 0xc1; 0xc2; 0xff] 4 = (0x410bf, []).
Proof. vm_compute. reflexivity. Qed.

(** ** Strings *)

Definition utf8_chars (cs : list Z) : Prop := Forall (fun c => 0 < c <= 0x10ffff) cs.

Lemma utf8_encode_ascii c : c < 0x80 -> utf8_encode c = [c].
Proof. intros. unfold utf8_encode. by decide_if. Qed.

Lemma utf8_encode_head c rest :
  0x80 <= c -> 0x80 <= ch_ (utf8_encode c ++ rest).
Proof.
  intros Hc. unfold utf8_encode. decide_if.
  repeat case_match; cbn; dlia.
Qed.

Lemma utf8_encode_length c : (1 <= length (utf8_encode c))%nat.
Proof. unfold utf8_encode. repeat case_match; simpl; lia. Qed.

Lemma utf8_text_length cs : (length cs <= length (cs ≫= utf8_encode))%nat.
Proof.
  induction cs as [|c cs IH]; [done|]. cbn. rewrite length_app.
  pose proof (utf8_encode_length c). lia.
Qed.

Lemma utf8_length_loop_text cs after fuel n len :
  utf8_chars cs -> (length cs <= fuel)%nat ->
  zlen (cs ≫= utf8_encode) <= n < 2 ^ 64 ->
  utf8_length_loop fuel ((cs ≫= utf8_encode) ++ after) (zlen (cs ≫= utf8_encode)) n len =
  Some (len + zlen cs).
Proof.
  intros Hcs. revert fuel len. induction Hcs as [|c cs Hc Hcs IH]; intros fuel len Hf Hn.
  - cbn. rewrite Z.add_0_r. by destruct fuel.
  - destruct fuel as [|fuel]; [simpl in Hf; lia|]. cbn [mbind list_bind] in *.
    rewrite zlen_app in *. pose proof (utf8_encode_length c) as H1.
    pose proof (zlen_nonneg (cs ≫= utf8_encode)) as H0.
    pose proof (zlen_nonneg (utf8_encode c)) as Hz. rewrite <- app_assoc.
    cbn [utf8_length_loop]. simpl in Hf.
    rewrite (proj2 (Z.ltb_lt 0 _)) by (unfold zlen in *; lia). cbn [negb].
    rewrite (zlen_cons c). destruct (Z.lt_ge_cases c 0x80) as [Ha|Ha].
    + rewrite utf8_encode_ascii in * by done. cbn [app]. unfold ch_, next_. cbn [List.hd List.tl].
      rewrite (proj2 (Z.ltb_lt c 0x80)) by done.
      replace (zlen [c] + zlen (cs ≫= utf8_encode) - 1) with (zlen (cs ≫= utf8_encode))
        by (change (zlen [c]) with 1; lia).
      rewrite IH by (lia || (change (zlen [c]) with 1 in Hn; lia)). f_equal. lia.
    + rewrite (proj2 (Z.ltb_ge _ _)) by (by apply utf8_encode_head).
      rewrite utf8_decode_encode by lia. replace (0x10ffff <? c) with false by lia.
      replace (zlen _ + _ - (zlen (utf8_encode c ++ _) - zlen _)) with (zlen (cs ≫= utf8_encode))
        by (rewrite (zlen_app (utf8_encode c)); lia).
      rewrite IH by lia. f_equal. lia.
Qed.

Lemma utf8_cpystrn_loop_text cs k rest len :
  utf8_chars cs -> zlen (cs ≫= utf8_encode) <= len < 2 ^ 64 ->
  utf8_cpystrn_loop k ((cs ≫= utf8_encode) ++ 0 :: rest) len =
  (take k cs ≫= utf8_encode) ++ [0].
Proof.
  intros Hcs. revert k len. induction Hcs as [|c cs Hc Hcs IH]; intros k len Hl.
  - cbn. by destruct k.
  - destruct k as [|k]; [done|]. cbn [mbind list_bind take] in *.
    rewrite zlen_app in *. pose proof (utf8_encode_length c) as H1.
    pose proof (zlen_nonneg (cs ≫= utf8_encode)) as H0.
    pose proof (zlen_nonneg (utf8_encode c)) as Hz. rewrite <- !app_assoc.
    cbn [utf8_cpystrn_loop]. destruct (Z.lt_ge_cases c 0x80) as [Ha|Ha].
    + rewrite utf8_encode_ascii in * by done. cbn [app]. unfold ch_, next_. cbn [List.hd List.tl].
      rewrite (proj2 (Z.ltb_lt c 0x80)) by done.
      rewrite (proj2 (Z.eqb_neq c 0)) by lia. cbn [negb]. change (zlen [c]) with 1 in Hl.
      rewrite u64_id by lia. by rewrite IH by lia.
    + rewrite (proj2 (Z.ltb_ge _ _)) by (by apply utf8_encode_head).
      rewrite utf8_decode_encode by lia. replace (0x10ffff <? c) with false by lia.
      rewrite (length_app (utf8_encode c)). rewrite Nat.add_sub, take_app_length.
      fold (zlen (utf8_encode c)). rewrite u64_id by lia. by rewrite IH by lia.
Qed.

(** On a text of standard UTF-8, [ngx_utf8_length] is the number of its characters,
    and [ngx_utf8_cpystrn] copies the whole text, or its first [n] - 1 characters when it
    has more, and a NUL: a character is never cut. *)
Theorem utf8_text (cs : list Z) (rest : bytes) (n : nat) :
  utf8_chars cs -> zlen (cs ≫= utf8_encode) < 2 ^ 64 -> n <> O ->
  ngx_utf8_length ((cs ≫= utf8_encode) ++ rest) (length (cs ≫= utf8_encode)) = Some (zlen cs) /\
  ngx_utf8_cpystrn ((cs ≫= utf8_encode) ++ 0 :: rest) n (zlen (cs ≫= utf8_encode)) =
    (take (n - 1) cs ≫= utf8_encode) ++ [0].
Proof.
  intros Hcs Hl Hn. split.
  - unfold ngx_utf8_length. rewrite utf8_length_loop_text; [by rewrite Z.add_0_l|done| |].
    + apply utf8_text_length.
    + unfold zlen in *. lia.
  - destruct n as [|n]; [done|]. unfold ngx_utf8_cpystrn. rewrite Nat.sub_1_r. cbn [Nat.pred].
    apply utf8_cpystrn_loop_text; [done|lia].
Qed.

Lemma utf8_text_witness :
  ngx_utf8_length ([0x41; 0xe2; 0x82; 0xac] ++ [0xff]) 4 = Some 2 /\
  ngx_utf8_cpystrn ([0x41; 0xe2; 0x82; 0xac] ++ [0; 0xff]) 2 4 = [0x41; 0].
Proof. apply (utf8_text [0x41; 0x20ac] [0xff] 2); by_decide. Defined.

(** The decoder is told the length of the whole text: a character that the end of the
    text cuts is completed with what follows it in memory. *)
Example utf8_length_over_read :
  ngx_utf8_length ([0x41; 0xe2] ++ [0x82; 0xac]) 2 = Some 2.
Proof. vm_compute. reflexivity. Qed.
