(* ===== verification/Escape.v ===== *)
(** Escaping of URIs and of HTML (src/core/ngx_string.c): [ngx_escape_uri],
    [ngx_unescape_uri] and [ngx_escape_html]. *)
From S2P Require Import Prelude.

Definition NGX_ESCAPE_REFRESH : Z := 4.
Definition NGX_UNESCAPE_URI : Z := 1.
Definition NGX_UNESCAPE_REDIRECT : Z := 2.

Definition hex : bytes := bs "0123456789abcdef".

(** ** ngx_escape_uri *)

(** One bit per character, eight 32-bit words. *)
Definition uri : list Z :=
  [0xffffffff; 0x80000029; 0x00000000; 0x80000000;
   0xffffffff; 0xffffffff; 0xffffffff; 0xffffffff].
Definition args : list Z :=
  [0xffffffff; 0x88000869; 0x00000000; 0x80000000;
   0xffffffff; 0xffffffff; 0xffffffff; 0xffffffff].
Definition uri_component : list Z :=
  [0xffffffff; 0xfc009fff; 0x78000001; 0xb8000001;
   0xffffffff; 0xffffffff; 0xffffffff; 0xffffffff].
Definition html : list Z :=
  [0xffffffff; 0x000000ad; 0x00000000; 0x80000000;
   0xffffffff; 0xffffffff; 0xffffffff; 0xffffffff].
Definition refresh : list Z :=
  [0xffffffff; 0x00000085; 0x00000000; 0x80000000;
   0xffffffff; 0xffffffff; 0xffffffff; 0xffffffff].
Definition memcached : list Z :=
  [0xffffffff; 0x00000021; 0x00000000; 0x00000000;
   0x00000000; 0x00000000; 0x00000000; 0x00000000].

(** [map], indexed by the type of escaping. *)
Definition escape_map (type : Z) : list Z :=
  default [] ([uri; args; uri_component; html; refresh; memcached; memcached]
                !! Z.to_nat type).

(** [escape[*src >> 5] & (1 << ( *src & 0x1f))]. *)
Definition escaped (escape : list Z) (c : Z) : bool :=
  negb (Z.land (at_ escape (Z.shiftr c 5)) (Z.shiftl 1 (Z.land c 0x1f)) =? 0).

(** With [dst == NULL]: the number of the characters to be escaped. *)
Fixpoint escape_uri_count (escape : list Z) (n : Z) (src : bytes) : Z :=
  match src with
  | [] => n
  | c :: src => escape_uri_count escape (if escaped escape c then n + 1 else n) src
  end.

(** Otherwise: the bytes written to [dst]. *)
Fixpoint escape_uri_loop (escape : list Z) (src : bytes) : bytes :=
  match src with
  | [] => []
  | c :: src =>
      if escaped escape c
      then "%" :: at_ hex (Z.shiftr c 4) :: at_ hex (Z.land c 0xf) :: escape_uri_loop escape src
      else c :: escape_uri_loop escape src
  end.

Definition ngx_escape_uri_len (src : bytes) (type : Z) : Z :=
  escape_uri_count (escape_map type) 0 src.
Definition ngx_escape_uri (src : bytes) (type : Z) : bytes :=
  escape_uri_loop (escape_map type) src.

(** ** ngx_unescape_uri *)

Inductive un_state := sw_usual | sw_quoted | sw_quoted_second.

(** The bytes written to [*dst] so far, the state and [decoded]. *)
Record un := mk_un { un_out : bytes; un_st : un_state; un_decoded : Z }.
#[export] Instance rebuild_un : Rebuild un :=
  fun u => mk_un (un_out u) (un_st u) (un_decoded u).

Definition put (u : un) (l : bytes) : un := u <| un_out := un_out u ++ l |>.

(** [*d++ = '%'; *d++ = *(s - 2); *d++ = *(s - 1)], where [s = p + 1]. *)
Definition put_quoted (src : bytes) (u : un) (p : Z) : un :=
  put u ["%"; at_ src (p - 1); at_ src p].

Definition is_hex_letter (c : Z) : bool := ("a" <=? c) && (c <=? "f").

(** One turn of [while (size--)]: [ch] is the byte at [p]; at [done] the bytes
    written and the new [*src]. *)
Definition un_case_usual (type : Z) (u : un) (p ch : Z) : action un (bytes * Z) :=
  if (ch =? "?") && negb (Z.land type (Z.lor NGX_UNESCAPE_URI NGX_UNESCAPE_REDIRECT) =? 0)
  then Stop (un_out (put u [ch]), p + 1)
  else if ch =? "%" then Next (u <| un_st := sw_quoted |>)
  else Next (put u [ch]).

Definition un_case_quoted (u : un) (ch : Z) : action un (bytes * Z) :=
  if is_digit ch
  then Next (u <| un_decoded := u8 (ch - "0") |> <| un_st := sw_quoted_second |>)
  else
    let c := Z.lor ch 0x20 in
    if is_hex_letter c
    then Next (u <| un_decoded := u8 (c - "a" + 10) |> <| un_st := sw_quoted_second |>)
    else Next (put (u <| un_st := sw_usual |>) [ch]).

Definition un_case_second (type : Z) (src : bytes) (u : un) (p ch : Z) : action un (bytes * Z) :=
  let u := u <| un_st := sw_usual |> in
  if is_digit ch then
    let ch := u8 (Z.shiftl (un_decoded u) 4 + ch - "0") in
    if negb (Z.land type NGX_UNESCAPE_REDIRECT =? 0) then
      if ("%" <? ch) && (ch <? 0x7f) then Next (put u [ch])
      else Next (put_quoted src u p)
    else Next (put u [ch])
  else
    let c := Z.lor ch 0x20 in
    if is_hex_letter c then
      let ch := u8 (Z.shiftl (un_decoded u) 4 + c - "a" + 10) in
      if negb (Z.land type NGX_UNESCAPE_URI =? 0) then
        if ch =? "?" then Stop (un_out (put u [ch]), p + 1)
        else Next (put u [ch])
      else if negb (Z.land type NGX_UNESCAPE_REDIRECT =? 0) then
        if ch =? "?" then Stop (un_out (put u [ch]), p + 1)
        else if ("%" <? ch) && (ch <? 0x7f) then Next (put u [ch])
        else Next (put_quoted src u p)
      else Next (put u [ch])
    else Next u.

Definition un_step (type : Z) (src : bytes) (u : un) (p ch : Z) : action un (bytes * Z) :=
  match un_st u with
  | sw_usual => un_case_usual type u p ch
  | sw_quoted => un_case_quoted u ch
  | sw_quoted_second => un_case_second type src u p ch
  end.

(** The bytes written, and how far [*src] has advanced. *)
Definition ngx_unescape_uri (src : bytes) (type : Z) : bytes * Z :=
  match scan (un_step type src) (mk_un [] sw_usual 0) 0 src with
  | inl (u, p) => (un_out u, p)
  | inr r => r
  end.

(** ** ngx_escape_html *)

(** With [dst == NULL]: how much longer the text gets.  [sizeof] counts the
    terminator. *)
Fixpoint escape_html_len (len : Z) (src : bytes) : Z :=
  match src with
  | [] => len
  | c :: src =>
      escape_html_len
        (if c =? "<" then len + (5 - 2)
         else if c =? ">" then len + (5 - 2)
         else if c =? "&" then len + (6 - 2)
         else if c =? 34 then len + (7 - 2)
         else len) src
  end.

Fixpoint ngx_escape_html (src : bytes) : bytes :=
  match src with
  | [] => []
  | ch :: src =>
      (if ch =? "<" then ["&"; "l"; "t"; ";"]
       else if ch =? ">" then ["&"; "g"; "t"; ";"]
       else if ch =? "&" then ["&"; "a"; "m"; "p"; ";"]
       else if ch =? 34 then ["&"; "q"; "u"; "o"; "t"; ";"]
       else [ch]) ++ ngx_escape_html src
  end.

Definition ngx_escape_html_len (src : bytes) : Z := escape_html_len 0 src.

(** ** The tokens of an escaped text *)

Definition is_hex (c : Z) : bool := is_digit c || is_hex_letter (Z.lor c 0x20).
Definition hex_value (c : Z) : Z :=
  if is_digit c then c - "0" else Z.lor c 0x20 - "a" + 10.

(** Every text is a sequence of these: a character that is not quoted, a
    quoted character, and the two ways to quote badly, which swallow the "%". *)
Inductive token :=
  | Plain (c : Z)
  | Quoted (h1 h2 : Z)
  | BadFirst (c : Z)
  | BadSecond (h c : Z).

Definition token_text (t : token) : bytes :=
  match t with
  | Plain c => [c]
  | Quoted h1 h2 => ["%"; h1; h2]
  | BadFirst c => ["%"; c]
  | BadSecond h c => ["%"; h; c]
  end.

Definition token_wf (t : token) : Prop :=
  match t with
  | Plain c => c <> "%"
  | Quoted h1 h2 => is_u_char h1 /\ is_u_char h2 /\ is_hex h1 = true /\ is_hex h2 = true
  | BadFirst c => is_hex c = false
  | BadSecond h c => is_u_char h /\ is_hex h = true /\ is_hex c = false
  end.

Definition quoted_value (h1 h2 : Z) : Z := 16 * hex_value h1 + hex_value h2.

(** What [ngx_unescape_uri] writes for a token. *)
Definition token_out (type : Z) (t : token) : bytes :=
  match t with
  | Plain c => [c]
  | Quoted h1 h2 =>
      let v := quoted_value h1 h2 in
      if (type =? 2) && negb ((v =? "?") || (("%" <? v) && (v <? 0x7f)))
      then ["%"; h1; h2] else [v]
  | BadFirst c => [c]
  | BadSecond h c => []
  end.

(** A "?", quoted or not, ends the URI in a URI and in a redirect. *)
Definition token_stops (type : Z) (t : token) : bool :=
  negb (type =? 0) &&
  match t with
  | Plain c => c =? "?"
  | Quoted h1 h2 => quoted_value h1 h2 =? "?"
  | _ => false
  end.

Definition text (ts : list token) : bytes := ts ≫= token_text.

(** The specification: the output of the tokens up to the first that stops. *)
Fixpoint unescaped (type : Z) (ts : list token) : bytes :=
  match ts with
  | [] => []
  | t :: ts => token_out type t ++ (if token_stops type t then [] else unescaped type ts)
  end.

Fixpoint consumed (type : Z) (ts : list token) : option Z :=
  match ts with
  | [] => None
  | t :: ts =>
      if token_stops type t then Some (zlen (token_text t))
      else (Z.add (zlen (token_text t))) <$> consumed type ts
  end.

(** ** Unescaping a token *)

Definition known (type : Z) : Prop := type = 0 \/ type = 1 \/ type = 2.

(** All two-digit quotes, by evaluation: the digits make a byte, and only a
    letter can end the quote of "?". *)
Lemma hex_digit_facts h : is_u_char h -> is_hex h = true ->
  0 <= hex_value h < 16 /\
  (is_digit h = true -> u8 (h - "0") = hex_value h /\ hex_value h < 10) /\
  (is_digit h = false -> is_hex_letter (Z.lor h 0x20) = true /\
     u8 (Z.lor h 0x20 - "a" + 10) = hex_value h).
Proof.
  intros Hc. assert (H : (is_hex h = true ->
    0 <= hex_value h /\ hex_value h < 16 /\
    (is_digit h = true -> u8 (h - "0") = hex_value h /\ hex_value h < 10) /\
    (is_digit h = false -> is_hex_letter (Z.lor h 0x20) = true /\
       u8 (Z.lor h 0x20 - "a" + 10) = hex_value h))); [|tauto].
  by_byte h Hc.
Qed.

Lemma quoted_first type src out d p h : is_u_char h -> is_hex h = true ->
  un_step type src (mk_un out sw_quoted d) p h = Next (mk_un out sw_quoted_second (hex_value h)).
Proof.
  intros Hc Hh. destruct (hex_digit_facts h Hc Hh) as (_ & Hd & Hl).
  unfold un_step, un_case_quoted. cbn [un_st]. destruct (is_digit h) eqn:E.
  - destruct Hd as [-> _]; done.
  - cbv zeta. destruct Hl as [-> ->]; done.
Qed.

Lemma second_value d h : 0 <= d < 16 -> is_u_char h -> is_hex h = true ->
  let v := 16 * d + hex_value h in
  0 <= v < 256 /\
  if is_digit h then u8 (Z.shiftl d 4 + h - "0") = v /\ v <> "?"
  else is_hex_letter (Z.lor h 0x20) = true /\ u8 (Z.shiftl d 4 + Z.lor h 0x20 - "a" + 10) = v.
Proof.
  intros Hd0 Hc Hh. destruct (hex_digit_facts h Hc Hh) as (Hv & Hd & Hl). cbv zeta.
  rewrite Z.shiftl_mul_pow2 by lia. change (2 ^ 4) with 16.
  split; [lia|]. destruct (is_digit h) eqn:E.
  - destruct Hd as [_ H10]; [done|]. unfold hex_value in *. rewrite E in *.
    rewrite u8_id by (unfold is_u_char; lia). lia.
  - destruct Hl as [-> _]; [done|]. unfold hex_value in *. rewrite E in *.
    rewrite u8_id by (unfold is_u_char; lia). split; [done|lia].
Qed.

(** The three kinds of unescaping at the second digit. *)
Lemma quoted_second type src out h1 h2 p :
  known type -> token_wf (Quoted h1 h2) -> at_ src (p - 1) = h1 -> at_ src p = h2 ->
  un_step type src (mk_un out sw_quoted_second (hex_value h1)) p h2 =
  let u := mk_un (out ++ token_out type (Quoted h1 h2)) sw_usual (hex_value h1) in
  if token_stops type (Quoted h1 h2) then Stop (un_out u, p + 1) else Next u.
Proof.
  intros Hk (Hc1 & Hc2 & Hh1 & Hh2) H1 H2.
  destruct (hex_digit_facts h1 Hc1 Hh1) as (Hv1 & _).
  destruct (second_value _ h2 Hv1 Hc2 Hh2) as [Hr Hv].
  unfold un_step, un_case_second, put_quoted, put, update_field, token_out, token_stops, quoted_value.
  cbn [un_st un_decoded un_out]. rewrite H1, H2.
  destruct (is_digit h2) eqn:E.
  - destruct Hv as [-> Hq]. rewrite (proj2 (Z.eqb_neq _ "?")) by done.
    destruct Hk as [-> | [-> | ->]]; cbn; [done..|]. by destruct (_ && _).
  - destruct Hv as [-> ->]. destruct Hk as [-> | [-> | ->]]; cbn; [done|by split_if|].
    destruct (_ =? 63); [done|]. cbn. by destruct (_ <? _), (_ <? _).
Qed.

Lemma at_text pre l q : at_ (pre ++ l) (zlen pre + Z.of_nat q) = default 0 (l !! q).
Proof.
  unfold at_. rewrite rd_app_r by lia. unfold rd.
  rewrite (proj2 (Z.leb_le 0 _)) by lia. by rewrite Nat2Z.id.
Qed.

(** Scanning the text of one token. *)
Lemma scan_token type pre t rest out d :
  known type -> token_wf t ->
  let src := pre ++ token_text t ++ rest in
  exists d',
  scan (un_step type src) (mk_un out sw_usual d) (zlen pre) (token_text t ++ rest) =
  if token_stops type t
  then inr (out ++ token_out type t, zlen (pre ++ token_text t))
  else scan (un_step type src) (mk_un (out ++ token_out type t) sw_usual d')
         (zlen (pre ++ token_text t)) rest.
Proof.
  intros Hk Hw src. assert (Hq : (Z.land type 3 =? 0) = (type =? 0)) by
    by destruct Hk as [-> | [-> | ->]].
  destruct t as [c|h1 h2|c|h c]; cbn [token_text app].
  - exists d. rewrite zlen_app. simpl. unfold un_step, un_case_usual, token_stops. cbn [un_st].
    change (Z.lor NGX_UNESCAPE_URI NGX_UNESCAPE_REDIRECT) with 3. rewrite Hq.
    rewrite (andb_comm (negb (type =? 0))). destruct (_ && _); [done|].
    rewrite (proj2 (Z.eqb_neq c "%")) by done. done.
  - exists (hex_value h1). rewrite zlen_app. change (zlen ["%"; h1; h2]) with 3.
    pose proof Hw as (Hc1 & Hc2 & Hh1 & Hh2).
    erewrite scan_next by reflexivity. erewrite scan_next by by apply quoted_first.
    cbn [scan]. rewrite quoted_second; try done.
    + replace (_ + 1 + 1 + 1) with (zlen pre + 3) by lia. by destruct (token_stops _ _).
    + unfold src. replace (_ - 1) with (zlen pre + Z.of_nat 1) by lia. by rewrite at_text.
    + unfold src. replace (_ + 1 + 1) with (zlen pre + Z.of_nat 2) by lia. by rewrite at_text.
  - exists d. rewrite zlen_app. change (zlen ["%"; c]) with 2.
    assert (Hs : token_stops type (BadFirst c) = false) by apply andb_false_r. rewrite Hs.
    erewrite scan_next by reflexivity. cbn [token_wf] in Hw.
    apply orb_false_elim in Hw as [H1 H2].
    erewrite scan_next; [f_equal; lia|]. unfold un_step, un_case_quoted. cbn. by rewrite H1, H2.
  - exists (hex_value h). rewrite zlen_app. change (zlen ["%"; h; c]) with 3.
    assert (Hs : token_stops type (BadSecond h c) = false) by apply andb_false_r. rewrite Hs.
    destruct Hw as (Hc & Hh & Hw). apply orb_false_elim in Hw as [H1 H2].
    erewrite scan_next by reflexivity. erewrite scan_next by by apply quoted_first.
    cbn [token_out]. rewrite app_nil_r.
    erewrite scan_next; [f_equal; lia|]. unfold un_step, un_case_second. cbn. by rewrite H1, H2.
Qed.

(** A quote cut by the end of the text. *)
Definition tail_wf (tail : bytes) : Prop :=
  tail = [] \/ tail = ["%"] \/ exists h, is_u_char h /\ is_hex h = true /\ tail = ["%"; h].

Lemma scan_tokens type pre ts tail out d :
  known type -> Forall token_wf ts -> tail_wf tail ->
  let src := pre ++ text ts ++ tail in
  match scan (un_step type src) (mk_un out sw_usual d) (zlen pre) (text ts ++ tail) with
  | inl (u, p) => (un_out u, p)
  | inr r => r
  end =
  (out ++ unescaped type ts,
   zlen pre + default (zlen (text ts ++ tail)) (consumed type ts)).
Proof.
  intros Hk Hts Htail. revert pre out d. induction Hts as [|t ts Ht Hts IH]; intros pre out d.
  - cbn [text mbind list_bind app unescaped consumed default]. rewrite app_nil_r. cbv zeta.
    destruct Htail as [-> | [-> | (h & Hc & Hh & ->)]]; cbn [scan].
    + cbn. f_equal. autorewrite with zlen. lia.
    + reflexivity.
    + change (text [] ++ ["%"; h]) with ["%"; h]. cbn [scan].
      change (un_step _ _ (mk_un out sw_usual d) _ _) with
        (@Next un (bytes * Z) (mk_un out sw_quoted d)). cbv iota.
      rewrite quoted_first by done. autorewrite with zlen. cbn. f_equal. lia.
  - change (text (t :: ts)) with (token_text t ++ text ts). cbv zeta. rewrite <- !app_assoc.
    destruct (scan_token type pre t (text ts ++ tail) out d Hk Ht) as [d' ->].
    cbn [unescaped consumed]. destruct (token_stops type t).
    + rewrite app_nil_r. cbn [default]. by rewrite zlen_app.
    + specialize (IH (pre ++ token_text t) (out ++ token_out type t) d').
      cbv zeta in IH. rewrite <- !app_assoc in IH. rewrite IH. f_equal.
      destruct (consumed type ts); cbn; autorewrite with zlen; lia.
Qed.

Lemma ngx_unescape_uri_tokens type ts tail :
  known type -> Forall token_wf ts -> tail_wf tail ->
  ngx_unescape_uri (text ts ++ tail) type =
  (unescaped type ts, default (zlen (text ts ++ tail)) (consumed type ts)).
Proof.
  intros Hk Hts Ht. pose proof (scan_tokens type [] ts tail [] 0 Hk Hts Ht) as H.
  exact H.
Qed.

(** ** Escaping as tokens *)

(** The tables leave the bytes outside of [0..255] and, but for [refresh], no
    "%". *)
Definition escape_token (escape : list Z) (c : Z) : token :=
  if escaped escape c
  then Quoted (at_ hex (Z.shiftr c 4)) (at_ hex (Z.land c 0xf)) else Plain c.

Lemma hex_digits c : is_u_char c ->
  let h1 := at_ hex (Z.shiftr c 4) in
  let h2 := at_ hex (Z.land c 0xf) in
  (is_u_char h1 /\ is_u_char h2 /\ is_hex h1 = true /\ is_hex h2 = true) /\
  quoted_value h1 h2 = c.
Proof. intros Hc. cbv zeta. by_byte c Hc. Qed.

Lemma escape_uri_loop_tokens escape s :
  escape_uri_loop escape s = text (escape_token escape <$> s).
Proof.
  induction s as [|c s IH]; [done|]. cbn [escape_uri_loop]. rewrite IH.
  unfold escape_token. cbn. by destruct (escaped escape c).
Qed.

Lemma escape_uri_count_loop escape n s :
  zlen (escape_uri_loop escape s) = zlen s + 2 * (escape_uri_count escape n s - n).
Proof.
  revert n. induction s as [|c s IH]; intros n; cbn [escape_uri_loop escape_uri_count].
  - unfold zlen. simpl. lia.
  - destruct (escaped escape c); rewrite !zlen_cons; [rewrite (IH (n + 1))|rewrite (IH n)]; lia.
Qed.

Lemma escape_token_wf escape s :
  Forall is_u_char s -> escaped escape "%" = true ->
  Forall token_wf (escape_token escape <$> s).
Proof.
  intros Hs Hp. apply Forall_fmap. eapply Forall_impl; [exact Hs|]. intros c Hc.
  unfold compose, escape_token. destruct (escaped escape c) eqn:E.
  - apply (hex_digits c Hc).
  - simpl. congruence.
Qed.

Lemma unescaped_0 escape s :
  Forall is_u_char s -> unescaped 0 (escape_token escape <$> s) = s.
Proof.
  induction 1 as [|c s Hc Hs IH]; [done|]. cbn. rewrite IH. unfold escape_token.
  destruct (escaped escape c); [|done]. cbn. by destruct (hex_digits c Hc) as [_ ->].
Qed.

Lemma unescaped_1 escape s rest :
  Forall is_u_char s -> "?" ∉ s -> escaped escape "?" = true ->
  unescaped 1 (escape_token escape <$> s ++ "?" :: rest) = s ++ ["?"].
Proof.
  intros Hs Hn Hq. induction Hs as [|c s Hc Hs IH].
  - cbn. unfold escape_token. rewrite Hq. reflexivity.
  - apply not_elem_of_cons in Hn as [Hc1 Hn].
    change (_ <$> (c :: s) ++ _) with
      (escape_token escape c :: (escape_token escape <$> s ++ "?" :: rest)). cbn [unescaped].
    assert (Ht : token_stops 1 (escape_token escape c) = false /\
                 token_out 1 (escape_token escape c) = [c]).
    { unfold escape_token. destruct (escaped escape c); cbn;
        [destruct (hex_digits c Hc) as [_ ->]|]; split; try done; by apply Z.eqb_neq. }
    destruct Ht as [-> ->]. cbn. by rewrite IH.
Qed.

Lemma escape_map_percent type :
  0 <= type < 7 -> type <> NGX_ESCAPE_REFRESH -> escaped (escape_map type) "%" = true.
Proof.
  unfold NGX_ESCAPE_REFRESH. intros. assert (type = 0 \/ type = 1 \/ type = 2 \/ type = 3 \/
    type = 5 \/ type = 6) as Hcases by lia.
  by destruct Hcases as [-> | [-> | [-> | [-> | [-> | ->]]]]].
Qed.

(** C28: [ngx_unescape_uri], with the type 0, undoes [ngx_escape_uri] for every type of
    escaping but [NGX_ESCAPE_REFRESH], whose table leaves the "%" as it is; the first
    call, with a NULL destination, counts the escaped characters, so that two
    more bytes for each is exactly the room the second call needs.  A URI escaped with
    [NGX_ESCAPE_URI] and unescaped with [NGX_UNESCAPE_URI] is cut after its first "?". *)
Theorem escape_uri_roundtrip (s : bytes) (type : Z) :
  Forall is_u_char s -> 0 <= type < 7 -> type <> NGX_ESCAPE_REFRESH ->
  ngx_unescape_uri (ngx_escape_uri s type) 0 = (s, zlen (ngx_escape_uri s type)) /\
  zlen (ngx_escape_uri s type) = zlen s + 2 * ngx_escape_uri_len s type /\
  (forall l1 l2, s = l1 ++ "?" :: l2 -> "?" ∉ l1 -> type = 0 ->
   (ngx_unescape_uri (ngx_escape_uri s type) NGX_UNESCAPE_URI).1 = l1 ++ ["?"]).
Proof.
  intros Hs Hty Hr. pose proof (escape_map_percent type Hty Hr) as Hp.
  pose proof (escape_token_wf _ s Hs Hp) as Hw.
  unfold ngx_escape_uri, ngx_escape_uri_len. rewrite escape_uri_loop_tokens.
  assert (Hun : forall ty, known ty ->
    ngx_unescape_uri (text (escape_token (escape_map type) <$> s)) ty =
    (unescaped ty (escape_token (escape_map type) <$> s),
     default (zlen (text (escape_token (escape_map type) <$> s)))
       (consumed ty (escape_token (escape_map type) <$> s)))).
  { intros ty Hty'. pose proof (ngx_unescape_uri_tokens ty _ [] Hty' Hw) as H.
    rewrite app_nil_r in H. apply H. by left. }
  split_and!.
  - rewrite Hun by by left. rewrite unescaped_0 by done. f_equal.
    assert (Hc : forall ts, consumed 0 ts = None) by
      (intros ts; induction ts as [|t ts IH]; [done|]; cbn; by rewrite IH).
    by rewrite Hc.
  - rewrite <- escape_uri_loop_tokens, (escape_uri_count_loop _ 0). lia.
  - intros l1 l2 -> Hn ->. rewrite Hun by (right; by left). cbn [fst].
    apply unescaped_1; [|done|done]. by apply Forall_app in Hs as [Hs _].
Qed.

Lemma escape_uri_roundtrip_witness :
  ngx_unescape_uri (ngx_escape_uri (bs "/a b%?x") 0) 0 = (bs "/a b%?x", 13) /\
  ngx_escape_uri (bs "/a b%?x") 0 = bs "/a%20b%25%3fx".
Proof.
  split; [|reflexivity]. apply (escape_uri_roundtrip (bs "/a b%?x") 0); [by_decide|lia|done].
Defined.

(** The table of [NGX_ESCAPE_REFRESH] has no bit for the "%" its comment lists:
    an already escaped text passes through unchanged. *)
Example escape_refresh_percent :
  ngx_escape_uri (bs "%41") 4 = bs "%41" /\
  (ngx_unescape_uri (ngx_escape_uri (bs "%41") 4) 0).1 = bs "A".
Proof. by split. Qed.

(** The table of [NGX_ESCAPE_ARGS] has a bit for the ";" its comment omits. *)
Example escape_args_semicolon : ngx_escape_uri (bs "a;b") 1 = bs "a%3bb".
Proof. reflexivity. Qed.

(** [ngx_unescape_uri] on every text: plain characters are copied, a quoted
    character is decoded — except that in a redirect only the printable ones
    above the "%" are, the others keep their three bytes — a "%" before a
    character that is not a hexadecimal digit is dropped, "%" and one digit
    before such a character are dropped with it, and so is a quote cut by the end
    of the text.  In a URI and in a redirect the first "?", quoted or not, ends
    the output and the reading.  The output is never longer than the input, so
    unescaping in place is safe. *)
Theorem unescape_uri_spec (type : Z) (ts : list token) (tail : bytes) :
  known type -> Forall token_wf ts -> tail_wf tail ->
  ngx_unescape_uri (text ts ++ tail) type =
  (unescaped type ts, default (zlen (text ts ++ tail)) (consumed type ts)) /\
  zlen (unescaped type ts) <= default (zlen (text ts ++ tail)) (consumed type ts).
Proof.
  intros Hk Hts Ht. split; [by apply ngx_unescape_uri_tokens|]. clear Hts Hk.
  induction ts as [|t ts IH]; [apply zlen_nonneg|].
  change (text (t :: ts)) with (token_text t ++ text ts). rewrite <- app_assoc. cbn [unescaped consumed].
  assert (Hl : zlen (token_out type t) <= zlen (token_text t)).
  { destruct t; cbn [token_out token_text]; try split_if; unfold zlen; simpl; lia. }
  rewrite zlen_app. destruct (token_stops type t).
  - cbn. unfold zlen in *. simpl. lia.
  - destruct (consumed type ts); cbn in *; rewrite ?zlen_app in *; lia.
Qed.

Lemma unescape_uri_spec_witness :
  ngx_unescape_uri (bs "/%41%0A%zb%4gc?%3") 2 = (bs "/A%0Azbc?", 15) /\
  ngx_unescape_uri (bs "/%3f") 1 = (bs "/?", 4).
Proof.
  split.
  - apply (unescape_uri_spec 2
      [Plain "/"; Quoted "4" "1"; Quoted "0" "A"; BadFirst "z"; Plain "b"; BadSecond "4" "g";
       Plain "c"; Plain "?"] ["%"; "3"]); [by right; right| |].
    + repeat constructor; done.
    + right; right. by exists "3".
  - apply (unescape_uri_spec 1 [Plain "/"; Quoted "3" "f"] []); [by right; left| |by left].
    repeat constructor; done.
Defined.

(** ** Escaping of HTML *)

(** The specification: what a browser reads back. *)
Fixpoint html_read (fuel : nat) (l : bytes) : bytes :=
  match fuel, l with
  | S fuel, c :: l =>
      if c =? "&" then
        if bytes_eqb (take 3 l) (bs "lt;") then "<" :: html_read fuel (drop 3 l)
        else if bytes_eqb (take 3 l) (bs "gt;") then ">" :: html_read fuel (drop 3 l)
        else if bytes_eqb (take 4 l) (bs "amp;") then "&" :: html_read fuel (drop 4 l)
        else if bytes_eqb (take 5 l) (bs "quot;") then 34 :: html_read fuel (drop 5 l)
        else c :: html_read fuel l
      else c :: html_read fuel l
  | _, _ => []
  end.

(** The four characters of HTML that are escaped. *)
Definition html_special (c : Z) : Prop := c = "<" \/ c = ">" \/ c = "&" \/ c = 34.

Lemma html_cases c :
  html_special c \/
  (c <> "<" /\ c <> ">" /\ c <> "&" /\ c <> 34 /\
   forall s, ngx_escape_html (c :: s) = c :: ngx_escape_html s).
Proof.
  unfold html_special. destruct (Z.eqb_spec c "<"), (Z.eqb_spec c ">"), (Z.eqb_spec c "&"),
    (Z.eqb_spec c 34); try tauto.
  right. split_and!; try done. intros s. cbn [ngx_escape_html].
  by rewrite !(proj2 (Z.eqb_neq c _)).
Qed.

Lemma html_read_escape s fuel :
  (length (ngx_escape_html s) <= fuel)%nat -> html_read fuel (ngx_escape_html s) = s.
Proof.
  revert fuel. induction s as [|c s IH]; intros fuel Hf; [by destruct fuel|].
  destruct (html_cases c) as [[-> | [-> | [-> | ->]]]|(H1 & H2 & H3 & H4 & He)].
  1-4: cbn in Hf; (destruct fuel as [|fuel]; [lia|]); cbn; f_equal; apply IH; lia.
  rewrite He in *. cbn in Hf. destruct fuel as [|fuel]; [lia|]. cbn [html_read].
  rewrite (proj2 (Z.eqb_neq c "&")) by done. rewrite IH by lia. done.
Qed.

Lemma escape_html_len_shift n s : escape_html_len n s = n + escape_html_len 0 s.
Proof.
  revert n. induction s as [|c s IH]; intros n; cbn [escape_html_len]; [lia|].
  rewrite IH. rewrite (IH (if c =? "<" then _ else _)). repeat split_if; lia.
Qed.

(** The text written by [ngx_escape_html] has none of the characters that
    open a tag or end an attribute, a browser reads it back as the original text,
    and it is longer by exactly what the first call, with a NULL destination,
    announces. *)
Theorem escape_html_spec (s : bytes) :
  Forall (fun c => c <> "<" /\ c <> ">" /\ c <> 34) (ngx_escape_html s) /\
  html_read (length (ngx_escape_html s)) (ngx_escape_html s) = s /\
  zlen (ngx_escape_html s) = zlen s + ngx_escape_html_len s.
Proof.
  split_and!; [|by apply html_read_escape|].
  - induction s as [|c s IH]; [constructor|].
    destruct (html_cases c) as [[-> | [-> | [-> | ->]]]|(H1 & H2 & H3 & H4 & He)].
    1-4: cbn; repeat (constructor; [done|]); exact IH.
    rewrite He. by constructor.
  - unfold ngx_escape_html_len. induction s as [|c s IH]; [done|].
    cbn [ngx_escape_html escape_html_len]. rewrite escape_html_len_shift, zlen_app, IH.
    repeat split_if; unfold zlen; cbn; lia.
Qed.
