(* ===== verification/Memory.v ===== *)
(** The memory of the linked structures (queues, trees): objects are addresses,
    their members are cells; programs are functions from heaps to heaps that fail
    on a cell that does not exist.  Assertions about heaps form a separation logic
    for the Iris proof mode, with weakest preconditions that guarantee that the
    program returns and leaves the rest of the memory alone. *)
From S2P Require Import Prelude.
From stdpp Require Export gmap sorting.
From iris.bi Require Export bi.
From iris.proofmode Require Export proofmode.
From iris.proofmode Require Import environments reduction.

#[global] Close Scope chr_scope.
#[global] Open Scope Z_scope.

(** ** Heaps and programs *)

(** The members of the structures ([ngx_rbtree_node_t], [ngx_rbtree_t],
    [ngx_queue_t], [ngx_event_t]); [value] is that of a global variable. *)
Inductive field :=
  | left | right | parent | color | key | root | sentinel | prev | next | timer_set
  | timedout | handler | value.

#[export] Instance field_eq_dec : EqDecision field.
Proof. solve_decision. Defined.

Definition field_to_nat (f : field) : nat :=
  match f with
  | left => 0 | right => 1 | parent => 2 | color => 3 | key => 4 | root => 5
  | sentinel => 6 | prev => 7 | next => 8 | timer_set => 9 | timedout => 10
  | handler => 11 | value => 12
  end%nat.
Definition field_of_nat (n : nat) : option field :=
  [left; right; parent; color; key; root; sentinel; prev; next; timer_set; timedout;
   handler; value] !! n.

#[export] Program Instance field_countable : Countable field :=
  inj_countable field_to_nat field_of_nat _.
Next Obligation. by intros []. Qed.

(** A pointer is an integer; the member [f] of the object at [p] is the cell
    [(p, f)]. *)
Definition NULL : Z := 0.
Abbreviation heap := (gmap (Z * field) Z).

(** [None]: a cell that is not there was touched, or the fuel of a loop ran out. *)
Definition M (A : Type) : Type := heap -> option (A * heap).

#[export] Instance M_ret : MRet M := fun A a h => Some (a, h).
#[export] Instance M_bind : MBind M :=
  fun A B (k : A -> M B) (m : M A) h =>
    match m h with Some (a, h') => k a h' | None => None end.

(** [p->f] and [p->f = v]. *)
Definition load (p : Z) (f : field) : M Z :=
  fun h => v ← h !! (p, f); Some (v, h).
Definition store (p : Z) (f : field) (v : Z) : M unit :=
  fun h => _ ← h !! (p, f); Some (tt, <[(p, f) := v]> h).

(** A loop that did not finish. *)
Definition stuck {A} : M A := fun _ => None.

Declare Scope mem_scope.
Delimit Scope mem_scope with mem.
Notation "p ⟶ f" := (load p f) (at level 40, f at level 9, format "p ⟶ f") : mem_scope.
Notation "p ⟶ f ::= v" := (store p f v) (at level 40, f at level 9, v at level 70) : mem_scope.
#[global] Open Scope mem_scope.

(** ** Assertions *)

(** An assertion holds of a heap and of all larger ones. *)
Record hProp := HProp {
  holds :> heap -> Prop;
  holds_mono h1 h2 : h1 ⊆ h2 -> holds h1 -> holds h2
}.
Arguments HProp _%_type_scope _.
Add Printing Constructor hProp.
Bind Scope bi_scope with hProp.

Section Ofe.
Inductive hProp_equiv' (P Q : hProp) : Prop :=
  { hProp_in_equiv : forall h, P h <-> Q h }.

#[local] Instance hProp_equiv : Equiv hProp := hProp_equiv'.
#[local] Instance hProp_equivalence : Equivalence (≡@{hProp}).
Proof.
  split.
  - intros P. by split.
  - intros P Q [H]. split. intros h. by rewrite H.
  - intros P Q R [H1] [H2]. split. intros h. by rewrite H1 H2.
Qed.
Canonical Structure hPropO := discreteO hProp.
End Ofe.

Inductive hProp_entails (P Q : hProp) : Prop :=
  { hProp_in_entails : forall h, P h -> Q h }.

(** Two heaps with no common cell, put together. *)
Definition splits (h h1 h2 : heap) : Prop := h1 ##ₘ h2 /\ h = h1 ∪ h2.

Lemma splits_extend h h1 h2 h' :
  splits h h1 h2 -> h ⊆ h' -> exists h2', h2 ⊆ h2' /\ splits h' h1 h2'.
Proof.
  intros [Hd ->] Hs. exists (h' ∖ h1).
  pose proof (map_union_subseteq_l h1 h2) as H1.
  pose proof (map_union_subseteq_r h1 h2 Hd) as H2.
  assert (Hs1 : h1 ⊆ h') by (by etrans). split.
  - apply map_subseteq_spec. intros i x Hi. apply lookup_difference_Some. split.
    + eapply lookup_weaken; [|exact Hs]. by eapply lookup_weaken.
    + by eapply map_disjoint_Some_r.
  - split; [by apply map_disjoint_difference_r1|].
    symmetry. by apply map_difference_union.
Qed.

Program Definition hProp_emp : hProp := {| holds h := True |}.
Next Obligation. done. Qed.
Program Definition hProp_pure (φ : Prop) : hProp := {| holds h := φ |}.
Next Obligation. done. Qed.
Program Definition hProp_and (P Q : hProp) : hProp := {| holds h := P h /\ Q h |}.
Next Obligation. intros P Q h1 h2 Hs [HP HQ]. split; by eapply holds_mono. Qed.
Program Definition hProp_or (P Q : hProp) : hProp := {| holds h := P h \/ Q h |}.
Next Obligation.
  intros P Q h1 h2 Hs H. destruct H as [H|H].
  - left. by eapply holds_mono.
  - right. by eapply holds_mono.
Qed.
Program Definition hProp_impl (P Q : hProp) : hProp :=
  {| holds h := forall h', h ⊆ h' -> P h' -> Q h' |}.
Next Obligation. intros P Q h1 h2 Hs H h' Hh'. apply H. by etrans. Qed.
Program Definition hProp_forall {A} (Ψ : A -> hProp) : hProp :=
  {| holds h := forall a, Ψ a h |}.
Next Obligation. intros A Ψ h1 h2 Hs H a. by eapply holds_mono. Qed.
Program Definition hProp_exist {A} (Ψ : A -> hProp) : hProp :=
  {| holds h := exists a, Ψ a h |}.
Next Obligation. intros A Ψ h1 h2 Hs [a H]. exists a. by eapply holds_mono. Qed.
Program Definition hProp_sep (P Q : hProp) : hProp :=
  {| holds h := exists h1 h2, splits h h1 h2 /\ P h1 /\ Q h2 |}.
Next Obligation.
  intros P Q h h' Hs (h1 & h2 & Hsp & HP & HQ).
  destruct (splits_extend _ _ _ _ Hsp Hs) as (h2' & Hs2 & Hsp').
  exists h1, h2'. split_and!; [done|done|]. by eapply holds_mono.
Qed.
Program Definition hProp_wand (P Q : hProp) : hProp :=
  {| holds h := forall h1, h ##ₘ h1 -> P h1 -> Q (h ∪ h1) |}.
Next Obligation.
  intros P Q h h' Hs H h1 Hd HP. eapply holds_mono; [|apply H; [|exact HP]].
  - apply map_union_mono_r; [done|done].
  - by eapply map_disjoint_weaken_l.
Qed.
Program Definition hProp_persistently (P : hProp) : hProp :=
  hProp_pure (hProp_entails hProp_emp P).
Definition hProp_later (P : hProp) : hProp := P.

Lemma splits_comm h h1 h2 : splits h h1 h2 -> splits h h2 h1.
Proof. intros [Hd ->]. split; [done|]. by apply map_union_comm. Qed.

Lemma splits_assoc h h12 h1 h2 h3 :
  splits h h12 h3 -> splits h12 h1 h2 -> splits h h1 (h2 ∪ h3) /\ splits (h2 ∪ h3) h2 h3.
Proof.
  intros [Hd ->] [Hd2 ->]. apply map_disjoint_union_l in Hd as [H1 H2].
  split; [split|by split].
  - by apply map_disjoint_union_r_2.
  - symmetry. apply map_union_assoc.
Qed.

Section Mixins.
#[local] Existing Instance hProp_equiv.

Lemma hProp_bi_mixin :
  BiMixin (PROP := hProp) hProp_entails hProp_emp hProp_pure hProp_and hProp_or hProp_impl
    (@hProp_forall) (@hProp_exist) hProp_sep hProp_wand.
Proof.
  split.
  - split; [by intros P; split|]. intros P Q R [H1] [H2]. split. eauto.
  - intros P Q. split.
    + intros [H]. split; split; intros h; apply H.
    + intros [[H1] [H2]]. split. intros h. split; eauto.
  - intros n φ1 φ2 Hφ. split. intros h. exact Hφ.
  - intros n P P' [HP] Q Q' [HQ]. split. intros h. simpl. by rewrite HP HQ.
  - intros n P P' [HP] Q Q' [HQ]. split. intros h. simpl. by rewrite HP HQ.
  - intros n P P' [HP] Q Q' [HQ]. split. intros h. simpl. by setoid_rewrite HP; setoid_rewrite HQ.
  - intros A n Ψ Ψ' H. split. intros h. split; intros Ha a; by apply (H a).
  - intros A n Ψ Ψ' H. split. intros h. split; intros [a Ha]; exists a; by apply (H a).
  - intros n P P' [HP] Q Q' [HQ]. split. intros h. simpl. by setoid_rewrite HP; setoid_rewrite HQ.
  - intros n P P' [HP] Q Q' [HQ]. split. intros h. simpl. by setoid_rewrite HP; setoid_rewrite HQ.
  - intros φ P Hφ. by split.
  - intros φ P H. split. intros h Hφ. by apply H.
  - intros P Q. split. by intros h [? ?].
  - intros P Q. split. by intros h [? ?].
  - intros P Q R [H1] [H2]. split. intros h HP. split; auto.
  - intros P Q. split. by left.
  - intros P Q. split. by right.
  - intros P Q R [H1] [H2]. split. intros h [?|?]; auto.
  - intros P Q R [H]. split. intros h HP h' Hs HQ. apply H. split; [by eapply holds_mono|done].
  - intros P Q R [H]. split. intros h [HP HQ]. by eapply H.
  - intros A P Ψ H. split. intros h HP a. by apply H.
  - intros A Ψ a. split. intros h H. apply H.
  - intros A Ψ a. split. intros h H. by exists a.
  - intros A Φ Q H. split. intros h [a Ha]. by apply (H a).
  - intros P P' Q Q' [HP] [HQ]. split. intros h (h1 & h2 & Hs & H1 & H2).
    exists h1, h2. split_and!; auto.
  - intros P. split. intros h HP. exists ∅, h. split_and!; [|done|done].
    split; [apply map_disjoint_empty_l|by rewrite left_id_L].
  - intros P. split. intros h (h1 & h2 & [Hd ->] & _ & HP).
    eapply holds_mono; [|done]. by apply map_union_subseteq_r.
  - intros P Q. split. intros h (h1 & h2 & Hs & HP & HQ). exists h2, h1.
    split_and!; [by apply splits_comm|done|done].
  - intros P Q R. split. intros h (h12 & h3 & Hs & (h1 & h2 & Hs' & HP & HQ) & HR).
    destruct (splits_assoc _ _ _ _ _ Hs Hs') as [Ha Hb].
    exists h1, (h2 ∪ h3). split_and!; [done|done|]. exists h2, h3. by split_and!.
  - intros P Q R [H]. split. intros h HP h1 Hd HQ. apply H. exists h, h1. by split_and!.
  - intros P Q R [H]. split. intros h (h1 & h2 & [Hd ->] & HP & HQ). by apply H.
Qed.

Lemma hProp_bi_persistently_mixin :
  BiPersistentlyMixin (PROP := hProp) hProp_entails hProp_emp hProp_and
    (@hProp_exist) hProp_sep hProp_persistently.
Proof.
  eapply bi_persistently_mixin_discrete, hProp_bi_mixin; [done| |done].
  intros A Φ [H]. destruct (H ∅) as [x Hx]; [done|]. exists x. split. intros h _.
  eapply holds_mono; [|exact Hx]. apply map_empty_subseteq.
Qed.

Lemma hProp_bi_later_mixin :
  BiLaterMixin (PROP := hProp) hProp_entails hProp_pure hProp_or hProp_impl
    (@hProp_forall) (@hProp_exist) hProp_sep hProp_persistently hProp_later.
Proof. eapply bi_later_mixin_id, hProp_bi_mixin. done. Qed.
End Mixins.

Canonical Structure hPropI : bi :=
  {| bi_ofe_mixin := ofe_mixin_of hProp; bi_bi_mixin := hProp_bi_mixin;
     bi_bi_persistently_mixin := hProp_bi_persistently_mixin;
     bi_bi_later_mixin := hProp_bi_later_mixin |}.

#[export] Instance hProp_affine : BiAffine hPropI.
Proof. intros P. by split. Qed.
#[export] Instance hProp_pure_forall : BiPureForall hPropI.
Proof. intros A φ. split. done. Qed.

Lemma holds_entails (P Q : hProp) h : (P ⊢ Q) -> P h -> Q h.
Proof. intros [H]. apply H. Qed.

Lemma holds_pure_sep φ (P : hProp) h : (⌜φ⌝ ∗ P)%I h -> φ /\ P h.
Proof.
  intros (h1 & h2 & [Hd ->] & Hφ & HP). split; [exact Hφ|].
  eapply holds_mono; [|exact HP]. by apply map_union_subseteq_r.
Qed.

(** ** Cells *)

Program Definition cell (p : Z) (f : field) (v : Z) : hProp :=
  {| holds h := h !! (p, f) = Some v |}.
Next Obligation. intros p f v h1 h2 Hs H. exact (lookup_weaken _ _ _ _ H Hs). Qed.

Notation "p ⟶ f ↦ v" := (cell p f v)
  (at level 40, f at level 9, v at level 70, format "p ⟶ f  ↦  v") : bi_scope.

Lemma cell_excl p f v w : (p⟶f ↦ v)%I -∗ (p⟶f ↦ w)%I -∗ False.
Proof.
  iIntros "H1 H2". iCombine "H1 H2" as "H". iStopProof. split.
  intros h (h1 & h2 & [Hd ->] & H1 & H2). simpl in *. by eapply map_disjoint_spec.
Qed.

(** ** Weakest preconditions *)

(** Started in a heap with the cells [h] and any others, the program returns; it
    leaves the others as they are, and neither makes nor loses a cell. *)
Program Definition wp {A} (m : M A) (Φ : A -> hProp) : hProp :=
  {| holds h := forall hf, h ##ₘ hf ->
       exists a h', m (h ∪ hf) = Some (a, h' ∪ hf) /\ h' ##ₘ hf /\ dom h' = dom h /\ Φ a h' |}.
Next Obligation.
  intros A m Φ h1 h2 Hs H hf Hd.
  assert (exists hd, h2 = h1 ∪ hd /\ h1 ##ₘ hd) as (hd & -> & Hd1).
  { exists (h2 ∖ h1). rewrite map_difference_union //. split; [done|].
    by apply map_disjoint_difference_r1. }
  apply map_disjoint_union_l in Hd as [Hd2 Hd3].
  destruct (H (hd ∪ hf)) as (a & h' & Hm & Hd' & Hdom & HΦ).
  { by apply map_disjoint_union_r_2. }
  apply map_disjoint_union_r in Hd' as [Hd4 Hd5].
  exists a, (h' ∪ hd). split_and!.
  - by rewrite -!map_union_assoc.
  - by apply map_disjoint_union_l.
  - by rewrite !dom_union_L Hdom.
  - eapply holds_mono; [|exact HΦ]. apply map_union_subseteq_l.
Qed.

Section Rules.
Context {A B : Type}.
Implicit Types (m : M A) (k : A -> M B).

Lemma wp_ret (a : A) (Φ : A -> hProp) : Φ a ⊢ wp (mret a) Φ.
Proof. split. intros h H hf Hd. by exists a, h. Qed.

Lemma wp_bind m k (Φ : B -> hProp) : wp m (fun a => wp (k a) Φ) ⊢ wp (m ≫= k) Φ.
Proof.
  split. intros h H hf Hd. destruct (H hf Hd) as (a & h1 & Hm & Hd1 & Hdom1 & H1).
  destruct (H1 hf Hd1) as (b & h2 & Hk & Hd2 & Hdom2 & HΦ).
  exists b, h2. split_and!; [|done|congruence|done].
  unfold mbind, M_bind. by rewrite Hm.
Qed.

Lemma wp_wand m (Φ Ψ : A -> hProp) : wp m Φ -∗ (∀ a, Φ a -∗ Ψ a) -∗ wp m Ψ.
Proof.
  iIntros "H1 H2". iCombine "H1 H2" as "H". iStopProof. split.
  intros h (h1 & h2 & [Hd ->] & H1 & H2) hf Hdf. apply map_disjoint_union_l in Hdf as [Hd1 Hd2].
  destruct (H1 (h2 ∪ hf)) as (a & h' & Hm & Hd' & Hdom & HΦ).
  { by apply map_disjoint_union_r_2. }
  apply map_disjoint_union_r in Hd' as [Hd3 Hd4].
  exists a, (h' ∪ h2). split_and!.
  - by rewrite -!map_union_assoc.
  - by apply map_disjoint_union_l.
  - by rewrite !dom_union_L Hdom.
  - rewrite map_union_comm //. apply H2; done.
Qed.
End Rules.

Lemma wp_load p f v Φ : (p⟶f ↦ v)%I -∗ ((p⟶f ↦ v)%I -∗ Φ v) -∗ wp (p⟶f) Φ.
Proof.
  iIntros "H1 H2". iCombine "H1 H2" as "H". iStopProof. split.
  intros h (h1 & h2 & [Hd ->] & H1 & H2) hf Hdf. simpl in H1.
  exists v, (h1 ∪ h2). split_and!; [|done|done|].
  - unfold load. rewrite (lookup_union_Some_l _ _ _ v) //. by apply lookup_union_Some_l.
  - rewrite map_union_comm //. by apply H2.
Qed.

Lemma wp_store p f v w Φ : (p⟶f ↦ v)%I -∗ ((p⟶f ↦ w)%I -∗ Φ tt) -∗ wp (p⟶f ::= w) Φ.
Proof.
  iIntros "H1 H2". iCombine "H1 H2" as "H". iStopProof. split.
  intros h (h1 & h2 & [Hd ->] & H1 & H2) hf Hdf. simpl in H1.
  assert (Hl : (h1 ∪ h2 ∪ hf) !! (p, f) = Some v).
  { apply lookup_union_Some_l. by apply lookup_union_Some_l. }
  assert (Hd' : <[(p, f) := w]> h1 ##ₘ h2).
  { apply map_disjoint_insert_l_2; [|done]. by eapply map_disjoint_Some_l. }
  exists tt, (<[(p, f) := w]> (h1 ∪ h2)). split_and!.
  - unfold store. rewrite Hl. simpl. by rewrite insert_union_l.
  - apply map_disjoint_insert_l_2; [|done]. eapply map_disjoint_Some_l; [exact Hdf|].
    by apply lookup_union_Some_l.
  - rewrite dom_insert_lookup_L //. exists v. by apply lookup_union_Some_l.
  - rewrite insert_union_l map_union_comm //. apply H2; [by symmetry|].
    apply lookup_insert_eq.
Qed.

(** What a triple says of the program: run in any heap that has the cells of the
    precondition, it returns, with the cells of the postcondition in their place. *)
Definition triple {A} (P : hProp) (m : M A) (Q : A -> hProp) : Prop :=
  forall h hf, h ##ₘ hf -> P h ->
  exists a h', m (h ∪ hf) = Some (a, h' ∪ hf) /\ h' ##ₘ hf /\ dom h' = dom h /\ Q a h'.

Lemma wp_triple {A} P (m : M A) Q : (P ⊢ wp m Q) -> triple P m Q.
Proof. intros [H] h hf Hd HP. exact (H h HP hf Hd). Qed.

Lemma triple_run {A} P (m : M A) Q h :
  triple P m Q -> P h -> exists a h', m h = Some (a, h') /\ dom h' = dom h /\ Q a h'.
Proof.
  intros Ht HP. destruct (Ht h ∅) as (a & h' & Hm & Hd & Hdom & HQ); [|done|].
  { apply map_disjoint_empty_r. }
  exists a, h'. rewrite !right_id_L in Hm. done.
Qed.

(** ** Symbolic execution *)

Section Tactics.
Context {A B : Type}.

Lemma tac_wp_bind Δ (m : M A) (k : A -> M B) Φ :
  envs_entails Δ (wp m (fun a => wp (k a) Φ)) -> envs_entails Δ (wp (m ≫= k) Φ).
Proof. rewrite envs_entails_unseal => H. by rewrite -wp_bind. Qed.

Lemma tac_wp_ret Δ (a : A) (Φ : A -> hProp) :
  envs_entails Δ (Φ a) -> envs_entails Δ (wp (mret a) Φ).
Proof. rewrite envs_entails_unseal => H. by rewrite -wp_ret. Qed.
End Tactics.

Lemma tac_wp_load Δ i p f v Φ :
  envs_lookup i Δ = Some (false, cell p f v) ->
  envs_entails Δ (Φ v) -> envs_entails Δ (wp (p⟶f) Φ).
Proof.
  rewrite envs_entails_unseal => Hi HΦ. rewrite envs_lookup_split //= HΦ.
  iIntros "[H1 H2]". by iApply (wp_load with "H1").
Qed.

Lemma tac_wp_store Δ i p f v w Φ :
  envs_lookup i Δ = Some (false, cell p f v) ->
  match envs_simple_replace i false (Esnoc Enil i (cell p f w)) Δ with
  | Some Δ' => envs_entails Δ' (Φ tt)
  | None => False
  end -> envs_entails Δ (wp (p⟶f ::= w) Φ).
Proof.
  rewrite envs_entails_unseal => Hi HΦ.
  destruct (envs_simple_replace _ _ _) as [Δ'|] eqn:E; [|done].
  rewrite envs_simple_replace_sound //=. iIntros "[H1 H2]". iApply (wp_store with "H1").
  iIntros "H1". iApply HΦ. iApply "H2". by iFrame.
Qed.

(** One access, or one value; [wp_go] runs as far as the known cells allow. *)
Ltac wp_unbind :=
  repeat lazymatch goal with
  | |- envs_entails _ (wp (_ ≫= _) _) => apply tac_wp_bind
  end.
Ltac wp_step :=
  wp_unbind;
  lazymatch goal with
  | |- envs_entails _ (wp (load _ _) _) =>
      eapply tac_wp_load; [iAssumptionCore|]; cbv beta
  | |- envs_entails _ (wp (store _ _ _) _) =>
      eapply tac_wp_store; [iAssumptionCore|]; pm_reduce; cbv beta
  | |- envs_entails _ (wp (mret _) _) => apply tac_wp_ret; cbv beta
  end.

(** The conditions of the code that compare pointers and colors: decided by what is
    known of them. *)
Ltac decide_test :=
  match goal with
  | |- context [Z.eqb ?x ?x] => rewrite (Z.eqb_refl x)
  | |- context [Z.eqb ?x ?y] =>
      let H := fresh in
      assert (H : x <> y) by first [done | congruence | lia];
      rewrite (proj2 (Z.eqb_neq x y) H); clear H
  end; cbn [negb andb orb].
Ltac wp_go := repeat first [wp_step | decide_test].

(** Assertions that say that pointers differ. *)
Lemma cell_neq p q f v w : (p⟶f ↦ v)%I -∗ (q⟶f ↦ w)%I -∗ ⌜p <> q⌝.
Proof.
  iIntros "H1 H2" (->). iApply (cell_excl with "H1 H2").
Qed.

(** Objects that own the same member are different. *)
Lemma cells_nodup f l : ([∗ list] a ∈ l, ∃ v, a⟶f ↦ v) -∗ ⌜NoDup l⌝.
Proof.
  induction l as [|a l IH]; [iIntros; iPureIntro; constructor|].
  iIntros "[(%n & Ha) Hl]". iAssert ⌜a ∉ l⌝%I as %Hn.
  { iIntros (Hin). apply list_elem_of_lookup in Hin as [i Hi].
    iDestruct (big_sepL_lookup with "Hl") as (n') "Hn"; [exact Hi|].
    iApply (cell_excl with "Ha Hn"). }
  iDestruct (IH with "Hl") as %Hd. iPureIntro. by constructor.
Qed.

(** ** Concrete heaps *)

Definition heap_of (l : list (Z * field * Z)) : heap := list_to_map l.
Definition cells (l : list (Z * field * Z)) : hProp :=
  [∗ list] c ∈ l, cell c.1.1 c.1.2 c.2.

Lemma cells_heap l : NoDup l.*1 -> cells l (heap_of l).
Proof.
  induction l as [|[[p f] v] l IH]; intros Hd; [done|].
  cbn [fmap list_fmap fst] in Hd. apply NoDup_cons in Hd as [Hn Hd].
  change (cells ((p, f, v) :: l)) with (cell p f v ∗ cells l)%I.
  unfold heap_of. cbn [list_to_map foldr fst snd].
  exists {[(p, f) := v]}, (heap_of l).
  assert (Hl : heap_of l !! (p, f) = None) by by apply not_elem_of_list_to_map_1.
  split_and!; [|by apply lookup_singleton_eq|by apply IH].
  split; [by apply map_disjoint_singleton_l|]. by rewrite -insert_union_singleton_l.
Qed.
