(* ===== verification/Queue.v ===== *)
(** The doubly linked lists of src/core/ngx_queue.h and src/core/ngx_queue.c. *)
From S2P Require Import Prelude Memory.

(** ** The operations *)

Definition ngx_queue_init (q : Z) : M unit :=
  q⟶prev ::= q;; q⟶next ::= q.

Definition ngx_queue_empty (h : Z) : M bool :=
  p ← h⟶prev; mret (h =? p).

Definition ngx_queue_insert_head (h x : Z) : M unit :=
  n ← h⟶next;
  x⟶next ::= n;;
  n ← x⟶next;
  n⟶prev ::= x;;
  x⟶prev ::= h;;
  h⟶next ::= x.

Definition ngx_queue_insert_after := ngx_queue_insert_head.

Definition ngx_queue_insert_tail (h x : Z) : M unit :=
  p ← h⟶prev;
  x⟶prev ::= p;;
  p ← x⟶prev;
  p⟶next ::= x;;
  x⟶next ::= h;;
  h⟶prev ::= x.

Definition ngx_queue_head (h : Z) : M Z := h⟶next.
Definition ngx_queue_last (h : Z) : M Z := h⟶prev.
Definition ngx_queue_sentinel (h : Z) : Z := h.
Definition ngx_queue_next (q : Z) : M Z := q⟶next.
Definition ngx_queue_prev (q : Z) : M Z := q⟶prev.

(** Not the NGX_DEBUG version, which also clears the links of [x]. *)
Definition ngx_queue_remove (x : Z) : M unit :=
  n ← x⟶next; p ← x⟶prev;
  n⟶prev ::= p;;
  p ← x⟶prev; n ← x⟶next;
  p⟶next ::= n.

Definition ngx_queue_split (h q n : Z) : M unit :=
  p ← h⟶prev;
  n⟶prev ::= p;;
  p ← n⟶prev;
  p⟶next ::= n;;
  n⟶next ::= q;;
  p ← q⟶prev;
  h⟶prev ::= p;;
  p ← h⟶prev;
  p⟶next ::= h;;
  q⟶prev ::= n.

Definition ngx_queue_add (h n : Z) : M unit :=
  p ← h⟶prev; f ← n⟶next;
  p⟶next ::= f;;
  f ← n⟶next; p ← h⟶prev;
  f⟶prev ::= p;;
  p ← n⟶prev;
  h⟶prev ::= p;;
  p ← h⟶prev;
  p⟶next ::= h.

(** The loop [for ( ;; )] of [ngx_queue_middle]. *)
Fixpoint middle_loop (fuel : nat) (queue middle next : Z) : M Z :=
  match fuel with
  | O => stuck
  | S fuel =>
      middle ← ngx_queue_next middle;
      next ← ngx_queue_next next;
      last ← ngx_queue_last queue;
      if next =? last then mret middle
      else
        next ← ngx_queue_next next;
        last ← ngx_queue_last queue;
        if next =? last then mret middle
        else middle_loop fuel queue middle next
  end.

Definition ngx_queue_middle (fuel : nat) (queue : Z) : M Z :=
  middle ← ngx_queue_head queue;
  last ← ngx_queue_last queue;
  if middle =? last then mret middle
  else
    next ← ngx_queue_head queue;
    middle_loop fuel queue middle next.

Section Sort.
Context (cmp : Z -> Z -> Z).

(** The [do .. while] loop: the place of [q], from [prev] backwards. *)
Fixpoint sort_place (fuel : nat) (queue prev q : Z) : M Z :=
  match fuel with
  | O => stuck
  | S fuel =>
      if cmp prev q <=? 0 then mret prev
      else
        prev ← ngx_queue_prev prev;
        if negb (prev =? ngx_queue_sentinel queue) then sort_place fuel queue prev q
        else mret prev
  end.

(** The [for] loop: [fuel] bounds both loops. *)
Fixpoint sort_loop (fuel : nat) (queue q : Z) : M unit :=
  match fuel with
  | O => stuck
  | S fuel' =>
      if negb (q =? ngx_queue_sentinel queue) then
        prev ← ngx_queue_prev q;
        next ← ngx_queue_next q;
        ngx_queue_remove q;;
        prev ← sort_place fuel queue prev q;
        ngx_queue_insert_after prev q;;
        sort_loop fuel' queue next
      else mret tt
  end.

Definition ngx_queue_sort (fuel : nat) (queue : Z) : M unit :=
  q ← ngx_queue_head queue;
  last ← ngx_queue_last queue;
  if q =? last then mret tt
  else
    q ← ngx_queue_next q;
    sort_loop fuel queue q.
End Sort.

(** ** Rings *)

(** [a->next == b] and [b->prev == a]. *)
Definition edge (a b : Z) : hProp := a⟶next ↦ b ∗ b⟶prev ↦ a.

Fixpoint chain (l : list Z) : hProp :=
  match l with
  | a :: (b :: _) as l => edge a b ∗ chain l
  | _ => emp
  end.

(** The queue with the container [h] and the elements [xs], in order. *)
Definition queue (h : Z) (xs : list Z) : hProp := chain (h :: xs ++ [h]).

(** An element that is in no queue: its links have any values. *)
Definition unlinked (x : Z) : hProp := ∃ p n, x⟶prev ↦ p ∗ x⟶next ↦ n.

Lemma chain_cons a b l : chain (a :: b :: l) = (edge a b ∗ chain (b :: l))%I.
Proof. done. Qed.

Lemma chain_cut l1 p l2 : chain (l1 ++ p :: l2) ⊣⊢ chain (l1 ++ [p]) ∗ chain (p :: l2).
Proof.
  induction l1 as [|a [|b l1] IH]; cbn [app].
  - by rewrite left_id.
  - rewrite !chain_cons. by rewrite right_id.
  - cbn [app] in IH. by rewrite !chain_cons IH assoc.
Qed.

Lemma chain_edge l1 p n l2 :
  chain ((l1 ++ [p]) ++ n :: l2) ⊣⊢ chain (l1 ++ [p]) ∗ edge p n ∗ chain (n :: l2).
Proof. rewrite -app_assoc /= chain_cut chain_cons. done. Qed.

Lemma chain_last q ys l e n :
  q :: ys = l ++ [e] -> chain (q :: ys ++ [n]) ⊣⊢ chain (l ++ [e]) ∗ edge e n.
Proof.
  intros H. replace (q :: ys ++ [n]) with ((l ++ [e]) ++ [n]) by (by rewrite -H).
  rewrite chain_edge. cbn [chain]. by rewrite right_id.
Qed.

(** The element before and the element after any place of a ring. *)
Lemma ring_before (h : Z) xs : exists l p, h :: xs = l ++ [p].
Proof. destruct (exists_last (l := h :: xs)) as (l & p & ->); [done|]. by exists l, p. Qed.
Lemma ring_after (ys : list Z) (h : Z) : exists n l, ys ++ [h] = n :: l.
Proof. destruct ys as [|n ys]; [by exists h, []|]. by exists n, (ys ++ [h]). Qed.

Lemma queue_gap h xs ys l p n l' :
  h :: xs = l ++ [p] -> ys ++ [h] = n :: l' ->
  queue h (xs ++ ys) ⊣⊢ chain (l ++ [p]) ∗ edge p n ∗ chain (n :: l').
Proof.
  intros H1 H2. unfold queue.
  replace (h :: (xs ++ ys) ++ [h]) with ((l ++ [p]) ++ n :: l'); [apply chain_edge|].
  by rewrite -H1 -H2 /= app_assoc.
Qed.

Lemma queue_elem h xs x ys l p n l' :
  h :: xs = l ++ [p] -> ys ++ [h] = n :: l' ->
  queue h (xs ++ x :: ys) ⊣⊢
  chain (l ++ [p]) ∗ (edge p x ∗ edge x n) ∗ chain (n :: l').
Proof.
  intros H1 H2. rewrite (queue_gap h xs (x :: ys) l p x (n :: l')); [|done|by rewrite /= H2].
  by rewrite chain_cons !assoc.
Qed.

(** ** The operations on two edges *)

Lemma remove_edges p x n (Φ : unit -> hProp) :
  edge p x -∗ edge x n -∗ (edge p n -∗ unlinked x -∗ Φ tt) -∗ wp (ngx_queue_remove x) Φ.
Proof.
  iIntros "[Hp Hx] [Hx' Hn] HΦ". unfold ngx_queue_remove. wp_go.
  iApply ("HΦ" with "[$Hp $Hn]"). iExists p, n. iFrame.
Qed.

Lemma insert_after_edges p x n (Φ : unit -> hProp) :
  edge p n -∗ unlinked x -∗ (edge p x -∗ edge x n -∗ Φ tt) -∗ wp (ngx_queue_insert_after p x) Φ.
Proof.
  iIntros "[Hp Hn] (%p0 & %n0 & Hx & Hx') HΦ".
  unfold ngx_queue_insert_after, ngx_queue_insert_head. wp_go.
  iApply ("HΦ" with "[$Hp $Hx] [$Hx' $Hn]").
Qed.

Lemma insert_tail_edges p x h (Φ : unit -> hProp) :
  edge p h -∗ unlinked x -∗ (edge p x -∗ edge x h -∗ Φ tt) -∗ wp (ngx_queue_insert_tail h x) Φ.
Proof.
  iIntros "[Hp Hn] (%p0 & %n0 & Hx & Hx') HΦ". unfold ngx_queue_insert_tail. wp_go.
  iApply ("HΦ" with "[$Hp $Hx] [$Hx' $Hn]").
Qed.

(** ** The operations on queues *)

Lemma ngx_queue_remove_spec h xs x ys :
  queue h (xs ++ x :: ys) ⊢ wp (ngx_queue_remove x) (fun _ => queue h (xs ++ ys) ∗ unlinked x)%I.
Proof.
  destruct (ring_before h xs) as (l & p & H1), (ring_after ys h) as (n & l' & H2).
  rewrite (queue_elem _ _ _ _ _ _ _ _ H1 H2). iIntros "(Hl & [He1 He2] & Hr)".
  iApply (remove_edges with "He1 He2"). iIntros "He Hx". iFrame "Hx".
  rewrite (queue_gap _ _ _ _ _ _ _ H1 H2). iFrame.
Qed.

(** Insertion after the element [p] of a queue, or after its container. *)
Lemma ngx_queue_insert_after_spec h xs x ys l p :
  h :: xs = l ++ [p] ->
  queue h (xs ++ ys) ∗ unlinked x ⊢
  wp (ngx_queue_insert_after p x) (fun _ => queue h (xs ++ x :: ys)).
Proof.
  intros H1. destruct (ring_after ys h) as (n & l' & H2).
  rewrite (queue_gap _ _ _ _ _ _ _ H1 H2). iIntros "[(Hl & He & Hr) Hx]".
  iApply (insert_after_edges with "He Hx"). iIntros "He1 He2".
  rewrite (queue_elem _ _ _ _ _ _ _ _ H1 H2). iFrame.
Qed.

Lemma ngx_queue_insert_tail_spec h xs x :
  queue h xs ∗ unlinked x ⊢ wp (ngx_queue_insert_tail h x) (fun _ => queue h (xs ++ [x])).
Proof.
  destruct (ring_before h xs) as (l & p & H1).
  pose proof (queue_gap h xs [] l p h [] H1 eq_refl) as Hq. rewrite app_nil_r in Hq.
  rewrite Hq. iIntros "[(Hl & He & Hr) Hx]".
  iApply (insert_tail_edges with "He Hx"). iIntros "He1 He2".
  rewrite (queue_elem h xs x [] l p h [] H1 eq_refl). iFrame.
Qed.

Lemma ngx_queue_split_spec h xs q ys n :
  queue h (xs ++ q :: ys) ∗ unlinked n ⊢
  wp (ngx_queue_split h q n) (fun _ => queue h xs ∗ queue n (q :: ys))%I.
Proof.
  destruct (ring_before h xs) as (l & p & H1), (ring_before q ys) as (l' & e & H2).
  rewrite (queue_gap h xs (q :: ys) l p q (ys ++ [h]) H1 eq_refl).
  replace (q :: ys ++ [h]) with ((l' ++ [e]) ++ [h]) by (by rewrite -H2).
  rewrite chain_edge. iIntros "[(Hl & [Hp Hq] & Hr & [He Hh] & _) (%p0 & %n0 & Hn & Hn')]".
  unfold ngx_queue_split. wp_go. iSplitL "Hl Hp Hh".
  - pose proof (queue_gap h xs [] l p h [] H1 eq_refl) as Hx. rewrite app_nil_r in Hx.
    rewrite Hx. iFrame.
  - unfold queue. cbn [app]. rewrite chain_cons.
    rewrite (chain_last _ _ _ _ _ H2). iFrame.
Qed.

Lemma ngx_queue_add_spec h xs n ys :
  queue h xs ∗ queue n ys ⊢
  wp (ngx_queue_add h n) (fun _ => queue h (xs ++ ys) ∗ unlinked n)%I.
Proof.
  destruct (ring_before h xs) as (l & p & H1).
  pose proof (queue_gap h xs [] l p h [] H1 eq_refl) as Hx. rewrite app_nil_r in Hx.
  rewrite {1}Hx. iIntros "[(Hl & [Hp Hh] & _) Hn]". unfold ngx_queue_add.
  destruct ys as [|f ys].
  - iDestruct "Hn" as "[[Hn Hn'] _]". wp_go.
    rewrite app_nil_r Hx. iFrame.
  - destruct (ring_before f ys) as (l' & e & H2).
    unfold queue at 1. cbn [app]. rewrite chain_cons (chain_last _ _ _ _ _ H2).
    iDestruct "Hn" as "([Hn Hf] & Hr & [He Hn'])". wp_go.
    rewrite (queue_gap h xs (f :: ys) l p f (ys ++ [h]) H1 eq_refl).
    rewrite (chain_last _ _ _ _ _ H2). iFrame.
Qed.

(** ** Walking a queue *)

Section Walk.
Context (h : Z).
Implicit Types Φ : Z -> hProp.

Lemma queue_next_spec xs x ys Φ :
  queue h (xs ++ x :: ys) -∗ (queue h (xs ++ x :: ys) -∗ Φ (List.hd h ys)) -∗
  wp (ngx_queue_next x) Φ.
Proof.
  destruct (ring_before h xs) as (l & p & H1), (ring_after ys h) as (n & l' & H2).
  rewrite (queue_elem _ _ _ _ _ _ _ _ H1 H2). iIntros "(Hl & [He1 [Hn Hp]] & Hr) HΦ".
  replace (List.hd h ys) with n by (by destruct ys; injection H2).
  unfold ngx_queue_next. wp_go. iApply "HΦ". iFrame.
Qed.

Lemma queue_prev_spec xs x ys Φ :
  queue h (xs ++ x :: ys) -∗ (queue h (xs ++ x :: ys) -∗ Φ (List.last xs h)) -∗
  wp (ngx_queue_prev x) Φ.
Proof.
  destruct (ring_before h xs) as (l & p & H1), (ring_after ys h) as (n & l' & H2).
  rewrite (queue_elem _ _ _ _ _ _ _ _ H1 H2). iIntros "(Hl & [[Hp Hx] He2] & Hr) HΦ".
  replace (List.last xs h) with p.
  - unfold ngx_queue_prev. wp_go. iApply "HΦ". iFrame.
  - pose proof (List.last_last l p h) as Hp. rewrite -H1 in Hp.
    by destruct xs.
Qed.

Lemma queue_head_spec xs Φ :
  queue h xs -∗ (queue h xs -∗ Φ (List.hd h xs)) -∗ wp (ngx_queue_head h) Φ.
Proof.
  destruct (ring_after xs h) as (n & l' & H2).
  rewrite (queue_gap h [] xs [] h n l' eq_refl H2). iIntros "(Hl & [Hh Hn] & Hr) HΦ".
  replace (List.hd h xs) with n by (by destruct xs; injection H2).
  unfold ngx_queue_head. wp_go. iApply "HΦ". iFrame.
Qed.

Lemma queue_last_spec xs Φ :
  queue h xs -∗ (queue h xs -∗ Φ (List.last xs h)) -∗ wp (ngx_queue_last h) Φ.
Proof.
  destruct (ring_before h xs) as (l & p & H1).
  pose proof (queue_gap h xs [] l p h [] H1 eq_refl) as Hx. rewrite app_nil_r in Hx.
  rewrite Hx. iIntros "(Hl & [Hp Hh] & Hr) HΦ".
  replace (List.last xs h) with p.
  - unfold ngx_queue_last. wp_go. iApply "HΦ". iFrame.
  - pose proof (List.last_last l p h) as Hp. rewrite -H1 in Hp.
    by destruct xs.
Qed.
End Walk.

(** The elements of a chain, but the last, own their [next] cells. *)
Lemma chain_next l x : chain (l ++ [x]) -∗ [∗ list] a ∈ l, ∃ n, a⟶next ↦ n.
Proof.
  induction l as [|a l IH]; [by iIntros|]. destruct (ring_after l x) as (n & l' & H).
  cbn [app]. rewrite H chain_cons -H. iIntros "[[Ha _] Hl]".
  iSplitL "Ha"; [by iExists n|]. by iApply IH.
Qed.

Lemma queue_nodup h xs : queue h xs -∗ ⌜NoDup (h :: xs)⌝.
Proof.
  iIntros "H". iApply (cells_nodup next). iApply (chain_next (h :: xs) h). iExact "H".
Qed.

(** ** The middle *)

Lemma queue_next_at h xs i x Φ :
  xs !! i = Some x ->
  queue h xs -∗ (queue h xs -∗ Φ (default h (xs !! S i))) -∗ wp (ngx_queue_next x) Φ.
Proof.
  intros Hi. rewrite -{1 2}(take_drop_middle xs i x Hi). iIntros "H HΦ".
  iApply (queue_next_spec with "H").
  replace (List.hd h (drop (S i) xs)) with (default h (xs !! S i)); [done|].
  rewrite -(Nat.add_0_r (S i)) -lookup_drop. rewrite Nat.add_0_r. by destruct (drop (S i) xs).
Qed.

Lemma last_lookup (xs : list Z) h :
  xs <> [] -> xs !! (length xs - 1)%nat = Some (List.last xs h).
Proof.
  intros Hne. destruct (exists_last Hne) as (l & p & ->).
  rewrite List.last_last length_app /= Nat.add_sub. by apply list_lookup_middle.
Qed.

Section Middle.
Context (h : Z) (xs : list Z) (Hd : NoDup (h :: xs)).

Lemma is_last i x : xs !! i = Some x -> (x =? List.last xs h) = bool_decide (i = length xs - 1)%nat.
Proof.
  intros Hi. apply NoDup_cons in Hd as [_ Hd'].
  assert (Hl : xs !! (length xs - 1)%nat = Some (List.last xs h)).
  { apply last_lookup. by destruct xs. }
  destruct (Z.eqb_spec x (List.last xs h)) as [->|Hne]; symmetry.
  - apply bool_decide_eq_true. by eapply NoDup_lookup.
  - apply bool_decide_eq_false. intros ->. congruence.
Qed.

Lemma middle_loop_spec k fuel i m n (Φ : Z -> hProp) :
  k = (length xs / 2)%nat ->
  xs !! i = Some m -> xs !! (2 * i)%nat = Some n -> (2 * i < length xs - 1)%nat ->
  (length xs < fuel + 2 * i)%nat ->
  queue h xs -∗ (∀ x, ⌜xs !! k = Some x⌝ -∗ queue h xs -∗ Φ x) -∗
  wp (middle_loop fuel h m n) Φ.
Proof.
  intros Hk. revert i m n. induction fuel as [|fuel IH]; intros i m n Hm Hn Hlt Hf; [lia|].
  destruct (lookup_lt_is_Some_2 xs (S i)) as [m' Hm']; [lia|].
  destruct (lookup_lt_is_Some_2 xs (S (2 * i))) as [n' Hn']; [lia|].
  iIntros "H HΦ". cbn [middle_loop]. wp_unbind.
  iApply (queue_next_at with "H"); [exact Hm|]. iIntros "H". rewrite Hm' /=. wp_unbind.
  iApply (queue_next_at with "H"); [exact Hn|]. iIntros "H". rewrite Hn' /=. wp_unbind.
  iApply (queue_last_spec with "H"). iIntros "H". rewrite (is_last _ _ Hn').
  case_bool_decide as E1.
  - wp_go. iApply ("HΦ" with "[%] H"). replace k with (S i); [done|].
    rewrite Hk. apply Nat.div_unique with (r := 0%nat); lia.
  - destruct (lookup_lt_is_Some_2 xs (S (S (2 * i)))) as [n'' Hn'']; [lia|].
    wp_unbind. iApply (queue_next_at with "H"); [exact Hn'|]. iIntros "H". rewrite Hn'' /=.
    wp_unbind. iApply (queue_last_spec with "H"). iIntros "H". rewrite (is_last _ _ Hn'').
    case_bool_decide as E2.
    + wp_go. iApply ("HΦ" with "[%] H"). replace k with (S i); [done|].
      rewrite Hk. apply Nat.div_unique with (r := 1%nat); lia.
    + iApply (IH (S i) with "H HΦ"); [done| |lia|lia].
      by replace (2 * S i)%nat with (S (S (2 * i))) by lia.
Qed.
End Middle.

Lemma middle_spec fuel h xs :
  (length xs < fuel)%nat ->
  queue h xs ⊢ wp (ngx_queue_middle fuel h)
    (fun x => ⌜x = default h (xs !! (length xs / 2)%nat)⌝ ∗ queue h xs)%I.
Proof.
  intros Hf. remember (length xs / 2)%nat as k eqn:Hk.
  iIntros "H". iDestruct (queue_nodup with "H") as %Hd. unfold ngx_queue_middle.
  wp_unbind. iApply (queue_head_spec with "H"). iIntros "H".
  wp_unbind. iApply (queue_last_spec with "H"). iIntros "H".
  destruct xs as [|x xs]; cbn [List.hd].
  - cbn [List.last]. wp_go. by iFrame.
  - rewrite (is_last h (x :: xs) Hd 0 x) //. case_bool_decide as E.
    + wp_go. iFrame. iPureIntro. destruct xs; [by rewrite Hk|]. simpl in E. lia.
    + wp_unbind. iApply (queue_head_spec with "H"). iIntros "H". cbn [List.hd].
      iApply (middle_loop_spec h (x :: xs) Hd k fuel 0 x x with "H"); [done|done|done| |lia|].
      { destruct xs; simpl in *; lia. }
      iIntros (y Hy) "H". rewrite Hy. by iFrame.
Qed.

(** ** The sort *)

Section SortSpec.
Context (cmp : Z -> Z -> Z).

(** [cmp] compares as a total preorder. *)
Class Comparator : Prop := {
  cmp_total a b : 0 < cmp a b -> cmp b a <= 0;
  cmp_trans a b c : cmp a b <= 0 -> cmp b c <= 0 -> cmp a c <= 0
}.
Context {Hcmp : Comparator}.

Definition sort_le (a b : Z) : Prop := cmp a b <= 0.
Definition sort_eq (a b : Z) : Prop := sort_le a b /\ sort_le b a.
#[local] Instance sort_eq_dec a b : Decision (sort_eq a b).
Proof. unfold sort_eq, sort_le. apply _. Defined.

(** [zs] is [xs] in order, equal elements in the order of [xs]. *)
Definition stable_sort (xs zs : list Z) : Prop :=
  Permutation zs xs /\ StronglySorted sort_le zs /\
  forall x, filter (sort_eq x) zs = filter (sort_eq x) xs.

(** Inserting [q] after [us], where [vs] is greater and the end of [us] is not. *)
Lemma stable_sort_insert xs us vs q :
  stable_sort xs (us ++ vs) -> Forall (fun v => 0 < cmp v q) vs ->
  (us = [] \/ cmp (List.last us q) q <= 0) ->
  stable_sort (xs ++ [q]) (us ++ q :: vs).
Proof.
  intros (Hp & Hs & Hf) Hv Hu. rewrite Forall_forall in Hv.
  apply StronglySorted_app in Hs as (Hs3 & Hs1 & Hs2). split_and!.
  - rewrite -Permutation_middle -Permutation_cons_append. by constructor.
  - apply StronglySorted_app. split_and!; [|done|].
    + assert (Huq : forall a, a ∈ us -> sort_le a q).
      { intros a Ha. destruct Hu as [->|Hu]; [by apply not_elem_of_nil in Ha|].
        destruct (exists_last (l := us)) as (us' & p & ->); [by intros ->; apply not_elem_of_nil in Ha|].
        rewrite List.last_last in Hu. apply StronglySorted_app in Hs1 as (Hs1 & _ & _).
        apply elem_of_app in Ha as [Ha| ->%list_elem_of_singleton]; [|done].
        eapply cmp_trans; [|exact Hu]. apply Hs1; [done|by left]. }
      intros a b Ha [->|Hb]%elem_of_cons; [by apply Huq|by apply Hs3].
    + constructor; [done|]. apply Forall_forall. intros v Hin. by apply cmp_total, Hv.
  - intros x. rewrite (filter_app _ us (q :: vs)) (filter_app _ xs [q]) -(Hf x).
    rewrite (filter_app _ us vs) !filter_cons filter_nil.
    destruct (decide (sort_eq x q)) as [[Hx1 Hx2]|Hx]; [|by rewrite app_nil_r].
    replace (filter (sort_eq x) vs) with (@nil Z); [by rewrite app_nil_r|].
    symmetry. apply elem_of_nil_inv. intros v [[H1 H2] Hin]%list_elem_of_filter.
    specialize (Hv v Hin). pose proof (cmp_trans v x q H2 Hx1). lia.
Qed.

Lemma sort_place_spec fuel h us vs ys q (Φ : Z -> hProp) :
  us <> [] -> NoDup (h :: us) -> Forall (fun v => 0 < cmp v q) vs -> (length us <= fuel)%nat ->
  queue h ((us ++ vs) ++ ys) -∗
  (∀ us' vs', ⌜us ++ vs = us' ++ vs' /\ Forall (fun v => 0 < cmp v q) vs' /\
                (us' = [] \/ cmp (List.last us' q) q <= 0)⌝ -∗
     queue h ((us' ++ vs') ++ ys) -∗ Φ (List.last us' h)) -∗
  wp (sort_place cmp fuel h (List.last us h) q) Φ.
Proof.
  revert us vs. induction fuel as [|fuel IH]; intros us vs Hne Hd Hv Hf.
  { destruct us; simpl in *; [done|lia]. }
  destruct (exists_last Hne) as (us' & p & ->). rewrite List.last_last. cbn [sort_place].
  iIntros "H HΦ". destruct (Z.leb_spec (cmp p q) 0) as [Hle|Hgt].
  - wp_go. iSpecialize ("HΦ" $! (us' ++ [p]) vs with "[%] H"); [|by rewrite List.last_last].
    rewrite List.last_last. auto.
  - assert (H3 : (us' ++ [p]) ++ vs = us' ++ p :: vs) by by rewrite -app_assoc.
    assert (H4 : (us' ++ p :: vs) ++ ys = us' ++ p :: vs ++ ys) by by rewrite -app_assoc.
    rewrite H3 H4. wp_unbind. iApply (queue_prev_spec with "H"). iIntros "H". rewrite -H4.
    apply NoDup_cons in Hd as [Hd1 Hd2]. apply NoDup_app in Hd2 as (Hd2 & _).
    rewrite length_app /= in Hf. assert (Hv' : Forall (fun v => 0 < cmp v q) (p :: vs)) by by constructor.
    destruct (decide (us' = [])) as [->|Hne'].
    { cbn [List.last]. rewrite (Z.eqb_refl h). cbn [negb]. wp_go.
      iApply ("HΦ" $! [] (p :: vs) with "[%] H"). auto. }
    assert (Hin : List.last us' h ∈ us').
    { apply list_elem_of_lookup. exists (length us' - 1)%nat. by apply last_lookup. }
    assert (Hh : h ∉ us') by (intros Hh; apply Hd1, elem_of_app; by left).
    rewrite (proj2 (Z.eqb_neq _ _)); [|by intros Hl; rewrite Hl in Hin]. cbn [negb].
    iApply (IH us' (p :: vs) with "H HΦ"); [done|by constructor|done|lia].
Qed.

Lemma sort_loop_spec fuel h done zs ys :
  zs <> [] -> stable_sort done zs -> (length zs + 2 * length ys < fuel)%nat ->
  queue h (zs ++ ys) ⊢
  wp (sort_loop cmp fuel h (List.hd h ys))
    (fun _ => ∃ zs', ⌜stable_sort (done ++ ys) zs'⌝ ∗ queue h zs')%I.
Proof.
  revert done zs ys. induction fuel as [|fuel IH]; intros done zs ys Hne Hs Hf; [lia|].
  iIntros "H". iDestruct (queue_nodup with "H") as %Hd.
  destruct ys as [|q ys]; cbn [List.hd sort_loop]; unfold ngx_queue_sentinel at 1.
  - wp_go. iExists zs. rewrite !app_nil_r. by iFrame.
  - apply NoDup_cons in Hd as [Hh Hd]. apply NoDup_app in Hd as (Hd1 & _ & Hd2).
    rewrite (proj2 (Z.eqb_neq q h)); [|intros ->; apply Hh, elem_of_app; right; by left].
    cbn [negb]. wp_unbind. iApply (queue_prev_spec with "H"). iIntros "H".
    wp_unbind. iApply (queue_next_spec with "H"). iIntros "H". wp_unbind.
    iApply (wp_wand with "[H]"); [by iApply ngx_queue_remove_spec|]. iIntros (_) "[H Hq]".
    wp_unbind. rewrite -{1}(app_nil_r zs).
    iApply (sort_place_spec _ _ zs [] with "H"); [done| |constructor|simpl in Hf; lia|].
    { constructor; [|done]. intros Hin. apply Hh, elem_of_app. by left. }
    iIntros (us vs (H1 & H2 & H3)) "H". rewrite app_nil_r in H1. wp_unbind.
    destruct (ring_before h us) as (l & p & Hl).
    replace (List.last us h) with p;
      [|pose proof (List.last_last l p h) as Hp; rewrite -Hl in Hp; by destruct us].
    iApply (wp_wand with "[H Hq]").
    { rewrite -app_assoc. iApply (ngx_queue_insert_after_spec with "[$H $Hq]"). exact Hl. }
    iIntros (_) "H". replace (done ++ q :: ys) with ((done ++ [q]) ++ ys) by by rewrite -app_assoc.
    replace (us ++ q :: vs ++ ys) with ((us ++ q :: vs) ++ ys) by by rewrite -app_assoc.
    iApply (IH with "H"); [by destruct us| |].
    + apply stable_sort_insert; [by rewrite -H1|done|done].
    + apply (f_equal length) in H1. rewrite !length_app /= in H1 Hf |- *. lia.
Qed.

Lemma sort_spec fuel h xs :
  (2 * length xs < fuel)%nat ->
  queue h xs ⊢
  wp (ngx_queue_sort cmp fuel h) (fun _ => ∃ zs, ⌜stable_sort xs zs⌝ ∗ queue h zs)%I.
Proof.
  intros Hf. iIntros "H". iDestruct (queue_nodup with "H") as %Hd. unfold ngx_queue_sort.
  assert (H1 : forall x, stable_sort [x] [x]) by (intros x; split_and!; [done|by repeat constructor|done]).
  wp_unbind. iApply (queue_head_spec with "H"). iIntros "H".
  wp_unbind. iApply (queue_last_spec with "H"). iIntros "H".
  destruct xs as [|x xs]; cbn [List.hd].
  - cbn [List.last]. wp_go. iExists []. iFrame. iPureIntro. split_and!; [done|constructor|done].
  - rewrite (is_last h (x :: xs) Hd 0 x) //. case_bool_decide as E.
    + wp_go. destruct xs; [|done]. iExists [x]. by iFrame.
    + wp_unbind. iApply (queue_next_spec h [] x xs with "H"). iIntros "H".
      iApply (sort_loop_spec fuel h [x] [x] xs with "H"); [done|done|]. simpl in *. lia.
Qed.
End SortSpec.

(** ** What the module promises *)

(** C35: [ngx_queue_sort] returns with the same elements in the queue, in the order
    of the comparison, and equal elements in the order they had: the sort is stable,
    as its comment says.  The links of every element and of the container are right
    afterwards, and nothing else in memory has changed. *)
Theorem queue_sort (cmp : Z -> Z -> Z) (fuel : nat) (h : Z) (xs : list Z) :
  Comparator cmp -> (2 * length xs < fuel)%nat ->
  triple (queue h xs) (ngx_queue_sort cmp fuel h)
    (fun _ => ∃ zs, ⌜stable_sort cmp xs zs⌝ ∗ queue h zs)%I.
Proof. intros Hc Hf. by apply wp_triple, sort_spec. Qed.

(** [ngx_queue_middle] returns the element that is in the middle of an odd
    number of elements, and the first of the second half of an even number; the
    container itself when the queue is empty. *)
Theorem queue_middle (fuel : nat) (h : Z) (xs : list Z) :
  (length xs < fuel)%nat ->
  triple (queue h xs) (ngx_queue_middle fuel h)
    (fun x => ⌜x = default h (xs !! (length xs / 2)%nat)⌝ ∗ queue h xs)%I.
Proof. intros Hf. by apply wp_triple, middle_spec. Qed.

Lemma ngx_queue_init_spec h :
  unlinked h ⊢ wp (ngx_queue_init h) (fun _ => queue h []).
Proof. iIntros "(%p & %n & H1 & H2)". unfold ngx_queue_init. wp_go. by iFrame. Qed.

Lemma ngx_queue_empty_spec h xs :
  queue h xs ⊢ wp (ngx_queue_empty h) (fun b => ⌜b = bool_decide (xs = [])⌝ ∗ queue h xs)%I.
Proof.
  iIntros "H". iDestruct (queue_nodup with "H") as %[Hh _]%NoDup_cons.
  unfold ngx_queue_empty. wp_unbind. iApply (queue_last_spec with "H"). iIntros "H". wp_go.
  iFrame. iPureIntro. destruct (decide (xs = [])) as [->|Hne]; [apply Z.eqb_refl|].
  rewrite bool_decide_false //. apply Z.eqb_neq. intros Heq. apply Hh.
  rewrite Heq. apply list_elem_of_lookup. eexists. by apply last_lookup.
Qed.

(** The queue macros are the operations on lists of elements that their
    comments name: an empty queue, the test for emptiness, insertion at both ends
    and after an element, removal of an element, the split of a queue in front of an
    element into two queues, and the concatenation of two queues (of which the second
    container is left outside).  They hold for empty queues and for the first and the
    last element as well, with no condition. *)
Theorem queue_operations (h x n : Z) (xs ys : list Z) :
  triple (unlinked h) (ngx_queue_init h) (fun _ => queue h []) /\
  triple (queue h xs) (ngx_queue_empty h)
    (fun b => ⌜b = bool_decide (xs = [])⌝ ∗ queue h xs)%I /\
  triple (queue h xs ∗ unlinked x) (ngx_queue_insert_head h x) (fun _ => queue h (x :: xs)) /\
  triple (queue h xs ∗ unlinked x) (ngx_queue_insert_tail h x) (fun _ => queue h (xs ++ [x])) /\
  triple (queue h (xs ++ n :: ys) ∗ unlinked x) (ngx_queue_insert_after n x)
    (fun _ => queue h (xs ++ n :: x :: ys)) /\
  triple (queue h (xs ++ x :: ys)) (ngx_queue_remove x)
    (fun _ => queue h (xs ++ ys) ∗ unlinked x)%I /\
  triple (queue h (xs ++ x :: ys) ∗ unlinked n) (ngx_queue_split h x n)
    (fun _ => queue h xs ∗ queue n (x :: ys))%I /\
  triple (queue h xs ∗ queue n ys) (ngx_queue_add h n)
    (fun _ => queue h (xs ++ ys) ∗ unlinked n)%I.
Proof.
  split_and!; apply wp_triple.
  - apply ngx_queue_init_spec.
  - apply ngx_queue_empty_spec.
  - exact (ngx_queue_insert_after_spec h [] x xs [] h eq_refl).
  - apply ngx_queue_insert_tail_spec.
  - pose proof (ngx_queue_insert_after_spec h (xs ++ [n]) x ys (h :: xs) n eq_refl) as H.
    by rewrite -!app_assoc in H.
  - apply ngx_queue_remove_spec.
  - apply ngx_queue_split_spec.
  - apply ngx_queue_add_spec.
Qed.

(** The container 1 with the elements 20, 11 and 10, compared by their tens. *)
Definition sample_queue : list (Z * field * Z) :=
  [(1, next, 20); (20, prev, 1); (20, next, 11); (11, prev, 20);
   (11, next, 10); (10, prev, 11); (10, next, 1); (1, prev, 10)].
Definition sample_cmp (a b : Z) : Z := a / 10 - b / 10.

Lemma sample_queue_holds : queue 1 [20; 11; 10] (heap_of sample_queue).
Proof.
  eapply holds_entails; [|apply cells_heap; by_decide].
  unfold cells, sample_queue, queue. cbn [app]. rewrite !chain_cons. unfold edge. simpl.
  iIntros "($ & $ & $ & $ & $ & $ & $ & $ & _)".
Qed.

#[local] Instance sample_cmp_comparator : Comparator sample_cmp.
Proof. unfold sample_cmp. split; intros; lia. Qed.

Lemma queue_sort_witness :
  (exists h', ngx_queue_sort sample_cmp 9 1 (heap_of sample_queue) = Some (tt, h') /\
     exists zs, stable_sort sample_cmp [20; 11; 10] zs /\ queue 1 zs h') /\
  (fst <$> (h ← (snd <$> ngx_queue_sort sample_cmp 9 1 (heap_of sample_queue));
            ngx_queue_head 1 h)) = Some 11.
Proof.
  split; [|by vm_compute].
  destruct (triple_run _ _ _ _ (queue_sort sample_cmp 9 1 [20; 11; 10] _ ltac:(simpl; lia))
              sample_queue_holds) as ([] & h' & Hm & _ & zs & [Hz Hq]%holds_pure_sep).
  exists h'. split; [done|]. by exists zs.
Defined.

Lemma queue_middle_witness :
  exists x h', ngx_queue_middle 4 1 (heap_of sample_queue) = Some (x, h') /\ x = 11.
Proof.
  destruct (triple_run _ _ _ _ (queue_middle 4 1 [20; 11; 10] ltac:(simpl; lia))
              sample_queue_holds) as (x & h' & Hm & _ & [Hx _]%holds_pure_sep).
  by exists x, h'.
Defined.
