(* ===== verification/RbTree.v ===== *)
(** The red-black trees of src/core/ngx_rbtree.h and src/core/ngx_rbtree.c: the
    code, and the trees that memory represents. *)
From S2P Require Import Prelude Memory.

(** ** The code *)

(** The mirrored halves of the code are one definition each: [L] is the text of the
    left half, [R] that of the right half, with "left" and "right" exchanged. *)
Inductive dir := L | R.
#[export] Instance dir_eq_dec : EqDecision dir.
Proof. solve_decision. Defined.
Definition opp (d : dir) : dir := match d with L => R | R => L end.
Lemma opp_opp d : opp (opp d) = d.
Proof. by destruct d. Qed.
Definition side (d : dir) : field := match d with L => left | R => right end.

Definition ngx_rbt_red (node : Z) : M unit := node⟶color ::= 1.
Definition ngx_rbt_black (node : Z) : M unit := node⟶color ::= 0.
Definition ngx_rbt_is_red (node : Z) : M bool := c ← node⟶color; mret (negb (c =? 0)).
Definition ngx_rbt_is_black (node : Z) : M bool := r ← ngx_rbt_is_red node; mret (negb r).
Definition ngx_rbt_copy_color (n1 n2 : Z) : M unit := c ← n2⟶color; n1⟶color ::= c.

Definition ngx_rbtree_init (tree s : Z) : M unit :=
  ngx_rbt_black s;; tree⟶root ::= s;; tree⟶sentinel ::= s.

Fixpoint ngx_rbtree_min (fuel : nat) (node s : Z) : M Z :=
  match fuel with
  | O => stuck
  | S fuel =>
      l ← node⟶left;
      if negb (l =? s) then l ← node⟶left; ngx_rbtree_min fuel l s else mret node
  end.

(** [if (x->f != sentinel) { x->f->parent = y; }] *)
Definition adopt (s x : Z) (f : field) (y : Z) : M unit :=
  b ← x⟶f; if negb (b =? s) then b ← x⟶f; b⟶parent ::= y else mret tt.

(** The links from above: [temp] in the place of [node] ([*root], or the member of
    [node->parent], of which the side [d] is tested first). *)
Definition relink (d : dir) (tree node temp : Z) : M unit :=
  r ← tree⟶root;
  if node =? r then tree⟶root ::= temp
  else
    p ← node⟶parent; c ← p⟶(side d);
    if node =? c then p ← node⟶parent; p⟶(side d) ::= temp
    else p ← node⟶parent; p⟶(side (opp d)) ::= temp.

(** [ngx_rbtree_left_rotate] ([L]) and [ngx_rbtree_right_rotate] ([R]). *)
Definition rotate (d : dir) (tree s node : Z) : M unit :=
  temp ← node⟶(side (opp d));
  b ← temp⟶(side d);
  node⟶(side (opp d)) ::= b;;
  adopt s temp (side d) node;;
  p ← node⟶parent;
  temp⟶parent ::= p;;
  relink d tree node temp;;
  temp⟶(side d) ::= node;;
  node⟶parent ::= temp.

Definition ngx_rbtree_left_rotate := rotate L.
Definition ngx_rbtree_right_rotate := rotate R.

(** The loop of [ngx_rbtree_insert_value] and [ngx_rbtree_insert_timer_value]: the
    node and its member that [p] points to. *)
Fixpoint insert_place (fuel : nat) (less : Z -> Z -> bool) (temp node s : Z) : M (Z * field) :=
  match fuel with
  | O => stuck
  | S fuel =>
      k ← node⟶key; tk ← temp⟶key;
      let p := if less k tk then left else right in
      c ← temp⟶p;
      if c =? s then mret (temp, p)
      else temp ← temp⟶p; insert_place fuel less temp node s
  end.

Definition insert_by (less : Z -> Z -> bool) (fuel : nat) (temp node s : Z) : M unit :=
  '(temp, p) ← insert_place fuel less temp node s;
  temp⟶p ::= node;;
  node⟶parent ::= temp;;
  node⟶left ::= s;;
  node⟶right ::= s;;
  ngx_rbt_red node.

(** Keys are [ngx_uint_t], compared as such or by the sign of their difference. *)
Definition key_less (k1 k2 : Z) : bool := k1 <? k2.
Definition timer_less (k1 k2 : Z) : bool := s64 (s64 k1 - s64 k2) <? 0.

Definition ngx_rbtree_insert_value := insert_by key_less.
Definition ngx_rbtree_insert_timer_value := insert_by timer_less.

(** The end of both branches of the loop of [ngx_rbtree_insert], from
    [ngx_rbt_black(node->parent)] to the second rotation. *)
Definition insert_outer (d : dir) (tree s node : Z) : M Z :=
  p ← node⟶parent; ngx_rbt_black p;;
  p ← node⟶parent; gp ← p⟶parent; ngx_rbt_red gp;;
  p ← node⟶parent; gp ← p⟶parent; rotate (opp d) tree s gp;;
  mret node.

(** The branch of the loop of [ngx_rbtree_insert] for a parent that is a left child
    ([L]) or a right child ([R]); the result is the new [node]. *)
Definition insert_case (d : dir) (tree s node : Z) : M Z :=
  p ← node⟶parent; gp ← p⟶parent; temp ← gp⟶(side (opp d));
  red ← ngx_rbt_is_red temp;
  if (red : bool) then
    p ← node⟶parent; ngx_rbt_black p;;
    ngx_rbt_black temp;;
    p ← node⟶parent; gp ← p⟶parent; ngx_rbt_red gp;;
    p ← node⟶parent; p⟶parent
  else
    p ← node⟶parent; c ← p⟶(side (opp d));
    node ← (if node =? c
            then node ← node⟶parent; rotate d tree s node;; mret node
            else mret node);
    insert_outer d tree s node.

(** [node->parent == node->parent->parent->left] *)
Definition parent_side (node : Z) : M dir :=
  p ← node⟶parent; p' ← node⟶parent; gp ← p'⟶parent; l ← gp⟶left;
  mret (if p =? l then L else R).

Fixpoint insert_loop (fuel : nat) (tree s node : Z) : M unit :=
  match fuel with
  | O => stuck
  | S fuel =>
      r ← tree⟶root;
      red ← (if node =? r then mret false else p ← node⟶parent; ngx_rbt_is_red p);
      if (red : bool) then
        d ← parent_side node;
        node ← insert_case d tree s node;
        insert_loop fuel tree s node
      else mret tt
  end.

(** [insert] is the member of the tree that points to the insertion function. *)
Definition ngx_rbtree_insert (insert : nat -> Z -> Z -> Z -> M unit) (fuel : nat)
    (tree node : Z) : M unit :=
  s ← tree⟶sentinel;
  r ← tree⟶root;
  if r =? s then
    node⟶parent ::= NULL;;
    node⟶left ::= s;;
    node⟶right ::= s;;
    ngx_rbt_black node;;
    tree⟶root ::= node
  else
    r ← tree⟶root;
    insert fuel r node s;;
    insert_loop fuel tree s node;;
    r ← tree⟶root;
    ngx_rbt_black r.

(** [ngx_rbt_is_black(w->left) && ngx_rbt_is_black(w->right)] *)
Definition both_black (w : Z) : M bool :=
  wl ← w⟶left; bl ← ngx_rbt_is_black wl;
  if (bl : bool) then wr ← w⟶right; ngx_rbt_is_black wr else mret false.

(** The end of both branches of the loop of [ngx_rbtree_delete], from
    [ngx_rbt_copy_color(w, temp->parent)] on. *)
Definition delete_finish (d : dir) (tree s temp w : Z) : M Z :=
  p ← temp⟶parent; ngx_rbt_copy_color w p;;
  p ← temp⟶parent; ngx_rbt_black p;;
  wr ← w⟶(side (opp d)); ngx_rbt_black wr;;
  p ← temp⟶parent; rotate d tree s p;;
  tree⟶root.

(** The branches from the test of the children of [w] on. *)
Definition delete_black (d : dir) (tree s temp w : Z) : M Z :=
  both ← both_black w;
  if (both : bool) then
    ngx_rbt_red w;;
    temp⟶parent
  else
    wr ← w⟶(side (opp d)); br ← ngx_rbt_is_black wr;
    w ← (if (br : bool) then
           wl ← w⟶(side d); ngx_rbt_black wl;;
           ngx_rbt_red w;;
           rotate (opp d) tree s w;;
           p ← temp⟶parent; p⟶(side (opp d))
         else mret w);
    delete_finish d tree s temp w.

(** The branch of the loop of [ngx_rbtree_delete] for a [temp] that is a left child
    ([L]) or a right child ([R]); the result is the new [temp]. *)
Definition delete_case (d : dir) (tree s temp : Z) : M Z :=
  p ← temp⟶parent; w ← p⟶(side (opp d));
  red ← ngx_rbt_is_red w;
  w ← (if (red : bool) then
         ngx_rbt_black w;;
         p ← temp⟶parent; ngx_rbt_red p;;
         p ← temp⟶parent; rotate d tree s p;;
         p ← temp⟶parent; p⟶(side (opp d))
       else mret w);
  delete_black d tree s temp w.

(** [temp == temp->parent->left] *)
Definition which_side (temp : Z) : M dir :=
  p ← temp⟶parent; l ← p⟶left; mret (if temp =? l then L else R).

Fixpoint delete_loop (fuel : nat) (tree s temp : Z) : M Z :=
  match fuel with
  | O => stuck
  | S fuel =>
      r ← tree⟶root;
      black ← (if temp =? r then mret false else ngx_rbt_is_black temp);
      if (black : bool) then
        d ← which_side temp;
        temp ← delete_case d tree s temp;
        delete_loop fuel tree s temp
      else mret temp
  end.

(** [node->left = NULL; ...], commented as "DEBUG stuff" in the code. *)
Definition clear_node (node : Z) : M unit :=
  node⟶left ::= NULL;; node⟶right ::= NULL;; node⟶parent ::= NULL;; node⟶key ::= 0.

(** [subst] and [temp]. *)
Definition delete_choose (fuel : nat) (s node : Z) : M (Z * Z) :=
  l ← node⟶left;
  if l =? s then temp ← node⟶right; mret (node, temp)
  else
    r ← node⟶right;
    if r =? s then temp ← node⟶left; mret (node, temp)
    else
      r ← node⟶right;
      subst ← ngx_rbtree_min fuel r s;
      sl ← subst⟶left;
      if negb (sl =? s) then temp ← subst⟶left; mret (subst, temp)
      else temp ← subst⟶right; mret (subst, temp).

(** [subst] takes the place of [node]. *)
Definition take_place (tree s node subst : Z) : M unit :=
  l ← node⟶left; subst⟶left ::= l;;
  r ← node⟶right; subst⟶right ::= r;;
  p ← node⟶parent; subst⟶parent ::= p;;
  ngx_rbt_copy_color subst node;;
  relink L tree node subst;;
  adopt s subst left subst;;
  adopt s subst right subst.

Definition delete_replace (tree s node subst temp : Z) : M unit :=
  sp ← subst⟶parent;
  (if sp =? node then temp⟶parent ::= subst
   else sp ← subst⟶parent; temp⟶parent ::= sp);;
  take_place tree s node subst.

(** [temp] in the place of [subst], which is not the root: the member of the parent
    that points to [subst]. *)
Definition unlink (subst temp : Z) : M unit :=
  sp ← subst⟶parent; l ← sp⟶left;
  if subst =? l then sp ← subst⟶parent; sp⟶left ::= temp
  else sp ← subst⟶parent; sp⟶right ::= temp.

(** From [if (red) return] on. *)
Definition finish_delete (fuel : nat) (tree s : Z) (red : bool) (temp : Z) : M unit :=
  if red then mret tt else temp ← delete_loop fuel tree s temp; ngx_rbt_black temp.

Definition ngx_rbtree_delete (fuel : nat) (tree node : Z) : M unit :=
  s ← tree⟶sentinel;
  '(subst, temp) ← delete_choose fuel s node;
  r ← tree⟶root;
  if subst =? r then
    tree⟶root ::= temp;;
    ngx_rbt_black temp;;
    clear_node node
  else
    red ← ngx_rbt_is_red subst;
    unlink subst temp;;
    (if subst =? node then sp ← subst⟶parent; temp⟶parent ::= sp
     else delete_replace tree s node subst temp);;
    clear_node node;;
    finish_delete fuel tree s red temp.

(** ** Trees and contexts *)

(** A node: its color (red is [true]), address, key and subtrees. *)
Inductive tree := E | T (c : bool) (l : tree) (x k : Z) (r : tree).

(** A node seen from the side [d]: [a] is the child on that side. *)
Definition mk (d : dir) (c : bool) (a : tree) (x k : Z) (b : tree) : tree :=
  match d with L => T c a x k b | R => T c b x k a end.

(** A tree with a hole: the nodes from the hole up, with the side the hole is on and
    the other subtree. *)
Record frame := Fr { fd : dir; fc : bool; fx : Z; fk : Z; fsib : tree }.
Abbreviation path := (list frame).

Definition fill (f : frame) (t : tree) : tree := mk (fd f) (fc f) t (fx f) (fk f) (fsib f).
Definition plug (p : path) (t : tree) : tree := fold_left (fun t f => fill f t) p t.

(** The nodes in order. *)
Fixpoint elems (t : tree) : list (Z * Z) :=
  match t with E => [] | T _ l x k r => elems l ++ (x, k) :: elems r end.

Definition before (p : path) : list (Z * Z) :=
  fold_left (fun l f => match fd f with L => l | R => elems (fsib f) ++ (fx f, fk f) :: l end) p [].
Definition after (p : path) : list (Z * Z) :=
  fold_left (fun l f => match fd f with L => l ++ (fx f, fk f) :: elems (fsib f) | R => l end) p [].

Lemma before_fold p l :
  fold_left (fun l f => match fd f with L => l | R => elems (fsib f) ++ (fx f, fk f) :: l end) p l
  = before p ++ l.
Proof.
  revert l. unfold before. induction p as [|[[] c x k sib] p IH]; intros l; cbn [fold_left fd]; [done| |].
  - apply IH.
  - rewrite IH (IH (_ ++ _)). cbn. by rewrite -!app_assoc.
Qed.

Lemma after_fold p l :
  fold_left (fun l f => match fd f with L => l ++ (fx f, fk f) :: elems (fsib f) | R => l end) p l
  = l ++ after p.
Proof.
  revert l. unfold after. induction p as [|[[] c x k sib] p IH]; intros l; cbn [fold_left fd].
  - by rewrite app_nil_r.
  - rewrite IH (IH ([] ++ _)). cbn. by rewrite -!app_assoc.
  - apply IH.
Qed.

Lemma before_cons f p :
  before (f :: p) = before p ++ match fd f with L => [] | R => elems (fsib f) ++ [(fx f, fk f)] end.
Proof. unfold before at 1. cbn [fold_left]. rewrite before_fold. by destruct (fd f). Qed.
Lemma after_cons f p :
  after (f :: p) = match fd f with L => (fx f, fk f) :: elems (fsib f) | R => [] end ++ after p.
Proof. unfold after at 1. cbn [fold_left]. rewrite after_fold. by destruct (fd f). Qed.

Lemma elems_fill f t :
  elems (fill f t) =
  match fd f with L => [] | R => elems (fsib f) ++ [(fx f, fk f)] end ++ elems t ++
  match fd f with L => (fx f, fk f) :: elems (fsib f) | R => [] end.
Proof. destruct f as [[] c x k sib]; cbn; [done|]. by rewrite app_nil_r -app_assoc. Qed.

Lemma elems_plug p t : elems (plug p t) = before p ++ elems t ++ after p.
Proof.
  revert t. induction p as [|f p IH]; intros t; [by rewrite app_nil_r|].
  change (plug (f :: p) t) with (plug p (fill f t)).
  rewrite IH before_cons after_cons elems_fill. by rewrite -!app_assoc.
Qed.

Lemma plug_app p1 p2 t : plug (p1 ++ p2) t = plug p2 (plug p1 t).
Proof. apply fold_left_app. Qed.

(** ** Representation *)

Section Rep.
Context (s : Z).

Definition ptr (t : tree) : Z := match t with E => s | T _ _ x _ _ => x end.

Definition node_cells (x l r par : Z) (c : bool) (k : Z) : hProp :=
  x⟶left ↦ l ∗ x⟶right ↦ r ∗ x⟶parent ↦ par ∗ x⟶color ↦ Z.b2z c ∗ x⟶key ↦ k ∗ ⌜x <> s⌝.

(** The tree with the parent pointer [par] at its root. *)
Fixpoint rep (par : Z) (t : tree) : hProp :=
  match t with
  | E => emp
  | T c l x k r => node_cells x (ptr l) (ptr r) par c k ∗ rep x l ∗ rep x r
  end.

(** The parent pointer in a hole; [rp] is the one at the root, which may be
    anything: the code never follows it. *)
Definition par (rp : Z) (p : path) : Z := match p with [] => rp | f :: _ => fx f end.

(** The context [p] of the tree object [tr], with the pointer [hp] in the hole. *)
Fixpoint repc (tr rp hp : Z) (p : path) : hProp :=
  match p with
  | [] => tr⟶root ↦ hp
  | Fr d c x k sib :: p =>
      node_cells x (match d with L => hp | R => ptr sib end)
        (match d with L => ptr sib | R => hp end) (par rp p) c k
      ∗ rep x sib ∗ repc tr rp x p
  end.

(** A node from the side [d]. *)
Definition side_cells (d : dir) (x a b par : Z) (c : bool) (k : Z) : hProp :=
  x⟶(side d) ↦ a ∗ x⟶(side (opp d)) ↦ b ∗ x⟶parent ↦ par ∗ x⟶color ↦ Z.b2z c
  ∗ x⟶key ↦ k ∗ ⌜x <> s⌝.

Lemma rep_mk d p c a x k b :
  rep p (mk d c a x k b) ⊣⊢ side_cells d x (ptr a) (ptr b) p c k ∗ rep x a ∗ rep x b.
Proof.
  destruct d; cbn [mk rep]; [done|]. unfold node_cells, side_cells. cbn [side opp].
  iSplit; iIntros "((H1 & H2 & $ & $ & $ & $) & H3 & H4)"; iFrame.
Qed.

Lemma repc_cons d tr rp hp c x k sib p :
  repc tr rp hp (Fr d c x k sib :: p) ⊣⊢
  side_cells d x hp (ptr sib) (par rp p) c k ∗ rep x sib ∗ repc tr rp x p.
Proof.
  destruct d; cbn [repc]; [done|]. unfold node_cells, side_cells. cbn [side opp].
  iSplit; iIntros "((H1 & H2 & $ & $ & $ & $) & H3 & H4)"; iFrame.
Qed.

Lemma ptr_mk d c a x k b : ptr (mk d c a x k b) = x.
Proof. by destruct d. Qed.

(** The context around a node and the node are the context around its place. *)
Lemma repc_fill tr rp f t p :
  rep (fx f) t ∗ repc tr rp (ptr t) (f :: p) ⊣⊢
  rep (par rp p) (fill f t) ∗ repc tr rp (ptr (fill f t)) p.
Proof.
  destruct f as [d c x k sib]. unfold fill. cbn [fd fc fx fk fsib].
  rewrite repc_cons rep_mk ptr_mk. iSplit; iIntros "H"; iStopProof.
  - iIntros "(H1 & H2 & H3 & H4)". iFrame.
  - iIntros "((H1 & H2 & H3) & H4)". iFrame.
Qed.

Lemma repc_plug tr rp t p :
  rep (par rp p) t ∗ repc tr rp (ptr t) p ⊣⊢
  rep rp (plug p t) ∗ tr⟶root ↦ ptr (plug p t).
Proof.
  revert t. induction p as [|f p IH]; intros t; [done|].
  change (plug (f :: p) t) with (plug p (fill f t)). rewrite -IH.
  cbn [par]. apply repc_fill.
Qed.

(** Pointers into disjoint parts differ. *)
Lemma rep_root_neq d1 d2 x y a1 b1 p1 c1 k1 a2 b2 p2 c2 k2 :
  side_cells d1 x a1 b1 p1 c1 k1 -∗ side_cells d2 y a2 b2 p2 c2 k2 -∗ ⌜x <> y⌝.
Proof. iIntros "(_ & _ & H1 & _) (_ & _ & H2 & _)". iApply (cell_neq with "H1 H2"). Qed.

Lemma rep_parent_neq x v p t : x <> s -> x⟶parent ↦ v -∗ rep p t -∗ ⌜x <> ptr t⌝.
Proof.
  iIntros (Hx) "H1 H2". destruct t; [done|]. cbn [rep ptr].
  iDestruct "H2" as "[(_ & _ & H2 & _) _]". iApply (cell_neq with "H1 H2").
Qed.

(** The parent pointer of a tree that is not empty. *)
Lemma rep_parent_acc p t : t <> E ->
  rep p t -∗ ptr t⟶parent ↦ p ∗ ⌜ptr t <> s⌝ ∗ (∀ q, ptr t⟶parent ↦ q -∗ rep q t).
Proof.
  iIntros (Ht) "H". destruct t as [|c l x k r]; [done|]. cbn [rep ptr].
  iDestruct "H" as "[(H1 & H2 & H3 & H4 & H5 & %H6) H7]". iFrame "H3". iSplit; [done|].
  iIntros (q) "H3". by iFrame.
Qed.

(** A node is not the root while it has a parent. *)
Lemma repc_root tr rp hp f p :
  repc tr rp hp (f :: p) -∗ ∃ r, ⌜r <> s⌝ ∗ tr⟶root ↦ r ∗
    (∃ v, r⟶parent ↦ v ∗ (r⟶parent ↦ v -∗ tr⟶root ↦ r -∗ repc tr rp hp (f :: p))).
Proof.
  revert hp f. induction p as [|f' p IH]; intros hp [d c x k sib]; iIntros "H";
    iDestruct (repc_cons with "H") as "(H1 & H2 & H3)".
  - iDestruct "H1" as "(H4 & H5 & H6 & H7 & H8 & %Hx)". iExists x.
    iSplit; [done|]. iSplitL "H3"; [iExact "H3"|].
    iExists _. iFrame "H6". iIntros "H6 H3". iApply repc_cons. iFrame "H2 H4 H5 H6 H7 H8".
    iSplit; [done|]. iExact "H3".
  - iDestruct (IH with "H3") as (r) "(%Hn & Hr & %v & Hv & HC)".
    iExists r. iSplit; [done|]. iFrame "Hr". iExists v. iFrame "Hv". iIntros "Hv Hr". iApply repc_cons.
    iFrame "H1 H2". iApply ("HC" with "Hv Hr").
Qed.
End Rep.

(** ** The pieces of the code *)

Section Pieces.
Context (s tr : Z).
Notation rep := (rep s).
Notation repc := (repc s tr).
Notation ptr := (ptr s).
Implicit Types Φ : unit -> hProp.

Lemma adopt_spec x f p t y Φ :
  x⟶f ↦ ptr t -∗ rep p t -∗ (x⟶f ↦ ptr t -∗ rep y t -∗ Φ tt) -∗ wp (adopt s x f y) Φ.
Proof.
  iIntros "Hx Ht HΦ". unfold adopt. wp_go. destruct t as [|c l z k r]; cbn [RbTree.ptr].
  - wp_go. iApply ("HΦ" with "Hx Ht").
  - cbn [RbTree.rep]. iDestruct "Ht" as "[(H1 & H2 & H3 & H4 & H5 & %Hz) Ht]". wp_go.
    iApply ("HΦ" with "Hx"). by iFrame.
Qed.

(** The context with another pointer in the hole, for a hole that has a node. *)
Lemma relink_spec d rp x y p Φ :
  x <> s ->
  x⟶parent ↦ par rp p -∗ repc rp x p -∗
  (x⟶parent ↦ par rp p -∗ repc rp y p -∗ Φ tt) -∗ wp (relink d tr x y) Φ.
Proof.
  iIntros (Hx) "Hp HC HΦ". unfold relink. destruct p as [|f p].
  - cbn [RbTree.repc]. wp_go. iApply ("HΦ" with "Hp HC").
  - iDestruct (repc_root with "HC") as (r) "(_ & Hr & %v & Hv & HC)".
    iDestruct (cell_neq with "Hp Hv") as %Hne. wp_go. iSpecialize ("HC" with "Hv Hr").
    destruct f as [d' c z k sib]. iDestruct (repc_cons with "HC") as "((H1 & H2 & H3) & H4 & H5)".
    cbn [par fx]. destruct (decide (d' = d)) as [->|Hd].
    + wp_go. iApply ("HΦ" with "Hp"). iApply repc_cons. iFrame.
    + assert (d' = opp d) as -> by (destruct d, d'; done).
      iDestruct (rep_parent_neq with "Hp H4") as %Hs; [done|].
      rewrite opp_opp. wp_go. iApply ("HΦ" with "Hp"). iApply repc_cons.
      unfold side_cells. rewrite opp_opp. by iFrame.
Qed.

(** A rotation, inside of any tree. *)
Lemma rotate_spec d rp c a x k c' b y k' e p Φ :
  rep (par rp p) (mk d c a x k (mk d c' b y k' e)) -∗ repc rp x p -∗
  (rep (par rp p) (mk d c' (mk d c a x k b) y k' e) -∗ repc rp y p -∗ Φ tt) -∗
  wp (rotate d tr s x) Φ.
Proof.
  rewrite !rep_mk !ptr_mk.
  iIntros "((Xd & Xo & Xp & Xc & Xk & %Hx) & Ha & (Yd & Yo & Yp & Yc & Yk & %Hy) & Hb & He) HC HΦ".
  unfold rotate. wp_go. wp_unbind. iApply (adopt_spec with "Yd Hb"). iIntros "Yd Hb". wp_go.
  wp_unbind. iApply (relink_spec with "Xp HC"); [done|]. iIntros "Xp HC". wp_go.
  iApply ("HΦ" with "[-HC] HC"). by iFrame.
Qed.
End Pieces.
