(* ===== verification/RbTreeSpec.v ===== *)
(** Red-black trees as trees: the colors and the black heights, the heights, the
    order of the keys, and the reference insertion into the list of nodes. *)
From S2P Require Import Prelude Memory RbTree.

(** ** Red-black trees *)

(** [rb c n t]: [t] has a root of the color [c] (no root is black) and the black
    height [n], no red node has a red child. *)
Inductive rb : bool -> nat -> tree -> Prop :=
  | rb_E : rb false 0 E
  | rb_R n l x k r : rb false n l -> rb false n r -> rb true n (T true l x k r)
  | rb_B cl cr n l x k r : rb cl n l -> rb cr n r -> rb false (S n) (T false l x k r).

(** [rbp c n p]: the hole of [p] takes a tree of the black height [n] with a black
    root, and with a red one as well when [c] holds. *)
Inductive rbp : bool -> nat -> path -> Prop :=
  | rbp_nil n : rbp false n []
  | rbp_R d n x k sib p : rb false n sib -> rbp true n p -> rbp false n (Fr d true x k sib :: p)
  | rbp_B d cs c n x k sib p :
      rb cs n sib -> rbp c (S n) p -> rbp true n (Fr d false x k sib :: p).

Lemma mk_opp d c a x k b : mk (opp d) c a x k b = mk d c b x k a.
Proof. by destruct d. Qed.

Lemma rb_mk_R d n a x k b : rb false n a -> rb false n b -> rb true n (mk d true a x k b).
Proof. destruct d; by constructor. Qed.
Lemma rb_mk_B d ca cb n a x k b : rb ca n a -> rb cb n b -> rb false (S n) (mk d false a x k b).
Proof. destruct d; by econstructor. Qed.
#[export] Hint Resolve rb_mk_R rb_mk_B : rb.
#[export] Hint Constructors rb rbp : rb.

Lemma rb_plug c n p c' t :
  rbp c n p -> rb c' n t -> (c' = true -> c = true) -> exists m, rb false m (plug p t).
Proof.
  intros Hp. revert c' t. induction Hp as [n|d n x k sib p Hs Hp IH|d cs c n x k sib p Hs Hp IH];
    intros c' t Ht Hc; cbn [plug fold_left fill]; unfold fill; cbn [fd fc fx fk fsib].
  - exists n. destruct c'; [|done]. by specialize (Hc eq_refl).
  - destruct c'; [by specialize (Hc eq_refl)|]. eapply IH; [by apply rb_mk_R|done].
  - eapply IH; [by eapply rb_mk_B|done].
Qed.

(** The nodes around the hole, in order, do not depend on the shape. *)
Definition same_elems (p : path) (t : tree) (p' : path) (t' : tree) : Prop :=
  elems (plug p t) = elems (plug p' t').

Lemma elems_mk d c a x k b :
  elems (mk d c a x k b) =
  match d with L => elems a ++ (x, k) :: elems b | R => elems b ++ (x, k) :: elems a end.
Proof. by destruct d. Qed.

Lemma same_elems_rest p q q' t t' :
  elems (plug q t) = elems (plug q' t') -> same_elems (q ++ p) t (q' ++ p) t'.
Proof. intros H. unfold same_elems. by rewrite !plug_app (elems_plug p) H -elems_plug. Qed.

Ltac solve_elems :=
  repeat match goal with d : dir |- _ => destruct d end;
  cbn; rewrite -?app_assoc; cbn; rewrite -?app_assoc; done.

(** ** Heights *)

Fixpoint height (t : tree) : nat :=
  match t with E => 0 | T _ l _ _ r => S (height l `max` height r) end.

Lemma rb_height c n t : rb c n t -> (height t <= 2 * n + (if c then 1 else 0))%nat.
Proof. induction 1 as [|n l x k r _ IHl _ IHr|cl cr n l x k r _ IHl _ IHr]; cbn [height]; [lia..|]. destruct cl, cr; lia. Qed.

Lemma rb_size c n t : rb c n t -> (2 ^ n <= S (length (elems t)))%nat.
Proof.
  induction 1 as [|n l x k r _ IHl _ IHr|cl cr n l x k r _ IHl _ IHr]; cbn [elems].
  - done.
  - rewrite length_app /=. lia.
  - rewrite length_app Nat.pow_succ_r' /=. lia.
Qed.

(** The height is at most twice the logarithm of the number of nodes. *)
Lemma rb_height_log n t :
  rb false n t -> (height t <= 2 * Nat.log2 (S (length (elems t))))%nat.
Proof.
  intros H. pose proof (rb_height _ _ _ H) as Hh. cbv iota in Hh. pose proof (rb_size _ _ _ H) as Hs.
  assert (n <= Nat.log2 (S (length (elems t))))%nat; [|lia].
  rewrite -(Nat.log2_pow2 n); [|lia]. by apply Nat.log2_le_mono.
Qed.

(** ** The place of a key *)

Section Place.
Context (less : Z -> Z -> bool).

Fixpoint descend (k : Z) (t : tree) (p : path) : path :=
  match t with
  | E => p
  | T c l x kx r =>
      if less k kx then descend k l (Fr L c x kx r :: p)
      else descend k r (Fr R c x kx l :: p)
  end.

Lemma descend_length k t p : (length (descend k t p) <= height t + length p)%nat.
Proof.
  revert p. induction t as [|c l IHl x kx r IHr]; intros p; cbn [descend height]; [lia|].
  destruct (less k kx); [specialize (IHl (Fr L c x kx r :: p))|specialize (IHr (Fr R c x kx l :: p))];
    cbn [length] in *; lia.
Qed.

(** What [insert_place] does to the black heights: it keeps them. *)
Lemma descend_rbp k t c c' n p :
  rb c n t -> rbp c' n p -> (c = true -> c' = true) -> exists c2, rbp c2 0 (descend k t p).
Proof.
  intros Ht. revert c' p. induction Ht as [|n l x kx r Hl IHl Hr IHr|cl cr n l x kx r Hl IHl Hr IHr];
    intros c' p Hp Hc; cbn [descend].
  - by exists c'.
  - assert (c' = true) as -> by auto.
    destruct (less k kx); [eapply IHl|eapply IHr]; try (by constructor); done.
  - destruct (less k kx); [eapply IHl|eapply IHr]; try (by econstructor); done.
Qed.

(** The keys that are compared are in [P], where [less] is an order. *)
Class KeyOrder (P : Z -> Prop) : Prop := {
  less_asym a b : P a -> P b -> less a b = true -> less b a = false;
  less_trans a b k : P a -> P b -> P k -> less k a = true -> less b a = false -> less k b = true
}.

(** The reference: insertion before the first greater key. *)
Fixpoint ins (e : Z * Z) (l : list (Z * Z)) : list (Z * Z) :=
  match l with
  | [] => [e]
  | y :: l => if less e.2 y.2 then e :: y :: l else y :: ins e l
  end.

Definition not_after (a b : Z * Z) : Prop := less b.2 a.2 = false.
Definition ordered (l : list (Z * Z)) : Prop := StronglySorted not_after l.

Lemma ins_app_l e l y r : less e.2 y.2 = true -> ins e (l ++ y :: r) = ins e l ++ y :: r.
Proof.
  intros H. induction l as [|a l IH]; cbn [ins app]; [by rewrite H|].
  destruct (less e.2 a.2); [done|]. by rewrite IH.
Qed.

Lemma ins_app_r e l r :
  Forall (fun a => less e.2 a.2 = false) l -> ins e (l ++ r) = l ++ ins e r.
Proof. induction 1 as [|a l Ha _ IH]; cbn [ins app]; [done|]. by rewrite Ha IH. Qed.

Context (P : Z -> Prop) {HP : KeyOrder P}.

Lemma descend_ins x k t p :
  P k -> Forall (fun e => P e.2) (elems t) -> ordered (elems t) ->
  before (descend k t p) ++ (x, k) :: after (descend k t p) =
  before p ++ ins (x, k) (elems t) ++ after p.
Proof.
  intros Hk. revert p. induction t as [|c l IHl y ky r IHr]; intros p Hall Ho; [done|].
  cbn [elems descend] in *. apply StronglySorted_app in Ho as (Ho3 & Ho1 & Ho2).
  apply Forall_app in Hall as [Hl Hyr]. apply Forall_cons in Hyr as [Hy Hr].
  apply StronglySorted_cons in Ho2 as [Hyr' Ho2].
  destruct (less k ky) eqn:E.
  - rewrite IHl // before_cons after_cons /= ins_app_l // app_nil_r. by rewrite -!app_assoc.
  - rewrite IHr // before_cons after_cons /=.
    assert (Hf : Forall (fun a => less k a.2 = false) (elems l ++ [(y, ky)])).
    { apply Forall_app. split; [|by repeat constructor]. apply Forall_forall. intros a Ha.
      destruct (less k a.2) eqn:Ea; [|done]. rewrite Forall_forall in Hl.
      assert (Hya : not_after a (y, ky)) by (apply Ho3; [done|by left]).
      by rewrite (less_trans a.2 ky k (Hl a Ha) Hy Hk Ea Hya) in E. }
    replace (elems l ++ (y, ky) :: elems r) with ((elems l ++ [(y, ky)]) ++ elems r)
      by by rewrite -app_assoc.
    rewrite (ins_app_r (x, k) _ _ Hf). by rewrite -!app_assoc.
Qed.

Lemma ins_ordered x k l :
  P k -> Forall (fun e => P e.2) l -> ordered l -> ordered (ins (x, k) l).
Proof.
  intros Hk. unfold ordered. induction l as [|y l IH]; intros Hall Ho; cbn [ins snd].
  { by repeat constructor. }
  apply Forall_cons in Hall as [Hy Hall]. apply StronglySorted_cons in Ho as [Hyl Ho].
  destruct (less k y.2) eqn:E.
  - constructor; [by constructor|]. constructor; [by apply less_asym|].
    apply Forall_forall. intros b Hb. rewrite !Forall_forall in Hyl Hall.
    apply less_asym; [done|by apply Hall|]. exact (less_trans y.2 b.2 k Hy (Hall b Hb) Hk E (Hyl b Hb)).
  - constructor; [by apply IH|]. clear IH. induction l as [|z l IH]; cbn [ins snd].
    + by repeat constructor.
    + apply Forall_cons in Hyl as [Hz Hyl]. destruct (less k z.2); [by repeat constructor|].
      apply StronglySorted_cons in Ho as [_ Ho]. apply Forall_cons in Hall as [_ Hall].
      constructor; [done|by apply IH].
Qed.
End Place.
