(* ===== verification/RbTreeInsert.v ===== *)
(** Insertion into the red-black trees of src/core/ngx_rbtree.c. *)
From S2P Require Import Prelude Memory RbTree RbTreeSpec.

(** ** The loop of [ngx_rbtree_insert] *)

Section Insert.
Context (s tr : Z).
Notation rep := (rep s).
Notation repc := (repc s tr).
Notation ptr := (ptr s).

(** The color of any tree, as the code reads it: the sentinel is black. *)
Definition tcolor (t : tree) : bool := match t with E => false | T c _ _ _ _ => c end.

Lemma rb_tcolor c n t : rb c n t -> tcolor t = c.
Proof. by destruct 1. Qed.

Lemma is_red_spec p t (Φ : bool -> hProp) :
  s⟶color ↦ 0 -∗ rep p t -∗ (s⟶color ↦ 0 -∗ rep p t -∗ Φ (tcolor t)) -∗
  wp (ngx_rbt_is_red (ptr t)) Φ.
Proof.
  iIntros "Hs Ht HΦ". unfold ngx_rbt_is_red. destruct t as [|c l x k r].
  - cbn [RbTree.ptr]. wp_go. iApply ("HΦ" with "Hs Ht").
  - cbn [RbTree.ptr RbTree.rep]. iDestruct "Ht" as "[(H1 & H2 & H3 & H4 & H5 & H6) Ht]". wp_go.
    replace (negb (Z.b2z c =? 0)) with c by (by destruct c).
    iApply ("HΦ" with "Hs"). iFrame.
Qed.

(** A red node with black subtrees of the black height [n]. *)
Definition red_node (n : nat) (t : tree) : Prop :=
  exists l x k r, t = T true l x k r /\ rb false n l /\ rb false n r.

Lemma red_node_rb n t : red_node n t -> rb true n t.
Proof. intros (l & x & k & r & -> & ? & ?). by constructor. Qed.

Lemma red_node_dir d n t : red_node n t ->
  exists a x k b, t = mk d true a x k b /\ rb false n a /\ rb false n b.
Proof. intros (l & x & k & r & -> & Hl & Hr). destruct d; [exists l, x, k, r|exists r, x, k, l]; done. Qed.

(** What the loop and its branches leave: the same nodes in order, a red node and
    a context that accepts one closer to the root. *)
Definition insert_post (rp : Z) (t0 : tree) (p0 : path) (node : Z) : hProp :=
  ∃ t p c n, ⌜node = ptr t /\ red_node n t /\ rbp c n p /\ same_elems p t p0 t0 /\
               (length p < length p0)%nat⌝ ∗
    s⟶color ↦ 0 ∗ rep (par rp p) t ∗ repc rp (ptr t) p.

Lemma insert_recolor rp d1 d2 n c t px pk psib gx gk gl ux uk ur p :
  red_node n t -> rb false n psib -> rb true n (T true gl ux uk ur) -> rbp c (S n) p ->
  let p0 := Fr d1 true px pk psib :: Fr d2 false gx gk (T true gl ux uk ur) :: p in
  s⟶color ↦ 0 -∗ rep px t -∗ repc rp (ptr t) p0 -∗
  wp (insert_case d2 tr s (ptr t)) (insert_post rp t p0).
Proof.
  intros Ht Hps Hu Hp p0. iIntros "Hs Ht HC".
  iDestruct (repc_cons with "HC") as "((P1 & P2 & P3 & P4 & P5 & %HP) & Hps & HC)".
  iDestruct (repc_cons with "HC") as "((G1 & G2 & G3 & G4 & G5 & %HG) & Hu & HC)".
  pose proof Ht as (tl & x & k & t2 & -> & Hl & Hr).
  cbn [RbTree.rep RbTree.ptr par fx].
  iDestruct "Ht" as "[(T1 & T2 & T3 & T4 & T5 & %HT) Ht]".
  iDestruct "Hu" as "[(U1 & U2 & U3 & U4 & U5 & %HU) Hu]".
  unfold insert_case, ngx_rbt_is_red, ngx_rbt_black, ngx_rbt_red. wp_go.
  inversion Hu; subst. iExists (mk d2 true (mk d1 false (T true tl x k t2) px pk psib) gx gk
    (T false gl ux uk ur)), p, c, (S n). iSplit.
  { iPureIntro. split_and!; [by rewrite ptr_mk| |done| |cbn; lia].
    - assert (rb false (S n) (mk d1 false (T true tl x k t2) px pk psib)) by eauto with rb.
      assert (rb false (S n) (T false gl ux uk ur)) by eauto with rb.
      unfold red_node. destruct d2; eauto 10.
    - apply (same_elems_rest p [] [Fr d1 true px pk psib; Fr d2 false gx gk (T true gl ux uk ur)]).
      solve_elems. }
  iFrame "Hs". rewrite ptr_mk !rep_mk. iFrame "HC". unfold side_cells. rewrite ptr_mk.
  cbn [RbTree.rep RbTree.ptr]. unfold node_cells. by iFrame.
Qed.

(** The outer rotation: [node] is the child of the red [px] on the side [d]. *)
Lemma insert_rotate rp d n t px pk psib gx gk gsib p (Φ : Z -> hProp) :
  rep px t -∗ repc rp (ptr t) (Fr d true px pk psib :: Fr d false gx gk gsib :: p) -∗
  s⟶color ↦ 0 -∗ ⌜red_node n t⌝ -∗
  (s⟶color ↦ 0 -∗ rep px t -∗
     repc rp (ptr t) (Fr d false px pk (mk (opp d) true gsib gx gk psib) :: p) -∗ Φ (ptr t)) -∗
  wp (insert_outer d tr s (ptr t)) Φ.
Proof.
  iIntros "Ht HC Hs %Ht HΦ". pose proof Ht as (tl & x & k & t2 & -> & Hl & Hr).
  iDestruct (repc_cons with "HC") as "((P1 & P2 & P3 & P4 & P5 & %HP) & Hps & HC)".
  iDestruct (repc_cons with "HC") as "((G1 & G2 & G3 & G4 & G5 & %HG) & Hgs & HC)".
  cbn [RbTree.rep RbTree.ptr par fx].
  iDestruct "Ht" as "[(T1 & T2 & T3 & T4 & T5 & %HT) Ht]".
  unfold insert_outer, ngx_rbt_black, ngx_rbt_red. wp_go.
  wp_unbind. iApply (rotate_spec _ _ (opp d) rp true gsib gx gk false psib px pk (T true tl x k t2)
    with "[-HC HΦ Hs] HC").
  { rewrite rep_mk mk_opp ptr_mk. unfold side_cells. rewrite opp_opp. iFrame "G1 G2 G3 G4 G5 Hgs".
    iSplit; [done|]. rewrite rep_mk. cbn [RbTree.ptr]. iFrame "P1 P2 P3 P4 P5 Hps".
    iSplit; [done|]. cbn [RbTree.rep]. unfold node_cells. by iFrame. }
  iIntros "H HC". wp_go. rewrite (mk_opp d false) rep_mk. iDestruct "H" as "(H1 & H2 & H3)".
  iApply ("HΦ" with "Hs H2"). iApply repc_cons. iFrame.
Qed.

Lemma insert_case_spec rp d1 d2 n c t px pk psib gx gk gsib p :
  red_node n t -> rb false n psib -> rb c n gsib ->
  (exists c', rbp c' (S n) p) ->
  let p0 := Fr d1 true px pk psib :: Fr d2 false gx gk gsib :: p in
  s⟶color ↦ 0 -∗ rep px t -∗ repc rp (ptr t) p0 -∗
  wp (insert_case d2 tr s (ptr t)) (insert_post rp t p0).
Proof.
  intros Ht Hps Hgs [c' Hp] p0. iIntros "Hs Ht HC".
  destruct (tcolor gsib) eqn:Eg.
  { destruct gsib as [|gc gl ux uk ur]; [done|]. cbn in Eg. subst gc.
    assert (c = true) as -> by (by inversion Hgs).
    by iApply (insert_recolor rp d1 d2 n c' with "Hs Ht HC"). }
  pose proof (rb_tcolor _ _ _ Hgs) as Hc. rewrite Eg in Hc. subst c.
  iDestruct (repc_cons with "HC") as "((P1 & P2 & P3 & P4 & P5 & %HP) & Hps & HC)".
  iDestruct (repc_cons with "HC") as "((G1 & G2 & G3 & G4 & G5 & %HG) & Hgs & HC)".
  pose proof Ht as (tl & x & k & t2 & -> & Hl & Hr). cbn [RbTree.rep RbTree.ptr par fx].
  iDestruct "Ht" as "[(T1 & T2 & T3 & T4 & T5 & %HT) Ht]".
  iDestruct (rep_parent_neq with "T3 Hps") as %Hne; [done|].
  unfold insert_case. wp_go. wp_unbind. iApply (is_red_spec with "Hs Hgs"). iIntros "Hs Hgs".
  rewrite Eg. wp_go. destruct (decide (d1 = d2)) as [->|Hd].
  - wp_go. iApply (insert_rotate rp d2 n (T true tl x k t2) px pk psib gx gk gsib p
      with "[T1 T2 T3 T4 T5 Ht] [P1 P2 P3 P4 P5 Hps G1 G2 G3 G4 G5 Hgs HC] Hs [//]").
    + cbn [RbTree.rep]. unfold node_cells. by iFrame.
    + rewrite !repc_cons. unfold side_cells. cbn [par fx RbTree.ptr]. by iFrame.
    + iIntros "Hs Ht HC". iExists (T true tl x k t2), _, true, n. iFrame. iPureIntro. cbn [RbTree.ptr].
      split_and!; [done|done| | |cbn; lia].
      * econstructor; [rewrite mk_opp; by apply rb_mk_R|exact Hp].
      * apply (same_elems_rest p [_] [_; _]). solve_elems.
  - assert (d1 = opp d2) as -> by (destruct d1, d2; done). rewrite opp_opp. wp_go.
    destruct (red_node_dir d2 _ _ Ht) as (a & y & ky & b & Hab & Ha & Hb).
    assert (y = x) as -> by (by destruct d2; injection Hab).
    wp_unbind. iApply (rotate_spec _ _ d2 rp true psib px pk true a x ky b
      (Fr d2 false gx gk gsib :: p) with "[T1 T2 T3 T4 T5 Ht P1 P2 P3 P4 P5 Hps] [G1 G2 G3 G4 G5 Hgs HC]").
    { rewrite rep_mk -Hab. unfold side_cells. cbn [RbTree.rep RbTree.ptr].
      unfold node_cells. by iFrame. }
    { iApply repc_cons. unfold side_cells. cbn [par fx]. by iFrame "G1 G2 G3 G4 G5 Hgs HC". }
    iIntros "H HC". wp_go. iDestruct (rep_mk with "H") as "(HX & H & Hb)".
    pose proof (insert_rotate rp d2 n (mk d2 true psib px pk a) x ky b gx gk gsib p
                  (insert_post rp (T true tl x k t2) p0)) as Hrot.
    rewrite !ptr_mk in Hrot. iApply (Hrot with "H [HX Hb HC] Hs [%]").
    + iApply repc_cons. iFrame "Hb HC". by rewrite ptr_mk.
    + destruct d2; cbn; unfold red_node; eauto 10.
    + iIntros "Hs H HC". iExists (mk d2 true psib px pk a), _, true, n. rewrite ptr_mk. iFrame.
      iPureIntro. split_and!; [done| | | |cbn; lia].
      * destruct d2; cbn; unfold red_node; eauto 10.
      * econstructor; [rewrite mk_opp; by apply rb_mk_R|exact Hp].
      * apply (same_elems_rest p [_] [_; _]). rewrite Hab. solve_elems.
Qed.

Lemma parent_side_spec rp d1 d2 c1 c2 t px pk psib gx gk gsib p (Φ : dir -> hProp) :
  let p0 := Fr d1 c1 px pk psib :: Fr d2 c2 gx gk gsib :: p in
  t <> E ->
  rep px t -∗ repc rp (ptr t) p0 -∗
  (rep px t -∗ repc rp (ptr t) p0 -∗ Φ d2) -∗ wp (parent_side (ptr t)) Φ.
Proof.
  iIntros (p0 Ht) "Ht HC HΦ".
  iDestruct (rep_parent_acc with "Ht") as "(T3 & %Hts & Ht)"; [done|].
  iDestruct (repc_cons with "HC") as "((P1 & P2 & P3 & P4 & P5 & %HP) & Hps & HC)".
  iDestruct (repc_cons with "HC") as "((G1 & G2 & G3 & G4 & G5 & %HG) & Hgs & HC)".
  iDestruct (rep_parent_neq with "P3 Hgs") as %Hpg; [done|].
  cbn [par fx]. unfold parent_side. destruct d2; cbn [side opp]; wp_go; iSpecialize ("Ht" with "T3");
    iApply ("HΦ" with "Ht"); unfold p0; rewrite !repc_cons; unfold side_cells; cbn [par fx side opp];
    by iFrame "P1 P2 P3 P4 P5 Hps G1 G2 G3 G4 G5 Hgs HC".
Qed.

(** The loop: at the root, or under a black node, it stops. *)
Lemma insert_loop_spec rp fuel t p c n (Φ : unit -> hProp) :
  (length p < fuel)%nat -> red_node n t -> rbp c n p ->
  s⟶color ↦ 0 -∗ rep (par rp p) t -∗ repc rp (ptr t) p -∗
  (∀ t' p' c' n', ⌜red_node n' t' /\ rbp c' n' p' /\ same_elems p' t' p t /\
                    (c' = true \/ p' = [])⌝ -∗
     s⟶color ↦ 0 -∗ rep (par rp p') t' -∗ repc rp (ptr t') p' -∗ Φ tt) -∗
  wp (insert_loop fuel tr s (ptr t)) Φ.
Proof.
  revert t p c n. induction fuel as [|fuel IH]; intros t p c n Hf Ht Hp; [lia|].
  iIntros "Hs Ht HC HΦ". cbn [insert_loop].
  assert (Hne : t <> E) by (destruct Ht as (? & ? & ? & ? & -> & _); done).
  destruct p as [|[d1 pc px pk psib] p].
  { cbn [RbTree.repc]. wp_go. iApply ("HΦ" $! t [] c n with "[%] Hs Ht HC").
    split_and!; [done|done|done|by right]. }
  iDestruct (repc_root with "HC") as (r) "(_ & Hroot & %v & Hv & HC)".
  iDestruct (rep_parent_acc with "Ht") as "(T3 & %Hts & Ht)"; [done|].
  iDestruct (cell_neq with "T3 Hv") as %Hr. wp_go. iSpecialize ("HC" with "Hv Hroot").
  iDestruct (repc_cons with "HC") as "((P1 & P2 & P3 & P4 & P5 & %HP) & Hps & HC)".
  unfold ngx_rbt_is_red at 1. cbn [par fx]. wp_go.
  destruct pc; cbn [Z.b2z Z.eqb negb].
  - inversion Hp as [|? ? ? ? ? ? Hrb Hp2|]; subst.
    inversion Hp2 as [| |d2 cs c2 ? gx gk gsib p' Hgs Hp3]; subst.
    iSpecialize ("Ht" with "T3"). wp_unbind.
    iApply (parent_side_spec rp d1 d2 true false _ px pk psib gx gk gsib p'
      with "Ht [P1 P2 P3 P4 P5 Hps HC]"); [done| |iIntros "Ht HC"].
    { iApply repc_cons. unfold side_cells. cbn [Z.b2z]. by iFrame "P1 P2 P3 P4 P5 Hps HC". }
    wp_unbind. iApply (wp_wand with "[Hs Ht HC]").
    { iApply (insert_case_spec with "Hs Ht HC"); [exact Ht|done|done|by exists c2]. }
    iIntros (node) "(%t' & %q & %c' & %n' & (-> & %Ht' & %Hq & %Hse & %Hlen) & Hs & Ht & HC)".
    iApply (IH with "Hs Ht HC"); [cbn in *; lia|done|done|].
    iIntros (t3 q3 c3 n3 (H1 & H2 & H3 & H4)) "Hs Ht HC".
    iApply ("HΦ" $! t3 q3 c3 n3 with "[%] Hs Ht HC"). split_and!; [done|done| |done].
    unfold same_elems in *. congruence.
  - assert (c = true) as -> by by inversion Hp.
    iSpecialize ("Ht" with "T3"). wp_go. iApply ("HΦ" $! t (Fr d1 false px pk psib :: p) true n with "[%] Hs Ht").
    + split_and!; [done|done|done|by left].
    + iApply repc_cons. unfold side_cells. cbn [Z.b2z]. by iFrame "P1 P2 P3 P4 P5 Hps HC".
Qed.

(** ** The descent *)

Lemma insert_place_spec rp less fuel x k t p (Φ : Z * field -> hProp) :
  (height t <= fuel)%nat -> t <> E ->
  x⟶key ↦ k -∗ rep (par rp p) t -∗ repc rp (ptr t) p -∗
  (∀ f q, ⌜descend less k t p = f :: q⌝ -∗ x⟶key ↦ k -∗ repc rp s (f :: q) -∗
     Φ (fx f, side (fd f))) -∗
  wp (insert_place fuel less (ptr t) x s) Φ.
Proof.
  revert t p. induction fuel as [|fuel IH]; intros t p Hh Ht.
  { destruct t; [done|]. cbn in Hh. lia. }
  destruct t as [|c l y ky r]; [done|]. cbn [height] in Hh. cbn [insert_place].
  iIntros "Hx Ht HC HΦ". cbn [RbTree.rep RbTree.ptr].
  iDestruct "Ht" as "[(T1 & T2 & T3 & T4 & T5 & %Hy) [Hl Hr]]". wp_go.
  set (d := if less k ky then L else R). set (t1 := if less k ky then l else r).
  set (t2 := if less k ky then r else l).
  assert (Hd : descend less k (T c l y ky r) p = descend less k t1 (Fr d c y ky t2 :: p)).
  { cbn [descend]. unfold d, t1, t2. by destruct (less k ky). }
  iAssert (side_cells s d y (ptr t1) (ptr t2) (par rp p) c ky ∗ rep y t1 ∗ rep y t2)%I
    with "[T1 T2 T3 T4 T5 Hl Hr]" as "((D1 & D2 & D3) & H1 & H2)".
  { unfold d, t1, t2. destruct (less k ky); by iFrame. }
  replace (if less k ky then left else right) with (side d) by (unfold d; by destruct (less k ky)).
  wp_go. destruct t1 as [|c1 l1 y1 k1 r1] eqn:E1.
  - cbn [RbTree.ptr]. wp_go.
    iApply ("HΦ" $! (Fr d c y ky t2) p with "[%] Hx"); [by rewrite Hd|]. iApply repc_cons. iFrame.
  - iDestruct (rep_parent_acc with "H1") as "(Hp & %Hn & H1)"; [done|]. cbn [RbTree.ptr] in *.
    wp_go. iSpecialize ("H1" with "Hp").
    iApply (IH (T c1 l1 y1 k1 r1) (Fr d c y ky t2 :: p) with "Hx H1 [D1 D2 D3 H2 HC]"); [|done| |].
    + rewrite -E1. unfold t1. destruct (less k ky); lia.
    + iApply repc_cons. iFrame.
    + iIntros (f q Hq). rewrite -Hd in Hq. by iApply ("HΦ" with "[%]").
Qed.

(** A node that is not in the tree, with its key set by the caller. *)
Definition fresh (x k : Z) : hProp :=
  ∃ l r p c, x⟶left ↦ l ∗ x⟶right ↦ r ∗ x⟶parent ↦ p ∗ x⟶color ↦ c ∗ x⟶key ↦ k.

Lemma fresh_node x k : s⟶color ↦ 0 -∗ fresh x k -∗ ⌜x <> s⌝.
Proof. iIntros "Hs (% & % & % & % & _ & _ & _ & Hc & _)". iApply (cell_neq with "Hc Hs"). Qed.

Lemma insert_by_spec rp less fuel x k t (Φ : unit -> hProp) :
  (height t <= fuel)%nat -> t <> E ->
  s⟶color ↦ 0 -∗ fresh x k -∗ rep rp t -∗ repc rp (ptr t) [] -∗
  (s⟶color ↦ 0 -∗ rep (par rp (descend less k t [])) (T true E x k E) -∗
     repc rp x (descend less k t []) -∗ Φ tt) -∗
  wp (insert_by less fuel (ptr t) x s) Φ.
Proof.
  iIntros (Hh Ht) "Hs Hx Ht HC HΦ". iDestruct (fresh_node with "Hs Hx") as %Hxs.
  iDestruct "Hx" as "(%l & %r & %p & %c & X1 & X2 & X3 & X4 & X5)".
  unfold insert_by, ngx_rbt_red. wp_unbind. iApply (insert_place_spec rp less fuel x k t [] with "X5 Ht HC"); [done|done|].
  iIntros (f q Hq) "X5 HC". rewrite Hq. destruct f as [d fc fx fk fsib].
  iDestruct (repc_cons with "HC") as "((D1 & D2) & D3)". cbn [par RbTree.fx RbTree.fd]. wp_go.
  iApply ("HΦ" with "Hs [X1 X2 X3 X4 X5]").
  - cbn [RbTree.rep RbTree.ptr]. unfold node_cells. by iFrame.
  - iApply repc_cons. iFrame.
Qed.

(** The tree object, its sentinel and its nodes. *)
Definition tree_rep (t : tree) : hProp :=
  tr⟶sentinel ↦ s ∗ tr⟶root ↦ ptr t ∗ (∃ rp, rep rp t) ∗ s⟶color ↦ 0 ∗ (∃ p, s⟶parent ↦ p).

Definition valid (t : tree) : Prop := exists n, rb false n t.

(** Any tree whose only fault is a red root. *)
Lemma blacken c n t : rb c n t -> exists t', valid t' /\ elems t' = elems t /\ ptr t' = ptr t /\
  forall rp Φ, rep rp t -∗ (rep rp t' -∗ Φ tt) -∗ (⌜t <> E⌝ -∗ wp (ngx_rbt_black (ptr t)) Φ).
Proof.
  intros Ht. destruct t as [|c0 l x k r].
  { exists E. split_and!; [by exists 0%nat; constructor|done|done|]. intros. iIntros "_ _ %". done. }
  exists (T false l x k r). split_and!; [|done|done|].
  - inversion Ht; subst; eexists; econstructor; done.
  - intros rp Φ. cbn [RbTree.rep RbTree.ptr]. iIntros "[(T1 & T2 & T3 & T4 & T5 & %Hx) Ht] HΦ _".
    unfold ngx_rbt_black. wp_go. iApply "HΦ". by iFrame.
Qed.

Lemma insert_spec less fuel x k t :
  valid t -> (height t < fuel)%nat ->
  tree_rep t ∗ fresh x k ⊢
  wp (ngx_rbtree_insert (insert_by less) fuel tr x)
    (fun _ => ∃ t', ⌜valid t' /\ elems t' = before (descend less k t []) ++ (x, k) ::
                       after (descend less k t [])⌝ ∗ tree_rep t')%I.
Proof.
  iIntros ([n Hn] Hh) "[(H1 & H2 & (%rp & Ht) & Hs & H3) Hx]". unfold ngx_rbtree_insert.
  wp_go. assert (Hor : t = E \/ t <> E) by (destruct t; [by left|by right]).
  destruct Hor as [->|Hne].
  - cbn [RbTree.ptr]. iDestruct (fresh_node with "Hs Hx") as %Hxs.
    iDestruct "Hx" as "(%l & %r & %p & %c & X1 & X2 & X3 & X4 & X5)". unfold ngx_rbt_black. wp_go.
    iExists (T false E x k E). iSplit.
    { iPureIntro. split; [|done]. exists 1%nat. by repeat econstructor. }
    iFrame "H1 H2 Hs H3". iExists NULL. cbn [RbTree.rep RbTree.ptr]. unfold node_cells. by iFrame.
  - iDestruct (rep_parent_acc with "Ht") as "(Hp & %Hts & Ht)"; [done|].
    wp_go. iSpecialize ("Ht" with "Hp"). wp_unbind.
    iApply (insert_by_spec with "Hs Hx Ht [H2]"); [lia|done|iExact "H2"|]. iIntros "Hs Hx HC".
    destruct (descend_rbp less k t false false n [] Hn (rbp_nil n)) as [c2 Hp]; [done|].
    wp_unbind. iApply (insert_loop_spec rp fuel (T true E x k E) with "Hs Hx HC"); [|by exists E, x, k, E; repeat constructor|exact Hp|].
    { pose proof (descend_length less k t []) as Hl. cbn in Hl. lia. }
    iIntros (t' p' c' n' (Hr & Hp' & Hse & Hor)) "Hs Ht HC".
    iCombine "Ht HC" as "H". iDestruct (repc_plug with "H") as "[Ht Hroot]".
    assert (Hrb : exists c n, rb c n (plug p' t')).
    { destruct Hor as [->| ->].
      - destruct (rb_plug _ _ _ _ _ Hp' (red_node_rb _ _ Hr)) as [m Hm]; [done|]. eauto.
      - exists true, n'. by apply red_node_rb. }
    destruct Hrb as (c3 & n3 & Hrb). destruct (blacken _ _ _ Hrb) as (t4 & Hv & He & Hptr & Hbl).
    wp_go. iApply (Hbl with "Ht [-]").
    + iIntros "Ht". iExists t4. iFrame "H1 Ht Hs H3". rewrite Hptr. iFrame. iPureIntro.
      split; [done|]. rewrite He. etrans; [exact Hse|]. by rewrite elems_plug.
    + iPureIntro. intros HE. destruct Hr as (? & ? & ? & ? & -> & _).
      apply (f_equal (length ∘ elems)) in HE. rewrite /= elems_plug !length_app /= in HE. rewrite ?length_app /= in HE. lia.
Qed.
End Insert.
