(* ===== verification/RbTreeDelete.v ===== *)
(** Deletion from the red-black trees of src/core/ngx_rbtree.c. *)
From S2P Require Import Prelude Memory RbTree RbTreeSpec RbTreeInsert.

Section Delete.
Context (s tr : Z).
Notation rep := (rep s).
Notation repc := (repc s tr).
Notation ptr := (ptr s).

(** ** The loop *)

(** A tree whose parent pointer is right even when it is the sentinel: the code
    writes [temp->parent] without a test, and reads it in the loop. *)
Definition repd (p : Z) (t : tree) : hProp :=
  rep p t ∗ ∃ q, s⟶parent ↦ q ∗ ⌜t = E -> q = p⌝.

Lemma repd_parent p t :
  repd p t -∗ ptr t⟶parent ↦ p ∗ (∀ q, ptr t⟶parent ↦ q -∗ repd q t).
Proof.
  iIntros "(Ht & %q & Hs & %Hq)". destruct t as [|c l x k r].
  - rewrite (Hq eq_refl). iFrame "Hs". iIntros (q') "Hs".
    iSplit; [done|]. iExists q'. by iFrame.
  - iDestruct (rep_parent_acc with "Ht") as "(Hp & _ & Ht)"; [done|]. iFrame "Hp".
    iIntros (q') "Hp". iSplitL "Ht Hp"; [by iApply "Ht"|]. iExists q. by iFrame.
Qed.

(** All but the root is as it should be: [n] is the black height. *)
Inductive wk : nat -> tree -> Prop :=
  | wk_E : wk 0 E
  | wk_T (c : bool) cl cr n l x k r :
      rb cl n l -> rb cr n r -> wk (if c then n else S n) (T c l x k r).

Lemma wk_mk d (c : bool) ca cb n a x k b :
  rb ca n a -> rb cb n b -> wk (if c then n else S n) (mk d c a x k b).
Proof. destruct d; intros; by econstructor. Qed.

Lemma rb_wk c n t : rb c n t -> wk n t.
Proof.
  destruct 1 as [|n l x k r Hl Hr|cl cr n l x k r Hl Hr]; [constructor| |].
  - by apply (wk_T true false false n).
  - by apply (wk_T false cl cr n).
Qed.

Lemma wk_black n t : wk n t -> tcolor t = false -> rb false n t.
Proof. destruct 1 as [|[] cl cr n l x k r Hl Hr]; cbn; intros; [constructor|done|by econstructor]. Qed.

(** The root blackened, as at the end of [ngx_rbtree_delete]. *)
Definition black (t : tree) : tree := match t with E => E | T _ l x k r => T false l x k r end.

Lemma wk_red n t : wk n t -> tcolor t = true -> rb false (S n) (black t).
Proof. destruct 1 as [|[] cl cr n l x k r Hl Hr]; cbn; intros; [done|by econstructor|done]. Qed.

Lemma wk_any n t : wk n t -> exists m, rb false m (black t).
Proof. destruct 1 as [|c cl cr n l x k r Hl Hr]; cbn; eexists; econstructor; done. Qed.

(** What the loop and its branches leave. *)
Definition delete_post (rp : Z) (t0 : tree) (p0 : path) (node : Z) : hProp :=
  ∃ t p c n, ⌜node = ptr t /\ wk n t /\ rbp c (S n) p /\ same_elems p t p0 t0 /\
               ((length p < length p0)%nat \/ tcolor t = true)⌝ ∗
    s⟶color ↦ 0 ∗ repd (par rp p) t ∗ repc rp (ptr t) p.

Lemma is_black_spec p t (Φ : bool -> hProp) :
  s⟶color ↦ 0 -∗ rep p t -∗ (s⟶color ↦ 0 -∗ rep p t -∗ Φ (negb (tcolor t))) -∗
  wp (ngx_rbt_is_black (ptr t)) Φ.
Proof.
  iIntros "Hs Ht HΦ". unfold ngx_rbt_is_black. wp_unbind. iApply (is_red_spec with "Hs Ht").
  iIntros "Hs Ht". wp_go. iApply ("HΦ" with "Hs Ht").
Qed.

Lemma both_black_spec d w a b (Φ : bool -> hProp) :
  w⟶(side d) ↦ ptr a -∗ w⟶(side (opp d)) ↦ ptr b -∗ s⟶color ↦ 0 -∗ rep w a -∗ rep w b -∗
  (w⟶(side d) ↦ ptr a -∗ w⟶(side (opp d)) ↦ ptr b -∗ s⟶color ↦ 0 -∗ rep w a -∗ rep w b -∗
     Φ (negb (tcolor a) && negb (tcolor b))) -∗
  wp (both_black w) Φ.
Proof.
  iIntros "Ha Hb Hs Hta Htb HΦ". unfold both_black. destruct d; cbn [side opp].
  - wp_go. wp_unbind. iApply (is_black_spec with "Hs Hta"). iIntros "Hs Hta".
    destruct (tcolor a) eqn:Ea; cbn [negb].
    + wp_go. iApply ("HΦ" with "Ha Hb Hs Hta Htb").
    + wp_go. iApply (is_black_spec with "Hs Htb"). iIntros "Hs Htb".
      iApply ("HΦ" with "Ha Hb Hs Hta Htb").
  - wp_go. wp_unbind. iApply (is_black_spec with "Hs Htb"). iIntros "Hs Htb".
    destruct (tcolor b) eqn:Eb; cbn [negb].
    + wp_go. rewrite andb_false_r. iApply ("HΦ" with "Ha Hb Hs Hta Htb").
    + wp_go. iApply (is_black_spec with "Hs Hta"). iIntros "Hs Hta". rewrite andb_true_r.
      iApply ("HΦ" with "Ha Hb Hs Hta Htb").
Qed.

(** The last rotation: the far child of [w] is red. *)
Lemma delete_finish_spec rp d cp t px pk cw a wx wk' bl bx bk br p (Φ : Z -> hProp) :
  repd px t -∗ repc rp (ptr t) (Fr d cp px pk (mk d cw a wx wk' (T true bl bx bk br)) :: p) -∗
  (let t' := plug p (mk d cp (mk d false t px pk a) wx wk' (T false bl bx bk br)) in
   (∃ q, s⟶parent ↦ q) -∗ rep rp t' -∗ repc rp (ptr t') [] -∗ Φ (ptr t')) -∗
  wp (delete_finish d tr s (ptr t) wx) Φ.
Proof.
  iIntros "Ht HC HΦ".
  iDestruct (repc_cons with "HC") as "((P1 & P2 & P3 & P4 & P5 & %HP) & Hw & HC)".
  iDestruct (rep_mk with "Hw") as "((W1 & W2 & W3 & W4 & W5 & %HW) & Ha & Hb)".
  iDestruct "Hb" as "[(B1 & B2 & B3 & B4 & B5 & %HB) Hb]". rewrite ptr_mk.
  iDestruct (repd_parent with "Ht") as "[Tp Ht]". cbn [RbTree.ptr].
  unfold delete_finish, ngx_rbt_copy_color, ngx_rbt_black. wp_go.
  iSpecialize ("Ht" with "Tp"). iDestruct "Ht" as "(Ht & %q & Hq & _)". wp_unbind.
  iApply (rotate_spec _ _ d rp false t px pk cp a wx wk' (T false bl bx bk br)
    with "[P1 P2 P3 P4 P5 W1 W2 W3 W4 W5 B1 B2 B3 B4 B5 Ht Ha Hb] HC").
  { rewrite !rep_mk ptr_mk. unfold side_cells. cbn [RbTree.rep RbTree.ptr]. unfold node_cells.
    by iFrame. }
  set (t' := mk d cp (mk d false t px pk a) wx wk' (T false bl bx bk br)).
  iIntros "Ht HC". iAssert (repc rp (ptr t') p) with "[HC]" as "HC"; [by rewrite /t' ptr_mk|].
  iCombine "Ht HC" as "H". iDestruct (repc_plug with "H") as "[Ht Hroot]". wp_go.
  iApply ("HΦ" with "[Hq] Ht Hroot"). by iExists q.
Qed.

Lemma finish_valid d cp c n W p t px pk ca a wx kw b :
  rbp c (S n) (Fr d cp px pk W :: p) -> rb false n t -> rb ca n a -> rb false (S n) b ->
  exists m, rb false m (plug p (mk d cp (mk d false t px pk a) wx kw b)).
Proof.
  intros Hp Ht Ha Hb. assert (Hl : rb false (S n) (mk d false t px pk a)) by by eapply rb_mk_B.
  inversion Hp; subst.
  - eapply rb_plug; [done|by apply rb_mk_R|done].
  - eapply rb_plug; [done|by eapply rb_mk_B|done].
Qed.

(** What the branches with a black sibling [w] leave: the whole tree, or the parent
    with a deficit. *)
Definition black_post (rp : Z) (t0 : tree) (p0 : path) (cp : bool) (p : path) (node : Z) : hProp :=
  ∃ t' p' c' n', ⌜node = ptr t' /\ wk n' t' /\ rbp c' (S n') p' /\ same_elems p' t' p0 t0 /\
                   (p' = [] \/ p' = p /\ tcolor t' = cp)⌝ ∗
    s⟶color ↦ 0 ∗ repd (par rp p') t' ∗ repc rp (ptr t') p'.

Lemma finish_post rp d cp c t px pk W cw a ca wx kw b cb n p p0 :
  rb false n t -> rb ca n a -> rb cb n b -> tcolor b = true ->
  rbp c (S n) (Fr d cp px pk W :: p) ->
  same_elems (Fr d cp px pk (mk d cw a wx kw b) :: p) t p0 t ->
  s⟶color ↦ 0 -∗ repd px t -∗ repc rp (ptr t) (Fr d cp px pk (mk d cw a wx kw b) :: p) -∗
  wp (delete_finish d tr s (ptr t) wx) (black_post rp t p0 cp p).
Proof.
  intros Ht Ha Hb Hc Hp Hse. destruct b as [|c0 bl bx bk br]; [done|]. cbn in Hc. subst c0.
  iIntros "Hs Ht HC". iApply (delete_finish_spec with "Ht HC"). iIntros "Hq Ht HC".
  assert (Hb' : rb false (S n) (T false bl bx bk br)).
  { inversion Hb; subst. by econstructor. }
  destruct (finish_valid d cp c n W p t px pk ca a wx kw _ Hp Ht Ha Hb') as [m Hm].
  iExists _, [], false, m. iSplit.
  - iPureIntro. split_and!; [done|by eapply rb_wk|constructor| |by left].
    etrans; [|exact Hse]. unfold same_elems. rewrite (elems_plug []) /=.
    rewrite app_nil_r. apply (same_elems_rest p [] [_]). solve_elems.
  - iFrame "Hs Ht HC". iDestruct "Hq" as (q) "Hq". iExists q. iFrame. iPureIntro. intros HE.
    apply (f_equal elems) in HE. rewrite elems_plug elems_mk in HE.
    apply (f_equal length) in HE. destruct d; rewrite !length_app /= ?length_app /= in HE; lia.
Qed.

(** The near child of [w] is red, the far one black: the first of two rotations. *)
Lemma delete_near_spec rp d cp c t px pk a wx kw b n p p0 :
  rb false n t -> rb true n a -> rb false n b ->
  rbp c (S n) (Fr d cp px pk (mk d false a wx kw b) :: p) ->
  same_elems (Fr d cp px pk (mk d false a wx kw b) :: p) t p0 t ->
  s⟶color ↦ 0 -∗ repd px t -∗ repc rp (ptr t) (Fr d cp px pk (mk d false a wx kw b) :: p) -∗
  wp (w ← (wl ← wx⟶(side d); ngx_rbt_black wl;;
           ngx_rbt_red wx;;
           rotate (opp d) tr s wx;;
           p ← ptr t⟶parent; p⟶(side (opp d)));
      delete_finish d tr s (ptr t) w) (black_post rp t p0 cp p).
Proof.
  intros Ht Ha Hb Hp Hse.
  assert (exists a1 ax ak a2, a = mk d true a1 ax ak a2 /\ rb false n a1 /\ rb false n a2)
    as (a1 & ax & ak & a2 & -> & Ha1 & Ha2).
  { inversion Ha; subst. apply (red_node_dir d). unfold red_node. eauto 10. }
  iIntros "Hs (Ht & %q & Hq & %Hq) HC".
  iDestruct (repc_cons with "HC") as "((P1 & P2 & P3 & P4 & P5 & %HP) & Hw & HC)".
  iDestruct (rep_mk with "Hw") as "((W1 & W2 & W3 & W4 & W5 & %HW) & Ha & Hb)".
  iDestruct (rep_mk with "Ha") as "((A1 & A2 & A3 & A4 & A5 & %HA) & Ha1 & Ha2)". rewrite !ptr_mk.
  unfold ngx_rbt_black, ngx_rbt_red. wp_go. wp_unbind.
  iApply (rotate_spec _ _ (opp d) rp true b wx kw false a2 ax ak a1 (Fr (opp d) cp px pk t :: p)
    with "[W1 W2 W3 W4 W5 A1 A2 A3 A4 A5 Ha1 Ha2 Hb] [P1 P2 P3 P4 P5 HC Ht]").
  { rewrite !rep_mk ptr_mk. unfold side_cells. rewrite opp_opp. by iFrame. }
  { iApply repc_cons. unfold side_cells. rewrite opp_opp. by iFrame. }
  iIntros "Hw HC".
  iDestruct (repc_cons with "HC") as "((P1 & P2 & P3 & P4 & P5 & _) & Ht & HC)".
  iAssert (repd px t) with "[Ht Hq]" as "Ht"; [by iFrame|].
  iDestruct (repd_parent with "Ht") as "[Tp Ht]". wp_go. iSpecialize ("Ht" with "Tp").
  rewrite !mk_opp. rewrite opp_opp.
  iApply (finish_post rp d cp c t px pk (mk d false (mk d true a1 ax ak a2) wx kw b) false a1 false
    ax ak (mk d true a2 wx kw b) true n p p0 with "Hs Ht"); try done.
  - by apply rb_mk_R.
  - by destruct d.
  - etrans; [|exact Hse]. apply (same_elems_rest p [_] [_]). solve_elems.
  - iApply repc_cons. rewrite ptr_mk. unfold side_cells. by iFrame.
Qed.

(** The branch with a black sibling [w]. *)
Lemma delete_black_spec rp d cp c t px pk a wx kw b ca cb n p :
  rb false n t -> rb ca n a -> rb cb n b ->
  rbp c (S n) (Fr d cp px pk (mk d false a wx kw b) :: p) ->
  let p0 := Fr d cp px pk (mk d false a wx kw b) :: p in
  s⟶color ↦ 0 -∗ repd px t -∗ repc rp (ptr t) p0 -∗
  wp (delete_black d tr s (ptr t) wx) (black_post rp t p0 cp p).
Proof.
  intros Ht Ha Hb Hp p0. iIntros "Hs Ht HC". unfold delete_black.
  iDestruct (repc_cons with "HC") as "((P1 & P2 & P3 & P4 & P5 & %HP) & Hw & HC)".
  iDestruct (rep_mk with "Hw") as "((W1 & W2 & W3 & W4 & W5 & %HW) & Ha & Hb)". rewrite ptr_mk.
  wp_unbind. iApply (both_black_spec with "W1 W2 Hs Ha Hb"). iIntros "W1 W2 Hs Ha Hb".
  pose proof (rb_tcolor _ _ _ Ha) as Hca. pose proof (rb_tcolor _ _ _ Hb) as Hcb.
  destruct (negb (tcolor a) && negb (tcolor b)) eqn:Eab.
  - iDestruct (repd_parent with "Ht") as "[Tp Ht]". unfold ngx_rbt_red. wp_go.
    iSpecialize ("Ht" with "Tp"). iDestruct "Ht" as "(Ht & %q & Hq & _)".
    apply andb_true_iff in Eab as [E1%negb_true_iff E2%negb_true_iff].
    rewrite E1 in Hca. rewrite E2 in Hcb. subst ca cb.
    assert (exists c', rbp c' (S (if cp then n else S n)) p) as [c' Hp'] by (inversion Hp; eauto).
    iExists (mk d cp t px pk (mk d true a wx kw b)), p, c', (if cp then n else S n). iSplit.
    { iPureIntro. split_and!; [by rewrite ptr_mk|eapply (wk_mk d cp false true n); [done|by apply rb_mk_R]|done| |].
      - apply (same_elems_rest p [] [_]). solve_elems.
      - right. by destruct d. }
    iFrame "Hs". rewrite ptr_mk. iFrame "HC". iSplitR "Hq"; [|iExists q; iFrame; iPureIntro; by destruct d].
    rewrite !rep_mk ptr_mk. unfold side_cells. by iFrame.
  - wp_go. wp_unbind. iApply (is_black_spec with "Hs Hb"). iIntros "Hs Hb".
    destruct (tcolor b) eqn:Eb; cbn [negb].
    + wp_go. iApply (finish_post rp d cp c t px pk _ false a ca wx kw b cb n p p0 with "Hs Ht"); try done.
      iApply repc_cons. rewrite rep_mk ptr_mk. by iFrame.
    + assert (Ea : tcolor a = true) by by destruct (tcolor a).
      rewrite Ea in Hca. subst ca cb.
      iApply (delete_near_spec rp d cp c t px pk a wx kw b n p p0 with "Hs Ht"); try done.
      iApply repc_cons. rewrite rep_mk ptr_mk. by iFrame.
Qed.

Lemma rb_node c n t : rb c (S n) t -> exists l x k r, t = T c l x k r.
Proof. inversion 1; eauto. Qed.

Lemma rb_dir d c n t : rb c n t -> t <> E -> exists ca cb a x k b m,
  t = mk d c a x k b /\ rb ca m a /\ rb cb m b /\ n = (if c then m else S m) /\
  (c = true -> ca = false /\ cb = false).
Proof.
  destruct 1 as [|n l x k r Hl Hr|cl cr n l x k r Hl Hr]; intros Hne; [done| |].
  - destruct d; [exists false, false, l, x, k, r, n|exists false, false, r, x, k, l, n]; done.
  - destruct d; [exists cl, cr, l, x, k, r, n|exists cr, cl, r, x, k, l, n]; done.
Qed.

Lemma rbp_sib c n d cp px pk w p :
  rbp c n (Fr d cp px pk w :: p) ->
  exists cw c', rb cw n w /\ (cp = true -> cw = false) /\ rbp c' (if cp then n else S n) p.
Proof. inversion 1; subst; do 2 eexists; split_and!; done. Qed.

Lemma delete_case_spec rp d cp c t px pk w n p :
  rb false n t -> rbp c (S n) (Fr d cp px pk w :: p) ->
  let p0 := Fr d cp px pk w :: p in
  s⟶color ↦ 0 -∗ repd px t -∗ repc rp (ptr t) p0 -∗
  wp (delete_case d tr s (ptr t)) (delete_post rp t p0).
Proof.
  intros Ht Hp p0. destruct (rbp_sib _ _ _ _ _ _ _ _ Hp) as (cw & c1 & Hw & Hcw & Hp1).
  destruct (rb_dir d cw (S n) w Hw) as (ca & cb & a & wx & kw & b & m & -> & Ha & Hb & Hm & Hc);
    [by inversion Hw|].
  iIntros "Hs (Ht & %q & Hq & %Hq) HC".
  iDestruct (repc_cons with "HC") as "((P1 & P2 & P3 & P4 & P5 & %HP) & Hw & HC)".
  iAssert (repd px t) with "[Ht Hq]" as "Ht"; [by iFrame|].
  iDestruct (repd_parent with "Ht") as "[Tp Ht]". unfold delete_case. wp_go.
  wp_unbind. iApply (is_red_spec with "Hs Hw"). iIntros "Hs Hw".
  rewrite (rb_tcolor _ _ _ Hw). destruct cw.
  - destruct cp; [by specialize (Hcw eq_refl)|]. destruct (Hc eq_refl) as [-> ->]. subst m.
    iDestruct (rep_mk with "Hw") as "((W1 & W2 & W3 & W4 & W5 & %HW) & Ha & Hb)".
    rewrite ptr_mk. unfold ngx_rbt_black, ngx_rbt_red. wp_go.
    iSpecialize ("Ht" with "Tp"). iDestruct "Ht" as "(Ht & %q' & Hq & %Hq')". wp_unbind.
    iApply (rotate_spec _ _ d rp true t px pk false a wx kw b p
      with "[P1 P2 P3 P4 P5 W1 W2 W3 W4 W5 Ht Ha Hb] HC").
    { rewrite !rep_mk ptr_mk. unfold side_cells. by iFrame. }
    iIntros "Hw HC".
    iDestruct (rep_mk with "Hw") as "(HW & HX & Hb)".
    iDestruct (rep_mk with "HX") as "((P1 & P2 & P3 & P4 & P5 & _) & Ht & Ha)".
    iAssert (repd px t) with "[Ht Hq]" as "Ht"; [by iFrame|].
    iDestruct (repd_parent with "Ht") as "[Tp Ht]". wp_go. iSpecialize ("Ht" with "Tp").
    destruct (rb_dir d false (S n) a Ha) as (ca & cb & a1 & ax & ak & a2 & m & -> & Ha1 & Ha2 & Hm' & _);
      [by inversion Ha|]. injection Hm' as <-.
    set (q0 := Fr d false wx kw b :: p). rewrite !ptr_mk.
    assert (Hq0 : rbp false (S n) (Fr d true px pk (mk d false a1 ax ak a2) :: q0)).
    { constructor; [done|]. by econstructor. }
    iApply (wp_wand with "[Hs Ht HW P1 P2 P3 P4 P5 Ha Hb HC]").
    { iApply (delete_black_spec rp d true false t px pk a1 ax ak a2 ca cb n q0 with "Hs Ht"); try done.
      unfold q0. rewrite !repc_cons !ptr_mk. unfold side_cells. cbn [par fx]. by iFrame. }
    iIntros (node) "(%t' & %p' & %c' & %n' & (-> & %Hw' & %Hp' & %Hse & %Hor) & H)".
    iExists t', p', c', n'. iFrame "H". iPureIntro. split_and!; [done|done|done| |].
    + etrans; [exact Hse|]. apply (same_elems_rest p [_; _] [_]). solve_elems.
    + destruct Hor as [->|[-> Hcol]]; [left; cbn; lia|by right].
  - assert (Em : m = n) by (by injection Hm). subst m. wp_go. iSpecialize ("Ht" with "Tp").
    rewrite ptr_mk.
    iApply (wp_wand with "[Hs Ht P1 P2 P3 P4 P5 Hw HC]").
    { iApply (delete_black_spec rp d cp c t px pk a wx kw b ca cb n p with "Hs Ht"); try done.
      iApply repc_cons. rewrite ptr_mk. by iFrame. }
    iIntros (node) "(%t' & %p' & %c' & %n' & (-> & %Hw' & %Hp' & %Hse & %Hor) & H)".
    iExists t', p', c', n'. iFrame "H". iPureIntro. split_and!; [done|done|done|done|].
    destruct Hor as [->|[-> Hcol]]; left; cbn; lia.
Qed.

Lemma elems_black t : elems (black t) = elems t.
Proof. by destruct t. Qed.

Lemma loop_exit c n t p :
  wk n t -> rbp c (S n) p -> p = [] \/ tcolor t = true -> exists m, rb false m (plug p (black t)).
Proof.
  intros Hw Hp [->|Hc]; [by eapply wk_any|].
  eapply rb_plug; [exact Hp|by apply wk_red|done].
Qed.

(** A node of a context is not its root. *)
Lemma repd_not_root rp p0 t hp f p :
  repd p0 t -∗ repc rp hp (f :: p) -∗
  ∃ r, ⌜ptr t <> r⌝ ∗ tr⟶root ↦ r ∗ repd p0 t ∗ (tr⟶root ↦ r -∗ repc rp hp (f :: p)).
Proof.
  iIntros "Ht HC". iDestruct (repc_root with "HC") as (r) "(%Hrs & Hr & %v & Hv & HC)".
  iDestruct (repd_parent with "Ht") as "[Tp Ht]". iDestruct (cell_neq with "Tp Hv") as %Hne.
  iExists r. iSplit; [done|]. iFrame "Hr". iSplitL "Tp Ht"; [by iApply "Ht"|].
  iIntros "Hr". iApply ("HC" with "Hv Hr").
Qed.

Lemma which_side_spec rp d cp px pk w t p (Φ : dir -> hProp) :
  let p0 := Fr d cp px pk w :: p in
  w <> E -> repd px t -∗ repc rp (ptr t) p0 -∗
  (repd px t -∗ repc rp (ptr t) p0 -∗ Φ d) -∗ wp (which_side (ptr t)) Φ.
Proof.
  iIntros (p0 Hw) "Ht HC HΦ". iDestruct (repd_parent with "Ht") as "[Tp Ht]".
  iDestruct (repc_cons with "HC") as "((P1 & P2 & P3 & P4 & P5 & %HP) & Hw & HC)".
  iDestruct (rep_parent_acc with "Hw") as "(Wp & %Hws & Hw)"; [done|].
  iDestruct (cell_neq with "Tp Wp") as %Hne. iSpecialize ("Hw" with "Wp").
  unfold which_side. destruct d; cbn [side opp]; wp_go; iSpecialize ("Ht" with "Tp");
    iApply ("HΦ" with "Ht"); iApply repc_cons; by iFrame.
Qed.

Lemma delete_loop_spec rp fuel t p c n (Φ : Z -> hProp) :
  (length p < fuel)%nat \/ tcolor t = true /\ (0 < fuel)%nat -> wk n t -> rbp c (S n) p ->
  s⟶color ↦ 0 -∗ repd (par rp p) t -∗ repc rp (ptr t) p -∗
  (∀ t' p', ⌜(exists m, rb false m (plug p' (black t'))) /\ same_elems p' t' p t⌝ -∗
     s⟶color ↦ 0 -∗ repd (par rp p') t' -∗ repc rp (ptr t') p' -∗ Φ (ptr t')) -∗
  wp (delete_loop fuel tr s (ptr t)) Φ.
Proof.
  revert t p c n. induction fuel as [|fuel IH]; intros t p c n Hf Hw Hp; [lia|].
  iIntros "Hs Ht HC HΦ". cbn [delete_loop]. destruct p as [|[d cp px pk w] p].
  { cbn [RbTree.repc]. wp_go. iApply ("HΦ" $! t [] with "[%] Hs Ht HC"). split; [|done].
    eapply loop_exit; [done|done|by left]. }
  iDestruct (repd_not_root with "Ht HC") as (r) "(%Hr & Hroot & Ht & HC)". wp_go.
  iSpecialize ("HC" with "Hroot"). iDestruct "Ht" as "(Ht & %q & Hq & %Hq)". wp_unbind.
  iApply (is_black_spec with "Hs Ht"). iIntros "Hs Ht".
  iAssert (repd px t) with "[Ht Hq]" as "Ht"; [by iFrame|].
  destruct (tcolor t) eqn:Ec; cbn [negb].
  - wp_go. iApply ("HΦ" $! t (Fr d cp px pk w :: p) with "[%] Hs Ht HC"). split; [|done].
    eapply loop_exit; [done|done|by right].
  - destruct (rbp_sib _ _ _ _ _ _ _ _ Hp) as (cw & c1 & Hrw & _ & _).
    wp_unbind. iApply (which_side_spec with "Ht HC"); [by destruct w; [inversion Hrw|]|].
    iIntros "Ht HC". wp_unbind. iApply (wp_wand with "[Hs Ht HC]").
    { iApply (delete_case_spec with "Hs Ht HC"); [by apply wk_black|exact Hp]. }
    iIntros (node) "(%t' & %p' & %c' & %n' & (-> & %Hw' & %Hp' & %Hse & %Hor) & Hs & Ht & HC)".
    iApply (IH with "Hs Ht HC"); [cbn in *; destruct Hor; [left; lia|right; split; [done|lia]]|done|done|].
    iIntros (t3 p3 [Hv Hse']) "Hs Ht HC". iApply ("HΦ" with "[%] Hs Ht HC").
    split; [done|]. by etrans.
Qed.
End Delete.
