(* ===== verification/RbTreeRemove.v ===== *)
(** [ngx_rbtree_delete] of src/core/ngx_rbtree.c as a whole: the node that is taken
    out, the node that takes its place, and the loop of [RbTreeDelete]. *)
From S2P Require Import Prelude Memory RbTree RbTreeSpec RbTreeInsert RbTreeDelete.

(** ** The minimum *)

Definition leftmost (q : path) : Prop := Forall (fun f => fd f = L) q.

Lemma leftmost_before q : leftmost q -> before q = [].
Proof. induction 1 as [|f q Hf _ IH]; [done|]. by rewrite before_cons Hf IH. Qed.

Section Remove.
Context (s tr : Z).
Notation rep := (rep s).
Notation repc := (repc s tr).
Notation ptr := (ptr s).
Notation repd := (repd s).

Lemma min_spec fuel p t (Φ : Z -> hProp) :
  (height t <= fuel)%nat -> t <> E ->
  rep p t -∗
  (∀ q c x k r, ⌜t = plug q (T c E x k r) /\ leftmost q⌝ -∗ rep p t -∗ Φ x) -∗
  wp (ngx_rbtree_min fuel (ptr t) s) Φ.
Proof.
  revert p t Φ. induction fuel as [|fuel IH]; intros p t Φ Hh Ht.
  { destruct t; [done|]. cbn in Hh. lia. }
  destruct t as [|c l x k r]; [done|]. cbn [height] in Hh. iIntros "Ht HΦ".
  cbn [ngx_rbtree_min RbTree.rep RbTree.ptr].
  iDestruct "Ht" as "[(T1 & T2 & T3 & T4 & T5 & %Hx) [Hl Hr]]". wp_go.
  destruct l as [|cl l1 y ky l2].
  - cbn [RbTree.ptr]. wp_go. iApply ("HΦ" $! [] c x k r with "[%]").
    + split; [done|constructor].
    + cbn [RbTree.rep RbTree.ptr]. by iFrame.
  - iDestruct (rep_parent_acc with "Hl") as "(Lp & %Hy & Hl)"; [done|]. cbn [RbTree.ptr] in *. wp_go.
    iSpecialize ("Hl" with "Lp"). iApply (IH x (T cl l1 y ky l2) with "Hl"); [lia|done|].
    iIntros (q c0 z kz r0 [Hq Hlm]) "Hl".
    iApply ("HΦ" $! (q ++ [Fr L c x k r]) c0 z kz r0 with "[%]").
    + rewrite plug_app -Hq. split; [done|]. apply Forall_app. split; [done|]. by repeat constructor.
    + by iFrame.
Qed.

(** ** Taking a node out *)

(** Two nodes of a context differ. *)
Lemma repc_node rp hp g p : g ∈ p -> repc rp hp p -∗ ∃ v, fx g⟶parent ↦ v.
Proof.
  revert hp. induction p as [|f p IH]; intros hp Hg; [by apply not_elem_of_nil in Hg|].
  destruct f as [d c x k sib]. iIntros "H".
  iDestruct (repc_cons with "H") as "((_ & _ & H3 & _) & _ & HC)".
  apply elem_of_cons in Hg as [->|Hg]; [by iExists _|by iApply (IH with "HC")].
Qed.

Lemma repc_inner_neq rp hp f g q p : repc rp hp ((f :: q) ++ g :: p) -∗ ⌜fx f <> fx g⌝.
Proof.
  destruct f as [d c x k sib]. cbn [app fx]. iIntros "H".
  iDestruct (repc_cons with "H") as "((_ & _ & H3 & _) & _ & HC)".
  iDestruct (repc_node with "HC") as (v) "Hv"; [apply elem_of_app; right; by left|].
  iApply (cell_neq with "H3 Hv").
Qed.

Lemma repc_plug_app rp t q p :
  rep (par rp (q ++ p)) t ∗ repc rp (ptr t) (q ++ p) ⊣⊢
  rep (par rp p) (plug q t) ∗ repc rp (ptr (plug q t)) p.
Proof.
  revert t. induction q as [|f q IH]; intros t; [done|].
  change (plug (f :: q) t) with (plug q (fill f t)). rewrite -IH. cbn [app par]. apply repc_fill.
Qed.

Lemma unlink_spec rp y hp f p (Φ : unit -> hProp) :
  y <> s ->
  y⟶parent ↦ par rp (f :: p) -∗ repc rp y (f :: p) -∗
  (y⟶parent ↦ par rp (f :: p) -∗ repc rp hp (f :: p) -∗ Φ tt) -∗ wp (unlink y hp) Φ.
Proof.
  iIntros (Hy) "Hp HC HΦ". destruct f as [d c x k sib].
  iDestruct (repc_cons with "HC") as "((H1 & H2 & H3) & H4 & H5)".
  iDestruct (rep_parent_neq with "Hp H4") as %Hs; [done|]. cbn [par fx]. unfold unlink.
  destruct d; cbn [side opp]; wp_go; iApply ("HΦ" with "Hp"); iApply repc_cons; iFrame.
Qed.

(** [temp->parent = ...], with the sentinel for an empty tree. *)
Lemma set_parent_spec p t v (Φ : unit -> hProp) :
  rep p t -∗ (∃ q, s⟶parent ↦ q) -∗ (repd v t -∗ Φ tt) -∗ wp (ptr t⟶parent ::= v) Φ.
Proof.
  iIntros "Ht (%q & Hq) HΦ". destruct t as [|c l x k r].
  - cbn [RbTree.ptr]. wp_go. iApply "HΦ". iSplit; [done|]. iExists v. by iFrame.
  - iDestruct (rep_parent_acc with "Ht") as "(Tp & _ & Ht)"; [done|]. cbn [RbTree.ptr]. wp_go.
    iApply "HΦ". iSplitL "Tp Ht"; [by iApply "Ht"|]. iExists q. by iFrame.
Qed.

Lemma black_spec p t (Φ : unit -> hProp) :
  s⟶color ↦ 0 -∗ rep p t -∗ (s⟶color ↦ 0 -∗ rep p (black t) -∗ Φ tt) -∗
  wp (ngx_rbt_black (ptr t)) Φ.
Proof.
  iIntros "Hs Ht HΦ". unfold ngx_rbt_black. destruct t as [|c l x k r]; cbn [RbTree.ptr].
  - wp_go. iApply ("HΦ" with "Hs Ht").
  - cbn [RbTree.rep black]. iDestruct "Ht" as "[(T1 & T2 & T3 & T4 & T5 & %Hx) Ht]". wp_go.
    iApply ("HΦ" with "Hs"). by iFrame.
Qed.

Lemma ptr_black t : ptr (black t) = ptr t.
Proof. by destruct t. Qed.

(** A node taken out: its members were reset. *)
Lemma clear_spec d x l r p k (Φ : unit -> hProp) :
  x⟶(side d) ↦ l -∗ x⟶(side (opp d)) ↦ r -∗ x⟶parent ↦ p -∗ (∃ c, x⟶color ↦ c) -∗ x⟶key ↦ k -∗
  (fresh x 0 -∗ Φ tt) -∗ wp (clear_node x) Φ.
Proof.
  iIntros "H1 H2 H3 (%c & H4) H5 HΦ". unfold clear_node.
  destruct d; cbn [side opp]; wp_go; iApply "HΦ"; iExists NULL, NULL, NULL, c; iFrame.
Qed.

(** The result of a removal: [x] was between [l1] and [l2]. *)
Definition removed (x k : Z) (t : tree) : hProp :=
  ∃ t' l1 l2, ⌜valid t' /\ elems t = l1 ++ (x, k) :: l2 /\ elems t' = l1 ++ l2⌝ ∗
    tree_rep s tr t' ∗ fresh x 0.

Lemma finish_delete_spec fuel rp c t p (red : bool) n (Φ : unit -> hProp) :
  (length p < fuel)%nat -> rb c 0 t -> rbp n (if red then 0 else 1)%nat p -> (red = true -> t = E) ->
  s⟶color ↦ 0 -∗ repd (par rp p) t -∗ repc rp (ptr t) p -∗ tr⟶sentinel ↦ s -∗
  (∀ t', ⌜valid t' /\ elems t' = elems (plug p t)⌝ -∗ tree_rep s tr t' -∗ Φ tt) -∗
  wp (finish_delete fuel tr s red (ptr t)) Φ.
Proof.
  intros Hf Ht Hp Hr. iIntros "Hs Hd HC Hse HΦ". unfold finish_delete. destruct red.
  - specialize (Hr eq_refl) as ->. iDestruct "Hd" as "(Ht & %q & Hq & _)".
    destruct (rb_plug n 0 p false E Hp (rb_E)) as [m Hm]; [done|].
    iAssert (rep (par rp p) E ∗ repc rp (ptr E) p)%I with "[Ht HC]" as "H"; [by iFrame|].
    iDestruct (repc_plug with "H") as "[Ht Hroot]". wp_go.
    iApply ("HΦ" $! (plug p E) with "[%]"); [split; [by exists m|done]|].
    iFrame.
  - wp_unbind. iApply (delete_loop_spec with "Hs Hd HC"); [by left|by eapply rb_wk|exact Hp|].
    iIntros (t' p' [[m Hm] Hse']) "Hs (Ht & %q & Hq & _) HC".
    assert (Hel : elems (plug p' (black t')) = elems (plug p t)).
    { rewrite -Hse' !elems_plug. by rewrite elems_black. }
    iSpecialize ("HΦ" $! (plug p' (black t')) with "[%]"); [split; [by exists m|done]|].
    iApply (black_spec with "Hs Ht"). iIntros "Hs Ht". iApply "HΦ". rewrite -ptr_black.
    iCombine "Ht HC" as "H". iDestruct (repc_plug with "H") as "[Ht Hroot]". iFrame.
Qed.

(** A node of the tree, and the context around it. *)
Lemma elem_split x k t : (x, k) ∈ elems t -> exists p c l r, t = plug p (T c l x k r).
Proof.
  induction t as [|c l IHl y ky r IHr]; cbn [elems]; [by intros ?%not_elem_of_nil|].
  intros [H|[[= <- <-]|H]%elem_of_cons]%elem_of_app.
  - destruct (IHl H) as (p & c0 & l0 & r0 & ->). exists (p ++ [Fr L c y ky r]), c0, l0, r0.
    by rewrite plug_app.
  - by exists [], c, l, r.
  - destruct (IHr H) as (p & c0 & l0 & r0 & ->). exists (p ++ [Fr R c y ky l]), c0, l0, r0.
    by rewrite plug_app.
Qed.

(** The colors of a tree and of the context around it. *)
Lemma rb_unplug c n p t : rb c n (plug p t) -> c = false ->
  exists cp m ct, rbp cp m p /\ rb ct m t /\ (ct = true -> cp = true).
Proof.
  intros H Hc. revert t H. induction p as [|f p IH]; intros t H.
  - exists false, n, c. split_and!; [constructor|done|by rewrite Hc].
  - destruct (IH (fill f t) H) as (cp & m & ct & Hp & Ht & Hct).
    destruct f as [d cf x k sib]. unfold fill in Ht. cbn [fd fc fx fk fsib] in Ht.
    destruct cf.
    + assert (ct = true /\ rb false m t /\ rb false m sib) as (-> & H1 & H2).
      { by destruct d; inversion Ht; subst. }
      exists false, m, false. split_and!; [|done|done]. constructor; [done|].
      rewrite -(Hct eq_refl). exact Hp.
    + assert (exists m' c1 c2, m = S m' /\ rb c1 m' t /\ rb c2 m' sib) as (m' & c1 & c2 & -> & H1 & H2).
      { destruct d; inversion Ht; subst; eauto 10. }
      exists true, m', c1. split_and!; [|done|done]. by econstructor.
Qed.

(** A node with one empty child: the other is empty or a red leaf. *)
Lemma one_child ct m d c tc x k :
  rb ct m (mk d c E x k tc) ->
  ct = c /\ m = (if c then 0 else 1)%nat /\ (exists c', rb c' 0 tc) /\ (c = true -> tc = E).
Proof.
  intros H. assert (Hz : forall c0 n, rb c0 n E -> c0 = false /\ n = 0%nat) by by inversion 1.
  destruct d; cbn in H; inversion H; subst;
    match goal with HE : rb _ _ E |- _ => apply Hz in HE as [? ->] end;
    (split_and!; [done|done|eauto|]); intros; try done;
    match goal with HE : rb false 0 ?t |- ?t = E => by inversion HE end.
Qed.

Lemma repc_not_root rp x w hp f p :
  x⟶parent ↦ w -∗ repc rp hp (f :: p) -∗
  ∃ r, ⌜x <> r⌝ ∗ tr⟶root ↦ r ∗ x⟶parent ↦ w ∗ (tr⟶root ↦ r -∗ repc rp hp (f :: p)).
Proof.
  iIntros "Hx HC". iDestruct (repc_root with "HC") as (r) "(_ & Hr & %v & Hv & HC)".
  iDestruct (cell_neq with "Hx Hv") as %Hne. iExists r. iFrame "Hr Hx". iSplit; [done|].
  iIntros "Hr". iApply ("HC" with "Hv Hr").
Qed.

(** [subst == node]: the node has one child at most. *)
Lemma remove_leaf fuel rp p d c x k tc ct m :
  (length p < fuel)%nat -> rbp ct m p -> rb c m (mk d c E x k tc) -> (c = true -> ct = true) ->
  tr⟶sentinel ↦ s -∗ s⟶color ↦ 0 -∗ (∃ q, s⟶parent ↦ q) -∗
  rep (par rp p) (mk d c E x k tc) -∗ repc rp x p -∗
  wp (r ← tr⟶root;
      if x =? r then
        tr⟶root ::= ptr tc;; ngx_rbt_black (ptr tc);; clear_node x
      else
        red ← ngx_rbt_is_red x;
        unlink x (ptr tc);;
        (if x =? x then sp ← x⟶parent; ptr tc⟶parent ::= sp
         else delete_replace tr s x x (ptr tc));;
        clear_node x;;
        finish_delete fuel tr s red (ptr tc))
    (fun _ => removed x k (plug p (mk d c E x k tc))).
Proof.
  intros Hf Hp Hrb Hct. destruct (one_child _ _ _ _ _ _ _ Hrb) as (_ & -> & [c' Htt] & Hce).
  iIntros "Hse Hs Hq Hx HC".
  assert (Hel : forall t', elems t' = elems (plug p tc) ->
    exists l1 l2, elems (plug p (mk d c E x k tc)) = l1 ++ (x, k) :: l2 /\ elems t' = l1 ++ l2).
  { intros t' ->. rewrite !elems_plug elems_mk. destruct d; cbn [elems app].
    - exists (before p), (elems tc ++ after p). done.
    - exists (before p ++ elems tc), (after p). by rewrite -!app_assoc. }
  iDestruct (rep_mk with "Hx") as "((X1 & X2 & X3 & X4 & X5 & %Hxs) & _ & Ht)".
  destruct p as [|f p].
  - cbn [RbTree.repc par plug fold_left] in *. wp_go. wp_unbind.
    iApply (black_spec with "Hs Ht"). iIntros "Hs Ht".
    iApply (clear_spec with "X1 X2 X3 [X4] X5"); [by iExists _|]. iIntros "Hx".
    destruct (Hel (black tc)) as (l1 & l2 & H1 & H2); [by destruct tc|].
    iExists (black tc), l1, l2. iFrame "Hx". iSplit.
    { iPureIntro. split_and!; [|done|done]. eapply wk_any, rb_wk, Htt. }
    iFrame "Hse Hs Hq". rewrite ptr_black. iFrame.
  - iDestruct (repc_not_root with "X3 HC") as (r) "(%Hr & Hroot & X3 & HC)".
    unfold ngx_rbt_is_red. wp_go. iSpecialize ("HC" with "Hroot"). wp_unbind.
    iApply (unlink_spec with "X3 HC"); [done|]. iIntros "X3 HC". wp_go. wp_unbind.
    iApply (set_parent_spec with "Ht Hq"). iIntros "Ht". wp_unbind.
    iApply (clear_spec with "X1 X2 X3 [X4] X5"); [by iExists _|]. iIntros "Hx".
    replace (negb (Z.b2z c =? 0)) with c by by destruct c.
    iApply (finish_delete_spec with "Hs Ht HC Hse"); [done|exact Htt| |done|].
    + destruct c; [|exact Hp]. exact Hp.
    + iIntros (t' [Hv He]) "Ht'". destruct (Hel t' He) as (l1 & l2 & H1 & H2).
      iExists t', l1, l2. by iFrame.
Qed.

(** ** A node with two children *)

Lemma take_place_spec rp c l x k r v p y ky (Φ : unit -> hProp) :
  node_cells s x (ptr l) (ptr r) (par rp p) c k -∗ rep x l -∗ rep v r -∗ repc rp x p -∗
  fresh y ky -∗ ⌜y <> s⌝ -∗
  (rep (par rp p) (T c l y ky r) -∗ repc rp y p -∗
     node_cells s x (ptr l) (ptr r) (par rp p) c k -∗ Φ tt) -∗
  wp (take_place tr s x y) Φ.
Proof.
  iIntros "(X1 & X2 & X3 & X4 & X5 & %Hx) Hl Hr HC (%yl & %yr & %yp & %yc & Y1 & Y2 & Y3 & Y4 & Y5) %Hy HΦ".
  unfold take_place, ngx_rbt_copy_color. wp_go. wp_unbind.
  iApply (relink_spec with "X3 HC"); [done|]. iIntros "X3 HC". wp_unbind.
  iApply (adopt_spec with "Y1 Hl"). iIntros "Y1 Hl".
  iApply (adopt_spec with "Y2 Hr"). iIntros "Y2 Hr".
  iApply ("HΦ" with "[Y1 Y2 Y3 Y4 Y5 Hl Hr] HC").
  - cbn [RbTree.rep]. unfold node_cells. by iFrame.
  - unfold node_cells. by iFrame.
Qed.

(** [delete_replace]: [y], already out of the right subtree, in the place of [x]. *)
Lemma delete_replace_spec rp q c l x k w ry p y ky (Φ : unit -> hProp) :
  let p0 := q ++ Fr R c x k l :: p in
  let p1 := q ++ Fr R c y ky l :: p in
  repc rp (ptr ry) p0 -∗ rep w ry -∗ (∃ v, s⟶parent ↦ v) -∗
  y⟶parent ↦ par rp p0 -∗ (∃ a b d, y⟶left ↦ a ∗ y⟶right ↦ b ∗ y⟶color ↦ d) -∗ y⟶key ↦ ky -∗
  ⌜y <> s⌝ -∗
  (repd (par rp p1) ry -∗ repc rp (ptr ry) p1 -∗
     (∃ a b e d k', x⟶left ↦ a ∗ x⟶right ↦ b ∗ x⟶parent ↦ e ∗ x⟶color ↦ d ∗ x⟶key ↦ k') -∗
     Φ tt) -∗
  wp (delete_replace tr s x y (ptr ry)) Φ.
Proof.
  iIntros (p0 p1) "HC Hr Hs Yp (%ya & %yb & %yd & Y1 & Y2 & Y4) Y5 %Hy HΦ".
  unfold delete_replace. wp_go. destruct q as [|f q].
  - subst p0 p1. cbn [app par fx]. wp_go. wp_unbind. iApply (set_parent_spec with "Hr Hs").
    iIntros "(Hr & %v & Hs & %Hv)".
    iDestruct (repc_cons with "HC") as "((X1 & X2 & X3 & X4 & X5 & %HX) & Hl & HC)".
    iApply (take_place_spec rp c l x k _ _ p y ky with "[X1 X2 X3 X4 X5] Hl Hr HC [Yp Y1 Y2 Y4 Y5] [//]").
    { unfold node_cells. cbn [side opp]. by iFrame. }
    { iExists ya, yb, _, yd. iFrame. }
    iIntros "H HC (X1 & X2 & X3 & X4 & X5 & _)".
    iAssert (rep y ry ∗ repc rp (ptr ry) (Fr R c y ky l :: p))%I with "[H HC]" as "[Hr HC]".
    { iApply (repc_fill s tr rp (Fr R c y ky l)). iFrame. }
    iApply ("HΦ" with "[Hr Hs] HC [-]"); [by iFrame|].
    iExists _, _, _, _, _. iFrame.
  - iAssert ⌜fx f <> x⌝%I as %Hne; [by iApply (repc_inner_neq with "HC")|].
    subst p0 p1. cbn [app par fx]. wp_go. wp_unbind. iApply (set_parent_spec with "Hr Hs").
    iIntros "(Hr & %v & Hs & %Hv)". iCombine "Hr HC" as "H".
    iDestruct (repc_plug_app rp ry (f :: q) (Fr R c x k l :: p) with "H") as "[Hr HC]".
    iDestruct (repc_cons with "HC") as "((X1 & X2 & X3 & X4 & X5 & %HX) & Hl & HC)".
    iApply (take_place_spec rp c l x k _ _ p y ky with "[X1 X2 X3 X4 X5] Hl Hr HC [Yp Y1 Y2 Y4 Y5] [//]").
    { unfold node_cells. cbn [side opp]. by iFrame. }
    { iExists ya, yb, _, yd. iFrame. }
    iIntros "H HC (X1 & X2 & X3 & X4 & X5 & _)".
    iAssert (rep (fx f) ry ∗ repc rp (ptr ry) ((f :: q) ++ Fr R c y ky l :: p))%I
      with "[H HC]" as "[Hr HC]".
    { iApply (repc_plug_app rp ry (f :: q)). iApply (repc_fill s tr rp (Fr R c y ky l)). iFrame. }
    iApply ("HΦ" with "[Hr Hs] HC [-]"); [by iFrame|].
    iExists _, _, _, _, _. iFrame.
Qed.

(** The frame of [x] with [y] in its place has the same colors. *)
Lemma rbp_relabel ct m q c x k l p y ky :
  rbp ct m (q ++ Fr R c x k l :: p) -> rbp ct m (q ++ Fr R c y ky l :: p).
Proof.
  revert ct m. induction q as [|f q IH]; intros ct m H; cbn [app] in *.
  - inversion H; subst; by econstructor.
  - inversion H; subst; econstructor; eauto.
Qed.

Lemma elems_inner q c x k l p t : leftmost q ->
  elems (plug (q ++ Fr R c x k l :: p) t) =
  before p ++ elems l ++ (x, k) :: elems t ++ after q ++ after p.
Proof.
  intros Hq. rewrite plug_app. change (plug (_ :: p) ?u) with (plug p (T c l x k u)).
  rewrite elems_plug. cbn [elems]. rewrite elems_plug (leftmost_before q Hq). cbn [app].
  by rewrite -!app_assoc /= -!app_assoc.
Qed.

(** The code from the comparison of [subst] with the root on. *)
Definition delete_rest (fuel : nat) (node subst temp : Z) : M unit :=
  r ← tr⟶root;
  if subst =? r then
    tr⟶root ::= temp;; ngx_rbt_black temp;; clear_node node
  else
    red ← ngx_rbt_is_red subst;
    unlink subst temp;;
    (if subst =? node then sp ← subst⟶parent; temp⟶parent ::= sp
     else delete_replace tr s node subst temp);;
    clear_node node;;
    finish_delete fuel tr s red temp.

Lemma remove_inner fuel rp p q c l x k cy y ky ry ct m :
  let p0 := q ++ Fr R c x k l :: p in
  (length p0 < fuel)%nat -> rbp ct m p0 -> rb cy m (T cy E y ky ry) -> (cy = true -> ct = true) ->
  leftmost q ->
  tr⟶sentinel ↦ s -∗ s⟶color ↦ 0 -∗ (∃ q, s⟶parent ↦ q) -∗
  rep (par rp p0) (T cy E y ky ry) -∗ repc rp y p0 -∗
  wp (delete_rest fuel x y (ptr ry)) (fun _ => removed x k (plug p0 (T cy E y ky ry))).
Proof.
  intros p0 Hf Hp Hrb Hct Hlm.
  destruct (one_child cy m L cy ry y ky Hrb) as (_ & -> & [c' Htt] & Hce).
  iIntros "Hse Hs Hq Hy HC". cbn [RbTree.rep].
  iDestruct "Hy" as "[(Y1 & Y2 & Y3 & Y4 & Y5 & %Hys) [_ Ht]]".
  destruct p0 as [|f p0'] eqn:Ep0; [by destruct q|]. unfold delete_rest, ngx_rbt_is_red.
  iDestruct (repc_not_root with "Y3 HC") as (r) "(%Hr & Hroot & Y3 & HC)". wp_go.
  iSpecialize ("HC" with "Hroot"). wp_unbind.
  iAssert ⌜y <> x⌝%I as %Hyx.
  { rewrite -Ep0. iDestruct (repc_node _ _ (Fr R c x k l) with "HC") as (v) "Hv".
    - apply elem_of_app. right. by left.
    - iApply (cell_neq with "Y3 Hv"). }
  iApply (unlink_spec with "Y3 HC"); [done|]. iIntros "Y3 HC". wp_go. wp_unbind.
  rewrite -Ep0. iApply (delete_replace_spec with "HC Ht Hq Y3 [Y1 Y2 Y4] Y5 [//]").
  { iExists _, _, _. iFrame. }
  iIntros "Ht HC (%a & %b & %e & %g & %k' & X1 & X2 & X3 & X4 & X5)". wp_unbind.
  iApply (clear_spec L with "X1 X2 X3 [X4] X5"); [by iExists _|]. iIntros "Hx".
  replace (negb (Z.b2z cy =? 0)) with cy by by destruct cy.
  iApply (finish_delete_spec with "Hs Ht HC Hse"); [|exact Htt| |done|].
  - rewrite -Ep0 !length_app in Hf. rewrite !length_app. exact Hf.
  - apply (rbp_relabel _ _ q c x k l p). rewrite -Ep0 in Hp. by destruct cy.
  - iIntros (t' [Hv He]) "Ht'".
    iExists t', (before p ++ elems l), ((y, ky) :: elems ry ++ after q ++ after p). iFrame. iPureIntro.
    split; [done|]. rewrite He !elems_inner //= -!app_assoc. done.
Qed.

Lemma plug_height q t : (length q + height t <= height (plug q t))%nat.
Proof.
  revert t. induction q as [|f q IH]; intros t; cbn [length]; [done|].
  change (plug (f :: q) t) with (plug q (fill f t)). specialize (IH (fill f t)).
  assert (S (height t) <= height (fill f t))%nat; [|lia].
  destruct f as [[] c x k sib]; cbn; lia.
Qed.

Lemma rep_ne_s x p t : ptr t = x -> t <> E -> rep p t -∗ ⌜x <> s⌝.
Proof.
  iIntros (<- Ht) "H". by iDestruct (rep_parent_acc with "H") as "(_ & % & _)".
Qed.

Lemma rep_focus v q t : rep v (plug q t) -∗ ∃ w, rep w t ∗ (rep w t -∗ rep v (plug q t)).
Proof.
  revert t. induction q as [|f q IH]; intros t; iIntros "H".
  - iExists v. iFrame. by iIntros "H".
  - change (plug (f :: q) t) with (plug q (fill f t)).
    iDestruct (IH with "H") as (w) "[H HC]". destruct f as [d c x k sib].
    iDestruct (rep_mk with "H") as "(H1 & H2 & H3)". iExists x. iFrame "H2". iIntros "H2".
    iApply "HC". iApply rep_mk. iFrame.
Qed.

Lemma choose_spec fuel v c l x k r (Φ : Z * Z -> hProp) :
  (height r <= fuel)%nat ->
  rep v (T c l x k r) -∗
  (∀ d tc, ⌜T c l x k r = mk d c E x k tc⌝ -∗ rep v (T c l x k r) -∗ Φ (x, ptr tc)) ∧
  (∀ q cy y ky ry, ⌜r = plug q (T cy E y ky ry) /\ leftmost q⌝ -∗ rep v (T c l x k r) -∗
     Φ (y, ptr ry)) -∗
  wp (delete_choose fuel s x) Φ.
Proof.
  iIntros (Hf) "Ht HΦ". unfold delete_choose. cbn [RbTree.rep].
  iDestruct "Ht" as "[(X1 & X2 & X3 & X4 & X5 & %Hx) [Hl Hr]]". wp_go.
  destruct l as [|cl l1 z kz l2].
  { cbn [RbTree.ptr]. wp_go. iDestruct "HΦ" as "[HΦ _]". iApply ("HΦ" $! L r with "[//]"). by iFrame. }
  iAssert ⌜ptr (T cl l1 z kz l2) <> s⌝%I as %Hl; [by iApply (rep_ne_s with "Hl")|].
  wp_go. destruct r as [|cr r1 w kw r2].
  { cbn [RbTree.ptr]. wp_go. iDestruct "HΦ" as "[HΦ _]".
    iApply ("HΦ" $! R (T cl l1 z kz l2) with "[//]"). by iFrame. }
  iAssert ⌜ptr (T cr r1 w kw r2) <> s⌝%I as %Hr; [by iApply (rep_ne_s with "Hr")|].
  wp_go. wp_unbind. iApply (min_spec with "Hr"); [done|done|].
  iIntros (q cy y ky ry [Hq Hlm]) "Hr". rewrite Hq.
  iDestruct (rep_focus with "Hr") as (w') "[[(Y1 & Y2 & Y3 & Y4 & Y5 & Hy) Hry] Hr]".
  cbn [RbTree.ptr]. wp_go. iDestruct "HΦ" as "[_ HΦ]".
  iApply ("HΦ" $! q cy y ky ry with "[//]"). iFrame. iSplit; [done|].
  iApply "Hr". cbn [RbTree.rep]. unfold node_cells. cbn [RbTree.ptr]. iFrame.
Qed.

Lemma remove_spec fuel x k t :
  valid t -> (x, k) ∈ elems t -> (height t < fuel)%nat ->
  tree_rep s tr t ⊢ wp (ngx_rbtree_delete fuel tr x) (fun _ => removed x k t).
Proof.
  intros [n Hn] Hin Hh. destruct (elem_split x k t Hin) as (p & c & l & r & ->).
  destruct (rb_unplug _ _ _ _ Hn eq_refl) as (cp & m & ct & Hp & Ht & Hct).
  pose proof (plug_height p (T c l x k r)) as Hh'. cbn [height] in Hh'.
  iIntros "(Hse & Hroot & (%rp & Hr) & Hs & Hq)". iCombine "Hr Hroot" as "H".
  iDestruct (repc_plug with "H") as "[Ht HC]". unfold ngx_rbtree_delete. wp_go. wp_unbind.
  iApply (choose_spec with "Ht"); [lia|]. iSplit.
  - iIntros (d tc Htc) "Ht". rewrite Htc in Ht |- *. rewrite ptr_mk.
    assert (ct = c) as -> by (by destruct (one_child _ _ _ _ _ _ _ Ht)).
    iApply (remove_leaf fuel rp p d c x k tc cp m with "Hse Hs Hq Ht HC"); [lia|done|done|done].
  - iIntros (q cy y ky ry [-> Hlm]) "Ht".
    iAssert (rep (par rp (q ++ Fr R c x k l :: p)) (T cy E y ky ry) ∗
             repc rp y (q ++ Fr R c x k l :: p))%I with "[Ht HC]" as "[Ht HC]".
    { iApply (repc_plug_app rp (T cy E y ky ry) q). iApply (repc_fill s tr rp (Fr R c x k l)). iFrame. }
    assert (Heq : plug p (T c l x k (plug q (T cy E y ky ry))) =
                  plug (q ++ Fr R c x k l :: p) (T cy E y ky ry)) by by rewrite plug_app.
    rewrite Heq in Hn Hh |- *. destruct (rb_unplug _ _ _ _ Hn eq_refl) as (cp' & m' & ct' & Hp' & Ht' & Hct').
    pose proof (plug_height (q ++ Fr R c x k l :: p) (T cy E y ky ry)) as Hh2.
    assert (ct' = cy) as -> by (by destruct (one_child ct' m' L cy ry y ky Ht')).
    iApply (remove_inner fuel rp p q c l x k cy y ky ry cp' m' with "Hse Hs Hq Ht HC");
      [lia|done|done|done|done].
Qed.
End Remove.
