(* ===== verification/RbTreeOrder.v ===== *)
(** What the red-black trees promise to their clients: a tree object with an
    insertion function is the list of its nodes in the order of their keys. *)
From S2P Require Import Prelude Memory RbTree RbTreeSpec RbTreeInsert RbTreeDelete RbTreeRemove.

(** ** The interface *)

(** Fuel that is enough for a tree of [n] nodes: it grows with the logarithm. *)
Definition tree_fuel (n : nat) : nat := S (2 * Nat.log2 (S n)).

(** The tree object [tr] with the sentinel [s] and the nodes [nodes]. *)
Definition tree_list (nodes : Z -> Z -> list (Z * Z) -> hProp) (tr s : Z) (l : list (Z * Z)) : hProp :=
  ∃ r, tr⟶root ↦ r ∗ tr⟶sentinel ↦ s ∗ nodes r s l.

(** [nodes r s l] owns a tree with the root [r] and the sentinel [s] and with the
    nodes and keys of [l], which are in the order of [less]; all keys are in [P], where
    [less] is an order. *)
Class OrderedTree (less : Z -> Z -> bool) (P : Z -> Prop) (insert : nat -> Z -> Z -> Z -> M unit)
    (nodes : Z -> Z -> list (Z * Z) -> hProp) : Prop := {
  nodes_nodup r s l : nodes r s l -∗ ⌜NoDup l.*1⌝;
  nodes_ordered r s l : nodes r s l -∗ ⌜ordered less l /\ Forall (fun e => P e.2) l⌝;
  nodes_empty r s l : nodes r s l -∗ ⌜r = s <-> l = []⌝;
  nodes_new r s l x k : nodes r s l -∗ fresh x k -∗ ⌜x ∉ l.*1⌝;
  nodes_key r s l x k :
    (x, k) ∈ l -> nodes r s l -∗ x⟶key ↦ k ∗ (x⟶key ↦ k -∗ nodes r s l);
  nodes_min fuel r s x k l :
    (tree_fuel (length ((x, k) :: l)) <= fuel)%nat ->
    nodes r s ((x, k) :: l) ⊢
    wp (ngx_rbtree_min fuel r s) (fun y => ⌜y = x⌝ ∗ nodes r s ((x, k) :: l))%I;
  tree_init_law tr s :
    (∃ a b, tr⟶root ↦ a ∗ tr⟶sentinel ↦ b) ∗ (∃ a b, s⟶color ↦ a ∗ s⟶parent ↦ b) ⊢
    wp (ngx_rbtree_init tr s) (fun _ => tree_list nodes tr s []);
  tree_insert_law fuel tr s l x k :
    P k -> (tree_fuel (length l) <= fuel)%nat ->
    tree_list nodes tr s l ∗ fresh x k ⊢
    wp (ngx_rbtree_insert insert fuel tr x) (fun _ => tree_list nodes tr s (ins less (x, k) l));
  tree_delete_law fuel tr s l1 x k l2 :
    (tree_fuel (length (l1 ++ (x, k) :: l2)) <= fuel)%nat ->
    tree_list nodes tr s (l1 ++ (x, k) :: l2) ⊢
    wp (ngx_rbtree_delete fuel tr x) (fun _ => tree_list nodes tr s (l1 ++ l2) ∗ fresh x 0)%I
}.

(** ** The implementation *)

Section Implementation.
Context (less : Z -> Z -> bool) (P : Z -> Prop) {HP : KeyOrder less P}.

Definition rb_nodes (r s : Z) (l : list (Z * Z)) : hProp :=
  ∃ t, ⌜r = ptr s t /\ valid t /\ elems t = l /\ ordered less l /\ Forall (fun e => P e.2) l⌝ ∗
    (∃ rp, rep s rp t) ∗ s⟶color ↦ 0 ∗ (∃ p, s⟶parent ↦ p).

Lemma tree_list_rep tr s l :
  tree_list rb_nodes tr s l ⊣⊢
  ∃ t, ⌜valid t /\ elems t = l /\ ordered less l /\ Forall (fun e => P e.2) l⌝ ∗ tree_rep s tr t.
Proof.
  iSplit.
  - iIntros "(%r & Hr & Hs & %t & (-> & %Hv & %He & %Ho & %Hf) & H)". iExists t. by iFrame.
  - iIntros "(%t & (%Hv & %He & %Ho & %Hf) & Hs & Hr & H)". iExists (ptr s t). iFrame "Hr Hs".
    iExists t. by iFrame.
Qed.

Lemma valid_height t fuel :
  valid t -> (tree_fuel (length (elems t)) <= fuel)%nat -> (height t < fuel)%nat.
Proof. intros [n Hn] Hf. apply rb_height_log in Hn. unfold tree_fuel in Hf. lia. Qed.

Lemma rep_parents s p t : rep s p t -∗ [∗ list] x ∈ (elems t).*1, ∃ v, x⟶parent ↦ v.
Proof.
  revert p. induction t as [|c l IHl x k r IHr]; intros p; [by iIntros|].
  cbn [rep elems]. rewrite fmap_app. iIntros "[(H1 & H2 & H3 & H4) [Hl Hr]]".
  rewrite big_sepL_app. iSplitL "Hl"; [by iApply IHl|]. cbn [fmap list_fmap big_sepL fst].
  iSplitL "H3"; [by iExists p|]. by iApply IHr.
Qed.

Lemma rep_key s p t x k : (x, k) ∈ elems t ->
  rep s p t -∗ x⟶key ↦ k ∗ (x⟶key ↦ k -∗ rep s p t).
Proof.
  revert p. induction t as [|c l IHl y ky r IHr]; intros p; cbn [elems rep].
  { by intros ?%not_elem_of_nil. }
  intros [Hi|[[= -> ->]|Hi]%elem_of_cons]%elem_of_app.
  - iIntros "[H [Hl Hr]]". iDestruct (IHl y Hi with "Hl") as "[$ Hl]". iIntros "Hk".
    iFrame. by iApply "Hl".
  - iIntros "[(H1 & H2 & H3 & H4 & $ & H5) H]". iIntros "Hk". iFrame.
  - iIntros "[H [Hl Hr]]". iDestruct (IHr y Hi with "Hr") as "[$ Hr]". iIntros "Hk".
    iFrame. by iApply "Hr".
Qed.

(** An ordered list with a node removed. *)
Lemma ordered_remove (l1 : list (Z * Z)) e l2 :
  ordered less (l1 ++ e :: l2) -> ordered less (l1 ++ l2).
Proof.
  unfold ordered. rewrite !StronglySorted_app StronglySorted_cons.
  intros (H1 & H2 & _ & H3). split_and!; [|done|done]. intros a b Ha Hb. apply H1; [done|by right].
Qed.

(** Two places of a node in a list without repetitions are the same. *)
Lemma nodup_split (l1 l1' l2 l2' : list (Z * Z)) x k k' :
  NoDup (l1 ++ (x, k) :: l2).*1 -> l1 ++ (x, k) :: l2 = l1' ++ (x, k') :: l2' ->
  l1 = l1' /\ l2 = l2'.
Proof.
  revert l1'. induction l1 as [|e l1 IH]; intros [|e' l1'] Hd Heq; cbn [app] in *.
  - by injection Heq as -> ->.
  - injection Heq as <- ->. exfalso. cbn in Hd. apply NoDup_cons in Hd as [Hd _]. apply Hd.
    rewrite fmap_app. apply elem_of_app. right. by left.
  - injection Heq as -> <-. exfalso. cbn in Hd. apply NoDup_cons in Hd as [Hd _]. apply Hd.
    rewrite fmap_app. apply elem_of_app. right. by left.
  - injection Heq as <- Heq. cbn in Hd. apply NoDup_cons in Hd as [_ Hd].
    by destruct (IH l1' Hd Heq) as [-> ->].
Qed.

Lemma elems_empty s rp t : rep s rp t -∗ ⌜ptr s t = s <-> elems t = []⌝.
Proof.
  iIntros "H". destruct t as [|c l x k r]; [done|].
  iDestruct (rep_parent_acc with "H") as "(_ & %Hx & _)"; [done|]. iPureIntro. cbn [elems].
  split; [done|]. by intros [_ ?]%app_eq_nil.
Qed.

Lemma rb_insert_law fuel tr s l x k :
  P k -> (tree_fuel (length l) <= fuel)%nat ->
  tree_list rb_nodes tr s l ∗ fresh x k ⊢
  wp (ngx_rbtree_insert (insert_by less) fuel tr x)
    (fun _ => tree_list rb_nodes tr s (ins less (x, k) l)).
Proof.
  iIntros (Hk Hf) "[H Hx]".
  iDestruct (tree_list_rep with "H") as (t) "[(%Hv & <- & %Ho & %Hp) Ht]".
  iApply (wp_wand with "[Ht Hx]").
  { iApply insert_spec; [done|by apply valid_height|]. iFrame. }
  iIntros (_) "(%t' & [%Hv' %He] & Ht)". iApply tree_list_rep. iExists t'. iFrame. iPureIntro.
  rewrite (descend_ins less P) // in He. cbn [before after fold_left app] in He.
  rewrite app_nil_r in He. split_and!; [done|done|by apply (ins_ordered less P)|].
  apply Forall_forall. intros e Hin. rewrite Forall_forall in Hp.
  assert (Hins : forall l e, e ∈ ins less (x, k) l -> e = (x, k) \/ e ∈ l).
  { clear. induction l as [|y l IH]; cbn [ins]; intros e He.
    - apply list_elem_of_singleton in He. by left.
    - destruct (less _ _); apply elem_of_cons in He as [->|He]; [by left|by right|right; by left|].
      destruct (IH e He); [by left|right; by right]. }
  destruct (Hins _ _ Hin) as [->|Hl]; [done|by apply Hp].
Qed.

Lemma rb_delete_law fuel tr s l1 x k l2 :
  (tree_fuel (length (l1 ++ (x, k) :: l2)) <= fuel)%nat ->
  tree_list rb_nodes tr s (l1 ++ (x, k) :: l2) ⊢
  wp (ngx_rbtree_delete fuel tr x) (fun _ => tree_list rb_nodes tr s (l1 ++ l2) ∗ fresh x 0)%I.
Proof.
  iIntros (Hf) "H".
  iDestruct (tree_list_rep with "H") as (t) "[(%Hv & %He & %Ho & %Hp) Ht]".
  iAssert ⌜NoDup (elems t).*1⌝%I as %Hd.
  { iDestruct "Ht" as "(_ & _ & (%rp & Ht) & _)". iApply (cells_nodup parent).
    iApply (rep_parents with "Ht"). }
  iApply (wp_wand with "[Ht]").
  { iApply (remove_spec s tr fuel x k t with "Ht"); [done| |].
    - rewrite He. apply elem_of_app. right. by left.
    - apply valid_height; [done|]. by rewrite He. }
  iIntros (_) "(%t' & %l1' & %l2' & (%Hv' & %He1 & %He2) & Ht & $)".
  rewrite He in Hd He1. destruct (nodup_split _ _ _ _ _ _ _ Hd He1) as [<- <-].
  iApply tree_list_rep. iExists t'. iFrame. iPureIntro. split_and!; [done|done| |].
  - by eapply ordered_remove.
  - apply Forall_app in Hp as [Hp1 Hp2]. apply Forall_cons in Hp2 as [_ Hp2]. by apply Forall_app.
Qed.

#[export] Instance rb_ordered_tree : OrderedTree less P (insert_by less) rb_nodes.
Proof.
  split.
  - iIntros (r s l) "(%t & (-> & %Hv & <- & _) & (%rp & Ht) & _)". iApply (cells_nodup parent).
    iApply (rep_parents with "Ht").
  - by iIntros (r s l) "(%t & (-> & %Hv & <- & %Ho & %Hf) & _)".
  - iIntros (r s l) "(%t & (-> & %Hv & <- & _) & (%rp & Ht) & _)". iApply (elems_empty with "Ht").
  - iIntros (r s l x k) "(%t & (-> & %Hv & <- & _) & (%rp & Ht) & _) (% & % & % & % & _ & _ & Hx & _)".
    iIntros ([i Hi]%list_elem_of_lookup). iDestruct (rep_parents with "Ht") as "Ht".
    iDestruct (big_sepL_lookup with "Ht") as (v) "Hv"; [exact Hi|]. iApply (cell_excl with "Hx Hv").
  - iIntros (r s l x k Hin) "(%t & (-> & %Hv & <- & %Ho & %Hf) & (%rp & Ht) & H)".
    iDestruct (rep_key with "Ht") as "[$ Ht]"; [done|]. iIntros "Hk". iExists t. iFrame "H".
    iSplit; [done|]. iExists rp. by iApply "Ht".
  - iIntros (fuel r s x k l Hf) "(%t & (-> & %Hv & %He & %Ho & %Hp) & (%rp & Ht) & H)".
    iApply (min_spec with "Ht").
    + apply Nat.lt_le_incl, valid_height; [done|]. by rewrite He.
    + intros ->. by cbn in He.
    + iIntros (q c x' k' r [-> Hlm]) "Ht". rewrite elems_plug (leftmost_before q Hlm) in He.
      injection He as -> -> He. iSplit; [done|]. iExists _. iFrame.
      iPureIntro. split_and!; try done. rewrite elems_plug (leftmost_before q Hlm). cbn. by rewrite He.
  - iIntros (tr s) "[(%a & %b & H1 & H2) (%c & %d & H3 & H4)]". unfold ngx_rbtree_init, ngx_rbt_black.
    wp_go. iExists s. iFrame. iExists E. iFrame. iSplit; [|by iExists 0].
    iPureIntro. split_and!; [done|by exists 0%nat; constructor|done|constructor|constructor].
  - intros. by apply rb_insert_law.
  - intros. by apply rb_delete_law.
Qed.
End Implementation.

(** ** The orders of the two insertion functions *)

(** [ngx_rbtree_insert_value] compares all keys. *)
#[export] Instance key_less_order : KeyOrder key_less (fun _ => True).
Proof. unfold key_less. split; intros; lia. Qed.

(** [ngx_rbtree_insert_timer_value] compares keys of a window of half the range,
    which may lie across the overflow of the millisecond counter. *)
Definition in_window (base k : Z) : Prop := 0 <= k < 2 ^ 64 /\ (k - base) mod 2 ^ 64 < 2 ^ 63.

Lemma s64_congr a b : a mod 2 ^ 64 = b mod 2 ^ 64 -> s64 a = s64 b.
Proof. intros H. unfold s64. rewrite -(Zplus_mod_idemp_l a) H Zplus_mod_idemp_l //. Qed.

Lemma s64_sub a b : s64 (s64 a - s64 b) = s64 (a - b).
Proof. apply s64_congr. rewrite Zminus_mod !s64_mod -Zminus_mod //. Qed.

(** The difference of two keys of a window is the difference of their places in it. *)
Lemma window_sub base a b :
  in_window base a -> in_window base b ->
  s64 (s64 a - s64 b) = (a - base) mod 2 ^ 64 - (b - base) mod 2 ^ 64.
Proof.
  intros [_ Ha] [_ Hb]. rewrite s64_sub.
  pose proof (Z.mod_pos_bound (a - base) (2 ^ 64) eq_refl).
  pose proof (Z.mod_pos_bound (b - base) (2 ^ 64) eq_refl).
  rewrite -(s64_id ((a - base) mod 2 ^ 64 - (b - base) mod 2 ^ 64)); [|lia].
  apply s64_congr. rewrite -Zminus_mod. f_equal. lia.
Qed.

#[export] Instance timer_less_order base : KeyOrder timer_less (in_window base).
Proof.
  unfold timer_less. split.
  - intros a b Ha Hb. rewrite !(window_sub base) //. lia.
  - intros a b k Ha Hb Hk. rewrite !(window_sub base) //. lia.
Qed.

(** ** What the trees promise *)

(** C33: [ngx_rbtree_insert] returns with the node at its place by key, after the
    nodes of the same key.  The tree stays a red-black tree (root black, no red node
    with a red child, equal black heights), whose height and so the loops are bounded
    by the logarithm of the number of nodes; all links, parent links included, are
    right, and nothing else in memory changes.  [less] is the order of
    [ngx_rbtree_insert_value], or that of [ngx_rbtree_insert_timer_value] on keys
    within half of the range of the counter, or that of a client. *)
Theorem rbtree_insert less P `{!KeyOrder less P} (fuel : nat) (tr s x k : Z) (l : list (Z * Z)) :
  P k -> (tree_fuel (length l) <= fuel)%nat ->
  triple (tree_list (rb_nodes less P) tr s l ∗ fresh x k)
    (ngx_rbtree_insert (insert_by less) fuel tr x)
    (fun _ => tree_list (rb_nodes less P) tr s (ins less (x, k) l)).
Proof. intros. by apply wp_triple, rb_insert_law. Qed.

(** C32: [ngx_rbtree_delete] returns with the node out of the tree and the others in
    their order, the tree still a red-black tree with all its links right; the loops
    are bounded by the logarithm of the number of nodes.  The node is given back with
    its key cleared, and nothing else in memory changes. *)
Theorem rbtree_delete less P `{!KeyOrder less P} (fuel : nat) (tr s x k : Z) (l1 l2 : list (Z * Z)) :
  (tree_fuel (length (l1 ++ (x, k) :: l2)) <= fuel)%nat ->
  triple (tree_list (rb_nodes less P) tr s (l1 ++ (x, k) :: l2))
    (ngx_rbtree_delete fuel tr x)
    (fun _ => tree_list (rb_nodes less P) tr s (l1 ++ l2) ∗ fresh x 0)%I.
Proof. intros. by apply wp_triple, rb_delete_law. Qed.

(** The tree 1 with the sentinel 2 and the nodes 10 and 11 (a black root and its red
    left child), and the free node 12; the keys are across the overflow. *)
Definition sample_tree : list (Z * field * Z) :=
  [(1, root, 10); (1, sentinel, 2); (2, color, 0); (2, parent, 0);
   (10, color, 0); (10, left, 11); (10, right, 2); (10, parent, 0); (10, key, 5);
   (11, color, 1); (11, left, 2); (11, right, 2); (11, parent, 10); (11, key, 2 ^ 64 - 5)].
Definition sample_node : list (Z * field * Z) :=
  [(12, left, 0); (12, right, 0); (12, parent, 0); (12, color, 0); (12, key, 2 ^ 64 - 9)].

Lemma sample_tree_list :
  cells sample_tree ⊢
  tree_list (rb_nodes timer_less (in_window (2 ^ 63 + 10))) 1 2 [(11, 2 ^ 64 - 5); (10, 5)].
Proof.
  unfold cells, sample_tree. cbn [big_sepL fst snd].
  iIntros "(A & B & C & D & E1 & E2 & E3 & E4 & E5 & F1 & F2 & F3 & F4 & F5 & _)".
  iExists 10. iFrame "A B". iExists (T false (T true E 11 (2 ^ 64 - 5) E) 10 5 E). iSplit.
  - iPureIntro. split_and!; [done|exists 1%nat; by repeat econstructor|done| |].
    + repeat constructor; by vm_compute.
    + by repeat constructor.
  - iFrame "C D". iExists 0. cbn. unfold node_cells. by iFrame.
Qed.

Lemma sample_insert_holds :
  (tree_list (rb_nodes timer_less (in_window (2 ^ 63 + 10))) 1 2 [(11, 2 ^ 64 - 5); (10, 5)]
     ∗ fresh 12 (2 ^ 64 - 9))%I (heap_of (sample_tree ++ sample_node)).
Proof.
  eapply holds_entails; [|apply cells_heap; by_decide].
  unfold cells. rewrite big_sepL_app. iIntros "[H1 H2]".
  iSplitL "H1"; [by iApply sample_tree_list|].
  unfold sample_node, fresh. cbn [big_sepL fst snd]. iDestruct "H2" as "($ & $ & $ & $ & $ & _)".
Qed.

Lemma rbtree_insert_witness :
  (exists h', ngx_rbtree_insert (insert_by timer_less) 7 1 12 (heap_of (sample_tree ++ sample_node))
                = Some (tt, h') /\
     tree_list (rb_nodes timer_less (in_window (2 ^ 63 + 10))) 1 2
       [(12, 2 ^ 64 - 9); (11, 2 ^ 64 - 5); (10, 5)] h') /\
  (fst <$> (h ← (snd <$> ngx_rbtree_insert (insert_by timer_less) 7 1 12
                           (heap_of (sample_tree ++ sample_node)));
            (1⟶root) h)) = Some 11.
Proof.
  split; [|by vm_compute].
  destruct (triple_run _ _ _ _
              (rbtree_insert timer_less (in_window (2 ^ 63 + 10)) 7 1 2 12 (2 ^ 64 - 9)
                 [(11, 2 ^ 64 - 5); (10, 5)] ltac:(by vm_compute) ltac:(by_decide))
              sample_insert_holds) as ([] & h' & Hm & _ & HQ).
  exists h'. split; [exact Hm|]. exact HQ.
Defined.

Lemma rbtree_delete_witness :
  exists h', ngx_rbtree_delete 5 1 10 (heap_of sample_tree) = Some (tt, h') /\
    fst <$> (1⟶root) h' = Some 11 /\ fst <$> (11⟶color) h' = Some 0.
Proof.
  destruct (triple_run _ _ _ _
              (rbtree_delete timer_less (in_window (2 ^ 63 + 10)) 5 1 2 10 5
                 [(11, 2 ^ 64 - 5)] [] ltac:(by_decide))
              (holds_entails _ _ _ sample_tree_list (cells_heap sample_tree ltac:(by_decide))))
    as ([] & h' & Hm & _ & _).
  exists h'. split; [exact Hm|]. revert Hm. vm_compute. by intros [= <-].
Defined.
