(* ===== verification/EventTimer.v ===== *)
(** The event timers of src/event/ngx_event_timer.c and src/event/ngx_event_timer.h,
    on any ordered tree: which events are called by [ngx_event_expire_timers]. *)
From S2P Require Import Prelude Memory RbTree RbTreeSpec RbTreeInsert RbTreeOrder.

(** ** The code *)

Definition NGX_TIMER_INFINITE : Z := u64 (- 1).
Definition NGX_TIMER_LAZY_DELAY : Z := 300.

Section Code.
(** The addresses of the global variables, and the place of the member [timer] in
    [ngx_event_t]; [call h ev] is what the function that [h] points to does. *)
Context (ngx_event_timer_rbtree ngx_event_timer_sentinel ngx_current_msec offset : Z).
Context (call : Z -> Z -> M unit).

(** [&ev->timer], and back. *)
Definition timer (ev : Z) : Z := ev + offset.
Definition event_of (node : Z) : Z := node - offset.

Definition ngx_event_timer_init : M Z :=
  ngx_rbtree_init ngx_event_timer_rbtree ngx_event_timer_sentinel;; mret NGX_OK.

Definition ngx_event_find_timer (fuel : nat) : M Z :=
  r ← ngx_event_timer_rbtree⟶root;
  if r =? ngx_event_timer_sentinel then mret NGX_TIMER_INFINITE
  else
    root ← ngx_event_timer_rbtree⟶root;
    sentinel ← ngx_event_timer_rbtree⟶sentinel;
    node ← ngx_rbtree_min fuel root sentinel;
    k ← node⟶key; now ← ngx_current_msec⟶value;
    let timer := s64 (s64 k - s64 now) in
    mret (u64 (if 0 <? timer then timer else 0)).

Definition ngx_event_del_timer (fuel : nat) (ev : Z) : M unit :=
  ngx_rbtree_delete fuel ngx_event_timer_rbtree (timer ev);;
  ev⟶timer_set ::= 0.


(** From [ev->timer.key = key] on. *)
Definition start_timer (fuel : nat) (ev key_ : Z) : M unit :=
  (timer ev)⟶key ::= key_;;
  ngx_rbtree_insert ngx_rbtree_insert_timer_value fuel ngx_event_timer_rbtree (timer ev);;
  ev⟶timer_set ::= 1.

Definition ngx_event_add_timer (fuel : nat) (ev timer_ : Z) : M unit :=
  now ← ngx_current_msec⟶value;
  let key_ := u64 (now + timer_) in
  set ← ev⟶timer_set;
  if negb (set =? 0) then
    k ← (timer ev)⟶key;
    let diff := s64 (key_ - k) in
    if ngx_abs diff <? NGX_TIMER_LAZY_DELAY then mret tt
    else ngx_event_del_timer fuel ev;; start_timer fuel ev key_
  else start_timer fuel ev key_.

(** [node->key <= ngx_current_time], as the sign of the difference. *)
Definition expired (now k : Z) : bool := s64 (s64 k - s64 now) <=? 0.

(** The loop of [ngx_event_expire_timers]; [fuel] bounds its rounds and the loops of
    the tree. *)
Fixpoint expire_loop (n fuel : nat) (sentinel : Z) : M unit :=
  match n with
  | O => stuck
  | S n =>
      root ← ngx_event_timer_rbtree⟶root;
      if root =? sentinel then mret tt
      else
        node ← ngx_rbtree_min fuel root sentinel;
        k ← node⟶key; now ← ngx_current_msec⟶value;
        if expired now k then
          let ev := event_of node in
          ngx_rbtree_delete fuel ngx_event_timer_rbtree (timer ev);;
          ev⟶timer_set ::= 0;;
          ev⟶timedout ::= 1;;
          h ← ev⟶handler;
          call h ev;;
          expire_loop n fuel sentinel
        else mret tt
  end.

Definition ngx_event_expire_timers (fuel : nat) : M unit :=
  sentinel ← ngx_event_timer_rbtree⟶sentinel;
  expire_loop fuel fuel sentinel.
End Code.

(** ** The timers as a list *)

Section Timers.
Context (ngx_event_timer_rbtree ngx_event_timer_sentinel ngx_current_msec offset : Z).
Context (base now : Z) (Hnow : in_window base now).
Context (nodes : Z -> Z -> list (Z * Z) -> hProp).
Context {tree : OrderedTree timer_less (in_window base) ngx_rbtree_insert_timer_value nodes}.

Notation tlist := (tree_list nodes ngx_event_timer_rbtree ngx_event_timer_sentinel).
Notation timer := (timer offset).
Notation event_of := (event_of offset).

(** The members of an event besides its node; [b] says whether its timer is set. *)
Definition event (b ev : Z) : hProp :=
  ev⟶timer_set ↦ b ∗ ∃ t h, ev⟶timedout ↦ t ∗ ev⟶handler ↦ h.

(** The tree of the timers, and the events whose nodes are in it. *)
Definition timers (l : list (Z * Z)) : hProp :=
  tlist l ∗ [∗ list] e ∈ l, event 1 (event_of e.1).

Definition clock : hProp := ngx_current_msec⟶value ↦ now.

Lemma event_of_timer ev : event_of (timer ev) = ev.
Proof. unfold EventTimer.event_of, EventTimer.timer. lia. Qed.
Lemma timer_event_of x : timer (event_of x) = x.
Proof. unfold EventTimer.event_of, EventTimer.timer. lia. Qed.

Lemma tree_root l : tlist l ⊢
  ∃ r, ngx_event_timer_rbtree⟶root ↦ r ∗ ngx_event_timer_rbtree⟶sentinel ↦ ngx_event_timer_sentinel
    ∗ ⌜r = ngx_event_timer_sentinel <-> l = []⌝ ∗ nodes r ngx_event_timer_sentinel l.
Proof.
  iIntros "(%r & H1 & H2 & H3)". iDestruct (nodes_empty with "H3") as %Hr. iExists r. by iFrame.
Qed.

Lemma tree_window x k l : (x, k) ∈ l -> tlist l -∗ ⌜in_window base k⌝.
Proof.
  iIntros (Hin) "(%r & _ & _ & H)". iDestruct (nodes_ordered with "H") as %[_ Hf].
  rewrite Forall_forall in Hf. iPureIntro. exact (Hf _ Hin).
Qed.

(** The time of a timer from now on, and whether it has come. *)
Definition remaining (k : Z) : Z := (k - base) mod 2 ^ 64 - (now - base) mod 2 ^ 64.

Lemma expired_remaining k : in_window base k -> expired now k = (remaining k <=? 0).
Proof. intros Hk. unfold expired. rewrite (window_sub base) //. Qed.

Lemma find_timer_spec fuel l :
  (tree_fuel (length l) <= fuel)%nat ->
  tlist l ∗ clock ⊢
  wp (ngx_event_find_timer ngx_event_timer_rbtree ngx_event_timer_sentinel ngx_current_msec fuel)
    (fun t => ⌜t = match l with
                   | [] => NGX_TIMER_INFINITE
                   | e :: _ => Z.max 0 (remaining e.2)
                   end⌝ ∗ tlist l ∗ clock)%I.
Proof.
  iIntros (Hf) "[H Hc]". unfold ngx_event_find_timer, clock.
  destruct l as [|[x k] l].
  { iDestruct (tree_root with "H") as "(%r & H1 & H2 & %Hr & H)".
    assert (r = ngx_event_timer_sentinel) as -> by by apply Hr. wp_go. iSplit; [done|]. iFrame. }
  iDestruct (tree_window x k with "H") as %Hk; [by left|].
  iDestruct (tree_root with "H") as "(%r & H1 & H2 & %Hr & H)".
  assert (r <> ngx_event_timer_sentinel) by by intros ?%Hr. wp_go. wp_unbind.
  iApply (wp_wand with "[H]"); [by iApply (nodes_min with "H")|]. iIntros (y) "[-> H]".
  iDestruct (nodes_key with "H") as "[Hx H]"; [by left|]. wp_go. iSpecialize ("H" with "Hx").
  iFrame. iPureIntro. rewrite (window_sub base) // -/(remaining k). cbn [snd].
  assert (0 <= Z.max 0 (remaining k) < 2 ^ 64).
  { unfold remaining. pose proof (Z.mod_pos_bound (k - base) (2 ^ 64) eq_refl).
    pose proof (Z.mod_pos_bound (now - base) (2 ^ 64) eq_refl). lia. }
  rewrite -(u64_id (Z.max 0 _)) //. f_equal. destruct (Z.ltb_spec 0 (remaining k)); lia.
Qed.

Lemma del_timer_spec fuel l1 ev k l2 :
  (tree_fuel (length (l1 ++ (timer ev, k) :: l2)) <= fuel)%nat ->
  timers (l1 ++ (timer ev, k) :: l2) ⊢
  wp (ngx_event_del_timer ngx_event_timer_rbtree offset fuel ev)
    (fun _ => timers (l1 ++ l2) ∗ fresh (timer ev) 0 ∗ event 0 ev)%I.
Proof.
  iIntros (Hf) "[H He]". unfold ngx_event_del_timer. wp_unbind.
  rewrite big_sepL_app big_sepL_cons. iDestruct "He" as "(He1 & He & He2)".
  iApply (wp_wand with "[H]"); [by iApply (tree_delete_law with "H")|]. iIntros (_) "[H Hx]".
  cbn [fst]. rewrite event_of_timer. iDestruct "He" as "(E1 & E2)". wp_go. iFrame.
Qed.

Lemma start_timer_spec fuel l ev k0 k :
  in_window base k -> (tree_fuel (length l) <= fuel)%nat ->
  timers l ∗ fresh (timer ev) k0 ∗ event 0 ev ⊢
  wp (start_timer ngx_event_timer_rbtree offset fuel ev k)
    (fun _ => timers (ins timer_less (timer ev, k) l)).
Proof.
  iIntros (Hk Hf) "([H He] & Hx & (E1 & E2))". unfold start_timer.
  iDestruct "Hx" as "(%a & %b & %c & %d & X1 & X2 & X3 & X4 & X5)". wp_go. wp_unbind.
  iApply (wp_wand with "[H X1 X2 X3 X4 X5]").
  { iApply (tree_insert_law fuel _ _ l (timer ev) k); [done|done|]. iFrame. }
  iIntros (_) "H". wp_go. iFrame "H".
  iAssert (event 1 ev) with "[E1 E2]" as "E"; [by iFrame|]. clear -ngx_event_timer_rbtree.
  iInduction l as [|y l] "IH"; cbn [ins fst].
  - rewrite big_sepL_singleton /= event_of_timer //.
  - destruct (timer_less _ _); cbn [big_sepL fst].
    + rewrite event_of_timer. iFrame.
    + iDestruct "He" as "[$ He]". iApply ("IH" with "He E").
Qed.

(** The timers after [ngx_event_add_timer] of an event whose timer is set. *)
Definition moved (l1 : list (Z * Z)) (ev k : Z) (l2 : list (Z * Z)) (k' : Z) : list (Z * Z) :=
  if ngx_abs (s64 (k' - k)) <? NGX_TIMER_LAZY_DELAY then l1 ++ (timer ev, k) :: l2
  else ins timer_less (timer ev, k') (l1 ++ l2).

Lemma add_timer_new fuel l ev k0 ms :
  in_window base (u64 (now + ms)) -> (tree_fuel (length l) <= fuel)%nat ->
  timers l ∗ fresh (timer ev) k0 ∗ event 0 ev ∗ clock ⊢
  wp (ngx_event_add_timer ngx_event_timer_rbtree ngx_current_msec offset fuel ev ms)
    (fun _ => timers (ins timer_less (timer ev, u64 (now + ms)) l) ∗ clock)%I.
Proof.
  iIntros (Hk Hf) "(H & Hx & (E1 & E2) & Hc)". unfold ngx_event_add_timer, clock. wp_go.
  iApply (wp_wand with "[-Hc]"); [iApply start_timer_spec; [done|done|]; iFrame|].
  iIntros (_) "H". iFrame.
Qed.

Lemma add_timer_again fuel l1 ev k l2 ms :
  in_window base (u64 (now + ms)) ->
  (tree_fuel (length (l1 ++ (timer ev, k) :: l2)) <= fuel)%nat ->
  timers (l1 ++ (timer ev, k) :: l2) ∗ clock ⊢
  wp (ngx_event_add_timer ngx_event_timer_rbtree ngx_current_msec offset fuel ev ms)
    (fun _ => timers (moved l1 ev k l2 (u64 (now + ms))) ∗ clock)%I.
Proof.
  iIntros (Hk Hf) "([H He] & Hc)". unfold ngx_event_add_timer, clock, moved.
  rewrite big_sepL_app big_sepL_cons. iDestruct "He" as "(He1 & (E1 & E2) & He2)".
  cbn [fst]. rewrite event_of_timer. iDestruct "H" as "(%r & T1 & T2 & H)".
  iDestruct (nodes_key with "H") as "[Hx H]"; [apply elem_of_app; right; by left|].
  wp_go. iSpecialize ("H" with "Hx").
  iAssert (timers (l1 ++ (timer ev, k) :: l2)) with "[T1 T2 H He1 E1 E2 He2]" as "H".
  { iFrame. rewrite /= event_of_timer. iFrame. }
  destruct (_ <? _).
  - wp_go. by iFrame.
  - wp_unbind. iApply (wp_wand with "[H]"); [by iApply del_timer_spec|].
    iIntros (_) "(H & Hx & E)".
    iApply (wp_wand with "[-Hc]"); [iApply start_timer_spec; [done| |by iFrame]|iIntros (_) "H"; iFrame].
    etrans; [|exact Hf]. unfold tree_fuel. rewrite !length_app /=.
    pose proof (Nat.log2_le_mono (S (length l1 + length l2)) (S (length l1 + S (length l2)))). lia.
Qed.

Lemma lazy_distance k k' :
  in_window base k -> in_window base k' ->
  ngx_abs (s64 (k' - k)) = Z.abs (remaining k' - remaining k).
Proof.
  intros Hk Hk'. rewrite -s64_sub (window_sub base) // /ngx_abs /remaining.
  destruct Hk as [_ Hk], Hk' as [_ Hk'].
  pose proof (Z.mod_pos_bound (k - base) (2 ^ 64) eq_refl).
  pose proof (Z.mod_pos_bound (k' - base) (2 ^ 64) eq_refl).
  case_match; [|rewrite s64_id]; lia.
Qed.

Lemma init_spec :
  (∃ a b, ngx_event_timer_rbtree⟶root ↦ a ∗ ngx_event_timer_rbtree⟶sentinel ↦ b) ∗
  (∃ a b, ngx_event_timer_sentinel⟶color ↦ a ∗ ngx_event_timer_sentinel⟶parent ↦ b) ⊢
  wp (ngx_event_timer_init ngx_event_timer_rbtree ngx_event_timer_sentinel)
    (fun r => ⌜r = NGX_OK⌝ ∗ timers [])%I.
Proof.
  iIntros "H". unfold ngx_event_timer_init. wp_unbind. iApply (wp_wand with "[H]").
  { by iApply (tree_init_law with "H"). }
  iIntros (_) "H". wp_go. iSplit; [done|]. iFrame. done.
Qed.

(** C34: what the timer functions do to the list of timers, which is in the order of the
    time from now on.  [ngx_event_timer_init] makes it empty.  [ngx_event_find_timer]
    gives the time until the first timer, 0 when it has come, [NGX_TIMER_INFINITE] when
    there is none: exactly the time after which [ngx_event_expire_timers] has something
    to do.  [ngx_event_del_timer] takes one timer out.  [ngx_event_add_timer] puts the
    timer at its time after those of the same time; a timer that is set is moved, unless
    its new time is less than 300 milliseconds from the old one.  All of this holds across
    the overflow of the counter, for times less than half of its range apart. *)
Theorem event_timers (fuel : nat) (ev k k0 ms : Z) (l l1 l2 : list (Z * Z)) :
  (tree_fuel (length l) <= fuel)%nat -> (tree_fuel (length (l1 ++ (timer ev, k) :: l2)) <= fuel)%nat ->
  in_window base k -> in_window base (u64 (now + ms)) ->
  triple
    ((∃ a b, ngx_event_timer_rbtree⟶root ↦ a ∗ ngx_event_timer_rbtree⟶sentinel ↦ b) ∗
     (∃ a b, ngx_event_timer_sentinel⟶color ↦ a ∗ ngx_event_timer_sentinel⟶parent ↦ b))
    (ngx_event_timer_init ngx_event_timer_rbtree ngx_event_timer_sentinel)
    (fun r => ⌜r = NGX_OK⌝ ∗ timers [])%I /\
  triple (tlist l ∗ clock)
    (ngx_event_find_timer ngx_event_timer_rbtree ngx_event_timer_sentinel ngx_current_msec fuel)
    (fun t => ⌜t = match l with
                   | [] => NGX_TIMER_INFINITE
                   | e :: _ => Z.max 0 (remaining e.2)
                   end⌝ ∗ tlist l ∗ clock)%I /\
  triple (timers (l1 ++ (timer ev, k) :: l2))
    (ngx_event_del_timer ngx_event_timer_rbtree offset fuel ev)
    (fun _ => timers (l1 ++ l2) ∗ fresh (timer ev) 0 ∗ event 0 ev)%I /\
  triple (timers l ∗ fresh (timer ev) k0 ∗ event 0 ev ∗ clock)
    (ngx_event_add_timer ngx_event_timer_rbtree ngx_current_msec offset fuel ev ms)
    (fun _ => timers (ins timer_less (timer ev, u64 (now + ms)) l) ∗ clock)%I /\
  triple (timers (l1 ++ (timer ev, k) :: l2) ∗ clock)
    (ngx_event_add_timer ngx_event_timer_rbtree ngx_current_msec offset fuel ev ms)
    (fun _ => timers (if Z.abs (remaining (u64 (now + ms)) - remaining k) <? 300
                      then l1 ++ (timer ev, k) :: l2
                      else ins timer_less (timer ev, u64 (now + ms)) (l1 ++ l2)) ∗ clock)%I.
Proof.
  intros H1 H2 Hk Hms. rewrite -lazy_distance //. split_and!; apply wp_triple.
  - apply init_spec.
  - by apply find_timer_spec.
  - by apply del_timer_spec.
  - by apply add_timer_new.
  - by apply add_timer_again.
Qed.

(** ** The loop over the expired timers *)

Definition expired_of (l : list (Z * Z)) : list (Z * Z) := filter (fun e => expired now e.2) l.

(** The loop on the lists of timers: the first timer is taken out and its event called
    while it has expired; [effect ev l l'] says what the handler of [ev] may do to the
    other timers. *)
Inductive expires (effect : Z -> list (Z * Z) -> list (Z * Z) -> Prop) :
    list (Z * Z) -> list Z -> list (Z * Z) -> Prop :=
  | expires_end l : expired_of l = [] -> expires effect l [] l
  | expires_call x k l l1 evs l2 :
      expired now k = true -> effect (event_of x) l l1 -> expires effect l1 evs l2 ->
      expires effect ((x, k) :: l) (event_of x :: evs) l2.

Lemma filter_none {A} (P : A -> Prop) `{!forall x, Decision (P x)} (l : list A) :
  Forall (fun x => ~ P x) l -> filter P l = [].
Proof. induction 1 as [|x l Hx _ IH]; [done|]. rewrite filter_cons decide_False //. Qed.

(** The first timer has the least time. *)
Lemma head_not_expired x k l :
  ordered timer_less ((x, k) :: l) -> Forall (fun e => in_window base e.2) ((x, k) :: l) ->
  expired now k = false -> expired_of ((x, k) :: l) = [].
Proof.
  unfold ordered. rewrite StronglySorted_cons Forall_cons. intros [Ho _] [Hk Hw] E.
  apply filter_none. apply Forall_cons. split; [intros H; by rewrite /= E in H|].
  rewrite -> Forall_forall in Ho, Hw. apply Forall_forall. intros [y ky] Hin He.
  specialize (Ho _ Hin). specialize (Hw _ Hin). unfold not_after, timer_less in Ho.
  cbn [fst snd] in *. rewrite expired_remaining // in E.
  apply Is_true_true in He. cbn in He. rewrite expired_remaining // in He. rewrite (window_sub base) // in Ho.
  unfold remaining in *. lia.
Qed.

(** Handlers that leave the expired timers alone: exactly these are called. *)
Lemma expires_all effect l called l' :
  (forall ev l l', effect ev l l' -> expired_of l' = expired_of l) ->
  expires effect l called l' -> called = (fun e => event_of e.1) <$> expired_of l.
Proof.
  intros He. induction 1 as [l Hl|x k l l1 evs l2 Hx Hl1 _ IH]; [by rewrite Hl|].
  unfold expired_of in *. rewrite filter_cons decide_True; [|by rewrite /= Hx]. cbn. f_equal.
  rewrite IH. f_equal. by eapply He.
Qed.

Lemma expires_none effect l called l' : expires effect l called l' -> expired_of l' = [].
Proof. by induction 1. Qed.

(** The handlers: [effect] bounds the number of timers, and no handler leaves more expired
    timers than there were. *)
Class Handlers (call : Z -> Z -> M unit) (R : list Z -> hProp) (cap : nat)
    (effect : Z -> list (Z * Z) -> list (Z * Z) -> Prop) : Prop := {
  effect_expired ev l l' :
    effect ev l l' -> (length (expired_of l') <= length (expired_of l))%nat;
  effect_cap ev l l' : effect ev l l' -> (length l' <= cap)%nat;
  handler_law evs h ev l :
    (length l < cap)%nat ->
    timers l ∗ clock ∗ R evs ∗
    ev⟶timer_set ↦ 0 ∗ ev⟶timedout ↦ 1 ∗ ev⟶handler ↦ h ∗ fresh (timer ev) 0 ⊢
    wp (call h ev) (fun _ => ∃ l', ⌜effect ev l l'⌝ ∗ timers l' ∗ clock ∗ R (evs ++ [ev]))%I
}.

Lemma tree_fuel_mono n m : (n <= m)%nat -> (tree_fuel n <= tree_fuel m)%nat.
Proof. intros H. unfold tree_fuel. pose proof (Nat.log2_le_mono (S n) (S m)). lia. Qed.

Context (call : Z -> Z -> M unit) (R : list Z -> hProp) (cap : nat).
Context (effect : Z -> list (Z * Z) -> list (Z * Z) -> Prop) {Hh : Handlers call R cap effect}.

Lemma expire_loop_spec n fuel l evs :
  (length (expired_of l) < n)%nat -> (length l <= cap)%nat -> (tree_fuel cap <= fuel)%nat ->
  timers l ∗ clock ∗ R evs ⊢
  wp (expire_loop ngx_event_timer_rbtree ngx_current_msec offset call n fuel
        ngx_event_timer_sentinel)
    (fun _ => ∃ called l', ⌜expires effect l called l'⌝ ∗ timers l' ∗ clock ∗
       R (evs ++ called))%I.
Proof.
  revert l evs. induction n as [|n IH]; intros l evs Hn Hl Hf; [lia|].
  iIntros "([H He] & Hc & HR)". cbn [expire_loop]. destruct l as [|[x k] l].
  { iDestruct (tree_root with "H") as "(%r & H1 & H2 & %Hr & H)".
    assert (r = ngx_event_timer_sentinel) as -> by by apply Hr. wp_go.
    iExists [], []. rewrite app_nil_r. iFrame. iPureIntro. by constructor. }
  iDestruct (tree_window x k with "H") as %Hk; [by left|].
  iDestruct (tree_root with "H") as "(%r & H1 & H2 & %Hr & H)".
  iDestruct (nodes_ordered with "H") as %[Ho Hw].
  assert (r <> ngx_event_timer_sentinel) by by intros ?%Hr. wp_go. wp_unbind.
  assert (Hf' := tree_fuel_mono _ _ Hl).
  iApply (wp_wand with "[H]"); [iApply (nodes_min with "H"); lia|]. iIntros (y) "[-> H]".
  iDestruct (nodes_key with "H") as "[Hx H]"; [by left|]. unfold clock. wp_go.
  iSpecialize ("H" with "Hx"). iAssert (tlist ((x, k) :: l)) with "[H1 H2 H]" as "H"; [by iFrame|].
  destruct (expired now k) eqn:E.
  - rewrite big_sepL_cons timer_event_of. iDestruct "He" as "((E1 & E2) & He)". wp_unbind.
    iApply (wp_wand with "[H]"); [iApply (tree_delete_law fuel _ _ [] x k l with "H"); simpl in *; lia|].
    iIntros (_) "[H Hx]". iDestruct "E2" as "(%t & %h & E2 & E3)". cbn [fst app]. wp_go. wp_unbind.
    iApply (wp_wand with "[-]").
    { iApply (handler_law evs h (event_of x) l); [simpl in *; lia|].
      rewrite timer_event_of. iFrame. }
    iIntros (_) "(%l1 & %He & H & Hc & HR)".
    iApply (wp_wand with "[-]").
    { iApply (IH l1 (evs ++ [event_of x])); [|by eapply effect_cap|done|by iFrame].
      apply effect_expired in He. unfold expired_of in *. rewrite filter_cons in Hn.
      rewrite decide_True in Hn; [|by rewrite /= E]. simpl in Hn. lia. }
    iIntros (_) "(%called & %l2 & %Hx & H & Hc & HR)". iExists (event_of x :: called), l2.
    rewrite -app_assoc. iFrame. iPureIntro. by eapply expires_call.
  - wp_go. iExists [], ((x, k) :: l). rewrite app_nil_r. iSplit; [|by iFrame].
    iPureIntro. constructor. by apply (head_not_expired x k).
Qed.

(** C31: with a clock that stands still and at most [cap] timers at any time,
    [ngx_event_expire_timers] returns when no handler leaves more expired timers than there
    were (it may stop timers and start others, that have not expired yet).  It takes the timers
    out in the order of their time and calls their events, each out of the tree, with
    [timer_set] cleared and [timedout] set; no expired timer is left.  When the handlers
    leave the expired timers alone, the events called are exactly those whose time has come,
    in order.  The order is that of the time from now on, so it is right across the overflow
    of the counter. *)
Theorem event_expire_timers (fuel : nat) (l : list (Z * Z)) :
  (length (expired_of l) < fuel)%nat -> (length l <= cap)%nat -> (tree_fuel cap <= fuel)%nat ->
  triple (timers l ∗ clock ∗ R [])
    (ngx_event_expire_timers ngx_event_timer_rbtree ngx_current_msec offset call fuel)
    (fun _ => ∃ called l',
       ⌜expires effect l called l' /\ expired_of l' = [] /\
        ((forall ev l l', effect ev l l' -> expired_of l' = expired_of l) ->
         called = (fun e => event_of e.1) <$> expired_of l)⌝ ∗
       timers l' ∗ clock ∗ R called)%I.
Proof.
  intros H1 H2 H3. apply wp_triple. iIntros "([H He] & Hc & HR)". unfold ngx_event_expire_timers.
  iDestruct "H" as "(%r & T1 & T2 & H)". wp_go.
  iApply (wp_wand with "[-]").
  { iApply (expire_loop_spec fuel fuel l []); [done|done|done|]. iFrame. }
  iIntros (_) "(%called & %l' & %Hx & H & Hc & HR)". iExists called, l'. iFrame. iPureIntro.
  split_and!; [done|by eapply expires_none|]. intros. by eapply expires_all.
Qed.
End Timers.

(** ** Examples *)

(** The tree 1 with the sentinel 2, the clock 3, and a counter 4 that every handler
    increments; the events 20 and 30 with their nodes at the offset 5. *)
Definition count_call (h ev : Z) : M unit := n ← 4⟶value; 4⟶value ::= n + 1.
Definition counted (evs : list Z) : hProp := 4⟶value ↦ Z.of_nat (length evs).
Definition no_effect (ev : Z) (l l' : list (Z * Z)) : Prop := l' = l /\ (length l < 2)%nat.

#[local] Instance count_handlers now nodes :
  Handlers 1 2 3 5 now nodes count_call counted 2 no_effect.
Proof.
  split.
  - by intros ev l l' [-> _].
  - intros ev l l' [-> H]. lia.
  - iIntros (evs h ev l Hl) "(H & Hc & HR & _)". unfold count_call, counted. wp_go.
    iExists l. iFrame. iSplit; [done|]. rewrite length_app Nat2Z.inj_add /=. iFrame.
Qed.

Definition sample_timers : list (Z * field * Z) :=
  [(1, root, 25); (1, sentinel, 2); (2, color, 0); (2, parent, 0);
   (25, color, 0); (25, left, 35); (25, right, 2); (25, parent, 0); (25, key, 900);
   (35, color, 1); (35, left, 2); (35, right, 2); (35, parent, 25); (35, key, 2 ^ 64 - 5);
   (20, timer_set, 1); (20, timedout, 0); (20, handler, 7);
   (30, timer_set, 1); (30, timedout, 0); (30, handler, 7); (3, value, 100); (4, value, 0)].
Definition sample_base : Z := 2 ^ 63 + 1000.

Lemma sample_timers_hold :
  (timers 1 2 5 (rb_nodes timer_less (in_window sample_base)) [(35, 2 ^ 64 - 5); (25, 900)]
     ∗ clock 3 100 ∗ counted [])%I (heap_of sample_timers).
Proof.
  eapply holds_entails; [|apply cells_heap; by_decide].
  unfold cells, sample_timers. cbn [big_sepL fst snd].
  iIntros "(A & B & C & D & E1 & E2 & E3 & E4 & E5 & F1 & F2 & F3 & F4 & F5 & H1 & H2 & H3 & I1 & I2 & I3 & $ & $ & _)".
  iSplitR "H1 H2 H3 I1 I2 I3"; [|by iFrame].
  iExists 25. iFrame "A B". iExists (T false (T true E 35 (2 ^ 64 - 5) E) 25 900 E). iSplit.
  - iPureIntro. split_and!; [done|exists 1%nat; by repeat econstructor|done| |].
    + repeat constructor; by vm_compute.
    + by repeat constructor.
  - iFrame "C D". iExists 0. cbn. unfold node_cells. by iFrame.
Qed.

Definition after_expiry (m : M Z) : option Z :=
  h ← snd <$> ngx_event_expire_timers 1 3 5 count_call 5 (heap_of sample_timers); fst <$> m h.

Lemma event_expire_timers_witness :
  (exists h' called, ngx_event_expire_timers 1 3 5 count_call 5 (heap_of sample_timers)
                       = Some (tt, h') /\ called = [30]) /\
  after_expiry (30⟶timedout) = Some 1 /\ after_expiry (20⟶timer_set) = Some 1 /\
  after_expiry (4⟶value) = Some 1.
Proof.
  split; [|by vm_compute].
  destruct (triple_run _ _ _ _
              (event_expire_timers 1 2 3 5 sample_base 100 ltac:(by vm_compute)
                 (rb_nodes timer_less (in_window sample_base)) count_call counted 2 no_effect 5
                 [(35, 2 ^ 64 - 5); (25, 900)] ltac:(by_decide) ltac:(by_decide) ltac:(by_decide))
              sample_timers_hold) as ([] & h' & Hm & _ & called & l' & [(_ & _ & Hc) _]%holds_pure_sep).
  exists h', called. split; [exact Hm|]. rewrite Hc; [by vm_compute|by intros ev l1 l2 [-> _]].
Defined.

Lemma event_timers_witness :
  exists t h', ngx_event_find_timer 1 2 3 5 (heap_of sample_timers) = Some (t, h') /\ t = 0.
Proof.
  destruct (event_timers 1 2 3 5 sample_base 100 ltac:(by vm_compute)
              (rb_nodes timer_less (in_window sample_base)) 5 20 900 0 60
              [(35, 2 ^ 64 - 5); (25, 900)] [(35, 2 ^ 64 - 5)] []
              ltac:(by_decide) ltac:(by_decide) ltac:(by vm_compute) ltac:(by vm_compute))
    as (_ & Hfind & _).
  destruct (triple_run _ _ _ (heap_of sample_timers) Hfind) as (t & h' & Hm & _ & [Ht _]%holds_pure_sep).
  { eapply holds_entails; [|exact sample_timers_hold]. by iIntros "([$ _] & $ & _)". }
  exists t, h'. split; [exact Hm|]. rewrite Ht. by vm_compute.
Defined.
