(* ===== verification/Locations.v ===== *)
(** The choice of a location by the path of a request: the preparation of the locations
    of a server in src/http/ngx_http.c and the search in src/http/ngx_http_core_module.c.

    The queues of the configuration are lists here; [Queue] shows that the queue
    operations are those of lists. *)
From S2P Require Import Prelude HashKey CString.

(** ** Data *)

(** The members of [ngx_http_core_loc_conf_t] that decide on the location: [loc_conf] and
    [regex] are pointers, [regex] may be NULL. *)
Record ngx_http_core_loc_conf_t := mk_clcf {
  name : bytes; exact_match : bool; named : bool; noname : bool; regex : option Z;
  auto_redirect : bool; noregex : bool; loc_conf : Z
}.
Abbreviation clcf_t := ngx_http_core_loc_conf_t.

Inductive ngx_http_location_queue_t :=
  LQ (exact inclusive : option clcf_t) (name : bytes) (list : list ngx_http_location_queue_t).
Abbreviation lq_t := ngx_http_location_queue_t.

Definition exact (q : lq_t) : option clcf_t := let '(LQ e _ _ _) := q in e.
Definition inclusive (q : lq_t) : option clcf_t := let '(LQ _ i _ _) := q in i.
Definition lq_name (q : lq_t) : bytes := let '(LQ _ _ n _) := q in n.
Definition lq_list (q : lq_t) : list lq_t := let '(LQ _ _ _ l) := q in l.
Definition set_inclusive (i : option clcf_t) (q : lq_t) : lq_t :=
  let '(LQ e _ n l) := q in LQ e i n l.
Definition set_list (l : list lq_t) (q : lq_t) : lq_t := let '(LQ e i n _) := q in LQ e i n l.

(** [ngx_http_location_tree_node_t]; [TNull] is NULL. *)
Inductive ngx_http_location_tree_node_t :=
  | TNull
  | TNode (left right tree : ngx_http_location_tree_node_t) (exact inclusive : option clcf_t)
      (auto_redirect : bool) (len : Z) (name : bytes).
Abbreviation node_t := ngx_http_location_tree_node_t.

(** ** The [location] directive *)

(** The parameters of the directive, on a configuration with no name yet; the result is
    [None] for [NGX_CONF_ERROR].  [compile] is [ngx_http_regex_compile] with the option for
    letters of both cases. *)
Section Directive.
Context (compile : bytes -> bool -> option Z).

Definition ngx_http_core_regex_location (c : clcf_t) (re : bytes) (caseless : bool) :
    option clcf_t :=
  r ← compile re caseless;
  Some (mk_clcf re (exact_match c) (named c) (noname c) (Some r) (auto_redirect c) (noregex c)
          (loc_conf c)).

Definition set_name (n : bytes) (ex nm nore : bool) (c : clcf_t) : clcf_t :=
  mk_clcf n (exact_match c || ex) (named c || nm) (noname c) (regex c) (auto_redirect c)
    (noregex c || nore) (loc_conf c).

(** Three words: [location <modifier> <name>]. *)
Definition location_modifier (c : clcf_t) (modifier nm : bytes) : option clcf_t :=
  let len := zlen modifier in
  if (len =? 1) && (ch_ modifier =? "=") then Some (set_name nm true false false c)
  else if (len =? 2) && (ch_ modifier =? "^") && (ch_ (next_ modifier) =? "~")
  then Some (set_name nm false false true c)
  else if (len =? 1) && (ch_ modifier =? "~") then ngx_http_core_regex_location c nm false
  else if (len =? 2) && (ch_ modifier =? "~") && (ch_ (next_ modifier) =? "*")
  then ngx_http_core_regex_location c nm true
  else None.

(** Two words: the modifier, if any, and the name are one. *)
Definition location_name (c : clcf_t) (nm : bytes) : option clcf_t :=
  if ch_ nm =? "=" then Some (set_name (next_ nm) true false false c)
  else if (ch_ nm =? "^") && (ch_ (next_ nm) =? "~")
  then Some (set_name (next_ (next_ nm)) false false true c)
  else if ch_ nm =? "~" then
    let nm := next_ nm in
    if ch_ nm =? "*" then ngx_http_core_regex_location c (next_ nm) true
    else ngx_http_core_regex_location c nm false
  else Some (set_name nm false (ch_ nm =? "@") false c).

(** The checks of a location inside of the location [pclcf]. *)
Definition nested_ok (c pclcf : clcf_t) : bool :=
  if zlen (name pclcf) =? 0 then true
  else if exact_match pclcf then false
  else if named pclcf then false
  else if named c then false
  else negb (bool_decide (regex c = None) &&
             negb (strncmp (name c) (name pclcf) (length (name pclcf)) =? 0)).

(** [args] are the words after [location]. *)
Definition ngx_http_core_location (c pclcf : clcf_t) (args : list bytes) : option clcf_t :=
  c ← match args with
      | [modifier; nm] => location_modifier c modifier nm
      | nm :: _ => location_name c nm
      | [] => None
      end;
  if nested_ok c pclcf then Some c else None.
End Directive.

(** ** The queue of locations *)

Definition is_some {A} (x : option A) : bool := match x with Some _ => true | None => false end.

Definition ngx_http_add_location (locations : list lq_t) (c : clcf_t) : list lq_t :=
  locations ++
  [if exact_match c || is_some (regex c) || named c || noname c
   then LQ (Some c) None (name c) [] else LQ None (Some c) (name c) []].

(** [lq->exact ? lq->exact : lq->inclusive] *)
Definition clcf_of (q : lq_t) : option clcf_t :=
  match exact q with Some c => Some c | None => inclusive q end.

(** [strcmp] of the C library: it reads no further than the NUL of [s1]. *)
Definition strcmp (s1 s2 : bytes) : Z := strncmp s1 s2 (S (length s1)).

Definition cmp_confs (first second : clcf_t) : Z :=
  if noname first && negb (noname second) then 1
  else if negb (noname first) && noname second then -1
  else if noname first || noname second then 0
  else if named first && negb (named second) then 1
  else if negb (named first) && named second then -1
  else if named first && named second then strcmp (name first) (name second)
  else if is_some (regex first) && negb (is_some (regex second)) then 1
  else if negb (is_some (regex first)) && is_some (regex second) then -1
  else if is_some (regex first) || is_some (regex second) then 0
  else
    let rc := strcmp (name first) (name second) in
    if (rc =? 0) && negb (exact_match first) && exact_match second then 1 else rc.

(** One of the two members is set, so that the code does not read through NULL. *)
Definition ngx_http_cmp_locations (one two : lq_t) : Z :=
  match clcf_of one, clcf_of two with
  | Some first, Some second => cmp_confs first second
  | _, _ => 0
  end.

(** [ngx_queue_sort]: the place of [q] from the end of the sorted part [l], which is
    reversed here. *)
Fixpoint place (cmp : lq_t -> lq_t -> Z) (q : lq_t) (l : list lq_t) : list lq_t :=
  match l with
  | [] => [q]
  | prev :: l' => if cmp prev q <=? 0 then q :: l else prev :: place cmp q l'
  end.
Definition sort (cmp : lq_t -> lq_t -> Z) (l : list lq_t) : list lq_t :=
  reverse (fold_left (fun sorted q => place cmp q sorted) l []).

(** The loop of [ngx_http_init_locations]: the index where it stops and those of the first
    regular expression and of the first named location. *)
Fixpoint init_loop (l : list lq_t) (i : nat) (re nm : option nat) :
    nat * option nat * option nat :=
  match l with
  | [] => (i, re, nm)
  | q :: l' =>
      match clcf_of q with
      | None => (i, re, nm)                  (* not reached *)
      | Some c =>
          if is_some (regex c) then init_loop l' (S i) (if is_some re then re else Some i) nm
          else if named c then init_loop l' (S i) re (if is_some nm then nm else Some i)
          else if noname c then (i, re, nm)
          else init_loop l' (S i) re nm
      end
  end.

(** The locations with a name and no expression, the expressions, the named locations. *)
Definition ngx_http_init_locations (locations : list lq_t) :
    list lq_t * list (option clcf_t) * list (option clcf_t) :=
  let l := sort ngx_http_cmp_locations locations in
  let '(i, re, nm) := init_loop l 0 None None in
  let l := take i l in
  let '(named_locations, l) :=
    match nm with Some n => (exact <$> drop n l, take n l) | None => ([], l) end in
  let '(regex_locations, l) :=
    match re with Some n => (exact <$> drop n l, take n l) | None => ([], l) end in
  (l, regex_locations, named_locations).

(** The loop of [ngx_http_join_exact_locations] from the element [q]; [None] is
    [NGX_ERROR]. *)
Fixpoint join_loop (q : lq_t) (l : list lq_t) : option (list lq_t) :=
  match l with
  | [] => Some [q]
  | x :: l' =>
      if strcmp (lq_name q) (lq_name x) =? 0 then
        if (is_some (exact q) && is_some (exact x)) || (is_some (inclusive q) && is_some (inclusive x))
        then None
        else join_loop (set_inclusive (inclusive x) q) l'
      else l ← join_loop x l'; Some (q :: l)
  end.

Definition ngx_http_join_exact_locations (l : list lq_t) : option (list lq_t) :=
  match l with [] => Some [] | q :: l => join_loop q l end.

(** The elements from the first on whose names begin with the name of [q], and the rest. *)
Fixpoint same_prefix (q : lq_t) (l : list lq_t) : list lq_t * list lq_t :=
  match l with
  | [] => ([], [])
  | x :: l' =>
      let len := length (lq_name q) in
      if (zlen (lq_name x) <? zlen (lq_name q)) || negb (strncmp (lq_name q) (lq_name x) len =? 0)
      then ([], l)
      else let '(pre, post) := same_prefix q l' in (x :: pre, post)
  end.

(** [l] is the queue from [q] on. *)
Fixpoint ngx_http_create_locations_list (fuel : nat) (l : list lq_t) : list lq_t :=
  match fuel, l with
  | S fuel, q :: (_ :: _) as l' =>
      match inclusive q with
      | None => q :: ngx_http_create_locations_list fuel l'
      | Some _ =>
          match same_prefix q l' with
          | ([], _) => q :: ngx_http_create_locations_list fuel l'
          | (pre, []) => [set_list (ngx_http_create_locations_list fuel (lq_list q ++ pre)) q]
          | (pre, post) =>
              set_list (ngx_http_create_locations_list fuel (lq_list q ++ pre)) q
                :: ngx_http_create_locations_list fuel post
          end
      end
  | _, _ => l
  end.

(** ** The tree *)

(** [None]: out of fuel, or an empty queue, whose middle is not a location. *)
Fixpoint ngx_http_create_locations_tree (fuel : nat) (l : list lq_t) (prefix : nat) :
    option node_t :=
  match fuel with
  | O => None
  | S fuel =>
      let m := (length l / 2)%nat in
      q ← l !! m;
      let len := (length (lq_name q) - prefix)%nat in
      let locations := take m l in
      let tail := drop (S m) l in
      let redirect c := is_some c && match c with Some c => auto_redirect c | None => false end in
      '(lft, rgt) ←
        match locations with
        | [] => Some (TNull, TNull)
        | _ =>
            lft ← ngx_http_create_locations_tree fuel locations prefix;
            match tail with
            | [] => Some (lft, TNull)
            | _ => rgt ← ngx_http_create_locations_tree fuel tail prefix; Some (lft, rgt)
            end
        end;
      tree ←
        match lq_list q with
        | [] => Some TNull
        | list => ngx_http_create_locations_tree fuel list (prefix + len)
        end;
      Some (TNode lft rgt tree (exact q) (inclusive q)
              (redirect (exact q) || redirect (inclusive q))
              (u8 (Z.of_nat len)) (take len (drop prefix (lq_name q))))
  end.

(** ** The search *)

(** The loop of [ngx_http_core_find_static_location]: the result and [r->loc_conf]; [None]
    is a read through NULL. *)
Fixpoint ngx_http_core_find_static_location (node : node_t) (uri : bytes) (rv loc : Z) :
    option (Z * Z) :=
  match node with
  | TNull => Some (rv, loc)
  | TNode lft rgt tree ex inc redirect node_len node_name =>
      let len := zlen uri in
      let n := if len <=? node_len then len else node_len in
      let rc := memcmp uri node_name (Z.to_nat n) in
      if negb (rc =? 0) then
        ngx_http_core_find_static_location (if rc <? 0 then lft else rgt) uri rv loc
      else if node_len <? len then
        match inc with
        | Some c =>
            ngx_http_core_find_static_location tree (drop (Z.to_nat n) uri) NGX_AGAIN (loc_conf c)
        | None => ngx_http_core_find_static_location rgt uri rv loc
        end
      else if len =? node_len then
        match ex, inc with
        | Some c, _ => Some (NGX_OK, loc_conf c)
        | None, Some c => Some (NGX_AGAIN, loc_conf c)
        | None, None => None
        end
      else if (len + 1 =? node_len) && redirect then
        match ex, inc with
        | Some c, _ | None, Some c =>
            ngx_http_core_find_static_location lft uri NGX_DONE (loc_conf c)
        | None, None => None
        end
      else ngx_http_core_find_static_location lft uri rv loc
  end.

(** ** Static and regular expression locations *)

(** What [ngx_http_init_locations] and [ngx_http_init_static_location_trees] leave in a
    configuration. *)
Record level := mk_level {
  static_locations : node_t;
  regex_locations : list (option clcf_t);
  level_noregex : bool
}.

(** One level of [ngx_http_init_static_location_trees], which calls itself for the
    locations inside of each location. *)
Definition ngx_http_init_static_location_trees (fuel : nat) (locations : list lq_t) :
    option node_t :=
  match locations with
  | [] => Some TNull
  | _ =>
      l ← ngx_http_join_exact_locations locations;
      ngx_http_create_locations_tree fuel (ngx_http_create_locations_list fuel l) 0
  end.

Section Search.
(** The configuration that a [loc_conf] pointer leads to, and [ngx_http_regex_exec]. *)
Context (conf : Z -> level) (exec : Z -> bytes -> Z).

(** The loop over the expressions; [inr] is the location whose expression matches, [inl]
    the result when none does. *)
Fixpoint regex_loop (l : list (option clcf_t)) (uri : bytes) (rc : Z) : Z + clcf_t :=
  match l with
  | Some c :: l =>
      match regex c with
      | Some re =>
          let n := exec re uri in
          if n =? NGX_OK then inr c
          else if n =? NGX_DECLINED then regex_loop l uri rc
          else inl NGX_ERROR
      | None => inl NGX_ERROR                (* not reached *)
      end
  | _ => inl rc
  end.

(** The result and [r->loc_conf]. *)
Fixpoint ngx_http_core_find_location (fuel : nat) (uri : bytes) (loc : Z) : option (Z * Z) :=
  match fuel with
  | O => None
  | S fuel =>
      let pclcf := conf loc in
      '(rc, loc) ← ngx_http_core_find_static_location (static_locations pclcf) uri NGX_DECLINED loc;
      '(rc, noregex, loc) ←
        (if rc =? NGX_AGAIN then
           '(rc, loc') ← ngx_http_core_find_location fuel uri loc;
           Some (rc, level_noregex (conf loc), loc')
         else Some (rc, false, loc));
      if (rc =? NGX_OK) || (rc =? NGX_DONE) then Some (rc, loc)
      else if negb noregex then
        match regex_loop (regex_locations pclcf) uri rc with
        | inl rc => Some (rc, loc)
        | inr c =>
            '(rc, loc) ← ngx_http_core_find_location fuel uri (loc_conf c);
            Some (if rc =? NGX_ERROR then rc else NGX_OK, loc)
        end
      else Some (rc, loc)
  end.
End Search.
