(* ===== verification/LocationsSpec.v ===== *)
(** What the preparation of the locations and the search promise: the longest name that
    begins the path, exact matches first, expressions next. *)
From stdpp Require Import sorting.
From S2P Require Import Prelude HashKey CString Locations.

(** ** The order of names *)

(** At the first place where the two differ, [a] has the smaller byte. *)
Definition diverge (a b : bytes) : Prop :=
  exists c x y s t, a = c ++ x :: s /\ b = c ++ y :: t /\ x < y.

Definition lt_name (a b : bytes) : Prop := (exists x t, b = a ++ x :: t) \/ diverge a b.

Lemma diverge_extend a b s t : diverge a b -> diverge (a ++ s) (b ++ t).
Proof.
  intros (c & x & y & s' & t' & -> & -> & H). exists c, x, y, (s' ++ s), (t' ++ t).
  by rewrite <- !app_assoc.
Qed.

Lemma diverge_cons z a b : diverge a b -> diverge (z :: a) (z :: b).
Proof. intros (c & x & y & s & t & -> & -> & H). by exists (z :: c), x, y, s, t. Qed.

Lemma lt_name_nil b : lt_name [] b <-> b <> [].
Proof.
  split; [|destruct b as [|x t]; [done|intros _; left; by exists x, t]].
  intros [(x & t & ->)|(c & x & y & s & t & Heq & _)]; [done|]. by destruct c.
Qed.

Lemma lt_name_cons x a y b :
  lt_name (x :: a) (y :: b) <-> x < y \/ (x = y /\ lt_name a b).
Proof.
  split.
  - intros [(z & t & [= -> ->])|(c & u & v & s & t & H1 & H2 & H)].
    + right. split; [done|]. left. by exists z, t.
    + destruct c as [|z c]; injection H1 as -> ->; injection H2 as -> ->; [by left|].
      right. split; [done|]. right. by exists c, u, v, s, t.
  - intros [H|[-> [(z & t & ->)|H]]].
    + right. by exists [], x, y, a, b.
    + left. by exists z, t.
    + right. by apply diverge_cons.
Qed.

Lemma lt_name_not_nil a : ~ lt_name a [].
Proof.
  intros [(x & t & H)|(c & x & y & s & t & _ & H & _)]; [by destruct a|by destruct c].
Qed.

Lemma diverge_not_nil a b : diverge a b -> a <> [] /\ b <> [].
Proof. intros (c & x & y & s & t & -> & -> & _). split; by destruct c. Qed.

Lemma diverge_cons_inv x a y b : diverge (x :: a) (y :: b) <-> x < y \/ (x = y /\ diverge a b).
Proof.
  split.
  - intros (c & u & v & s & t & H1 & H2 & H). destruct c as [|z c];
      injection H1 as -> ->; injection H2 as -> ->; [by left|].
    right. split; [done|]. by exists c, u, v, s, t.
  - intros [H|[-> H]]; [by exists [], x, y, a, b|by apply diverge_cons].
Qed.

Lemma lt_name_trans a b c : lt_name a b -> lt_name b c -> lt_name a c.
Proof.
  revert b c. induction a as [|x a IH]; intros [|y b] [|z c] H1 H2;
    try first [by apply lt_name_not_nil in H1 | by apply lt_name_not_nil in H2].
  - by apply lt_name_nil.
  - rewrite lt_name_cons in *. destruct H1 as [H1|[-> H1]], H2 as [H2|[-> H2]]; try (left; lia).
    right. split; [done|]. by eapply IH.
Qed.

Lemma lt_name_irrefl a : ~ lt_name a a.
Proof.
  induction a as [|x a IH]; [apply lt_name_not_nil|].
  rewrite lt_name_cons. intros [H|[_ H]]; [lia|done].
Qed.

Lemma diverge_lt_trans a b c : diverge a b -> lt_name b c -> diverge a c.
Proof.
  revert b c. induction a as [|x a IH]; intros [|y b] [|z c] H1 H2;
    try first [by apply diverge_not_nil in H1 as [? ?] | by apply lt_name_not_nil in H2].
  rewrite diverge_cons_inv in *. rewrite lt_name_cons in H2.
  destruct H1 as [H1|[-> H1]], H2 as [H2|[-> H2]]; try (left; lia).
  right. split; [done|]. by eapply IH.
Qed.

Lemma diverge_not_prefix a b : diverge a b -> ~ a `prefix_of` b /\ ~ b `prefix_of` a.
Proof.
  revert b. induction a as [|x a IH]; intros [|y b] H;
    try (by apply diverge_not_nil in H as [? ?]).
  apply diverge_cons_inv in H. split; intros Hp; pose proof (prefix_cons_inv_1 _ _ _ _ Hp);
    apply prefix_cons_inv_2 in Hp; destruct H as [H|[_ H]]; try lia; by apply IH in H as [? ?].
Qed.

(** A name that is smaller than [b] and that [a], below [b], begins. *)
Lemma lt_prefix a b : a `prefix_of` b -> a = b \/ lt_name a b.
Proof.
  intros [[|x t] ->]; [left; by rewrite app_nil_r|right]. left. by exists x, t.
Qed.

(** [memcmp] on the shorter length. *)
Lemma memcmp_min u v :
  let n := (length u `min` length v)%nat in
  match memcmp u v n ?= 0 with
  | Lt => diverge u v
  | Gt => diverge v u
  | Eq => u `prefix_of` v \/ v `prefix_of` u
  end.
Proof.
  revert v. induction u as [|x u IH]; intros [|y v]; cbn.
  - by left.
  - left. by exists (y :: v).
  - right. by exists (x :: u).
  - specialize (IH v). cbn in IH. unfold ch_, next_. cbn. destruct (Z.eqb_spec x y) as [->|E].
    + destruct (_ ?= 0); [destruct IH; [left|right]; by apply prefix_cons|by apply diverge_cons..].
    + destruct (Z.compare_spec (x - y) 0); [lia|..]; apply diverge_cons_inv; left; lia.
Qed.

(** [strcmp] and [strncmp] on names without NULs. *)
Lemma strncmp_lex u v n :
  no_nul u -> no_nul v -> (length u < n)%nat -> (length v < n)%nat ->
  match strncmp u v n ?= 0 with
  | Lt => lt_name u v
  | Gt => lt_name v u
  | Eq => u = v
  end.
Proof.
  revert u v. induction n as [|n IH]; intros u v Hu Hv Hlu Hlv; [lia|].
  destruct u as [|x u], v as [|y v]; cbn [strncmp]; unfold ch_, next_; cbn [List.hd List.tl].
  - done.
  - apply no_nul_cons in Hv as [Hy _]. rewrite (proj2 (Z.eqb_neq 0 y)) by lia.
    destruct (Z.compare_spec (0 - y) 0); try lia. by apply lt_name_nil.
  - apply no_nul_cons in Hu as [Hx _]. rewrite (proj2 (Z.eqb_neq x 0)) by lia.
    destruct (Z.compare_spec (x - 0) 0); try lia. by apply lt_name_nil.
  - apply no_nul_cons in Hu as [Hx Hu]. apply no_nul_cons in Hv as [Hy Hv]. cbn in *.
    rewrite (proj2 (Z.eqb_neq x 0)) by lia. specialize (IH u v Hu Hv ltac:(lia) ltac:(lia)).
    destruct (Z.eqb_spec x y) as [->|E].
    + destruct (_ ?= 0); [by subst|by apply lt_name_cons; right..].
    + destruct (Z.compare_spec (x - y) 0); [lia|..]; apply lt_name_cons; left; lia.
Qed.

Lemma strncmp_enough u v n : (length u < n)%nat -> strncmp u v n = strcmp u v.
Proof.
  unfold strcmp. revert v n. induction u as [|x u IH]; intros v [|n] Hn; cbn in Hn; try lia.
  - done.
  - change (strncmp (x :: u) v (S n)) with
      (if x =? ch_ v then if x =? 0 then 0 else strncmp u (next_ v) n else x - ch_ v).
    change (strncmp (x :: u) v (S (length (x :: u)))) with
      (if x =? ch_ v then if x =? 0 then 0 else strncmp u (next_ v) (S (length u)) else x - ch_ v).
    by rewrite IH by lia.
Qed.

Lemma strcmp_lex u v :
  no_nul u -> no_nul v ->
  match strcmp u v ?= 0 with Lt => lt_name u v | Gt => lt_name v u | Eq => u = v end.
Proof.
  intros Hu Hv. rewrite <- (strncmp_enough u v (S (length u + length v))) by lia.
  apply strncmp_lex; done || lia.
Qed.

(** ** Grouping by prefixes *)

(** A queue and the queues inside of its elements, in order. *)
Fixpoint flatten (q : lq_t) : list lq_t :=
  let '(LQ ex inc nm l) := q in LQ ex inc nm [] :: flat_map flatten l.
Abbreviation flat := (flat_map flatten).

Definition below (a b : lq_t) : Prop := lt_name (lq_name a) (lq_name b).
Definition strict (l : list lq_t) : Prop := StronglySorted below l.

(** [e] is inclusive and begins [f]. *)
Definition covers (e f : lq_t) : Prop :=
  is_some (inclusive e) = true /\ lq_name e `prefix_of` lq_name f.

(** An inclusive location has exactly the locations that it covers inside. *)
Inductive grouped (l : list lq_t) : Prop := Grouped {
  grouped_sub q : q ∈ l -> grouped (lq_list q);
  grouped_inner q e : q ∈ l -> e ∈ flat (lq_list q) -> covers q e;
  grouped_sep l1 l2 e f : l = l1 ++ l2 -> e ∈ flat l1 -> f ∈ flat l2 -> ~ covers e f
}.

Lemma elem_of_flat e l : e ∈ flat l <-> exists q, q ∈ l /\ e ∈ flatten q.
Proof. rewrite list_elem_of_In, in_flat_map. by setoid_rewrite list_elem_of_In. Qed.

Lemma flat_app l1 l2 : flat (l1 ++ l2) = flat l1 ++ flat l2.
Proof. apply flat_map_app. Qed.

Lemma flatten_eq q : flatten q = set_list [] q :: flat (lq_list q).
Proof. by destruct q. Qed.

Lemma grouped_app l1 l2 : grouped (l1 ++ l2) -> grouped l1 /\ grouped l2.
Proof.
  intros [H1 H2 H3]. split; split.
  - intros q Hq. apply H1. set_solver.
  - intros q e Hq. apply H2. set_solver.
  - intros l3 l4 e f -> He Hf. apply (H3 l3 (l4 ++ l2)); [by rewrite <- app_assoc|done|].
    rewrite flat_app. set_solver.
  - intros q Hq. apply H1. set_solver.
  - intros q e Hq. apply H2. set_solver.
  - intros l3 l4 e f -> He Hf. apply (H3 (l1 ++ l3) l4); [by rewrite <- app_assoc| |done].
    rewrite flat_app. set_solver.
Qed.

Lemma grouped_nil : grouped [].
Proof.
  split.
  - intros q Hq. set_solver.
  - intros q e Hq. set_solver.
  - intros [|] l2 e f Heq He; [|done]. by apply not_elem_of_nil in He.
Qed.

(** A queue is grouped when its first element and the others are, and the first element
    covers nothing of the others. *)
Lemma grouped_cons q l :
  grouped (lq_list q) -> grouped l -> (forall e, e ∈ flat (lq_list q) -> covers q e) ->
  (forall e f, e ∈ flatten q -> f ∈ flat l -> ~ covers e f) -> grouped (q :: l).
Proof.
  intros Hq Hl Hc Hs. split.
  - intros x [->|Hx]%elem_of_cons; [done|]. by apply (grouped_sub _ Hl).
  - intros x e [->|Hx]%elem_of_cons; [apply Hc|]. by apply (grouped_inner _ Hl).
  - intros [|x l1] l2 e f Heq He Hf; [by apply not_elem_of_nil in He|].
    injection Heq as <- ->. cbn [flat_map] in He. apply elem_of_app in He as [He|He].
    + apply Hs; [done|]. rewrite flat_app. set_solver.
    + by apply (grouped_sep _ Hl l1 l2).
Qed.

Definition plain (q : lq_t) : Prop := lq_list q = [] /\ no_nul (lq_name q).

Lemma flat_plain l : Forall plain l -> flat l = l.
Proof.
  induction 1 as [|q l [Hq _] _ IH]; [done|]. cbn [flat_map]. rewrite flatten_eq, Hq, IH. cbn.
  destruct q. cbn in *. by subst.
Qed.

Lemma strncmp_prefix u v :
  no_nul u -> no_nul v -> (length u <= length v)%nat ->
  strncmp u v (length u) = 0 <-> u `prefix_of` v.
Proof.
  intros Hu. revert v. induction u as [|x u IH]; intros v Hv Hl.
  { split; [intros _; by exists v|done]. }
  destruct v as [|y v]; [cbn in Hl; lia|]. apply no_nul_cons in Hu as [Hx Hu].
  apply no_nul_cons in Hv as [Hy Hv]. cbn [length strncmp]. unfold ch_, next_.
  cbn [List.hd List.tl]. rewrite (proj2 (Z.eqb_neq x 0)) by lia.
  destruct (Z.eqb_spec x y) as [->|E].
  - rewrite IH by (done || (cbn in Hl; lia)). split; [apply prefix_cons|apply prefix_cons_inv_2].
  - split; [lia|]. intros ->%prefix_cons_inv_1. lia.
Qed.

Lemma same_prefix_spec q l pre post :
  plain q -> Forall plain l -> same_prefix q l = (pre, post) ->
  l = pre ++ post /\ Forall (fun x => lq_name q `prefix_of` lq_name x) pre /\
  (forall x post', post = x :: post' -> ~ lq_name q `prefix_of` lq_name x).
Proof.
  intros [_ Hq] Hl. revert pre post. induction Hl as [|x l [_ Hx] _ IH]; intros pre post; cbn [same_prefix].
  { intros [= <- <-]. by split_and!. }
  destruct (Z.ltb_spec (zlen (lq_name x)) (zlen (lq_name q))) as [E|E]; cbn [orb].
  { intros [= <- <-]. split_and!; [done|done|]. intros y post' [= <- _] Hp%prefix_length.
    unfold zlen in E. lia. }
  pose proof (strncmp_prefix (lq_name q) (lq_name x) Hq Hx ltac:(unfold zlen in E; lia)) as Hp.
  destruct (Z.eqb_spec (strncmp (lq_name q) (lq_name x) (length (lq_name q))) 0) as [E2|E2]; cbn [negb].
  - destruct (same_prefix q l) as [pre' post']. intros [= <- <-].
    destruct (IH pre' post' eq_refl) as (-> & H1 & H2). split_and!; [done| |done].
    constructor; [by apply Hp|done].
  - intros [= <- <-]. split_and!; [done|done|]. intros y post' [= <- _]. by rewrite <- Hp.
Qed.

(** The queue from [q] on, as the code has it: without the cases for speed. *)
Lemma create_list_eq fuel q l :
  ngx_http_create_locations_list (S fuel) (q :: l) =
  match l, inclusive q with
  | [], _ => [q]
  | _, None => q :: ngx_http_create_locations_list fuel l
  | _, Some _ =>
      let '(pre, post) := same_prefix q l in
      (if bool_decide (pre = []) then q
       else set_list (ngx_http_create_locations_list fuel (lq_list q ++ pre)) q)
      :: (if bool_decide (post = []) then [] else ngx_http_create_locations_list fuel post)
  end.
Proof.
  destruct l as [|x l]; [done|]. destruct (inclusive q) eqn:E; cbn [ngx_http_create_locations_list];
    rewrite E; [|done].
  destruct (same_prefix q (x :: l)) as [[|p pre] post] eqn:E2; [|by destruct post].
  assert (post = x :: l) as ->; [|done].
  cbn [same_prefix] in E2. destruct (_ || _); [by injection E2|].
  by destruct (same_prefix q l).
Qed.

Lemma flatten_set_list l q : flatten (set_list l q) = set_list [] q :: flat l.
Proof. by destruct q. Qed.

Lemma set_list_nil q : lq_list q = [] -> set_list [] q = q.
Proof. destruct q. cbn. by intros ->. Qed.

(** What is after a run of names that [q] begins is after all names that [q] begins. *)
Lemma sep_after q post :
  strict (q :: post) ->
  (forall x post', post = x :: post' -> ~ lq_name q `prefix_of` lq_name x) ->
  forall e f, lq_name q `prefix_of` lq_name e -> f ∈ post -> ~ lq_name e `prefix_of` lq_name f.
Proof.
  intros Hs Hx e f He Hf Hp. destruct post as [|x post]; [by apply not_elem_of_nil in Hf|].
  apply StronglySorted_cons in Hs as [Hqs Hs]. rewrite Forall_cons in Hqs. destruct Hqs as [Hqx _].
  apply StronglySorted_cons in Hs as [Hxs _]. rewrite Forall_forall in Hxs.
  specialize (Hx x post eq_refl).
  assert (Hd : diverge (lq_name q) (lq_name x)).
  { destruct Hqx as [(y & t & Heq)|Hd]; [|done]. exfalso. apply Hx. rewrite Heq. by exists (y :: t). }
  assert (Hdf : diverge (lq_name q) (lq_name f)).
  { apply elem_of_cons in Hf as [->|Hf]; [done|]. eapply diverge_lt_trans; [done|]. by apply Hxs. }
  apply diverge_not_prefix in Hdf as [Hd1 _]. apply Hd1. by etrans.
Qed.

Lemma create_list_spec fuel l :
  Forall plain l -> strict l -> (length l <= fuel)%nat ->
  grouped (ngx_http_create_locations_list fuel l) /\
  flat (ngx_http_create_locations_list fuel l) = l.
Proof.
  revert l. induction fuel as [|fuel IH]; intros [|q l] Hp Hs Hl; try (cbn in Hl; lia);
    try (split; [apply grouped_nil|done]).
  rewrite create_list_eq. cbn [length] in Hl.
  pose proof Hp as [[Hq Hn] Hpl]%Forall_cons. pose proof Hs as [Hqs Hsl]%StronglySorted_cons.
  assert (Hone : forall l', grouped l' -> (forall f, f ∈ flat l' -> ~ covers q f) ->
                   grouped (q :: l') /\ flat (q :: l') = q :: flat l').
  { intros l' Hg Hc. split.
    - apply grouped_cons; [rewrite Hq; apply grouped_nil|done|rewrite Hq; set_solver|].
      intros e f He. rewrite flatten_eq, Hq, set_list_nil in He by done.
      apply list_elem_of_singleton in He as ->. apply Hc.
    - cbn [flat_map]. rewrite flatten_eq, Hq, set_list_nil by done. done. }
  destruct (decide (l = [])) as [->|Hne].
  { destruct (Hone [] grouped_nil) as [H1 H2]; [set_solver|]. done. }
  destruct l as [|x l]; [done|]. clear Hne. destruct (inclusive q) eqn:Einc.
  - destruct (same_prefix q (x :: l)) as [pre post] eqn:E.
    destruct (same_prefix_spec _ _ _ _ (conj Hq Hn) Hpl E) as (Heq & Hpre & Hpost).
    rewrite Heq in Hp, Hs, Hsl, Hqs, Hpl, Hl. rewrite Heq. rewrite length_app in Hl.
    apply Forall_app in Hpl as [Hp1 Hp2]. apply StronglySorted_app in Hsl as (_ & Hs1 & Hs2).
    apply Forall_app in Hqs as [Hq1 Hq2].
    destruct (IH pre Hp1 Hs1 ltac:(lia)) as [G1 F1]. destruct (IH post Hp2 Hs2 ltac:(lia)) as [G2 F2].
    rewrite Hq. cbn [app].
    replace (if bool_decide (pre = []) then q else _)
      with (set_list (ngx_http_create_locations_list fuel pre) q)
      by (case_bool_decide; [subst; destruct fuel; by rewrite set_list_nil|done]).
    replace (if bool_decide (post = []) then _ else _)
      with (ngx_http_create_locations_list fuel post)
      by (case_bool_decide; [subst; by destruct fuel|done]).
    assert (Hsep := sep_after q post ltac:(by constructor) Hpost). rewrite Forall_forall in Hpre.
    split; [|by cbn [flat_map]; rewrite flatten_set_list, set_list_nil, F1, F2 by done].
    destruct q as [ex inc nm ls]. cbn in *. subst. apply grouped_cons; cbn [lq_list]; [done|done|..].
    + intros e He. rewrite F1 in He. split; [done|]. by apply Hpre.
    + intros e f He Hf [_ Hc]. rewrite F2 in Hf. revert Hc. apply Hsep; [|done].
      cbn in He. rewrite F1 in He. apply elem_of_cons in He as [->|He]; [done|by apply Hpre].
  - destruct (IH (x :: l) Hpl Hsl ltac:(lia)) as [G F].
    destruct (Hone _ G) as [H1 H2]; [|by rewrite H2, F].
    intros f _ [Hc _]. by rewrite Einc in Hc.
Qed.

(** ** The result of the search *)

(** The flag of the node made from [e]. *)
Definition redirects (e : lq_t) : bool :=
  match exact e with Some c => auto_redirect c | None => false end ||
  match inclusive e with Some c => auto_redirect c | None => false end.

Section Outcome.
Context (uri : bytes).

Definition no_equal (E : list lq_t) : Prop := forall e, e ∈ E -> lq_name e <> uri.

(** A name that is the path and one character more (a slash, in a configuration that
    makes sense), with the flag for redirects. *)
Definition candidate (e : lq_t) : Prop := (exists x, lq_name e = uri ++ [x]) /\ redirects e = true.

(** Before every candidate there is a name that the path begins. *)
Definition not_forced (E : list lq_t) : Prop :=
  forall e, e ∈ E -> candidate e ->
  exists e', e' ∈ E /\ uri `prefix_of` lq_name e' /\ lt_name (lq_name e') (lq_name e).

Definition begins (e : lq_t) : Prop :=
  is_some (inclusive e) = true /\ lq_name e `prefix_of` uri.

(** The result for the locations [E], where [rv] and [loc] are what is known before. *)
Inductive outcome (E : list lq_t) (rv loc : Z) : Z -> Z -> Prop :=
  | O_equal e c :
      e ∈ E -> lq_name e = uri -> clcf_of e = Some c ->
      outcome E rv loc (if is_some (exact e) then NGX_OK else NGX_AGAIN) (loc_conf c)
  | O_redirect e c :
      no_equal E -> e ∈ E -> candidate e -> clcf_of e = Some c ->
      outcome E rv loc NGX_DONE (loc_conf c)
  | O_prefix e c :
      no_equal E -> not_forced E -> e ∈ E -> begins e -> inclusive e = Some c ->
      (forall e', e' ∈ E -> begins e' -> (length (lq_name e') <= length (lq_name e))%nat) ->
      outcome E rv loc NGX_AGAIN (loc_conf c)
  | O_none :
      no_equal E -> not_forced E -> (forall e, e ∈ E -> ~ begins e) -> outcome E rv loc rv loc.

Definition relevant (e : lq_t) : Prop := begins e \/ uri `prefix_of` lq_name e.

Lemma candidate_relevant e : candidate e -> relevant e.
Proof. intros [[x Hx] _]. right. rewrite Hx. by exists [x]. Qed.
Lemma equal_relevant e : lq_name e = uri -> relevant e.
Proof. intros H. right. by rewrite H. Qed.
#[local] Hint Resolve candidate_relevant equal_relevant : core.
#[local] Hint Unfold relevant : core.

(** Only the relevant locations matter. *)
Lemma outcome_relevant E' E rv loc rc loc' :
  (forall e, e ∈ E' -> e ∈ E) -> (forall e, e ∈ E -> relevant e -> e ∈ E') ->
  outcome E' rv loc rc loc' -> outcome E rv loc rc loc'.
Proof.
  intros H1 H2.
  assert (Hne : no_equal E' -> no_equal E) by (intros H e He Heq; by apply (H e); auto).
  assert (Hnf : not_forced E' -> not_forced E).
  { intros H e He Hc. destruct (H e) as (e' & He' & ?); [by auto|done|]. exists e'. auto. }
  destruct 1 as [e c He Hn Hc|e c Hno He Hca Hc|e c Hno Hf He Hb Hc Hl|Hno Hf Hb].
  - by eapply O_equal; [apply H1| |].
  - by eapply O_redirect; [apply Hne|apply H1| |].
  - eapply O_prefix; [by apply Hne|by apply Hnf|by apply H1|done|done|]. auto.
  - apply O_none; [by apply Hne|by apply Hnf|]. intros e He Hbe. apply (Hb e); auto.
Qed.

(** The location [q] begins the path and the others that matter are inside of it. *)
Lemma outcome_inside E' E q c rv loc rc loc' :
  q ∈ E -> begins q -> lq_name q <> uri -> inclusive q = Some c ->
  (forall e, e ∈ E' -> e ∈ E) -> (forall e, e ∈ E -> relevant e -> e = q \/ e ∈ E') ->
  (forall e, e ∈ E' -> lq_name q `prefix_of` lq_name e) ->
  outcome E' NGX_AGAIN (loc_conf c) rc loc' -> outcome E rv loc rc loc'.
Proof.
  intros Hq Hqb Hqn Hqc H1 H2 H3.
  assert (Hncand : ~ uri `prefix_of` lq_name q).
  { intros Hp. destruct Hqb as [_ Hb]. apply Hqn. by apply (anti_symm prefix). }
  assert (Hne : no_equal E' -> no_equal E).
  { intros H e He Heq. destruct (H2 e) as [->|]; auto. by apply (H e). }
  assert (Hnf : not_forced E' -> not_forced E).
  { intros H e He Hc. destruct (H2 e) as [->|He2]; auto.
    - destruct Hc as [[x Hx] _]. destruct Hncand. rewrite Hx. by exists [x].
    - destruct (H e He2 Hc) as (e' & He' & ?). exists e'. auto. }
  destruct 1 as [e c' He Hn Hc|e c' Hno He Hca Hc|e c' Hno Hf He Hb Hc Hl|Hno Hf Hb].
  - by eapply O_equal; [apply H1| |].
  - by eapply O_redirect; [apply Hne|apply H1| |].
  - eapply O_prefix; [by apply Hne|by apply Hnf|by apply H1|done|done|].
    intros e' He' Hbe'. destruct (H2 e') as [->|He2]; auto. apply prefix_length. by apply H3.
  - eapply O_prefix; [by apply Hne|by apply Hnf|exact Hq|done|done|].
    intros e' He' Hbe'. destruct (H2 e') as [->|He2]; auto. by destruct (Hb e').
Qed.

(** The path begins the name [q]: what is not in [E'] is [q] or after it, and the path
    begins it too. *)
Lemma outcome_before E' E q rv loc rc loc' :
  q ∈ E -> uri `prefix_of` lq_name q -> lq_name q <> uri -> ~ candidate q ->
  (forall e, e ∈ E' -> e ∈ E) ->
  (forall e, e ∈ E -> e ∈ E' \/ e = q \/ lt_name (lq_name q) (lq_name e)) ->
  outcome E' rv loc rc loc' -> outcome E rv loc rc loc'.
Proof.
  intros Hq Hqp Hqn Hqc H1 H2.
  assert (Hlt : lt_name uri (lq_name q)) by (by destruct (lt_prefix _ _ Hqp)).
  assert (Hne : no_equal E' -> no_equal E).
  { intros H e He Heq. destruct (H2 e He) as [?|[->|Hl]]; [by apply (H e)|done|].
    rewrite Heq in Hl. apply (lt_name_irrefl uri). by eapply lt_name_trans. }
  assert (Hnf : not_forced E' -> not_forced E).
  { intros H e He Hc. destruct (H2 e He) as [He2|[->|Hl]]; [|done|by exists q].
    destruct (H e He2 Hc) as (e' & He' & ?). exists e'. auto. }
  assert (Hnb : forall e, e ∈ E -> begins e -> e ∈ E').
  { intros e He [_ Hb]. destruct (H2 e He) as [?|[->|Hl]]; [done|..]; exfalso.
    - apply Hqn. by apply (anti_symm prefix).
    - apply (lt_name_irrefl uri). eapply lt_name_trans; [exact Hlt|].
      destruct (lt_prefix _ _ Hb) as [<-|]; [done|]. by eapply lt_name_trans. }
  destruct 1 as [e c' He Hn Hc|e c' Hno He Hca Hc|e c' Hno Hf He Hb Hc Hl|Hno Hf Hb].
  - by eapply O_equal; [apply H1| |].
  - by eapply O_redirect; [apply Hne|apply H1| |].
  - eapply O_prefix; [by apply Hne|by apply Hnf|by apply H1|done|done|]. auto.
  - apply O_none; [by apply Hne|by apply Hnf|]. intros e He Hbe. apply (Hb e); auto.
Qed.

Lemma outcome_candidate E' E q c rv loc rc loc' :
  q ∈ E -> candidate q -> clcf_of q = Some c ->
  (forall e, e ∈ E' -> e ∈ E) ->
  (forall e, e ∈ E -> e ∈ E' \/ e = q \/ lt_name (lq_name q) (lq_name e)) ->
  (forall e, e ∈ E' -> ~ covers e q) ->
  outcome E' NGX_DONE (loc_conf c) rc loc' -> outcome E rv loc rc loc'.
Proof.
  intros Hq Hqca Hqc H1 H2 H3. pose proof Hqca as [[x Hx] _].
  assert (Hlt : lt_name uri (lq_name q)) by (rewrite Hx; left; by exists x, []).
  assert (Hne : no_equal E' -> no_equal E).
  { intros H e He Heq. destruct (H2 e He) as [?|[->|Hl]]; [by apply (H e)|..].
    - rewrite Heq in Hlt. by apply lt_name_irrefl in Hlt.
    - rewrite Heq in Hl. apply (lt_name_irrefl uri). by eapply lt_name_trans. }
  destruct 1 as [e c' He Hn Hc|e c' Hno He Hca Hc|e c' Hno Hf He [Hb1 Hb2] Hc Hl|Hno Hf Hb].
  - by eapply O_equal; [apply H1| |].
  - by eapply O_redirect; [apply Hne|apply H1| |].
  - destruct (H3 e He). split; [done|]. etrans; [exact Hb2|]. rewrite Hx. by exists [x].
  - by eapply O_redirect; [apply Hne|exact Hq| |].
Qed.
End Outcome.

(** ** The tree *)

(** [t] is the tree for the queue [l], NULL for the empty one. *)
Definition built (fuel : nat) (l : list lq_t) (prefix : nat) (t : node_t) : Prop :=
  (l = [] /\ t = TNull) \/ ngx_http_create_locations_tree fuel l prefix = Some t.

Lemma create_tree_inv fuel l n t :
  ngx_http_create_locations_tree (S fuel) l n = Some t ->
  exists A q B lft rgt tree,
    l = A ++ q :: B /\ built fuel A n lft /\ built fuel B n rgt /\
    built fuel (lq_list q) (n + (length (lq_name q) - n)) tree /\
    t = TNode lft rgt tree (exact q) (inclusive q) (redirects q)
          (u8 (Z.of_nat (length (lq_name q) - n)))
          (take (length (lq_name q) - n) (drop n (lq_name q))).
Proof.
  cbn [ngx_http_create_locations_tree]. intros H.
  destruct (l !! (length l / 2)%nat) as [q|] eqn:Eq; [|done]. cbn [mbind option_bind] in H.
  pose proof (take_drop_middle _ _ _ Eq) as Hl.
  exists (take (length l / 2) l), q, (drop (S (length l / 2)) l).
  destruct (match take _ l with [] => _ | _ => _ end) as [[lft rgt]|] eqn:Elr; [|done].
  cbn [mbind option_bind] in H.
  destruct (match lq_list q with [] => _ | _ => _ end) as [tree|] eqn:Et; [|done].
  cbn in H. injection H as <-. exists lft, rgt, tree.
  assert (Htree : built fuel (lq_list q) (n + (length (lq_name q) - n)) tree).
  { unfold built. destruct (lq_list q); [injection Et as <-; by left|by right]. }
  assert (Hm : take (length l / 2) l = [] -> drop (S (length l / 2)) l = []).
  { intros Hn%(f_equal length). rewrite length_take in Hn. change (length []) with 0%nat in Hn. apply drop_ge.
    pose proof (Nat.div_mod_eq (length l) 2). pose proof (Nat.mod_upper_bound (length l) 2 ltac:(lia)).
    lia. }
  split_and!; [done|..|done|].
  - unfold built. revert Elr. generalize (take (length l / 2) l) (drop (S (length l / 2)) l).
    intros [|a A] B Elr; [injection Elr as <- <-; by left|right].
    destruct (ngx_http_create_locations_tree fuel (a :: A) n) as [t1|]; cbn in Elr; [|discriminate].
    destruct B as [|b B]; [by injection Elr as <- <-|].
    destruct (ngx_http_create_locations_tree fuel (b :: B) n) as [t2|]; cbn in Elr; [|discriminate].
    by injection Elr as <- <-.
  - unfold built. revert Hm Elr. generalize (take (length l / 2) l) (drop (S (length l / 2)) l).
    intros [|a A] B Hm Elr; [injection Elr as <- <-; left; by rewrite Hm|].
    destruct (ngx_http_create_locations_tree fuel (a :: A) n) as [t1|]; cbn in Elr; [|discriminate].
    destruct B as [|b B]; [injection Elr as <- <-; by left|right].
    destruct (ngx_http_create_locations_tree fuel (b :: B) n) as [t2|]; cbn in Elr; [|discriminate].
    by injection Elr as <- <-.
  - unfold redirects. by destruct (exact q), (inclusive q).
Qed.

(** The names are those of locations, begin with [p], and are not longer than a byte says. *)
Definition fits (p : bytes) (e : lq_t) : Prop :=
  p `prefix_of` lq_name e /\ (length (lq_name e) <= 255)%nat /\ is_some (clcf_of e) = true.

(** What is in the queue: before [q], [q] itself and what is inside of it, after [q]. *)
Lemma flat_middle A q B : flat (A ++ q :: B) = flat A ++ set_list [] q :: flat (lq_list q) ++ flat B.
Proof. rewrite flat_app. cbn [flat_map]. by rewrite flatten_eq. Qed.

Lemma strict_middle A q B :
  strict (flat (A ++ q :: B)) ->
  strict (flat A) /\ strict (flat (lq_list q)) /\ strict (flat B) /\
  (forall e, e ∈ flat A -> lt_name (lq_name e) (lq_name q)) /\
  (forall e, e ∈ flat (lq_list q) \/ e ∈ flat B -> lt_name (lq_name q) (lq_name e)).
Proof.
  unfold strict. rewrite flat_middle. intros (H1 & HA & H2)%StronglySorted_app.
  apply StronglySorted_cons in H2 as [H3 (_ & HQ & HB)%StronglySorted_app].
  rewrite Forall_forall in H3. assert (Hn : lq_name (set_list [] q) = lq_name q) by by destruct q.
  split_and!; [done|done|done|..].
  - intros e He. specialize (H1 e (set_list [] q) He ltac:(set_solver)).
    unfold below in H1. by rewrite Hn in H1.
  - intros e He. specialize (H3 e ltac:(set_solver)). unfold below in H3. by rewrite Hn in H3.
Qed.

Lemma grouped_middle A q B :
  grouped (A ++ q :: B) ->
  grouped A /\ grouped (lq_list q) /\ grouped B /\
  (forall e, e ∈ flat (lq_list q) -> covers q e) /\
  (forall e, e ∈ flat A -> ~ covers e q) /\ (forall e, e ∈ flat B -> ~ covers q e).
Proof.
  intros H. pose proof (grouped_app _ _ H) as [HA HqB].
  pose proof (grouped_app [q] B HqB) as [Hq HB].
  split_and!; [done|apply (grouped_sub _ Hq); set_solver|done|..].
  - intros e. apply (grouped_inner _ Hq). set_solver.
  - intros e He Hc. apply (grouped_sep _ H A (q :: B) e (set_list [] q)); [done|done|..].
    + cbn [flat_map]. rewrite flatten_eq. set_solver.
    + by destruct q.
  - intros e He Hc. apply (grouped_sep _ HqB [q] B (set_list [] q) e); [done|..|done|by destruct q].
    cbn [flat_map]. rewrite flatten_eq. set_solver.
Qed.

Section Node.
(** A node for [q] between the queues [A] and [B]. *)
Context (A B : list lq_t) (q : lq_t) (uri : bytes).
Hypothesis Hs : strict (flat (A ++ q :: B)).
Hypothesis Hg : grouped (A ++ q :: B).
Let E := flat (A ++ q :: B).

Lemma in_node e :
  e ∈ E <-> e ∈ flat A \/ e = set_list [] q \/ e ∈ flat (lq_list q) \/ e ∈ flat B.
Proof. unfold E. rewrite flat_middle. set_solver. Qed.

Lemma not_relevant e : diverge uri (lq_name e) \/ diverge (lq_name e) uri -> ~ relevant uri e.
Proof. intros [[H1 H2]%diverge_not_prefix|[H1 H2]%diverge_not_prefix] [[_ H]|H]; auto. Qed.

Lemma name_set_list l : lq_name (set_list l q) = lq_name q.
Proof. by destruct q. Qed.

Lemma go_left rv loc rc loc' :
  diverge uri (lq_name q) -> outcome uri (flat A) rv loc rc loc' -> outcome uri E rv loc rc loc'.
Proof.
  intros Hd. destruct (strict_middle _ _ _ Hs) as (_ & _ & _ & _ & Hr). apply outcome_relevant.
  - intros e He. apply in_node. by left.
  - intros e [He|[->|He]]%in_node Hrel; [done|exfalso..]; revert Hrel; apply not_relevant; left.
    + by rewrite name_set_list.
    + by eapply diverge_lt_trans; [|apply Hr].
Qed.

Lemma diverge_begun a b c : diverge a b -> a `prefix_of` c -> diverge c b.
Proof. intros Hd [s ->]. rewrite <- (app_nil_r b). by apply diverge_extend. Qed.

Lemma go_right rv loc rc loc' :
  diverge (lq_name q) uri -> outcome uri (flat B) rv loc rc loc' -> outcome uri E rv loc rc loc'.
Proof.
  intros Hd. destruct (strict_middle _ _ _ Hs) as (_ & _ & _ & Hl & _).
  destruct (grouped_middle _ _ _ Hg) as (_ & _ & _ & Hin & Hc & _). apply outcome_relevant.
  - intros e He. apply in_node. auto.
  - intros e [He|[->|[He|He]]]%in_node Hrel; [exfalso..|done].
    + specialize (Hl e He). destruct Hrel as [[Hi Hp]|[s Hp]].
      * apply (Hc e He). split; [done|].
        destruct Hl as [[x [t ->]]|Hl]; [by eexists|]. exfalso.
        pose proof (diverge_lt_trans _ _ _ Hl ltac:(by right)) as Hd'.
        by apply diverge_not_prefix in Hd' as [? _].
      * apply (lt_name_irrefl (lq_name e)). eapply lt_name_trans; [exact Hl|]. right.
        rewrite Hp, <- (app_nil_r (lq_name q)). by apply diverge_extend.
    + revert Hrel. apply not_relevant. right. by rewrite name_set_list.
    + revert Hrel. apply not_relevant. right. destruct (Hin e He) as [_ Hp].
      by eapply diverge_begun.
Qed.

Lemma before_not_relevant e :
  lq_name q `prefix_of` uri -> lq_name q <> uri -> e ∈ flat A -> ~ relevant uri e.
Proof.
  intros Hp Hn He Hrel. destruct (strict_middle _ _ _ Hs) as (_ & _ & _ & Hl & _).
  destruct (grouped_middle _ _ _ Hg) as (_ & _ & _ & _ & Hc & _). specialize (Hl e He).
  assert (Hlt : lt_name (lq_name q) uri) by (by destruct (lt_prefix _ _ Hp)).
  destruct Hrel as [[Hi' Hp']|Hp'].
  - apply (Hc e He). split; [done|].
    destruct (prefix_weak_total (lq_name e) (lq_name q) uri Hp' Hp) as [?|Hp2]; [done|].
    exfalso. destruct (lt_prefix _ _ Hp2) as [Heq|Hlt2]; [rewrite Heq in Hl|].
    + by apply lt_name_irrefl in Hl.
    + apply (lt_name_irrefl (lq_name e)). by eapply lt_name_trans.
  - apply (lt_name_irrefl uri). destruct (lt_prefix _ _ Hp') as [Heq|Hlt2].
    + rewrite <- Heq in Hl. eapply lt_name_trans; [exact Hl|done].
    + eapply lt_name_trans; [exact Hlt2|]. eapply lt_name_trans; [exact Hl|done].
Qed.

Lemma go_inside c rv loc rc loc' :
  lq_name q `prefix_of` uri -> lq_name q <> uri -> inclusive q = Some c ->
  outcome uri (flat (lq_list q)) NGX_AGAIN (loc_conf c) rc loc' -> outcome uri E rv loc rc loc'.
Proof.
  intros Hp Hn Hi. destruct (strict_middle _ _ _ Hs) as (_ & _ & _ & _ & Hr).
  destruct (grouped_middle _ _ _ Hg) as (_ & _ & _ & Hin & _ & Hc').
  apply (outcome_inside _ _ _ (set_list [] q)).
  - apply in_node. auto.
  - destruct q. cbn in *. subst. by split.
  - by rewrite name_set_list.
  - by destruct q.
  - intros e He. apply in_node. auto.
  - intros e [He|[->|[He|He]]]%in_node Hrel; [|by left|by right|exfalso].
    + by destruct (before_not_relevant e).
    + assert (Hrq : lt_name (lq_name q) (lq_name e)) by (apply Hr; by right).
      apply (Hc' e He). split; [by rewrite Hi|].
      destruct Hrel as [[_ Hp']|Hp']; [|by etrans].
      destruct (prefix_weak_total (lq_name q) (lq_name e) uri Hp Hp') as [?|Hp2]; [done|].
      exfalso. destruct (lt_prefix _ _ Hp2) as [Heq|Hlt2]; [rewrite Heq in Hrq|].
      * by apply lt_name_irrefl in Hrq.
      * apply (lt_name_irrefl (lq_name e)). by eapply lt_name_trans.
  - intros e He. rewrite name_set_list. by apply Hin.
Qed.

Lemma go_past rv loc rc loc' :
  lq_name q `prefix_of` uri -> lq_name q <> uri -> inclusive q = None ->
  outcome uri (flat B) rv loc rc loc' -> outcome uri E rv loc rc loc'.
Proof.
  intros Hp Hn Hi. destruct (grouped_middle _ _ _ Hg) as (_ & _ & _ & Hin & _ & _).
  apply outcome_relevant.
  - intros e He. apply in_node. auto.
  - intros e [He|[->|[He|He]]]%in_node Hrel; [exfalso..|done].
    + by apply (before_not_relevant e).
    + destruct Hrel as [[Hi' _]|Hp']; [destruct q; cbn in *; by subst|].
      rewrite name_set_list in Hp'. apply Hn. by apply (anti_symm prefix).
    + destruct (Hin e He) as [Hi' _]. by rewrite Hi in Hi'.
Qed.

Lemma go_before rv loc rc loc' :
  uri `prefix_of` lq_name q -> lq_name q <> uri -> ~ candidate uri q ->
  outcome uri (flat A) rv loc rc loc' -> outcome uri E rv loc rc loc'.
Proof.
  intros Hp Hn Hc. destruct (strict_middle _ _ _ Hs) as (_ & _ & _ & _ & Hr).
  apply (outcome_before _ _ _ (set_list [] q)); rewrite ?name_set_list; try done.
  - apply in_node. auto.
  - unfold candidate, redirects in *. by destruct q.
  - intros e He. apply in_node. auto.
  - intros e [He|[->|He]]%in_node; auto.
Qed.

Lemma go_candidate c rv loc rc loc' :
  candidate uri q -> clcf_of q = Some c ->
  outcome uri (flat A) NGX_DONE (loc_conf c) rc loc' -> outcome uri E rv loc rc loc'.
Proof.
  intros Hca Hc. destruct (strict_middle _ _ _ Hs) as (_ & _ & _ & _ & Hr).
  destruct (grouped_middle _ _ _ Hg) as (_ & _ & _ & _ & Hcov & _).
  apply (outcome_candidate _ _ _ (set_list [] q)).
  - apply in_node. auto.
  - unfold candidate, redirects in *. by destruct q.
  - by destruct q.
  - intros e He. apply in_node. auto.
  - rewrite name_set_list. intros e [He|[->|He]]%in_node; auto.
  - intros e He. specialize (Hcov e He). by destruct q.
Qed.
End Node.

Lemma drop_prefix {A} (p s : list A) : drop (length p) (p ++ s) = s.
Proof. apply drop_app_length. Qed.

Lemma fits_middle p A q B :
  Forall (fits p) (flat (A ++ q :: B)) ->
  Forall (fits p) (flat A) /\ Forall (fits p) (flat (lq_list q)) /\ Forall (fits p) (flat B) /\
  fits p q.
Proof.
  rewrite flat_middle. intros [HA [Hq [HQ HB]%Forall_app]%Forall_cons]%Forall_app.
  split_and!; [done..|]. by destruct q.
Qed.

Lemma tree_search fuel l t p u rv loc :
  ngx_http_create_locations_tree fuel l (length p) = Some t ->
  grouped l -> strict (flat l) -> Forall (fits p) (flat l) ->
  exists rc loc', ngx_http_core_find_static_location t u rv loc = Some (rc, loc') /\
    outcome (p ++ u) (flat l) rv loc rc loc'.
Proof.
  revert l t p u rv loc. induction fuel as [|fuel IH]; intros l t p u rv loc Ht Hg Hs Hf; [done|].
  assert (Sub : forall l t p u rv loc, built fuel l (length p) t -> grouped l -> strict (flat l) ->
    Forall (fits p) (flat l) ->
    exists rc loc', ngx_http_core_find_static_location t u rv loc = Some (rc, loc') /\
      outcome (p ++ u) (flat l) rv loc rc loc').
  { clear -IH. intros l t p u rv loc [[-> ->]|Ht] Hg Hs Hf; [|by eapply IH].
    exists rv, loc. split; [done|]. apply O_none; intros e He; by apply not_elem_of_nil in He. }
  destruct (create_tree_inv _ _ _ _ Ht) as (A & q & B & lft & rgt & tree & -> & HA & HB & HQ & ->).
  destruct (grouped_middle _ _ _ Hg) as (GA & GQ & GB & Hin & _ & _).
  destruct (strict_middle _ _ _ Hs) as (SA & SQ & SB & _ & _).
  destruct (fits_middle _ _ _ _ Hf) as (FA & FQ & FB & [s Hq] & Hlen & Hwf).
  replace (length (lq_name q) - length p)%nat with (length s) in * by (rewrite Hq, length_app; lia).
  rewrite Hq, drop_prefix, firstn_all. rewrite Hq, length_app in Hlen.
  replace (u8 (Z.of_nat (length s))) with (zlen s) by (unfold zlen; rewrite u8_id; [done|split; lia]).
  cbn [ngx_http_core_find_static_location].
  replace (Z.to_nat (if zlen u <=? zlen s then zlen u else zlen s)) with (length u `min` length s)%nat
    by (unfold zlen; destruct (Z.leb_spec (Z.of_nat (length u)) (Z.of_nat (length s))); lia).
  pose proof (memcmp_min u s) as Hm. cbn zeta in Hm.
  assert (Hdiv : forall a b, diverge a b -> diverge (p ++ a) (p ++ b)).
  { clear. intros a b Hd. induction p; [done|]. by apply diverge_cons. }
  destruct (Z.compare_spec (memcmp u s (length u `min` length s)) 0) as [E|E|E].
  - rewrite E. cbn [Z.eqb negb]. clear E.
    assert (Hcmp : u = s \/ (exists x t, u = s ++ x :: t) \/ (exists x t, s = u ++ x :: t)).
    { destruct Hm as [[[|x t] ->]|[[|x t] ->]]; rewrite ?app_nil_r; eauto 6. }
    clear Hm. unfold zlen. destruct Hcmp as [->|[(x & t & ->)|(x & t & ->)]].
    + rewrite Z.ltb_irrefl, Z.eqb_refl. destruct (clcf_of q) as [c|] eqn:Ec; [|done].
      assert (Hout : outcome (p ++ s) (flat (A ++ q :: B)) rv loc
                       (if is_some (exact q) then NGX_OK else NGX_AGAIN) (loc_conf c)).
      { replace (exact q) with (exact (set_list [] q)) by by destruct q.
        apply O_equal; [|by destruct q..]. rewrite flat_middle. set_solver. }
      unfold clcf_of in Ec. destruct (exact q); [injection Ec as ->; eauto|].
      rewrite Ec. eauto.
    + rewrite length_app. cbn [length].
      rewrite (proj2 (Z.ltb_lt (Z.of_nat (length s)) (Z.of_nat (length s + S (length t))))) by lia.
      assert (Hpre : lq_name q `prefix_of` p ++ s ++ x :: t).
      { rewrite Hq, app_assoc. by eexists. }
      assert (Hne : lq_name q <> p ++ s ++ x :: t).
      { rewrite Hq, app_assoc. intros H%(f_equal length). rewrite !length_app in H. cbn in H. lia. }
      destruct (inclusive q) as [c|] eqn:Ei.
      * rewrite Nat.min_r, drop_prefix by lia.
        destruct (Sub (lq_list q) tree (p ++ s) (x :: t) NGX_AGAIN (loc_conf c)) as (rc & loc' & Hfind & Hout);
          [by rewrite length_app|done..| |].
        { apply Forall_forall. intros e He. rewrite Forall_forall in FQ. destruct (FQ e He) as (_ & ?).
          split; [|done]. rewrite <- Hq. by apply Hin. }
        exists rc, loc'. split; [done|]. rewrite <- app_assoc in Hout. by eapply go_inside.
      * destruct (Sub B rgt p (s ++ x :: t) rv loc) as (rc & loc' & Hfind & Hout); [done..|].
        exists rc, loc'. split; [done|]. by apply go_past.
    + rewrite length_app. cbn [length].
      rewrite (proj2 (Z.ltb_ge (Z.of_nat (length u + S (length t))) (Z.of_nat (length u)))),
        (proj2 (Z.eqb_neq (Z.of_nat (length u)) (Z.of_nat (length u + S (length t))))) by lia.
      destruct (_ && _) eqn:Er.
      * apply andb_prop in Er as [Ht1 Hr]. assert (t = []) as -> by (apply Z.eqb_eq in Ht1; destruct t; [done|cbn [length] in Ht1; lia]).
        assert (Hca : candidate (p ++ u) q) by (split; [exists x; by rewrite Hq, app_assoc|done]).
        destruct (clcf_of q) as [c|] eqn:Ec; [|done].
        destruct (Sub A lft p u NGX_DONE (loc_conf c)) as (rc & loc' & Hfind & Hout); [done..|].
        exists rc, loc'. split; [|by eapply go_candidate].
        unfold clcf_of in Ec. destruct (exact q); [injection Ec as ->; done|]. by rewrite Ec.
      * destruct (Sub A lft p u rv loc) as (rc & loc' & Hfind & Hout); [done..|].
        exists rc, loc'. split; [done|]. apply go_before; [done..| | | |done].
        -- rewrite Hq. rewrite app_assoc. by eexists.
        -- rewrite Hq, app_assoc. intros H%(f_equal length). rewrite !length_app in H. cbn in H. lia.
        -- intros [[y Hy] Hr]. rewrite Hq, <- !app_assoc in Hy. apply app_inv_head, app_inv_head in Hy.
           injection Hy as -> ->. rewrite Hr in Er. rewrite andb_true_r in Er. apply Z.eqb_neq in Er. cbn [length] in Er. lia.
  - assert (Hd : diverge (p ++ u) (lq_name q)).
    { rewrite Hq. by apply Hdiv. }
    destruct (Sub A lft p u rv loc) as (rc & loc' & Hfind & Hout); [done..|].
    exists rc, loc'. split; [|by apply go_left].
    rewrite (proj2 (Z.eqb_neq _ _)), (proj2 (Z.ltb_lt _ _)) by lia. done.
  - assert (Hd : diverge (lq_name q) (p ++ u)).
    { rewrite Hq. by apply Hdiv. }
    destruct (Sub B rgt p u rv loc) as (rc & loc' & Hfind & Hout); [done..|].
    exists rc, loc'. split; [|by apply go_right].
    rewrite (proj2 (Z.eqb_neq _ _)), (proj2 (Z.ltb_ge _ _)) by lia. done.
Qed.

(** The tree exists. *)
Lemma create_tree_total fuel l n :
  l <> [] -> (length (flat l) <= fuel)%nat ->
  exists t, ngx_http_create_locations_tree fuel l n = Some t.
Proof.
  revert l n. induction fuel as [|fuel IH]; intros l n Hne Hf.
  { destruct l as [|q l]; [done|]. cbn [flat_map] in Hf. rewrite flatten_eq in Hf. cbn in Hf. lia. }
  cbn [ngx_http_create_locations_tree].
  assert (Hm : (length l / 2 < length l)%nat).
  { apply Nat.div_lt; [|lia]. destruct l; [done|cbn; lia]. }
  destruct (lookup_lt_is_Some_2 _ _ Hm) as [q Hq]. rewrite Hq. cbn [mbind option_bind].
  pose proof (take_drop_middle _ _ _ Hq) as Hl. rewrite <- Hl, flat_middle in Hf.
  rewrite length_app in Hf. cbn [length] in Hf. rewrite length_app in Hf.
  generalize dependent (take (length l / 2) l). generalize (drop (S (length l / 2)) l).
  intros B A Hf _.
  assert (Hlr : exists lr, match A with
                 | [] => Some (TNull, TNull)
                 | _ => lft ← ngx_http_create_locations_tree fuel A n;
                        match B with
                        | [] => Some (lft, TNull)
                        | _ => rgt ← ngx_http_create_locations_tree fuel B n; Some (lft, rgt)
                        end
                 end = Some lr).
  { destruct A as [|a A]; [by eexists|].
    destruct (IH (a :: A) n) as [t1 ->]; [done|lia|]. cbn [mbind option_bind].
    destruct B as [|b B]; [by eexists|].
    destruct (IH (b :: B) n) as [t2 ->]; [done|lia|]. by eexists. }
  destruct Hlr as [[lft rgt] Hlr].
  assert (Ht : exists t, match lq_list q with
                 | [] => Some TNull
                 | list => ngx_http_create_locations_tree fuel list (n + (length (lq_name q) - n))
                 end = Some t).
  { destruct (lq_list q) as [|x ls]; [by eexists|]. apply IH; [done|lia]. }
  destruct Ht as [t Ht]. rewrite Ht. destruct A, B; rewrite Hlr; by eexists.
Qed.

(** ** Joining the exact and the inclusive location of a name *)

(** The order of [ngx_http_cmp_locations] on them: by name, an exact match first. *)
Definition loc_le (a b : lq_t) : Prop :=
  lt_name (lq_name a) (lq_name b) \/
  (lq_name a = lq_name b /\ (is_some (exact b) = true -> is_some (exact a) = true)).

(** An element with the configurations of one name, and one as
    [ngx_http_add_location] makes it, with one configuration. *)
Record good (q : lq_t) : Prop := {
  good_list : lq_list q = [];
  good_nul : no_nul (lq_name q);
  good_exact c : exact q = Some c -> name c = lq_name q /\ exact_match c = true;
  good_inclusive c : inclusive q = Some c -> name c = lq_name q /\ exact_match c = false;
  good_some : is_some (clcf_of q) = true
}.
Definition single (q : lq_t) : Prop := good q /\ (exact q = None \/ inclusive q = None).

Definition confs_of (q : lq_t) : list clcf_t := option_list (exact q) ++ option_list (inclusive q).
Abbreviation confs := (flat_map confs_of).

(** What may not occur twice. *)
Definition conf_key (c : clcf_t) : bytes * bool := (name c, exact_match c).
Abbreviation distinct l := (NoDup (conf_key <$> confs l)).

Lemma twice_not_distinct c c' (l1 l2 l3 : list clcf_t) :
  conf_key c = conf_key c' -> ~ NoDup (conf_key <$> l1 ++ c :: l2 ++ c' :: l3).
Proof.
  intros Hk Hd. rewrite fmap_app in Hd. apply NoDup_app in Hd as (_ & _ & Hd).
  cbn in Hd. apply NoDup_cons in Hd as [Hd _]. apply Hd. rewrite fmap_app, Hk. cbn. set_solver.
Qed.

(** One step of the loop: two elements of the same name are a duplicate, or the second is
    the inclusive location that the first lacks. *)
Lemma join_step q x l :
  good q -> single x -> loc_le q x -> lq_name q = lq_name x ->
  if (is_some (exact q) && is_some (exact x)) || (is_some (inclusive q) && is_some (inclusive x))
  then ~ distinct (q :: x :: l)
  else good (set_inclusive (inclusive x) q) /\
       confs (set_inclusive (inclusive x) q :: l) = confs (q :: x :: l).
Proof.
  intros [Hl Hn He Hi Hs] [[_ _ He' Hi' Hs'] Hx] Hle Heq. destruct q as [qe qi qn ql], x as [xe xi xn xl].
  cbn in *. subst. unfold confs_of. cbn.
  assert (Hord : is_some xe = true -> is_some qe = true).
  { destruct Hle as [Hlt|[_ Hle]]; [by apply lt_name_irrefl in Hlt|done]. }
  destruct qe as [qe|], xe as [xe|]; cbn; try (by specialize (Hord eq_refl)).
  - destruct (He _ eq_refl) as [? ?], (He' _ eq_refl) as [? ?].
    apply (twice_not_distinct _ _ []). unfold conf_key. congruence.
  - unfold clcf_of in Hs'. cbn in Hs'. destruct xi as [xi|]; [|done]. destruct qi as [qi|]; cbn.
    + destruct (Hi _ eq_refl) as [? ?], (Hi' _ eq_refl) as [? ?].
      apply (twice_not_distinct _ _ [qe] []). unfold conf_key. congruence.
    + split; [|done]. by split.
  - unfold clcf_of in Hs, Hs'. cbn in Hs, Hs'. destruct xi as [xi|], qi as [qi|]; try done. cbn.
    destruct (Hi _ eq_refl) as [? ?], (Hi' _ eq_refl) as [? ?].
    apply (twice_not_distinct _ _ [] []). unfold conf_key. congruence.
Qed.

Lemma join_loop_spec q l :
  good q -> Forall single l -> StronglySorted loc_le (q :: l) ->
  match join_loop q l with
  | Some l' =>
      strict l' /\ Forall good l' /\ confs l' = confs (q :: l) /\ l' <> [] /\
      Forall (fun e => exists e', e' ∈ q :: l /\ lq_name e' = lq_name e) l'
  | None => ~ distinct (q :: l)
  end.
Proof.
  revert q. induction l as [|x l IH]; intros q Hq Hl Hs; cbn [join_loop].
  { split_and!; [by repeat constructor|by constructor|done|done|].
    constructor; [|constructor]. exists q. split; [set_solver|done]. }
  apply Forall_cons in Hl as [Hx Hl]. apply StronglySorted_cons in Hs as [Hqs Hs].
  rewrite Forall_cons in Hqs. destruct Hqs as [Hqx Hql]. pose proof Hx as [Hgx _].
  pose proof (strcmp_lex _ _ (good_nul _ Hq) (good_nul _ Hgx)) as Hcmp.
  destruct (Z.eqb_spec (strcmp (lq_name q) (lq_name x)) 0) as [E|E].
  - rewrite E in Hcmp. cbn in Hcmp. pose proof (join_step q x l Hq Hx Hqx Hcmp) as Hstep.
    destruct (_ || _); [done|]. destruct Hstep as [Hg Hc].
    assert (Hs' : StronglySorted loc_le (set_inclusive (inclusive x) q :: l)).
    { apply StronglySorted_cons. apply StronglySorted_cons in Hs as [_ Hs]. split; [|done].
      eapply Forall_impl; [exact Hql|]. intros b Hb. by destruct q. }
    specialize (IH _ Hg Hl Hs'). destruct (join_loop _ l); [|by rewrite <- Hc].
    destruct IH as (H1 & H2 & H3 & H4 & H5). split_and!; [done|done|by rewrite H3|done|].
    eapply Forall_impl; [exact H5|]. intros e (e' & [->|He']%elem_of_cons & Heq).
    + exists q. split; [set_solver|]. by destruct q.
    + exists e'. split; [set_solver|done].
  - assert (Hlt : lt_name (lq_name q) (lq_name x)).
    { destruct Hqx as [?|[Heq _]]; [done|]. exfalso. rewrite Heq in *.
      destruct (Z.compare_spec (strcmp (lq_name x) (lq_name x)) 0); [done|by apply lt_name_irrefl in Hcmp..]. }
    specialize (IH x Hgx Hl Hs). destruct (join_loop x l) as [l'|]; cbn [mbind option_bind].
    + destruct IH as (H1 & H2 & H3 & H4 & H5).
      split_and!; [|by constructor|by cbn [flat_map] in *; rewrite H3|done|].
      * apply StronglySorted_cons. split; [|done]. eapply Forall_impl; [exact H5|].
        intros e (e' & [->|He']%elem_of_cons & Heq); unfold below; rewrite <- Heq; [done|].
        apply StronglySorted_cons in Hs as [Hs _]. rewrite Forall_forall in Hs.
        destruct (Hs e' He') as [?|[<- _]]; [by eapply lt_name_trans|done].
      * constructor; [exists q; split; [set_solver|done]|]. eapply Forall_impl; [exact H5|].
        intros e (e' & He' & Heq). exists e'. split; [set_solver|done].
    + intros Hd. apply IH. cbn [flat_map] in *. rewrite fmap_app in Hd. by apply NoDup_app in Hd as (_ & _ & Hd).
Qed.

(** ** The static locations of a server *)

(** What the directives make: a name without NULs, as the words of a configuration file
    have none, and at most one of a regular expression, a named location and a block
    without a name. *)
Definition conf_ok (c : clcf_t) : Prop :=
  no_nul (name c) /\
  (is_some (regex c) = true -> named c = false /\ noname c = false) /\
  (named c = true -> noname c = false).

Definition is_static (c : clcf_t) : bool :=
  negb (noname c) && negb (named c) && negb (is_some (regex c)).

(** The groups of [ngx_http_cmp_locations], in order. *)
Definition rank (c : clcf_t) : nat :=
  if noname c then 3 else if named c then 2 else if is_some (regex c) then 1 else 0.

Definition add_all (cs : list clcf_t) : list lq_t := fold_left ngx_http_add_location cs [].

(** The element that [ngx_http_add_location] makes. *)
Definition lq_of (c : clcf_t) : lq_t :=
  if exact_match c || is_some (regex c) || named c || noname c
  then LQ (Some c) None (name c) [] else LQ None (Some c) (name c) [].

Lemma add_all_eq cs : add_all cs = lq_of <$> cs.
Proof.
  unfold add_all. assert (H : forall l, fold_left ngx_http_add_location cs l = l ++ (lq_of <$> cs)).
  { induction cs as [|c cs IH]; intros l; cbn; [by rewrite app_nil_r|].
    rewrite IH. unfold ngx_http_add_location. by rewrite <- app_assoc. }
  apply H.
Qed.

Lemma clcf_of_lq c : clcf_of (lq_of c) = Some c.
Proof. unfold lq_of. by destruct (_ || _). Qed.

(** The order inside of a group. *)
Definition group_le (r : nat) (a b : clcf_t) : Prop :=
  match r with
  | 0%nat => lt_name (name a) (name b) \/
             (name a = name b /\ (exact_match b = true -> exact_match a = true))
  | 2%nat => name a = name b \/ lt_name (name a) (name b)
  | _ => True
  end.

Definition conf_le (a b : clcf_t) : Prop :=
  (rank a < rank b)%nat \/ (rank a = rank b /\ group_le (rank a) a b).

Lemma strcmp_le u v : no_nul u -> no_nul v -> strcmp u v <= 0 <-> u = v \/ lt_name u v.
Proof.
  intros Hu Hv. pose proof (strcmp_lex u v Hu Hv) as H.
  destruct (Z.compare_spec (strcmp u v) 0).
  - split; [by left|lia].
  - split; [by right|lia].
  - split; [lia|]. intros [->|Hl]; exfalso; [by apply lt_name_irrefl in H|].
    apply (lt_name_irrefl u). by eapply lt_name_trans.
Qed.

Lemma strcmp_zero u v : no_nul u -> no_nul v -> strcmp u v = 0 <-> u = v.
Proof.
  intros Hu Hv. pose proof (strcmp_lex u v Hu Hv) as H.
  destruct (Z.compare_spec (strcmp u v) 0); [done|..];
    (split; [lia|intros ->; by apply lt_name_irrefl in H]).
Qed.

Lemma cmp_confs_le a b : conf_ok a -> conf_ok b -> cmp_confs a b <= 0 <-> conf_le a b.
Proof.
  intros [Ha _] [Hb _]. pose proof (strcmp_le _ _ Ha Hb) as Hle. pose proof (strcmp_zero _ _ Ha Hb) as Hz.
  unfold conf_le, cmp_confs, rank.
  destruct (noname a), (noname b), (named a), (named b), (is_some (regex a)), (is_some (regex b));
    cbn [negb andb orb group_le]; try (split; [lia|intros [?|[? _]]; lia]); try (rewrite Hle; clear; intuition lia);
    try (split; [auto|lia]).
  destruct (Z.eqb_spec (strcmp (name a) (name b)) 0) as [E|E]; cbn [andb].
  - rewrite E. apply Hz in E. rewrite E. clear -E.
    assert (Hirr := lt_name_irrefl (name b)).
    destruct (exact_match a), (exact_match b); cbn [negb andb]; intuition lia.
  - rewrite Hle. clear -E Hz. intuition lia.
Qed.

Lemma conf_le_trans a b c : conf_le a b -> conf_le b c -> conf_le a c.
Proof.
  unfold conf_le. intros [H1|[H1 G1]] [H2|[H2 G2]]; try (left; lia).
  right. split; [lia|]. rewrite <- H1 in G2. destruct (rank a) as [|[|[|]]]; cbn in *; try done.
  - destruct G1 as [G1|[E1 G1]], G2 as [G2|[E2 G2]].
    + left. by eapply lt_name_trans.
    + left. by rewrite <- E2.
    + left. by rewrite E1.
    + right. split; [congruence|auto].
  - destruct G1 as [->|G1]; [done|]. destruct G2 as [<-|G2]; [by right|right; by eapply lt_name_trans].
Qed.

(** Sorting. *)
Lemma place_perm cmp q l : Permutation (place cmp q l) (q :: l).
Proof.
  induction l as [|p l IH]; cbn; [done|]. destruct (_ <=? _); [done|]. rewrite IH. constructor.
Qed.

Section Sorting.
Context (cmp : lq_t -> lq_t -> Z) (P : lq_t -> Prop).
Hypothesis total : forall a b, P a -> P b -> 0 < cmp a b -> cmp b a <= 0.
Hypothesis trans : forall a b c, P a -> P b -> P c -> cmp a b <= 0 -> cmp b c <= 0 -> cmp a c <= 0.

Definition rev_sorted (l : list lq_t) : Prop := StronglySorted (fun a b => cmp b a <= 0) l.

Lemma place_sorted q l : P q -> Forall P l -> rev_sorted l -> rev_sorted (place cmp q l).
Proof.
  intros Hq. induction 1 as [|p l Hp Hl IH]; intros Hs; cbn; [by repeat constructor|].
  apply StronglySorted_cons in Hs as [Hpl Hs]. destruct (Z.leb_spec (cmp p q) 0) as [E|E].
  - constructor; [by constructor|]. constructor; [done|].
    rewrite Forall_forall in Hpl, Hl |- *. intros x Hx. eapply (trans _ p); auto.
  - constructor; [by apply IH|]. rewrite place_perm. constructor; [by apply total|done].
Qed.

Lemma sort_locations_spec l : Forall P l ->
  Permutation (sort cmp l) l /\ StronglySorted (fun a b => cmp a b <= 0) (sort cmp l).
Proof.
  intros Hl. unfold sort.
  assert (H : forall acc, Forall P acc -> rev_sorted acc ->
    Permutation (fold_left (fun s q => place cmp q s) l acc) (l ++ acc) /\
    rev_sorted (fold_left (fun s q => place cmp q s) l acc)).
  { induction Hl as [|q l Hq Hl IH]; intros acc Ha Hs; [done|]. cbn.
    destruct (IH (place cmp q acc)) as [H1 H2].
    - rewrite place_perm. by constructor.
    - by apply place_sorted.
    - split; [|done]. rewrite H1, place_perm. symmetry. apply Permutation_middle. }
  destruct (H []) as [H1 H2]; [constructor|constructor|]. rewrite app_nil_r in H1. split.
  - by rewrite reverse_Permutation.
  - revert H2. unfold rev_sorted. generalize (fold_left (fun s q => place cmp q s) l []). clear.
    induction 1 as [|a l Hs IH Hl]; [constructor|]. rewrite reverse_cons.
    apply StronglySorted_app. split_and!; [|done|by repeat constructor].
    intros x y Hx Hy. apply list_elem_of_singleton in Hy as ->. rewrite elem_of_reverse in Hx.
    rewrite Forall_forall in Hl. exact (Hl x Hx).
Qed.
End Sorting.

Definition from_conf (q : lq_t) : Prop := exists c, conf_ok c /\ q = lq_of c.

Lemma cmp_locations_eq a b : ngx_http_cmp_locations (lq_of a) (lq_of b) = cmp_confs a b.
Proof. unfold ngx_http_cmp_locations. by rewrite !clcf_of_lq. Qed.

Lemma cmp_total a b : from_conf a -> from_conf b ->
  0 < ngx_http_cmp_locations a b -> ngx_http_cmp_locations b a <= 0.
Proof.
  intros (x & [Hx _] & ->) (y & [Hy _] & ->). rewrite !cmp_locations_eq. unfold cmp_confs.
  pose proof (strcmp_lex _ _ Hx Hy) as H1. pose proof (strcmp_lex _ _ Hy Hx) as H2.
  assert (Hs : 0 < strcmp (name x) (name y) -> strcmp (name y) (name x) <= 0).
  { intros Hgt. apply strcmp_le; [done..|]. right. destruct (Z.compare_spec (strcmp (name x) (name y)) 0); (lia || done). }
  assert (H0 : strcmp (name x) (name y) = 0 <-> strcmp (name y) (name x) = 0).
  { by rewrite !strcmp_zero by done. }
  clear H1 H2.
  destruct (noname x), (noname y), (named x), (named y), (is_some (regex x)), (is_some (regex y));
    cbn [negb andb orb]; try lia.
  destruct (exact_match x), (exact_match y); cbn [negb andb]; rewrite ?andb_true_r, ?andb_false_r; try lia.
  - destruct (Z.eqb_spec (strcmp (name y) (name x)) 0); lia.
  - destruct (Z.eqb_spec (strcmp (name x) (name y)) 0); lia.
Qed.

Lemma cmp_trans a b c : from_conf a -> from_conf b -> from_conf c ->
  ngx_http_cmp_locations a b <= 0 -> ngx_http_cmp_locations b c <= 0 ->
  ngx_http_cmp_locations a c <= 0.
Proof.
  intros (x & Hx & ->) (y & Hy & ->) (z & Hz & ->). rewrite !cmp_locations_eq, !cmp_confs_le by done.
  apply conf_le_trans.
Qed.

Definition rank_of (q : lq_t) : nat := match clcf_of q with Some c => rank c | None => 0 end.
Abbreviation of_rank n := (filter (fun q => rank_of q = n%nat)).

Lemma rank_lq c : rank_of (lq_of c) = rank c.
Proof. unfold rank_of. by rewrite clcf_of_lq. Qed.

(** The locations with a regular expression stay in the order of the file. *)
Lemma place_regex q l :
  from_conf q -> Forall from_conf l ->
  of_rank 1 (place ngx_http_cmp_locations q l) = of_rank 1 (q :: l).
Proof.
  intros (c & Hc & ->) Hl. induction Hl as [|p l (d & Hd & ->) _ IH]; cbn [place]; [done|].
  destruct (Z.leb_spec (ngx_http_cmp_locations (lq_of d) (lq_of c)) 0) as [E|E]; [done|].
  rewrite filter_cons, IH, !filter_cons, !rank_lq.
  destruct (decide (rank c = 1%nat)) as [Hrc|], (decide (rank d = 1%nat)) as [Hrd|]; try done.
  exfalso. rewrite cmp_locations_eq in E. apply Z.lt_nge in E. apply E. apply cmp_confs_le; [done..|].
  right. rewrite Hrc, Hrd. done.
Qed.

Lemma sort_regex l :
  Forall from_conf l -> of_rank 1 (sort ngx_http_cmp_locations l) = of_rank 1 l.
Proof.
  intros Hl. unfold sort.
  assert (Hrev : forall l : list lq_t, of_rank 1 (reverse l) = reverse (of_rank 1 l)).
  { clear. induction l as [|q l IH]; [done|]. rewrite reverse_cons, filter_app, IH, !filter_cons.
    rewrite filter_nil. destruct (decide _); [by rewrite reverse_cons|by rewrite app_nil_r]. }
  rewrite Hrev.
  assert (H : forall acc, Forall from_conf acc ->
    of_rank 1 (fold_left (fun s q => place ngx_http_cmp_locations q s) l acc) =
    reverse (of_rank 1 l) ++ of_rank 1 acc).
  { induction Hl as [|q l Hq Hl IH]; intros acc Ha; [done|]. cbn [fold_left].
    rewrite IH by (rewrite place_perm; by constructor). rewrite place_regex, !filter_cons by done.
    destruct (decide _); [|done]. by rewrite reverse_cons, <- app_assoc. }
  rewrite H by constructor. by rewrite app_nil_r, reverse_involutive.
Qed.

(** A sorted queue has its groups in order. *)
Lemma ranks_split (l : list lq_t) :
  StronglySorted (fun a b => (rank_of a <= rank_of b)%nat) l -> Forall (fun q => (rank_of q <= 3)%nat) l ->
  l = of_rank 0 l ++ of_rank 1 l ++ of_rank 2 l ++ of_rank 3 l.
Proof.
  induction 1 as [|q l Hs IH Hq]; intros Hr; [done|]. apply Forall_cons in Hr as [Hr Hl].
  specialize (IH Hl). rewrite Forall_forall in Hq.
  assert (Hlow : forall n, (n < rank_of q)%nat -> of_rank n l = []).
  { intros n Hn. apply elem_of_nil_inv. intros x [Hx Hin]%list_elem_of_filter.
    specialize (Hq x Hin). lia. }
  rewrite !filter_cons. destruct (rank_of q) as [|[|[|[|]]]] eqn:E; cbn [decide]; try lia;
    repeat (destruct (decide _); try lia); rewrite ?Hlow in IH |- * by lia; cbn [app] in *; by rewrite <- IH.
Qed.

Definition first_of (x : option nat) (i : nat) (l : list lq_t) : option nat :=
  if is_some x then x else match l with [] => None | _ => Some i end.

(** One group of the loop of [ngx_http_init_locations]. *)
Lemma init_loop_group n (l1 l2 : list lq_t) i re nm :
  (n < 3)%nat -> Forall from_conf l1 -> Forall (fun q => rank_of q = n) l1 ->
  init_loop (l1 ++ l2) i re nm =
  init_loop l2 (i + length l1) (if (n =? 1)%nat then first_of re i l1 else re)
    (if (n =? 2)%nat then first_of nm i l1 else nm).
Proof.
  intros Hn Hl. revert i re nm. induction Hl as [|q l1 (c & (Hc & Hc1 & Hc2) & ->) _ IH]; intros i re nm Hr.
  { cbn [app length]. rewrite Nat.add_0_r. unfold first_of.
    destruct (n =? 1)%nat, (n =? 2)%nat, re, nm; done. }
  apply Forall_cons in Hr as [Hr Hrl]. cbn [app init_loop length]. rewrite clcf_of_lq.
  rewrite rank_lq in Hr. unfold rank in Hr. replace (i + S (length l1))%nat with (S i + length l1)%nat by lia.
  assert (Hfirst : forall x, first_of (if is_some x then x else Some i) (S i) l1 = first_of x i (lq_of c :: l1)).
  { intros [x|]; done. }
  destruct (is_some (regex c)) eqn:Ere.
  - destruct (Hc1 eq_refl) as [H1 H2]. rewrite H1, H2 in Hr. subst n. rewrite IH by done. cbn. by rewrite Hfirst.
  - destruct (named c) eqn:Enm.
    + rewrite (Hc2 eq_refl) in Hr. subst n. rewrite IH by done. cbn. by rewrite Hfirst.
    + destruct (noname c); [lia|]. subst n. by rewrite IH by done.
Qed.

Lemma init_loop_noname l i re nm :
  Forall from_conf l -> Forall (fun q => rank_of q = 3%nat) l -> init_loop l i re nm = (i, re, nm).
Proof.
  destruct 1 as [|q l (c & (Hc & Hc1 & Hc2) & ->) _]; [done|]. intros [Hr _]%Forall_cons.
  cbn [init_loop]. rewrite clcf_of_lq. rewrite rank_lq in Hr. unfold rank in Hr.
  destruct (noname c); [|by repeat case_match]. destruct (is_some (regex c)).
  { by destruct (Hc1 eq_refl). }
  destruct (named c); [by specialize (Hc2 eq_refl)|done].
Qed.

Lemma take_drop_first (l1 l2 : list lq_t) n :
  n = length l1 -> l2 <> [] ->
  match first_of None n l2 with
  | Some k => (exact <$> drop k (l1 ++ l2), take k (l1 ++ l2))
  | None => ([], l1 ++ l2)
  end = (exact <$> l2, l1).
Proof.
  intros -> Hne. unfold first_of. cbn. destruct l2 as [|q l2]; [done|].
  by rewrite drop_app_length, take_app_length.
Qed.

Lemma init_groups (A B C D : list lq_t) :
  (Forall from_conf A /\ Forall (fun q => rank_of q = 0%nat) A) ->
  (Forall from_conf B /\ Forall (fun q => rank_of q = 1%nat) B) ->
  (Forall from_conf C /\ Forall (fun q => rank_of q = 2%nat) C) ->
  (Forall from_conf D /\ Forall (fun q => rank_of q = 3%nat) D) ->
  (let '(i, re, nm) := init_loop (A ++ B ++ C ++ D) 0 None None in
   let l := take i (A ++ B ++ C ++ D) in
   let '(named_locations, l) :=
     match nm with Some n => (exact <$> drop n l, take n l) | None => ([], l) end in
   let '(regex_locations, l) :=
     match re with Some n => (exact <$> drop n l, take n l) | None => ([], l) end in
   (l, regex_locations, named_locations)) = (A, exact <$> B, exact <$> C).
Proof.
  intros [FA RA] [FB RB] [FC RC] [FD RD].
  rewrite (init_loop_group 0 A), (init_loop_group 1 B), (init_loop_group 2 C), init_loop_noname by (done || lia).
  cbn [Nat.eqb Nat.add].
  replace (take (length A + length B + length C) (A ++ B ++ C ++ D)) with (A ++ B ++ C).
  2:{ rewrite !app_assoc, take_app_le by (rewrite !length_app; lia).
      rewrite take_ge by (rewrite !length_app; lia). by rewrite <- !app_assoc. }
  assert (Hnm : match first_of None (length A + length B) C with
                | Some k => (exact <$> drop k (A ++ B ++ C), take k (A ++ B ++ C))
                | None => ([], A ++ B ++ C)
                end = (exact <$> C, A ++ B)).
  { rewrite !app_assoc. destruct (decide (C = [])) as [->|Hne]; [cbn; by rewrite app_nil_r|].
    apply take_drop_first; [by rewrite length_app|done]. }
  rewrite Hnm.
  assert (Hre : match first_of None (length A) B with
                | Some k => (exact <$> drop k (A ++ B), take k (A ++ B))
                | None => ([], A ++ B)
                end = (exact <$> B, A)).
  { destruct (decide (B = [])) as [->|Hne]; [cbn; by rewrite app_nil_r|]. by apply take_drop_first. }
  by rewrite Hre.
Qed.

Lemma init_locations_spec (l : list lq_t) :
  Forall from_conf l ->
  ngx_http_init_locations l =
  (of_rank 0 (sort ngx_http_cmp_locations l), exact <$> of_rank 1 l,
   exact <$> of_rank 2 (sort ngx_http_cmp_locations l)).
Proof.
  intros Hl. unfold ngx_http_init_locations. rewrite <- (sort_regex l Hl).
  destruct (sort_locations_spec ngx_http_cmp_locations from_conf cmp_total cmp_trans l Hl) as [Hp Hs].
  assert (Hz : Forall from_conf (sort ngx_http_cmp_locations l)) by by rewrite Hp.
  revert Hs Hz. generalize (sort ngx_http_cmp_locations l). clear. intros zs Hs Hz.
  assert (Hr : zs = of_rank 0 zs ++ of_rank 1 zs ++ of_rank 2 zs ++ of_rank 3 zs).
  { apply ranks_split.
    - clear -Hs Hz. induction Hs as [|q zs Hs IH Hq]; [constructor|].
      apply Forall_cons in Hz as [(c & Hc & ->) Hz]. constructor; [by apply IH|].
      rewrite Forall_forall in Hq, Hz |- *. intros x Hx. destruct (Hz x Hx) as (d & Hd & ->).
      specialize (Hq _ Hx). rewrite cmp_locations_eq in Hq. apply cmp_confs_le in Hq; [|done..].
      rewrite !rank_lq. destruct Hq; lia.
    - eapply Forall_impl; [exact Hz|]. intros q (c & _ & ->). rewrite rank_lq. unfold rank.
      repeat case_match; lia. }
  assert (Hall : forall n, Forall from_conf (of_rank n zs) /\ Forall (fun q => rank_of q = n) (of_rank n zs)).
  { intros n. split; apply Forall_forall; [|by intros x [? _]%list_elem_of_filter].
    rewrite Forall_forall in Hz. intros x [_ Hx]%list_elem_of_filter. by apply Hz. }
  pose proof (init_groups _ _ _ _ (Hall 0%nat) (Hall 1%nat) (Hall 2%nat) (Hall 3%nat)) as H.
  rewrite <- Hr in H. exact H.
Qed.

(** ** The location that is chosen *)

(** Before every location that is the path and one character, with the flag for
    redirects, there is another one that the path begins. *)
Definition redirect_hidden (S : list clcf_t) (uri : bytes) : Prop :=
  forall c x, c ∈ S -> name c = uri ++ [x] -> auto_redirect c = true ->
  exists d, d ∈ S /\ uri `prefix_of` name d /\ lt_name (name d) (name c).

(** The result of the search among the static locations [S], where [rv] and [loc] are what
    is known before.  The name of the path is best, an exact match first; then a redirect
    to the path and one character; then the longest name that begins the path. *)
Inductive chosen (S : list clcf_t) (uri : bytes) (rv loc : Z) : Z -> Z -> Prop :=
  | Chosen_exact c :
      c ∈ S -> name c = uri -> exact_match c = true -> chosen S uri rv loc NGX_OK (loc_conf c)
  | Chosen_same c :
      c ∈ S -> name c = uri -> (forall c', c' ∈ S -> name c' = uri -> exact_match c' = false) ->
      chosen S uri rv loc NGX_AGAIN (loc_conf c)
  | Chosen_redirect c c' x :
      (forall c, c ∈ S -> name c <> uri) ->
      c ∈ S -> name c = uri ++ [x] -> (forall d, d ∈ S -> name d = name c -> exact_match d = true -> d = c) ->
      c' ∈ S -> name c' = name c -> auto_redirect c' = true ->
      chosen S uri rv loc NGX_DONE (loc_conf c)
  | Chosen_prefix c :
      (forall c, c ∈ S -> name c <> uri) -> redirect_hidden S uri ->
      c ∈ S -> name c `prefix_of` uri -> exact_match c = false ->
      (forall d, d ∈ S -> name d `prefix_of` uri -> exact_match d = false ->
         (length (name d) <= length (name c))%nat) ->
      chosen S uri rv loc NGX_AGAIN (loc_conf c)
  | Chosen_none :
      (forall c, c ∈ S -> name c <> uri) -> redirect_hidden S uri ->
      (forall d, d ∈ S -> name d `prefix_of` uri -> exact_match d = true) ->
      chosen S uri rv loc rv loc.

Section Chosen.
Context (E : list lq_t) (S : list clcf_t).
Hypothesis HE : Forall good E.
Hypothesis HS : Permutation (confs E) S.

Lemma good_of e : e ∈ E -> good e.
Proof. intros He. by apply (proj1 (Forall_forall _ _) HE). Qed.

Lemma confs_name e c : good e -> c ∈ confs_of e -> name c = lq_name e.
Proof.
  intros Hg. unfold confs_of.
  destruct (exact e) as [x|] eqn:Ex, (inclusive e) as [i|] eqn:Ei; cbn; intros Hc;
    repeat (apply elem_of_cons in Hc as [->|Hc]); try (by apply not_elem_of_nil in Hc);
    (by apply (good_exact _ Hg)) || (by apply (good_inclusive _ Hg)).
Qed.

Lemma conf_of_lq c : c ∈ S -> exists e, e ∈ E /\ c ∈ confs_of e /\ name c = lq_name e.
Proof.
  rewrite <- HS. rewrite list_elem_of_In, in_flat_map. intros (e & He & Hc).
  apply list_elem_of_In in He, Hc. exists e. split_and!; [done|done|].
  by apply confs_name; [apply good_of|].
Qed.

Lemma lq_conf e c : e ∈ E -> c ∈ confs_of e -> c ∈ S.
Proof.
  intros He Hc. rewrite <- HS, list_elem_of_In, in_flat_map. exists e. by rewrite <- !list_elem_of_In.
Qed.

Lemma confs_exact e c : e ∈ E -> c ∈ confs_of e ->
  if exact_match c then exact e = Some c else inclusive e = Some c.
Proof.
  intros He Hc. pose proof (good_of e He) as Hg. unfold confs_of in Hc.
  destruct (exact e) as [x|] eqn:Ex, (inclusive e) as [i|] eqn:Ei; cbn in Hc;
    repeat (apply elem_of_cons in Hc as [->|Hc]); try (by apply not_elem_of_nil in Hc);
    first [destruct (good_exact _ Hg _ Ex) as [_ ->]|destruct (good_inclusive _ Hg _ Ei) as [_ ->]];
    try done.
Qed.

Hypothesis Hstrict : strict E.

Lemma strict_unique e e' : e ∈ E -> e' ∈ E -> lq_name e = lq_name e' -> e = e'.
Proof.
  clear HE HS. unfold strict in Hstrict. induction Hstrict as [|x l Hs IH Hx].
  { intros He. by apply not_elem_of_nil in He. }
  rewrite Forall_forall in Hx. intros [->|He]%elem_of_cons [->|He']%elem_of_cons Heq; [done|..].
  - specialize (Hx e' He'). unfold below in Hx. rewrite Heq in Hx. by apply lt_name_irrefl in Hx.
  - specialize (Hx e He). unfold below in Hx. rewrite Heq in Hx. by apply lt_name_irrefl in Hx.
  - by apply IH.
Qed.

(** A configuration of the same name is in the same element. *)
Lemma conf_same_name e c :
  e ∈ E -> c ∈ S -> name c = lq_name e ->
  if exact_match c then exact e = Some c else inclusive e = Some c.
Proof.
  intros He Hc Hn. destruct (conf_of_lq c Hc) as (e' & He' & Hc' & Hn').
  assert (e' = e) as -> by (apply strict_unique; congruence). by apply confs_exact.
Qed.

Lemma clcf_of_conf e c :
  e ∈ E -> clcf_of e = Some c ->
  c ∈ S /\ name c = lq_name e /\ exact_match c = is_some (exact e) /\ (exact e = None -> inclusive e = Some c).
Proof.
  intros He Hc. pose proof (good_of e He) as Hg. unfold clcf_of in Hc.
  destruct (exact e) as [d|] eqn:Ex.
  - injection Hc as ->. destruct (good_exact _ Hg _ Ex). split_and!; try done.
    apply (lq_conf e); [done|]. unfold confs_of. rewrite Ex. set_solver.
  - destruct (good_inclusive _ Hg _ Hc). split_and!; try done.
    apply (lq_conf e); [done|]. unfold confs_of. rewrite Hc. set_solver.
Qed.

Lemma inclusive_conf e c :
  e ∈ E -> inclusive e = Some c -> c ∈ S /\ name c = lq_name e /\ exact_match c = false.
Proof.
  intros He Hc. pose proof (good_of e He) as Hg.
  destruct (good_inclusive _ Hg _ Hc). split_and!; try done.
  apply (lq_conf e); [done|]. unfold confs_of. rewrite Hc. set_solver.
Qed.

Lemma redirects_conf e : e ∈ E -> redirects e = true ->
  exists c, c ∈ S /\ name c = lq_name e /\ auto_redirect c = true.
Proof.
  intros He. pose proof (good_of e He) as Hg. unfold redirects.
  intros [Hr|Hr]%orb_prop.
  - destruct (exact e) as [c|] eqn:Ex; [|done]. exists c. destruct (good_exact _ Hg _ Ex).
    split_and!; [|done|done]. apply (lq_conf e); [done|]. unfold confs_of. rewrite Ex. set_solver.
  - destruct (inclusive e) as [c|] eqn:Ei; [|done]. exists c. by destruct (inclusive_conf e c He Ei) as (? & ? & ?).
Qed.

Lemma conf_redirects c : c ∈ S -> auto_redirect c = true ->
  exists e, e ∈ E /\ lq_name e = name c /\ redirects e = true.
Proof.
  intros Hc Hr. destruct (conf_of_lq c Hc) as (e & He & Hce & Hn). exists e. split_and!; [done|done|].
  pose proof (confs_exact e c He Hce) as Hx. unfold redirects.
  destruct (exact_match c); rewrite Hx, Hr; [done|apply orb_true_r].
Qed.

Lemma outcome_chosen uri rv loc rc loc' :
  outcome uri E rv loc rc loc' -> chosen S uri rv loc rc loc'.
Proof.
  assert (Hno : no_equal uri E -> forall c, c ∈ S -> name c <> uri).
  { intros H c Hc Hn. destruct (conf_of_lq c Hc) as (e & He & _ & Hn'). apply (H e He). congruence. }
  assert (Hhid : not_forced uri E -> redirect_hidden S uri).
  { intros H c x Hc Hn Hr. destruct (conf_redirects c Hc Hr) as (e & He & Hne & Hre).
    destruct (H e He) as (e' & He' & Hp & Hl); [split; [exists x; congruence|done]|].
    pose proof (good_some _ (good_of e' He')) as Hs.
    destruct (clcf_of e') as [d|] eqn:Hd; [|done]. destruct (clcf_of_conf e' d He' Hd) as (H1 & H2 & _).
    exists d. rewrite H2, <- Hne. done. }
  assert (Hbeg : forall d, d ∈ S -> name d `prefix_of` uri -> exact_match d = false ->
            exists e, e ∈ E /\ begins uri e /\ lq_name e = name d).
  { intros d Hd Hp Hx. destruct (conf_of_lq d Hd) as (e & He & Hde & Hn). exists e.
    pose proof (confs_exact e d He Hde) as Hi. rewrite Hx in Hi. unfold begins. by rewrite Hi, <- Hn. }
  destruct 1 as [e c He Hn Hc|e c Hne He [[x Hx] Hr] Hc|e c Hne Hf He [_ Hb] Hc Hl|Hne Hf Hb].
  - destruct (clcf_of_conf e c He Hc) as (HcS & Hcn & Hex & _). destruct (exact e) as [d|] eqn:Ed; cbn.
    + apply Chosen_exact; [done|congruence|done].
    + apply Chosen_same; [done|congruence|]. intros c' Hc' Hn'.
      pose proof (conf_same_name e c' He Hc' ltac:(congruence)) as H'. destruct (exact_match c'); congruence.
  - destruct (clcf_of_conf e c He Hc) as (HcS & Hcn & Hex & _).
    destruct (redirects_conf e He Hr) as (c' & Hc' & Hn' & Hr').
    apply (Chosen_redirect _ _ _ _ c c' x); [by apply Hno|done|congruence| |done|congruence|done].
    intros d Hd Hnd Hxd. pose proof (conf_same_name e d He Hd ltac:(congruence)) as H'. rewrite Hxd in H'.
    unfold clcf_of in Hc. rewrite H' in Hc. congruence.
  - destruct (inclusive_conf e c He Hc) as (HcS & Hcn & Hx).
    apply Chosen_prefix; [by apply Hno|by apply Hhid|done|congruence|done|].
    intros d Hd Hp Hdx. destruct (Hbeg d Hd Hp Hdx) as (e' & He' & Hb' & Hn'). rewrite Hcn, <- Hn'. auto.
  - apply Chosen_none; [by apply Hno|by apply Hhid|]. intros d Hd Hp. destruct (exact_match d) eqn:Hx; [done|].
    destruct (Hbeg d Hd Hp Hx) as (e & He & Hb' & _). by destruct (Hb e He).
Qed.
End Chosen.

(** ** The preparation and the search together *)

Definition is_regex (c : clcf_t) : bool := is_some (regex c).
Definition is_named (c : clcf_t) : bool := named c.

Lemma rank_kind c : conf_ok c ->
  (rank c = 0%nat <-> is_static c = true) /\ (rank c = 1%nat <-> is_regex c = true) /\
  (rank c = 2%nat <-> is_named c = true).
Proof.
  intros (_ & H1 & H2). unfold rank, is_static, is_regex, is_named.
  destruct (noname c), (named c), (is_some (regex c)); cbn; try done;
    try (by destruct H1); try (by specialize (H2 eq_refl)).
Qed.

Lemma lq_of_exact c : conf_ok c -> is_static c = false -> exact (lq_of c) = Some c.
Proof.
  unfold is_static, lq_of. intros _. destruct (exact_match c), (noname c), (named c), (is_some (regex c)); done.
Qed.

Lemma lq_of_single c : conf_ok c -> is_static c = true -> single (lq_of c) /\ confs_of (lq_of c) = [c].
Proof.
  intros [Hn _]. unfold is_static, lq_of, single, confs_of.
  destruct (noname c), (named c), (is_some (regex c)); try done. intros _.
  destruct (exact_match c) eqn:E; cbn; (split; [split; [|by auto]|done]);
    split; cbn; try done; by intros ? [= <-].
Qed.

(** Filtering the elements is filtering the configurations. *)
Lemma of_rank_map n (f : clcf_t -> bool) cs :
  Forall (fun c => rank c = n <-> f c = true) cs -> of_rank n (lq_of <$> cs) = lq_of <$> filter (fun c => f c) cs.
Proof.
  induction 1 as [|c cs Hc _ IH]; [done|]. rewrite fmap_cons, !filter_cons, IH, rank_lq.
  destruct (decide (rank c = n)) as [H|H], (decide (Is_true (f c))) as [H'|H']; try done; exfalso;
    rewrite Is_true_true in H'; tauto.
Qed.

Lemma exact_map cs :
  Forall (fun c => conf_ok c /\ is_static c = false) cs -> exact <$> (lq_of <$> cs) = Some <$> cs.
Proof. induction 1 as [|c cs [H1 H2] _ IH]; [done|]. cbn. by rewrite lq_of_exact, IH. Qed.

Lemma strict_distinct (E : list lq_t) : strict E -> Forall good E -> distinct E.
Proof.
  induction 1 as [|e E Hs IH He]; intros Hg; [constructor|]. apply Forall_cons in Hg as [Hg HgE].
  cbn [flat_map]. rewrite fmap_app. apply NoDup_app. split_and!; [| |by apply IH].
  - unfold confs_of. destruct (exact e) as [x|] eqn:Ex, (inclusive e) as [i|] eqn:Ei; cbn;
      repeat constructor; try (by intros ?%not_elem_of_nil).
    intros Hin%list_elem_of_singleton. destruct (good_exact _ Hg _ Ex) as [_ H1], (good_inclusive _ Hg _ Ei) as [_ H2].
    unfold conf_key in Hin. congruence.
  - intros k (c & -> & Hc)%list_elem_of_fmap (c' & Hk & Hc')%list_elem_of_fmap.
    destruct (conf_of_lq E (confs E) HgE (reflexivity _) c' Hc') as (e' & He' & _ & Hn').
    rewrite Forall_forall in He. specialize (He e' He'). unfold below in He.
    unfold conf_key in Hk. rewrite <- Hn', <- (confs_name e c Hg Hc) in He.
    injection Hk as Hk _. rewrite Hk in He. by apply lt_name_irrefl in He.
Qed.

Lemma sorted_filter {A} (R : A -> A -> Prop) (P : A -> Prop) `{!forall x, Decision (P x)} l :
  StronglySorted R l -> StronglySorted R (filter P l).
Proof.
  induction 1 as [|x l Hs IH Hx]; [constructor|]. rewrite filter_cons. destruct (decide _); [|done].
  constructor; [done|]. rewrite Forall_forall in Hx |- *. intros y [_ Hy]%list_elem_of_filter. by apply Hx.
Qed.

(** The queue of the static locations. *)
Record static_queue (l : list lq_t) (S : list clcf_t) : Prop := {
  sq_single : Forall single l;
  sq_sorted : StronglySorted loc_le l;
  sq_confs : Permutation (confs l) S;
  sq_names : Forall (fun q => (length (lq_name q) <= 255)%nat) l
}.

Lemma static_map (cs : list clcf_t) :
  Forall (fun c => conf_ok c /\ is_static c = true /\ (length (name c) <= 255)%nat) cs ->
  Forall (fun q => exists c, q = lq_of c /\ conf_ok c /\ is_static c = true /\ (length (name c) <= 255)%nat)
    (lq_of <$> cs) /\ confs (lq_of <$> cs) = cs.
Proof.
  induction 1 as [|c cs (H1 & H2 & H3) _ [IH1 IH2]]; [done|]. split; [constructor; [by exists c|done]|].
  cbn. by rewrite (proj2 (lq_of_single c H1 H2)), IH2.
Qed.

Lemma lq_of_name c : lq_name (lq_of c) = name c.
Proof. unfold lq_of. by destruct (_ || _). Qed.

Lemma sorted_static_queue (cs : list clcf_t) :
  Forall conf_ok cs -> Forall (fun c => (length (name c) <= 255)%nat) cs ->
  static_queue (of_rank 0 (sort ngx_http_cmp_locations (lq_of <$> cs))) (filter (fun c => is_static c) cs).
Proof.
  intros Hok Hlen.
  assert (Hfrom : Forall from_conf (lq_of <$> cs)).
  { apply Forall_fmap. eapply Forall_impl; [exact Hok|]. intros c Hc. by exists c. }
  destruct (sort_locations_spec ngx_http_cmp_locations from_conf cmp_total cmp_trans _ Hfrom) as [Hp Hs].
  assert (Hmap : of_rank 0 (lq_of <$> cs) = lq_of <$> filter (fun c => is_static c) cs).
  { apply of_rank_map. eapply Forall_impl; [exact Hok|]. intros c Hc. by apply rank_kind. }
  assert (HpS : Permutation (of_rank 0 (sort ngx_http_cmp_locations (lq_of <$> cs)))
                  (lq_of <$> filter (fun c => is_static c) cs)) by (rewrite <- Hmap; by rewrite Hp).
  destruct (static_map (filter (fun c => is_static c) cs)) as [Hall Hconfs].
  { apply Forall_forall. intros c [Hst Hin]%list_elem_of_filter. rewrite Forall_forall in Hok, Hlen.
    apply Is_true_true in Hst. auto. }
  rewrite <- HpS in Hall. split.
  - eapply Forall_impl; [exact Hall|]. intros q (c & -> & H1 & H2 & _). by apply lq_of_single.
  - apply (sorted_filter _ (fun q => rank_of q = 0%nat)) in Hs.
    revert Hs Hall. generalize (of_rank 0 (sort ngx_http_cmp_locations (lq_of <$> cs))). clear.
    induction 1 as [|q l Hs IH Hq]; [constructor|]. intros [(c & -> & Hc & Hst & _) Hl]%Forall_cons.
    constructor; [by apply IH|]. rewrite Forall_forall in Hq, Hl |- *. intros x Hx. specialize (Hq x Hx).
    destruct (Hl x Hx) as (d & -> & Hd & Hst' & _). rewrite cmp_locations_eq in Hq.
    apply cmp_confs_le in Hq; [|done..]. pose proof (proj2 (proj1 (rank_kind c Hc)) Hst) as Hrc.
    pose proof (proj2 (proj1 (rank_kind d Hd)) Hst') as Hrd. destruct Hq as [Hq|[_ Hq]]; [lia|].
    rewrite Hrc in Hq. unfold loc_le. rewrite !lq_of_name. destruct Hq as [Hq|[Hn He]]; [by left|right].
    split; [done|]. unfold lq_of. unfold is_static in Hst, Hst'.
    destruct (noname c), (named c), (is_some (regex c)), (noname d), (named d), (is_some (regex d)); try done.
    destruct (exact_match c), (exact_match d); cbn in *; auto.
  - rewrite HpS. by rewrite Hconfs.
  - eapply Forall_impl; [exact Hall|]. intros q (c & -> & _ & _ & H). by rewrite lq_of_name.
Qed.

Lemma join_loop_length q l l' : join_loop q l = Some l' -> (length l' <= S (length l))%nat.
Proof.
  revert q l'. induction l as [|x l IH]; intros q l'; cbn [join_loop]; [by intros [= <-]|].
  destruct (_ =? 0).
  - destruct (_ || _); [done|]. intros H%IH. cbn. lia.
  - destruct (join_loop x l) as [l''|] eqn:E; [|done]. intros [= <-]. apply IH in E. cbn. lia.
Qed.

(** The tree of the static locations, and what is found in it. *)
Lemma static_trees_spec fuel l S :
  static_queue l S -> (length l <= fuel)%nat ->
  match ngx_http_init_static_location_trees fuel l with
  | None => ~ NoDup (conf_key <$> S)
  | Some t =>
      NoDup (conf_key <$> S) /\
      forall uri rv loc, exists rc loc',
        ngx_http_core_find_static_location t uri rv loc = Some (rc, loc') /\
        chosen S uri rv loc rc loc'
  end.
Proof.
  intros [Hsi Hso Hco Hna] Hf. destruct l as [|q l].
  { cbn in Hco. apply Permutation_nil in Hco as ->. split; [constructor|]. intros uri rv loc.
    exists rv, loc. split; [done|]. apply Chosen_none; [set_solver| |set_solver].
    intros c x Hc. by apply not_elem_of_nil in Hc. }
  cbn [ngx_http_init_static_location_trees ngx_http_join_exact_locations].
  pose proof Hsi as [[Hq _] Hsl]%Forall_cons. pose proof (join_loop_spec q l Hq Hsl Hso) as Hj.
  destruct (join_loop q l) as [E|] eqn:Hlj; cbn [mbind option_bind]; [|by rewrite <- Hco].
  destruct Hj as (Hst & Hgood & Hconf & Hne & Hnames).
  assert (Hplain : Forall plain E).
  { eapply Forall_impl; [exact Hgood|]. intros e He. split; [apply He|apply He]. }
  assert (HlenE : (length E <= fuel)%nat) by (apply join_loop_length in Hlj; cbn in Hf; lia).
  destruct (create_list_spec fuel E Hplain Hst HlenE) as [Hgr Hfl].
  destruct (create_tree_total fuel (ngx_http_create_locations_list fuel E) 0) as [t Ht].
  { intros Hnil. rewrite Hnil in Hfl. by rewrite <- Hfl in Hne. }
  { by rewrite Hfl. }
  rewrite Ht. rewrite <- Hconf in Hco. split.
  { rewrite <- Hco. by apply strict_distinct. }
  intros uri rv loc.
  destruct (tree_search fuel _ t [] uri rv loc Ht Hgr) as (rc & loc' & Hfind & Hout).
  - by rewrite Hfl.
  - rewrite Hfl. rewrite Forall_forall in Hgood, Hnames, Hna |- *. intros e He. split_and!.
    + by exists (lq_name e).
    + destruct (Hnames e He) as (e' & He' & <-). by apply Hna.
    + apply Hgood, He.
  - exists rc, loc'. split; [done|]. rewrite Hfl in Hout. by eapply outcome_chosen.
Qed.

Lemma static_trees (cs : list clcf_t) (fuel : nat) :
  Forall conf_ok cs -> Forall (fun c => (length (name c) <= 255)%nat) cs -> (length cs <= fuel)%nat ->
  let '(l, regexes, nameds) := ngx_http_init_locations (add_all cs) in
  regexes = Some <$> filter (fun c => is_regex c) cs /\
  Permutation nameds (Some <$> filter (fun c => is_named c) cs) /\
  let S := filter (fun c => is_static c) cs in
  match ngx_http_init_static_location_trees fuel l with
  | None => ~ NoDup (conf_key <$> S)
  | Some t =>
      NoDup (conf_key <$> S) /\
      forall uri rv loc, exists rc loc',
        ngx_http_core_find_static_location t uri rv loc = Some (rc, loc') /\
        chosen S uri rv loc rc loc'
  end.
Proof.
  intros Hok Hlen Hfuel. pose proof (sorted_static_queue cs Hok Hlen) as Hq. rewrite add_all_eq.
  assert (Hfrom : Forall from_conf (lq_of <$> cs)).
  { apply Forall_fmap. eapply Forall_impl; [exact Hok|]. intros c Hc. by exists c. }
  destruct (sort_locations_spec ngx_http_cmp_locations from_conf cmp_total cmp_trans _ Hfrom) as [Hp _].
  rewrite init_locations_spec by done.
  assert (Hns : forall f, (forall c, conf_ok c -> f c = true -> is_static c = false) ->
            exact <$> (lq_of <$> filter (fun c => f c) cs) = Some <$> filter (fun c => f c) cs).
  { intros f Hf. apply exact_map, Forall_forall. intros c [Hc Hin]%list_elem_of_filter.
    rewrite Forall_forall in Hok. apply Is_true_true in Hc. split; [by apply Hok|]. apply Hf; auto. }
  assert (Hmap : forall n f, (forall c, conf_ok c -> rank c = n <-> f c = true) ->
            of_rank n (lq_of <$> cs) = lq_of <$> filter (fun c => f c) cs).
  { intros n f Hf. apply of_rank_map. eapply Forall_impl; [exact Hok|]. auto. }
  split_and!.
  - rewrite (Hmap 1%nat is_regex) by (intros c Hc; by apply rank_kind). apply Hns. intros c _.
    unfold is_regex, is_static. destruct (is_some (regex c)); [|done]. intros _. apply andb_false_r.
  - rewrite Hp. rewrite (Hmap 2%nat is_named) by (intros c Hc; by apply rank_kind). rewrite Hns; [done|].
    intros c _. unfold is_named, is_static. intros ->. by rewrite andb_false_r.
  - apply static_trees_spec; [done|]. etrans; [apply length_filter|]. rewrite Hp, length_fmap. done.
Qed.


(** The locations [/], [= /a], [/a], [/a/b] and [~ .php] of a server. *)
Definition sample_locations : list clcf_t :=
  [mk_clcf (bs "/") false false false None false false 1;
   mk_clcf (bs "/a") true false false None false false 2;
   mk_clcf (bs "\.php") false false false (Some 9) false false 3;
   mk_clcf (bs "/a/b") false false false None false true 4;
   mk_clcf (bs "/a") false false false None false false 5;
   mk_clcf (bs "/c/") false false false None true false 6].


(** A location that is not found: [/a] is redirected to [/a/] in some configurations, and
    not when the tree has another name that [/a] begins above [/a/]. *)
Definition hidden_locations : list clcf_t :=
  [mk_clcf (bs "/0") false false false None false false 1;
   mk_clcf (bs "/a-x") false false false None false false 2;
   mk_clcf (bs "/a/") false false false None true false 3].

Definition find_in (cs : list clcf_t) (uri : bytes) : option (Z * Z) :=
  t ← ngx_http_init_static_location_trees 10 (ngx_http_init_locations (add_all cs)).1.1;
  ngx_http_core_find_static_location t uri NGX_DECLINED 0.

Example redirect_missed :
  find_in hidden_locations (bs "/a") = Some (NGX_DECLINED, 0) /\
  find_in (drop 1 hidden_locations) (bs "/a") = Some (NGX_DONE, 3).
Proof. by vm_compute. Qed.

(** The length of a name is kept in one byte: the location of a name of 257 characters is
    found by one character. *)
Definition long_location : list clcf_t :=
  [mk_clcf (replicate 257 "/") false false false None false false 1].

Example long_name_truncated :
  find_in long_location (bs "/") = Some (NGX_AGAIN, 1) /\
  find_in long_location (bs "/x") = Some (NGX_AGAIN, 1).
Proof. by vm_compute. Qed.

(** ** Expressions *)

Section Precedence.
Context (conf : Z -> level) (exec : Z -> bytes -> Z).
Notation find_location := (ngx_http_core_find_location conf exec).

Lemma find_eq fuel uri loc :
  find_location (S fuel) uri loc =
  '(rc, loc') ← ngx_http_core_find_static_location (static_locations (conf loc)) uri NGX_DECLINED loc;
  '(rc, noregex, loc') ←
    (if rc =? NGX_AGAIN then
       '(rc, loc2) ← find_location fuel uri loc';
       Some (rc, level_noregex (conf loc'), loc2)
     else Some (rc, false, loc'));
  if (rc =? NGX_OK) || (rc =? NGX_DONE) then Some (rc, loc')
  else if negb noregex then
    match regex_loop exec (regex_locations (conf loc)) uri rc with
    | inl rc => Some (rc, loc')
    | inr c =>
        '(rc, loc') ← find_location fuel uri (loc_conf c);
        Some (if rc =? NGX_ERROR then rc else NGX_OK, loc')
    end
  else Some (rc, loc').
Proof. done. Qed.

(** A location without locations inside. *)
Definition leaf (loc : Z) : Prop :=
  static_locations (conf loc) = TNull /\ regex_locations (conf loc) = [].

Lemma find_leaf fuel uri loc : leaf loc -> find_location (S fuel) uri loc = Some (NGX_DECLINED, loc).
Proof. intros [H1 H2]. cbn [ngx_http_core_find_location]. by rewrite H1, H2. Qed.

(** The first expression of the file that matches. *)
Definition matches (uri : bytes) (c : clcf_t) : bool :=
  match regex c with Some re => exec re uri =? NGX_OK | None => false end.

Lemma regex_loop_spec cs uri rc :
  (forall re, exec re uri = NGX_OK \/ exec re uri = NGX_DECLINED) ->
  Forall (fun c => is_regex c = true) cs ->
  regex_loop exec (Some <$> cs) uri rc =
  match List.find (matches uri) cs with Some c => inr c | None => inl rc end.
Proof.
  intros Hexec. induction 1 as [|c cs Hc _ IH]; [done|]. cbn [fmap list_fmap regex_loop List.find].
  unfold is_regex in Hc. unfold matches at 1. destruct (regex c) as [re|]; [|done].
  destruct (Hexec re) as [-> | ->]; [done|exact IH].
Qed.

End Precedence.

(** The server of the sample; the expression matches what ends with [.php]. *)
Definition sample_tree : node_t :=
  default TNull (ngx_http_init_static_location_trees 7
                   (ngx_http_init_locations (add_all sample_locations)).1.1).
Definition sample_conf (loc : Z) : level :=
  if loc =? 0 then mk_level sample_tree (ngx_http_init_locations (add_all sample_locations)).1.2 false
  else mk_level TNull [] (loc =? 4).
Definition sample_exec (re : Z) (uri : bytes) : Z :=
  if bytes_eqb (take 4 (rev uri)) (rev (bs ".php")) then NGX_OK else NGX_DECLINED.

