(* ===== verification/Sprintf.v ===== *)
(** Formatted output: [ngx_vslprintf] of src/core/ngx_string.c. *)
From S2P Require Import Prelude HashKey CString Numbers.

(** ** Arguments *)

(** What [va_arg] takes: an integer, a string with a length ([ngx_str_t],
    [ngx_variable_value_t]), or a pointer to bytes.  A floating point number is not
    modelled. *)
Inductive arg := A_int (z : Z) | A_str (s : bytes) | A_ptr (s : bytes) | A_double.

Definition s32 (z : Z) : Z := (z + 2 ^ 31) mod 2 ^ 32 - 2 ^ 31.

(** [NGX_INT_T_LEN], [NGX_ATOMIC_T_LEN] and [NGX_PTR_SIZE] of the 64-bit platforms. *)
Definition NGX_INT_T_LEN : Z := 20.
Definition NGX_ATOMIC_T_LEN : Z := 20.
Definition NGX_PTR_SIZE : Z := 8.

(** ** One conversion *)

Record spec := mk_spec {
  zero : Z; width : Z; sign : bool; hex : Z; max_width : bool; frac_width : Z; slen : Z
}.
#[export] Instance rebuild_spec : Rebuild spec :=
  fun f => mk_spec (zero f) (width f) (sign f) (hex f) (max_width f) (frac_width f) (slen f).

(** The loops over the digits of a width. *)
Fixpoint read_width (w : Z) (fmt : bytes) : Z * bytes :=
  match fmt with
  | c :: fmt' => if is_digit c then read_width (u64 (w * 10 + c - "0")) fmt' else (w, fmt)
  | [] => (w, fmt)
  end.

(** [(size_t) -1] *)
Definition SIZE_MAX : Z := 2 ^ 64 - 1.

(** The loop [for ( ;; )] over the modifiers. *)
Fixpoint read_flags (fmt : bytes) (f : spec) (args : list arg) : option (bytes * spec * list arg) :=
  match fmt with
  | c :: fmt' =>
      if c =? "u" then read_flags fmt' (f <| sign := false |>) args
      else if c =? "m" then read_flags fmt' (f <| max_width := true |>) args
      else if c =? "X" then read_flags fmt' (f <| hex := 2 |> <| sign := false |>) args
      else if c =? "x" then read_flags fmt' (f <| hex := 1 |> <| sign := false |>) args
      else if c =? "." then
        let '(w, fmt) := read_width (frac_width f) fmt' in Some (fmt, f <| frac_width := w |>, args)
      else if c =? "*" then
        match args with
        | A_int n :: args => read_flags fmt' (f <| slen := u64 n |>) args
        | _ => None
        end
      else Some (fmt, f, args)
  | [] => Some (fmt, f, args)
  end.

(** The end of a number: the sign, then the digits. *)
Definition put_number (room : Z) (f : spec) (i64 ui64 : Z) : bytes :=
  if sign f then
    if i64 <? 0 then "-" :: ngx_sprintf_num (room - 1) (u64 (- i64)) (zero f) (hex f) (width f)
    else ngx_sprintf_num room (u64 i64) (zero f) (hex f) (width f)
  else ngx_sprintf_num room ui64 (zero f) (hex f) (width f).

(** [while (p[0] && buf < last)]: the bytes copied. *)
Fixpoint copy_loop (room : Z) (p : bytes) : bytes :=
  match p with
  | [] => []
  | c :: p => if (c =? 0) || (room <=? 0) then [] else c :: copy_loop (room - 1) p
  end.

(** The numbers: the members that the letter sets and the two values; [None] for another
    letter. *)
Definition number_of (c : Z) (f : spec) (n : Z) : option (spec * Z * Z) :=
  let both f := Some (f, s64 n, u64 n) in
  if (c =? "O") || (c =? "T") || (c =? "r") then both (f <| sign := true |>)
  else if c =? "P" then Some (f <| sign := true |>, s32 n, 0)
  else if c =? "M" then
    if s64 n =? -1 then Some (f <| sign := true |>, -1, 0) else Some (f <| sign := false |>, 0, u64 n)
  else if (c =? "z") || (c =? "l") || (c =? "L") then both f
  else if c =? "i" then both (if max_width f then f <| width := NGX_INT_T_LEN |> else f)
  else if c =? "A" then both (if max_width f then f <| width := NGX_ATOMIC_T_LEN |> else f)
  else if (c =? "d") || (c =? "D") then Some (f, s32 n, u32 n)
  else if c =? "p" then
    both (f <| hex := 2 |> <| sign := false |> <| zero := "0" |> <| width := NGX_PTR_SIZE * 2 |>)
  else None.

(** The second [switch]: the bytes written and the arguments left.  [None]: an argument of
    another type, a floating point number, or a format that ends too early, where the code
    reads past its end. *)
Definition convert (room : Z) (c : Z) (f : spec) (args : list arg) : option (bytes * list arg) :=
  if (c =? "V") || (c =? "v") then
    match args with
    | A_str s :: args => Some (take (Z.to_nat (Z.min room (zlen s))) s, args)
    | _ => None
    end
  else if c =? "s" then
    match args with
    | A_ptr p :: args =>
        if slen f =? SIZE_MAX then Some (copy_loop room p, args)
        else if slen f <=? zlen p then Some (take (Z.to_nat (Z.min room (slen f))) p, args)
        else None
    | _ => None
    end
  else if c =? "c" then
    match args with A_int d :: args => Some ([Z.land d 0xff], args) | _ => None end
  else if c =? "Z" then Some ([0], args)
  else if c =? "N" then Some ([LF], args)
  else if c =? "%" then Some (["%"], args)
  else if (c =? "f") || (c =? 0) then None
  else
    match args with
    | A_int n :: args' =>
        match number_of c f n with
        | Some (f, i64, ui64) => Some (put_number room f i64 ui64, args')
        | None => Some ([c], args)
        end
    | _ =>
        match number_of c f 0 with
        | Some _ => None
        | None => Some ([c], args)
        end
    end.

(** From the character after the percent sign: the bytes written, the rest of the format and
    the arguments left. *)
Definition directive (room : Z) (fmt : bytes) (args : list arg) : option (bytes * bytes * list arg) :=
  let z := if ch_ fmt =? "0" then "0" else " " in
  let '(w, fmt) := read_width 0 fmt in
  '(fmt, f, args) ← read_flags fmt (mk_spec z w true 0 false 0 SIZE_MAX) args;
  '(out, args) ← convert room (ch_ fmt) f args;
  Some (out, next_ fmt, args).

(** The bytes that are written when there is room for [room] bytes. *)
Fixpoint vslprintf (fuel : nat) (room : Z) (fmt : bytes) (args : list arg) : option bytes :=
  match fuel, fmt with
  | S fuel, c :: fmt' =>
      if (c =? 0) || (room <=? 0) then Some []
      else if c =? "%" then
        '(out, fmt, args) ← directive room fmt' args;
        rest ← vslprintf fuel (room - zlen out) fmt args;
        Some (out ++ rest)
      else rest ← vslprintf fuel (room - 1) fmt' args; Some (c :: rest)
  | _, _ => Some []
  end.

(** Every turn of the loop reads a character of the format, so that its length is enough
    fuel. *)
Definition ngx_vslprintf (room : Z) (fmt : bytes) (args : list arg) : option bytes :=
  vslprintf (length fmt) room fmt args.

(** ** What is written *)

Lemma read_width_length w fmt : (length (read_width w fmt).2 <= length fmt)%nat.
Proof.
  revert w. induction fmt as [|c fmt IH]; intros w; cbn [read_width]; [done|].
  destruct (is_digit c); [|done]. specialize (IH (u64 (w * 10 + c - "0"))). cbn. lia.
Qed.

Lemma read_flags_length fmt f args fmt' f' args' :
  read_flags fmt f args = Some (fmt', f', args') -> (length fmt' <= length fmt)%nat.
Proof.
  revert f args. induction fmt as [|c fmt IH]; intros f args; cbn [read_flags]; [by intros [= <- _ _]|].
  repeat case_match; try done; intros H'; try (apply IH in H'; cbn; lia).
  - injection H' as <- _ _. pose proof (read_width_length (frac_width f) fmt) as Hl.
    rewrite H4 in Hl. cbn in *. lia.
  - by injection H' as <- _ _.
Qed.

Lemma take_take_min {A} n m (l : list A) : (n <= m)%nat -> take n l = take n (take m l).
Proof. intros. rewrite take_take. f_equal. lia. Qed.

(** A number, on as much room as is needed. *)
Lemma put_number_take room room' f i64 ui64 :
  0 < room <= room' -> put_number room f i64 ui64 = take (Z.to_nat room) (put_number room' f i64 ui64).
Proof.
  intros Hr. unfold put_number.
  assert (H : forall r r' u z h w, 0 <= r <= r' -> ngx_sprintf_num r u z h w = take (Z.to_nat r) (ngx_sprintf_num r' u z h w)).
  { intros. rewrite !sprintf_num_take by lia. apply take_take_min. lia. }
  destruct (sign f); [|by apply H; lia]. destruct (i64 <? 0); [|by apply H; lia].
  replace (Z.to_nat room) with (S (Z.to_nat (room - 1))) by lia. cbn. f_equal. apply H. lia.
Qed.

Lemma copy_loop_take room room' p :
  0 <= room <= room' -> copy_loop room p = take (Z.to_nat room) (copy_loop room' p).
Proof.
  revert room room'. induction p as [|c p IH]; intros room room' Hr; cbn [copy_loop]; [by rewrite take_nil|].
  destruct (c =? 0); cbn [orb]; [by rewrite take_nil|].
  destruct (Z.leb_spec room 0); [by replace (Z.to_nat room) with O by lia|].
  destruct (Z.leb_spec room' 0); [lia|]. rewrite (IH (room - 1) (room' - 1)) by lia.
  by replace (Z.to_nat room) with (S (Z.to_nat (room - 1))) by lia.
Qed.

(** A conversion on less room writes less of the same, and takes the same arguments. *)
Lemma convert_take room room' c f args out args' :
  0 < room <= room' -> convert room' c f args = Some (out, args') ->
  convert room c f args = Some (take (Z.to_nat room) out, args').
Proof.
  intros Hr. assert (Hone : forall x : Z, take (Z.to_nat room) [x] = [x]) by (intros; apply take_ge; cbn; lia).
  unfold convert. repeat case_match; try done; intros [= <- <-]; rewrite ?Hone; try done; f_equal; f_equal.
  - rewrite take_take. f_equal. lia.
  - apply copy_loop_take. lia.
  - rewrite take_take. f_equal. lia.
  - apply put_number_take. lia.
Qed.

Lemma directive_take room room' fmt args out fmt' args' :
  0 < room <= room' -> directive room' fmt args = Some (out, fmt', args') ->
  directive room fmt args = Some (take (Z.to_nat room) out, fmt', args').
Proof.
  intros Hr. unfold directive. destruct (read_width 0 fmt) as [w fmt1].
  destruct (read_flags _ _ _) as [[[fmt2 f] args2]|]; cbn [mbind option_bind]; [|done].
  destruct (convert room' _ _ _) as [[out' args3]|] eqn:E; cbn [mbind option_bind]; [|done].
  intros [= <- <- <-]. by rewrite (convert_take _ _ _ _ _ _ _ Hr E).
Qed.

Lemma vslprintf_no_room fuel room fmt args : room <= 0 -> vslprintf fuel room fmt args = Some [].
Proof.
  intros H. destruct fuel as [|fuel], fmt as [|c fmt]; cbn [vslprintf]; try done.
  by rewrite (proj2 (Z.leb_le room 0) H), orb_true_r.
Qed.

Lemma vslprintf_take fuel room room' fmt args out :
  0 <= room <= room' -> vslprintf fuel room' fmt args = Some out ->
  vslprintf fuel room fmt args = Some (take (Z.to_nat room) out).
Proof.
  revert room room' fmt args out. induction fuel as [|fuel IH]; intros room room' fmt args out Hr; cbn [vslprintf].
  { intros [= <-]. by rewrite take_nil. }
  destruct fmt as [|c fmt]; [intros [= <-]; by rewrite take_nil|].
  destruct (Z.eqb_spec c 0) as [Hc|Hc]; cbn [orb]; [intros [= <-]; by rewrite take_nil|].
  destruct (Z.leb_spec room 0) as [H0|H0].
  { intros _. by replace (Z.to_nat room) with O by lia. }
  destruct (Z.leb_spec room' 0); [lia|]. destruct (c =? "%").
  - destruct (directive room' fmt args) as [[[o fmt'] args']|] eqn:E; cbn [mbind option_bind]; [|done].
    rewrite (directive_take room room' _ _ _ _ _ ltac:(lia) E). cbn [mbind option_bind].
    destruct (vslprintf fuel (room' - zlen o) fmt' args') as [rest|] eqn:E2; cbn [mbind option_bind]; [|done].
    intros [= <-]. rewrite take_app.
    assert (Hz : zlen (take (Z.to_nat room) o) = Z.min room (zlen o)) by (unfold zlen; rewrite length_take; lia).
    rewrite Hz. destruct (Z.le_gt_cases (zlen o) room) as [Hle|Hgt].
    + rewrite Z.min_r by lia. rewrite (IH (room - zlen o) (room' - zlen o) _ _ _ ltac:(lia) E2). cbn.
      do 3 f_equal. unfold zlen. lia.
    + rewrite Z.min_l, vslprintf_no_room by lia. cbn. do 2 f_equal.
      replace (Z.to_nat room - length o)%nat with O by (unfold zlen in Hgt; lia). done.
  - destruct (vslprintf fuel (room' - 1) fmt args) as [rest|] eqn:E2; cbn [mbind option_bind]; [|done].
    intros [= <-]. rewrite (IH (room - 1) (room' - 1) _ _ _ ltac:(lia) E2). cbn.
    replace (Z.to_nat room) with (S (Z.to_nat (room - 1))) by lia. done.
Qed.

(** Fuel. *)
Lemma directive_length room fmt args out fmt' args' :
  directive room fmt args = Some (out, fmt', args') -> (length fmt' <= length fmt)%nat.
Proof.
  unfold directive. destruct (read_width 0 fmt) as [w fmt1] eqn:E1.
  pose proof (read_width_length 0 fmt) as H1. rewrite E1 in H1. cbn in H1.
  destruct (read_flags _ _ _) as [[[fmt2 f] args2]|] eqn:E2; cbn [mbind option_bind]; [|done].
  apply read_flags_length in E2.
  destruct (convert room _ _ _) as [[out' args3]|]; cbn [mbind option_bind]; [|done].
  intros [= <- <- <-]. unfold next_. destruct fmt2; cbn in *; lia.
Qed.

Lemma vslprintf_fuel fuel fuel' room fmt args :
  (length fmt <= fuel)%nat -> (length fmt <= fuel')%nat ->
  vslprintf fuel room fmt args = vslprintf fuel' room fmt args.
Proof.
  revert fuel' room fmt args. induction fuel as [|fuel IH]; intros fuel' room fmt args H1 H2.
  { destruct fmt; [|cbn in H1; lia]. by destruct fuel'. }
  destruct fmt as [|c fmt]; [by destruct fuel'|]. destruct fuel' as [|fuel']; [cbn in H2; lia|].
  cbn [length] in *. cbn [vslprintf]. destruct (_ || _); [done|]. destruct (c =? "%").
  - destruct (directive room fmt args) as [[[o fmt'] args']|] eqn:E; cbn [mbind option_bind]; [|done].
    apply directive_length in E. by rewrite (IH fuel') by lia.
  - by rewrite (IH fuel') by lia.
Qed.

(** C40: [ngx_vslprintf] never writes past the end it is given, whatever the format and
    the arguments: on less room it writes the beginning of what it writes on more, cut at
    any byte, numbers and strings included.  The output is that of the loop of the code:
    the characters of the format, with the directives replaced. *)
Theorem vslprintf_truncates (room room' : Z) (fmt : bytes) (args : list arg) (out : bytes) :
  0 <= room <= room' -> ngx_vslprintf room' fmt args = Some out ->
  ngx_vslprintf room fmt args = Some (take (Z.to_nat room) out) /\
  (zlen out <= room' /\
   (forall c fmt', fmt = c :: fmt' -> c <> 0 -> 0 < room' ->
    Some out =
      if c =? "%" then
        '(o, fmt, args) ← directive room' fmt' args;
        rest ← ngx_vslprintf (room' - zlen o) fmt args; Some (o ++ rest)
      else rest ← ngx_vslprintf (room' - 1) fmt' args; Some (c :: rest))).
Proof.
  unfold ngx_vslprintf. intros Hr Ho. split_and!.
  - by apply (vslprintf_take _ _ room').
  - pose proof (vslprintf_take _ room' room' _ _ _ ltac:(lia) Ho) as H. rewrite Ho in H.
    injection H as H. rewrite H. unfold zlen. rewrite length_take. lia.
  - intros c fmt' -> Hc Hp. rewrite <- Ho. cbn [length vslprintf].
    rewrite (proj2 (Z.eqb_neq c 0) Hc), (proj2 (Z.leb_gt room' 0) Hp). cbn [orb].
    destruct (c =? "%"); [|done].
    destruct (directive room' fmt' args) as [[[o fmt2] args2]|] eqn:E; cbn [mbind option_bind]; [|done].
    apply directive_length in E. by rewrite (vslprintf_fuel (length fmt') (length fmt2)) by lia.
Qed.

Definition sample_args : list arg := [A_int 7; A_ptr (bs "abc" ++ [0]); A_int (-12); A_str (bs "xyz")].
Definition sample_fmt : bytes := bs "%02d %s|%4d|%V".

Lemma vslprintf_truncates_witness :
  ngx_vslprintf 100 sample_fmt sample_args = Some (bs "07 abc|-  12|xyz") /\
  ngx_vslprintf 9 sample_fmt sample_args = Some (bs "07 abc|- ").
Proof.
  split; [by vm_compute|].
  by apply (vslprintf_truncates 9 100 sample_fmt sample_args (bs "07 abc|-  12|xyz")); [lia|vm_compute].
Defined.

(** A format that ends in a percent sign is read past its end. *)
Example format_ends_early : ngx_vslprintf 100 (bs "100%") [] = None.
Proof. by vm_compute. Qed.
