(* ===== verification/Times.v ===== *)
(** Dates: [ngx_gmtime], [ngx_http_time] and [ngx_http_cookie_time] of
    src/core/ngx_times.c, and [ngx_http_parse_time] of src/http/ngx_http_parse_time.c. *)
From S2P Require Import Prelude HashKey CString Numbers Sprintf.

(** ** From seconds to a date *)

(** [ngx_tm_t], the [struct tm] of the C library; its members are [int]. *)
Record ngx_tm_t := mk_tm {
  tm_sec : Z; tm_min : Z; tm_hour : Z; tm_mday : Z; tm_mon : Z; tm_year : Z; tm_wday : Z
}.

(** [leap], a number in the code. *)
Definition leap (year : Z) : bool :=
  (year mod 4 =? 0) && (negb (year mod 100 =? 0) || (year mod 400 =? 0)).

(** The widths below are those of the declarations: [n], [sec], [min], [hour], [mday], [mon],
    [year], [wday] and [days] are [ngx_uint_t] (64 bits, wrapping), [yday] is [ngx_int_t], and
    an operation on both is unsigned. *)

(** The year that begins on March 1 and the day in it, of the [days] since March 1, 1 BC. *)
Definition gauss_year (days : Z) : Z * Z :=
  let year := u64 (u64 (days + 2) * 400) / (365 * 400 + 100 - 4 + 1) in
  let yday := s64 (u64 (days - u64 (365 * year + year / 4 - year / 100 + year / 400))) in
  if yday <? 0
  then (u64 (year - 1), s64 (u64 (365 + (if leap year then 1 else 0) + yday)))
  else (year, yday).

(** The year, the month and the day in it. *)
Definition gauss_date (year yday : Z) : Z * Z * Z :=
  let mon := u64 (Z.quot (s64 (s64 (yday + 31) * 10)) 306) in
  let mday := u64 (yday - u64 (u64 (367 * mon) / 12 - 30) + 1) in
  if 306 <=? yday then (u64 (year + 1), u64 (mon - 10), mday) else (year, u64 (mon + 2), mday).

(** The members of the result are [int]s. *)
Definition ngx_gmtime (t : Z) : ngx_tm_t :=
  let n := u64 t in
  let days := n / 86400 in
  let wday := u64 (4 + days) mod 7 in
  let n := n mod 86400 in
  let hour := n / 3600 in
  let n := n mod 3600 in
  let min := n / 60 in
  let sec := n mod 60 in
  let days := u64 (days - (31 + 28) + 719527) in
  let '(year, yday) := gauss_year days in
  let '(year, mon, mday) := gauss_date year yday in
  mk_tm (s32 sec) (s32 min) (s32 hour) (s32 mday) (s32 mon) (s32 year) (s32 wday).

(** ** From a date to text *)

Definition week : list bytes :=
  [bs "Sun"; bs "Mon"; bs "Tue"; bs "Wed"; bs "Thu"; bs "Fri"; bs "Sat"].
Definition months : list bytes :=
  [bs "Jan"; bs "Feb"; bs "Mar"; bs "Apr"; bs "May"; bs "Jun";
   bs "Jul"; bs "Aug"; bs "Sep"; bs "Oct"; bs "Nov"; bs "Dec"].

(** A string of an array: the pointer to its characters and the NUL. *)
Definition name_of (a : list bytes) (i : Z) : arg := A_ptr (default [] (a !! Z.to_nat i) ++ [0]).

(** The end for [ngx_sprintf] is the last address. *)
Definition ngx_sprintf (buf : Z) (fmt : bytes) (args : list arg) : option bytes :=
  ngx_vslprintf (2 ^ 64 - 1 - buf) fmt args.

Definition ngx_http_time (buf t : Z) : option bytes :=
  let tm := ngx_gmtime t in
  ngx_sprintf buf (bs "%s, %02d %s %4d %02d:%02d:%02d GMT")
    [name_of week (tm_wday tm); A_int (tm_mday tm); name_of months (tm_mon tm - 1);
     A_int (tm_year tm); A_int (tm_hour tm); A_int (tm_min tm); A_int (tm_sec tm)].

Definition ngx_http_cookie_time (buf t : Z) : option bytes :=
  let tm := ngx_gmtime t in
  ngx_sprintf buf
    (if 2037 <? tm_year tm then bs "%s, %02d-%s-%d %02d:%02d:%02d GMT"
     else bs "%s, %02d-%s-%02d %02d:%02d:%02d GMT")
    [name_of week (tm_wday tm); A_int (tm_mday tm); name_of months (tm_mon tm - 1);
     A_int (if 2037 <? tm_year tm then tm_year tm else tm_year tm mod 100);
     A_int (tm_hour tm); A_int (tm_min tm); A_int (tm_sec tm)].

(** ** From text to seconds *)

Section Parse.
Context (value : bytes).

(** The character at [p]. *)
Definition get (p : Z) : attempt Z := access (rd value p).

Definition get_digit (p : Z) : attempt Z := c ← get p; guard_ (is_digit c);; mret (c - "0").
Definition two_digits (p : Z) : attempt Z := a ← get_digit p; b ← get_digit (p + 1); mret (a * 10 + b).
Definition four_digits (p : Z) : attempt Z :=
  a ← get_digit p; b ← get_digit (p + 1); c ← get_digit (p + 2); d ← get_digit (p + 3);
  mret (a * 1000 + b * 100 + c * 10 + d).
Definition expect (p ch : Z) : attempt unit := c ← get p; guard_ (c =? ch).
End Parse.

Inductive date_fmt := no | rfc822 | rfc850 | isoc.
#[export] Instance date_fmt_eq_dec : EqDecision date_fmt.
Proof. solve_decision. Defined.
Definition is_isoc (f : date_fmt) : bool := match f with isoc => true | _ => false end.

(** The first loop: where it stops. *)
Fixpoint first_separator (l : bytes) (p : Z) : Z * date_fmt :=
  match l with
  | [] => (p, no)
  | c :: l => if c =? "," then (p, no) else if c =? " " then (p, isoc) else first_separator l (p + 1)
  end.
(** The second loop. *)
Fixpoint skip_blanks (l : bytes) (p : Z) : Z :=
  match l with [] => p | c :: l => if c =? " " then skip_blanks l (p + 1) else p end.

Section Time.
Context (value : bytes).
Let end_ : Z := zlen value.

Definition month_at (p : Z) : attempt Z :=
  c ← get value p;
  if c =? "J" then
    c ← get value (p + 1);
    if c =? "a" then mret 0 else (c ← get value (p + 2); mret (if c =? "n" then 5 else 6))
  else if c =? "F" then mret 1
  else if c =? "M" then c ← get value (p + 2); mret (if c =? "r" then 2 else 4)
  else if c =? "A" then c ← get value (p + 1); mret (if c =? "p" then 3 else 7)
  else if c =? "S" then mret 8
  else if c =? "O" then mret 9
  else if c =? "N" then mret 10
  else if c =? "D" then mret 11
  else error.

(** The day before the month, in the two first formats: the format, the day and [p]. *)
Definition day_first (p : Z) : attempt (date_fmt * Z * Z) :=
  day ← two_digits value p;
  let p := p + 2 in
  c ← get value p;
  if c =? " " then guard_ (negb (end_ - p <? 18));; mret (rfc822, day, p + 1)
  else if c =? "-" then mret (rfc850, day, p + 1)
  else error.

(** The day after the month, in the third format. *)
Definition day_second (p : Z) : attempt (Z * Z) :=
  c ← get value p;
  let p := if c =? " " then p + 1 else p in
  day ← get_digit value p;
  let p := p + 1 in
  c ← get value p;
  '(day, p) ← (if negb (c =? " ") then d ← get_digit value p; mret (day * 10 + d, p + 1)
               else mret (day, p));
  guard_ (negb (end_ - p <? 14));;
  mret (day, p).

(** The year, before the time of the day in the two first formats. *)
Definition year_first (fmt : date_fmt) (p : Z) : attempt (Z * Z) :=
  match fmt with
  | rfc822 => year ← four_digits value p; mret (year, p + 4)
  | _ => year ← two_digits value p; mret (year + (if year <? 70 then 2000 else 1900), p + 2)
  end.

(** From the space before the hour: the hour, the minute, the second and the place of the
    second. *)
Definition time_of_day (p : Z) : attempt (Z * Z * Z * Z) :=
  expect value p " ";;
  hour ← two_digits value (p + 1);
  expect value (p + 3) ":";;
  min ← two_digits value (p + 4);
  expect value (p + 6) ":";;
  sec ← two_digits value (p + 7);
  mret (hour, min, sec, p + 7).

Definition mday : list Z := [31; 28; 31; 30; 31; 30; 31; 31; 30; 31; 30; 31].

(** The checks of the date. *)
Definition date_ok (day month year hour min sec : Z) : bool :=
  negb ((23 <? hour) || (59 <? min) || (59 <? sec)) &&
  (if (day =? 29) && (month =? 1)
   then negb (negb (Z.land year 3 =? 0) || ((year mod 100 =? 0) && negb (year mod 400 =? 0)))
   else day <=? default 0 (mday !! Z.to_nat month)).

(** Gauss' formula for the days, in seconds, as [uint64_t] and as [time_t]. *)
Definition gauss_time (day month year hour min sec : Z) : Z :=
  let month := month - 1 in
  let '(month, year) := if month <=? 0 then (month + 12, u64 (year - 1)) else (month, year) in
  s64 (u64 (u64 (365 * year + year / 4 - year / 100 + year / 400
                 + 367 * month / 12 - 30 + day - 1 - 719527 + 31 + 28) * 86400
            + hour * 3600 + min * 60 + sec)).

(** From the end of the second loop on. *)
Definition parse_date (p : Z) (fmt : date_fmt) : attempt Z :=
  guard_ (negb (end_ - p <? 18));;
  '(fmt, day, p) ← (if is_isoc fmt then mret (isoc, 0, p) else day_first p);
  month ← month_at p;
  let p := p + 3 in
  (match fmt with
   | rfc822 => expect value p " "
   | rfc850 => expect value p "-"
   | _ => mret tt
   end);;
  let p := p + 1 in
  '(year, p) ← (if is_isoc fmt then mret (0, p) else year_first fmt p);
  '(day, p) ← (if is_isoc fmt then day_second p else mret (day, p));
  '(hour, min, sec, p) ← time_of_day p;
  year ← (if is_isoc fmt then expect value (p + 2) " ";; four_digits value (p + 3) else mret year);
  guard_ (date_ok day month year hour min sec);;
  mret (gauss_time day month year hour min sec).

Definition parse_fields : attempt Z :=
  let '(p, fmt) := first_separator value 0 in
  let p := skip_blanks (drop (Z.to_nat (p + 1)) value) (p + 1) in
  parse_date p fmt.

(** [None]: the code reads outside of the [len] bytes of [value]. *)
Definition ngx_http_parse_time : option Z :=
  r ← parse_fields; Some (default NGX_ERROR r).
End Time.

Example parse_time_1 :
  ngx_http_parse_time (bs "Sun, 06 Nov 1994 08:49:37 GMT") = Some 784111777 /\
  ngx_http_parse_time (bs "Sunday, 06-Nov-94 08:49:37 GMT") = Some 784111777 /\
  ngx_http_parse_time (bs "Sun Nov  6 08:49:37 1994") = Some 784111777 /\
  ngx_http_parse_time (bs "Sun, 29 Feb 2100 08:49:37 GMT") = Some NGX_ERROR /\
  ngx_http_time 0 784111777 = Some (bs "Sun, 06 Nov 1994 08:49:37 GMT") /\
  ngx_http_cookie_time 0 784111777 = Some (bs "Sun, 06-Nov-94 08:49:37 GMT").
Proof. by vm_compute. Qed.
