(* ===== verification/Calendar.v ===== *)
(** The calendar, and that [ngx_gmtime] computes it. *)
From S2P Require Import Prelude HashKey CString Numbers Sprintf Times.

(** ** The Gregorian calendar *)

Definition year_days (y : Z) : Z := if leap y then 366 else 365.
Definition month_days (y m : Z) : Z :=
  if (m =? 2) && leap y then 29 else default 0 (mday !! Z.to_nat (m - 1)).

(** The days of the first years from the year 0 on (the calendar is extended to the past, with
    a year 0 before the year 1), and of the first months of a year. *)
Fixpoint days_of_years (n : nat) : Z :=
  match n with O => 0 | S n => days_of_years n + year_days (Z.of_nat n) end.
Fixpoint days_of_months (y : Z) (n : nat) : Z :=
  match n with O => 0 | S n => days_of_months y n + month_days y (1 + Z.of_nat n) end.

(** The days before January 1 of a year. *)
Definition days_before (y : Z) : Z := days_of_years (Z.to_nat y).

(** The days from January 1, 1970, negative before. *)
Definition date_days (y m d : Z) : Z :=
  days_before y - days_before 1970 + days_of_months y (Z.to_nat (m - 1)) + (d - 1).

Definition valid_date (y m d : Z) : Prop := 0 <= y /\ 1 <= m <= 12 /\ 1 <= d <= month_days y m.
Definition valid_time (h mi s : Z) : Prop := 0 <= h < 24 /\ 0 <= mi < 60 /\ 0 <= s < 60.
Definition date_seconds (y m d h mi s : Z) : Z := date_days y m d * 86400 + h * 3600 + mi * 60 + s.

(** ** Gauss' formula *)

Definition gauss (y : Z) : Z := 365 * y + y / 4 - y / 100 + y / 400.

(** The year that begins in March, and the month in it, of a month. *)
Definition march_year (y m : Z) : Z := if m <=? 2 then y - 1 else y.
Definition march_month (m : Z) : Z := if m <=? 2 then m + 10 else m - 2.

Lemma leap_spec y :
  leap y = true <-> y mod 4 = 0 /\ (y mod 100 <> 0 \/ y mod 400 = 0).
Proof. unfold leap. rewrite andb_true_iff, orb_true_iff, negb_true_iff, !Z.eqb_eq, Z.eqb_neq. done. Qed.

Lemma div_step k y : 0 < k -> y / k = (y - 1) / k + (if y mod k =? 0 then 1 else 0).
Proof.
  intros Hk. pose proof (Z.div_mod y k ltac:(lia)). pose proof (Z.mod_pos_bound y k Hk).
  destruct (Z.eqb_spec (y mod k) 0) as [E|E].
  - assert ((y - 1) / k = y / k - 1); [|lia].
    symmetry. apply (Z.div_unique _ _ _ (k - 1)); [lia|]. rewrite E in H. lia.
  - rewrite Z.add_0_r. apply (Z.div_unique _ _ _ (y mod k - 1)); lia.
Qed.

Lemma gauss_step y : gauss y = gauss (y - 1) + year_days y.
Proof.
  unfold gauss, year_days. rewrite (div_step 4 y), (div_step 100 y), (div_step 400 y) by lia.
  pose proof (leap_spec y) as H. destruct (leap y).
  - destruct H as [[H1 H2] _]; [done|]. destruct (Z.eqb_spec (y mod 4) 0); [|done].
    destruct (Z.eqb_spec (y mod 100) 0), (Z.eqb_spec (y mod 400) 0); try lia.
    exfalso. apply n. clear -e0. dlia.
  - assert (Hn : ~ (y mod 4 = 0 /\ (y mod 100 <> 0 \/ y mod 400 = 0))) by (intros Hc; by apply H in Hc).
    destruct (Z.eqb_spec (y mod 4) 0), (Z.eqb_spec (y mod 100) 0), (Z.eqb_spec (y mod 400) 0); try lia;
      exfalso; clear H Hn; dlia.
Qed.

Lemma days_of_years_gauss n : days_of_years n = gauss (Z.of_nat n - 1) - gauss (-1).
Proof.
  induction n as [|n IH]; [done|]. cbn [days_of_years]. rewrite IH.
  replace (Z.of_nat (S n) - 1) with (Z.of_nat n) by lia. pose proof (gauss_step (Z.of_nat n)). lia.
Qed.

Lemma days_before_gauss y : 0 <= y -> days_before y = gauss (y - 1) + 366.
Proof. intros. unfold days_before. rewrite days_of_years_gauss, Z2Nat.id by done. done. Qed.

Fixpoint months_before (b : bool) (n : nat) : Z :=
  match n with
  | O => 0
  | S n => months_before b n +
           (if (1 + Z.of_nat n =? 2) && b then 29 else default 0 (mday !! Z.to_nat (1 + Z.of_nat n - 1)))
  end.

Lemma days_of_months_before y n : days_of_months y n = months_before (leap y) n.
Proof. induction n as [|n IH]; [done|]. cbn [days_of_months months_before]. by rewrite IH. Qed.

Lemma months_before_gauss (b : bool) m :
  1 <= m <= 12 ->
  months_before b (Z.to_nat (m - 1)) =
  (if m <=? 2 then 0 else if b then 366 else 365) + (367 * march_month m / 12 - 30) - 306.
Proof.
  intros Hm. set (f := fun m => bool_decide (forall b : bool,
    months_before b (Z.to_nat (m - 1)) =
    (if m <=? 2 then 0 else if b then 366 else 365) + (367 * march_month m / 12 - 30) - 306)).
  assert (Hf : forallb (fun i => f (1 + Z.of_nat i)) (seq 0 12) = true) by by vm_compute.
  rewrite forallb_forall in Hf. specialize (Hf (Z.to_nat (m - 1)) ltac:(apply in_seq; lia)).
  replace (1 + Z.of_nat (Z.to_nat (m - 1))) with m in Hf by lia.
  by apply bool_decide_eq_true in Hf.
Qed.

(** The formula gives the days of the calendar. *)
Lemma date_days_gauss y m d :
  0 <= y -> 1 <= m <= 12 ->
  date_days y m d =
  gauss (march_year y m) + (367 * march_month m / 12 - 30) + d - 1 - 719527 + 31 + 28.
Proof.
  intros Hy Hm. unfold date_days. rewrite !days_before_gauss by lia.
  change (gauss (1970 - 1)) with 719162.
  rewrite days_of_months_before, months_before_gauss by done. unfold march_year.
  pose proof (gauss_step y) as Hg. unfold year_days in Hg.
  destruct (m <=? 2), (leap y); lia.
Qed.

(** ** The widths *)

Lemma s64_u64 z : s64 (u64 z) = s64 z.
Proof. unfold s64, u64. by rewrite Zplus_mod_idemp_l. Qed.

Lemma s32_id z : - 2 ^ 31 <= z < 2 ^ 31 -> s32 z = z.
Proof. intros. unfold s32. rewrite Z.mod_small; lia. Qed.

(** ** The year of a day *)

Definition CYCLE : Z := 365 * 400 + 100 - 4 + 1.

Lemma div_shift k c q z : 0 < k -> (k * c * q + z) / k = c * q + z / k.
Proof. intros Hk. replace (k * c * q + z) with (z + c * q * k) by ring. rewrite Z.div_add by lia. lia. Qed.
Lemma mod_shift k c q z : 0 < k -> (k * c * q + z) mod k = z mod k.
Proof. intros Hk. replace (k * c * q + z) with (z + c * q * k) by ring. by rewrite Z.mod_add by lia. Qed.

Lemma gauss_shift q z : gauss (400 * q + z) = CYCLE * q + gauss z.
Proof.
  unfold gauss, CYCLE.
  replace ((400 * q + z) / 4) with (100 * q + z / 4) by (rewrite <- (div_shift 4 100) by lia; f_equal; ring).
  replace ((400 * q + z) / 100) with (4 * q + z / 100) by (rewrite <- (div_shift 100 4) by lia; f_equal; ring).
  replace ((400 * q + z) / 400) with (1 * q + z / 400) by (rewrite <- (div_shift 400 1) by lia; f_equal; ring).
  lia.
Qed.

Lemma leap_shift q z : leap (400 * q + z) = leap z.
Proof.
  unfold leap.
  replace ((400 * q + z) mod 4) with (z mod 4) by (rewrite <- (mod_shift 4 100 q) by lia; f_equal; ring).
  replace ((400 * q + z) mod 100) with (z mod 100) by (rewrite <- (mod_shift 100 4 q) by lia; f_equal; ring).
  replace ((400 * q + z) mod 400) with (z mod 400) by (rewrite <- (mod_shift 400 1 q) by lia; f_equal; ring).
  done.
Qed.

(** The year that the quotient gives for a day of the first cycle. *)
Definition year_guess (r : Z) : Z := (r + 2) * 400 / CYCLE.

Lemma year_guess_mono r r' : r <= r' -> year_guess r <= year_guess r'.
Proof. intros. apply Z.div_le_mono; [done|lia]. Qed.

Lemma year_of_day r : 0 <= r < CYCLE ->
  exists y, 0 <= y < 400 /\ gauss y <= r < gauss (y + 1) /\ y <= year_guess r <= y + 1.
Proof.
  intros Hr.
  assert (Htab : forallb (fun i => let y := Z.of_nat i in
            (y <=? year_guess (gauss y)) && (year_guess (gauss (y + 1) - 1) <=? y + 1)) (seq 0 400) = true)
    by by vm_compute.
  rewrite forallb_forall in Htab.
  assert (Hex : exists n, (n < 400)%nat /\ gauss (Z.of_nat n) <= r < gauss (Z.of_nat n + 1)).
  { assert (H : forall n, r < gauss (Z.of_nat n) -> exists k, (k < n)%nat /\ gauss (Z.of_nat k) <= r < gauss (Z.of_nat k + 1)).
    { induction n as [|n IH]; intros Hn; [change (gauss (Z.of_nat 0)) with 0 in Hn; lia|].
      destruct (Z.lt_ge_cases r (gauss (Z.of_nat n))) as [Hlt|Hge].
      - destruct (IH Hlt) as (k & Hk & ?). exists k. split; [lia|done].
      - exists n. split; [lia|]. split; [done|]. by replace (Z.of_nat n + 1) with (Z.of_nat (S n)) by lia. }
    apply (H 400%nat). change (gauss (Z.of_nat 400)) with CYCLE. lia. }
  destruct Hex as (n & Hn & Hg). exists (Z.of_nat n). split; [lia|]. split; [done|].
  specialize (Htab n ltac:(apply in_seq; lia)). cbn zeta in Htab.
  pose proof (year_guess_mono (gauss (Z.of_nat n)) r ltac:(lia)).
  pose proof (year_guess_mono r (gauss (Z.of_nat n + 1) - 1) ltac:(lia)). lia.
Qed.

Lemma gauss_year_spec days :
  0 <= days < 2 ^ 54 ->
  exists y, gauss_year days = (y, days - gauss y) /\ gauss y <= days < gauss (y + 1) /\ 0 <= y.
Proof.
  intros Hd. pose proof (Z.div_mod days CYCLE ltac:(done)) as Hq.
  pose proof (Z.mod_pos_bound days CYCLE ltac:(done)) as Hr.
  pose proof (Z.div_pos days CYCLE ltac:(lia) ltac:(done)) as Hq0.
  set (q := days / CYCLE) in *. set (r := days mod CYCLE) in *.
  destruct (year_of_day r Hr) as (y & Hy & Hg & Hguess).
  assert (Hyear : u64 (u64 (days + 2) * 400) / (365 * 400 + 100 - 4 + 1) = 400 * q + year_guess r).
  { rewrite (u64_id (days + 2)), u64_id by lia. unfold year_guess. rewrite Hq.
    replace ((CYCLE * q + r + 2) * 400) with ((r + 2) * 400 + 400 * q * CYCLE) by ring.
    change (365 * 400 + 100 - 4 + 1) with CYCLE. rewrite Z.div_add by done. lia. }
  pose proof (gauss_shift q y) as G0. pose proof (gauss_shift q (y + 1)) as G1.
  exists (400 * q + y). replace (400 * q + y + 1) with (400 * q + (y + 1)) by ring.
  split; [|lia]. unfold gauss_year. rewrite Hyear.
  change (365 * (400 * q + year_guess r) + (400 * q + year_guess r) / 4 - (400 * q + year_guess r) / 100
          + (400 * q + year_guess r) / 400) with (gauss (400 * q + year_guess r)).
  rewrite gauss_shift.
  assert (Hdiff : s64 (u64 (days - u64 (CYCLE * q + gauss (year_guess r)))) = r - gauss (year_guess r) ->
    (let yday := s64 (u64 (days - u64 (CYCLE * q + gauss (year_guess r)))) in
     if yday <? 0
     then (u64 (400 * q + year_guess r - 1),
           s64 (u64 (365 + (if leap (400 * q + year_guess r) then 1 else 0) + yday)))
     else (400 * q + year_guess r, yday)) = (400 * q + y, days - gauss (400 * q + y))).
  { cbv zeta. intros ->. assert (Hc : year_guess r = y \/ year_guess r = y + 1) by lia.
    destruct Hc as [->| ->].
    - rewrite (proj2 (Z.ltb_ge _ _)) by lia. f_equal. lia.
    - pose proof (gauss_step (y + 1)) as Hs. replace (y + 1 - 1) with y in Hs by lia. unfold year_days in Hs.
      rewrite (proj2 (Z.ltb_lt _ _)) by lia. rewrite leap_shift.
      rewrite u64_id, u64_id, s64_id by (unfold CYCLE in *; destruct (leap (y + 1)); lia).
      f_equal; [lia|]. destruct (leap (y + 1)); lia. }
  apply Hdiff. rewrite s64_u64. etransitivity; [apply (s64_wrap _ (r - gauss (year_guess r)))|].
  - unfold u64. rewrite Zminus_mod_idemp_r. f_equal. lia.
  - apply s64_id. pose proof (gauss_step (y + 1)) as Hs. replace (y + 1 - 1) with y in Hs by lia.
    unfold year_days in Hs. assert (Hc : year_guess r = y \/ year_guess r = y + 1) by lia.
    destruct Hc as [->| ->]; destruct (leap (y + 1)); unfold CYCLE in *; lia.
Qed.

(** ** The month of a day *)

(** The days of the year that begins in March, checked one by one: the last one, February
    29, is there in leap years only. *)
Lemma gauss_date_table yday :
  0 <= yday < 366 ->
  exists dy m d, (forall year, 0 <= year < 2 ^ 63 -> gauss_date year yday = (year + dy, m, d)) /\
    1 <= m <= 12 /\ dy = (if m <=? 2 then 1 else 0) /\
    yday = 367 * march_month m / 12 - 30 + d - 1 /\
    1 <= d <= (if (m =? 2) && (yday =? 365) then 29 else default 0 (mday !! Z.to_nat (m - 1))).
Proof.
  intros Hy. destruct (gauss_date 0 yday) as [[dy m] d] eqn:E. exists dy, m, d.
  set (P := fun yday : Z => let '(dy, m, d) := gauss_date 0 yday in
    (1 <=? m) && (m <=? 12) && (dy =? (if m <=? 2 then 1 else 0)) &&
    (yday =? 367 * march_month m / 12 - 30 + d - 1) &&
    (1 <=? d) && (d <=? (if (m =? 2) && (yday =? 365) then 29 else default 0 (mday !! Z.to_nat (m - 1))))).
  assert (H : forallb (fun i => P (Z.of_nat i)) (seq 0 366) = true) by by vm_compute.
  rewrite forallb_forall in H. specialize (H (Z.to_nat yday) ltac:(apply in_seq; lia)).
  rewrite Z2Nat.id in H by lia. unfold P in H. rewrite E, !andb_true_iff in H.
  destruct H as (((((H1 & H2) & H3) & H4) & H5) & H6). split_and!; try lia.
  intros year Hyear. revert E. unfold gauss_date.
  destruct (306 <=? yday); intros E; injection E as <- <- <-; rewrite ?(u64_id (year + 1)) by lia; f_equal; f_equal; lia.
Qed.

Lemma gauss_mono a b : a <= b -> gauss a <= gauss b.
Proof.
  intros H. replace b with (a + Z.of_nat (Z.to_nat (b - a))) by lia. generalize (Z.to_nat (b - a)).
  induction n as [|n IH]; [rewrite Z.add_0_r; lia|]. pose proof (gauss_step (a + Z.of_nat (S n))) as Hs.
  replace (a + Z.of_nat (S n) - 1) with (a + Z.of_nat n) in Hs by lia. unfold year_days in Hs.
  destruct (leap _); lia.
Qed.

Lemma month_table m (d y : Z) :
  1 <= m <= 12 ->
  d <= (if (m =? 2) && (y =? 365) then 29 else default 0 (mday !! Z.to_nat (m - 1))) -> d <= 31.
Proof.
  intros Hm. assert (H : forallb (fun i => default 0 (mday !! i) <=? 31) (seq 0 12) = true) by by vm_compute.
  rewrite forallb_forall in H. specialize (H (Z.to_nat (m - 1)) ltac:(apply in_seq; lia)).
  destruct (_ && _); lia.
Qed.

Lemma days_of_months_nonneg y n : 0 <= days_of_months y n.
Proof.
  induction n as [|n IH]; cbn [days_of_months]; [lia|]. unfold month_days. destruct (_ && _); [lia|].
  destruct (mday !! _) as [x|] eqn:E; cbn; [|lia].
  assert (Forall (fun x => 0 <= x) mday) as Hf by (repeat constructor; lia).
  pose proof (Forall_lookup_1 _ _ _ _ Hf E). cbn in *. lia.
Qed.

Lemma days_of_years_mono n n' : (n <= n')%nat -> days_of_years n <= days_of_years n'.
Proof.
  induction 1 as [|n' _ IH]; [lia|]. cbn [days_of_years]. unfold year_days. destruct (leap _); lia.
Qed.

(** A day is not before the first day of an earlier year. *)
Lemma date_days_year y y' m d : 0 <= y -> y <= y' -> 1 <= d -> date_days y 1 1 <= date_days y' m d.
Proof.
  intros. unfold date_days. pose proof (days_of_months_nonneg y' (Z.to_nat (m - 1))).
  pose proof (days_of_years_mono (Z.to_nat y) (Z.to_nat y') ltac:(lia)).
  unfold days_before. change (Z.to_nat (1 - 1)) with O. cbn [days_of_months]. lia.
Qed.

(** A day is before the first day of a later year. *)
Lemma date_days_before y m d y' : valid_date y m d -> y <= y' -> date_days y m d < date_days (y' + 1) 1 1.
Proof.
  intros (Hy & Hm & Hd) Hle.
  pose proof (date_days_year (y + 1) (y' + 1) 1 1 ltac:(lia) ltac:(lia) ltac:(lia)) as H0.
  enough (date_days y m d < date_days (y + 1) 1 1) by lia. clear H0.
  unfold date_days. change (Z.to_nat (1 - 1)) with O. cbn [days_of_months].
  assert (Hnext : days_before (y + 1) = days_before y + year_days y).
  { unfold days_before. replace (Z.to_nat (y + 1)) with (S (Z.to_nat y)) by lia. cbn [days_of_years].
    by rewrite Z2Nat.id by lia. }
  rewrite Hnext.
  rewrite days_of_months_before. unfold month_days in Hd. unfold year_days.
  set (f := fun m => bool_decide (forall b : bool,
    months_before b (Z.to_nat (m - 1)) + (if (m =? 2) && b then 29 else default 0 (mday !! Z.to_nat (m - 1)))
    <= (if b then 366 else 365))).
  assert (Hf : forallb (fun i => f (1 + Z.of_nat i)) (seq 0 12) = true) by by vm_compute.
  rewrite forallb_forall in Hf. specialize (Hf (Z.to_nat (m - 1)) ltac:(apply in_seq; lia)).
  replace (1 + Z.of_nat (Z.to_nat (m - 1))) with m in Hf by lia.
  apply bool_decide_eq_true in Hf. specialize (Hf (leap y)). lia.
Qed.

Lemma month_days_le y m : 1 <= m <= 12 -> month_days y m <= 31.
Proof.
  intros Hm. unfold month_days. destruct (_ && _); [lia|].
  assert (H : forallb (fun i => default 0 (mday !! i) <=? 31) (seq 0 12) = true) by by vm_compute.
  rewrite forallb_forall in H. specialize (H (Z.to_nat (m - 1)) ltac:(apply in_seq; lia)). lia.
Qed.

(** ** What [ngx_gmtime] computes *)

(** The first second of the year 2^31, the first that is not an [int]. *)
Definition END_OF_INT : Z := 67767976233532800.

(** The date of the day [D], as the two steps of the code find it. *)
Lemma gmtime_day D :
  0 <= D < 2 ^ 48 ->
  exists year m d, (let '(year, yday) := gauss_year (u64 (D - (31 + 28) + 719527)) in gauss_date year yday) = (year, m, d) /\
    1970 <= year /\ valid_date year m d /\ date_days year m d = D.
Proof.
  intros HD. rewrite u64_id by lia.
  destruct (gauss_year_spec (D - (31 + 28) + 719527)) as (y & Hgy & Hg & Hy0); [lia|].
  rewrite Hgy. set (yday := D - (31 + 28) + 719527 - gauss y).
  pose proof (gauss_step (y + 1)) as Hs. replace (y + 1 - 1) with y in Hs by lia. unfold year_days in Hs.
  assert (Hyd : 0 <= yday < if leap (y + 1) then 366 else 365) by (subst yday; lia).
  destruct (gauss_date_table yday) as (dy & m & d & Hdate & Hm & Hdy & Hyday & Hday); [destruct (leap (y + 1)); lia|].
  assert (Hylt : y < 2 ^ 48).
  { destruct (Z.lt_ge_cases y (2 ^ 48)) as [?|Hge]; [done|]. apply gauss_mono in Hge.
    change (gauss (2 ^ 48)) with 102806624181241774 in Hge. lia. }
  rewrite Hdate by lia. exists (y + dy), m, d.
  pose proof (month_table m d yday Hm (proj2 Hday)) as Hd31.
  assert (Hy : 1969 <= y /\ (y = 1969 -> 306 <= yday)).
  { split.
    - destruct (Z.le_gt_cases 1969 y); [done|]. pose proof (gauss_mono (y + 1) 1969 ltac:(lia)) as Hm'.
      change (gauss 1969) with 719162 in Hm'. lia.
    - intros ->. subst yday. change (gauss 1969) with 719162. lia. }
  split; [done|]. split_and!.
  - destruct (Z.leb_spec m 2) as [H2|H2]; subst dy; [lia|]. destruct Hy as [Hy1 Hy2].
    destruct (Z.eq_dec y 1969) as [E|E]; [|lia]. specialize (Hy2 E). exfalso.
    unfold march_month in Hyday. rewrite (proj2 (Z.leb_gt m 2) H2) in Hyday. clear -Hyday Hy2 Hm Hd31. dlia.
  - unfold valid_date, month_days. split_and!; [destruct (m <=? 2); lia|lia|lia|lia|].
    destruct (Z.eqb_spec m 2) as [->|]; cbn [andb] in *; [|lia].
    change (default 0 (mday !! Z.to_nat (2 - 1))) with 28 in *. cbn in Hdy. subst dy.
    destruct (Z.eqb_spec yday 365) as [E|E]; [|destruct (leap (y + 1)); lia].
    destruct (leap (y + 1)); lia.
  - rewrite date_days_gauss by (subst dy; destruct (m <=? 2); lia).
    replace (march_year (y + dy) m) with y by (unfold march_year; subst dy; destruct (m <=? 2); lia). lia.
Qed.

(** A date is before the year [y'] when its day is before January 1. *)
Lemma year_before y m d y' :
  1970 <= y -> valid_date y m d -> 1970 <= y' -> y < y' <-> date_days y m d < date_days y' 1 1.
Proof.
  intros Hy Hv Hy'. destruct Hv as (H0 & Hm & Hd) eqn:E. split; intros H.
  - pose proof (date_days_before y m d (y' - 1) Hv ltac:(lia)) as Hb. by replace (y' - 1 + 1) with y' in Hb by lia.
  - destruct (Z.lt_ge_cases y y') as [?|Hge]; [done|].
    pose proof (date_days_year y' y m d ltac:(lia) Hge ltac:(lia)). lia.
Qed.

Lemma gmtime_all (t : Z) :
  let tm := ngx_gmtime t in
  exists year, tm_year tm = s32 year /\ 1970 <= year /\
    valid_date year (tm_mon tm) (tm_mday tm) /\
    valid_time (tm_hour tm) (tm_min tm) (tm_sec tm) /\
    date_seconds year (tm_mon tm) (tm_mday tm) (tm_hour tm) (tm_min tm) (tm_sec tm) = u64 t /\
    tm_wday tm = (4 + u64 t / 86400) mod 7 /\
    (year < 2 ^ 31 <-> u64 t < END_OF_INT).
Proof.
  unfold ngx_gmtime. assert (Hn : 0 <= u64 t < 2 ^ 64) by by apply Z.mod_pos_bound.
  revert Hn. generalize (u64 t). intros n Hn.
  assert (Hd : 0 <= n / 86400 < 2 ^ 48) by (split; [apply Z.div_pos|apply Z.div_lt_upper_bound]; lia).
  destruct (gmtime_day (n / 86400) Hd) as (year & m & d & E & Hy & Hv & Hdays). revert E.
  destruct (gauss_year _) as [y0 yday]. intros ->. cbv zeta.
  cbn [tm_sec tm_min tm_hour tm_mday tm_mon tm_year tm_wday]. exists year.
  pose proof Hv as (_ & Hm & Hday). pose proof (month_days_le year m Hm).
  rewrite !u64_id by lia. rewrite !(s32_id m), !(s32_id d) by lia.
  rewrite !(s32_id (n mod 86400 / 3600)), !(s32_id (n mod 86400 mod 3600 / 60)),
    !(s32_id (n mod 86400 mod 3600 mod 60)), (s32_id ((4 + n / 86400) mod 7)) by (clear; dlia).
  split_and!; [done|done|done|unfold valid_time; clear; dlia|unfold date_seconds; rewrite Hdays; clear; dlia|done|].
  rewrite (year_before year m d (2 ^ 31)), Hdays by (done || lia).
  rewrite date_days_gauss by lia. change (gauss (march_year (2 ^ 31) 1)) with 784352295939.
  change (367 * march_month 1 / 12 - 30) with 306. unfold END_OF_INT. clear. dlia.
Qed.

Lemma gmtime_date (t : Z) :
  0 <= t < END_OF_INT ->
  let tm := ngx_gmtime t in
  1970 <= tm_year tm /\ valid_date (tm_year tm) (tm_mon tm) (tm_mday tm) /\
  valid_time (tm_hour tm) (tm_min tm) (tm_sec tm) /\
  date_seconds (tm_year tm) (tm_mon tm) (tm_mday tm) (tm_hour tm) (tm_min tm) (tm_sec tm) = t /\
  tm_wday tm = (4 + t / 86400) mod 7.
Proof.
  intros Ht. pose proof (gmtime_all t) as (year & H1 & H2 & H3 & H4 & H5 & H6 & H7).
  unfold END_OF_INT in *. rewrite u64_id in * by lia. cbv zeta.
  rewrite H1, s32_id by (pose proof (proj2 H7 (proj2 Ht)); lia). done.
Qed.

(** C37: [ngx_gmtime], with the widths of its variables, on every [time_t]: as the number
    [u64 t] of seconds (a negative time is read as unsigned), there is a year such that the
    year, the month and the day make a date of the Gregorian calendar, the time of the day is
    in range, together they are exactly that many seconds after January 1, 1970, and the day
    of the week is counted from that Thursday; the year of the result is this year as an
    [int], the year itself exactly for the times before the year 2^31. *)
Theorem gmtime_spec (t : Z) :
  let tm := ngx_gmtime t in
  exists year, tm_year tm = s32 year /\ 1970 <= year /\
    valid_date year (tm_mon tm) (tm_mday tm) /\
    valid_time (tm_hour tm) (tm_min tm) (tm_sec tm) /\
    date_seconds year (tm_mon tm) (tm_mday tm) (tm_hour tm) (tm_min tm) (tm_sec tm) = u64 t /\
    tm_wday tm = (4 + u64 t / 86400) mod 7 /\
    (tm_year tm = year <-> u64 t < END_OF_INT).
Proof.
  cbv zeta. pose proof (gmtime_all t) as (year & H1 & H2 & H3 & H4 & H5 & H6 & H7). exists year.
  split_and!; try done. rewrite <- H7, H1. split; intros H.
  - assert (Hr : s32 year < 2 ^ 31) by (unfold s32; pose proof (Z.mod_pos_bound (year + 2 ^ 31) (2 ^ 32)); lia). lia.
  - apply s32_id. lia.
Qed.
