(* ===== verification/TimesText.v ===== *)
(** The texts that [ngx_http_time] and [ngx_http_cookie_time] write. *)
From S2P Require Import Prelude HashKey CString Numbers Sprintf Times Calendar.

(** ** What the formats of the dates write *)

Definition digit (d : Z) : Z := "0" + d.
Definition two (n : Z) : bytes := [digit (n / 10); digit (n mod 10)].
Definition four (n : Z) : bytes := two (n / 100) ++ two (n mod 100).

Lemma vslprintf_char fuel room c fmt args out :
  c <> 0 -> c <> "%" -> 0 < room -> vslprintf fuel (room - 1) fmt args = Some out ->
  vslprintf (S fuel) room (c :: fmt) args = Some (c :: out).
Proof.
  intros H0 H1 Hr E. cbn [vslprintf].
  rewrite (proj2 (Z.eqb_neq c 0) H0), (proj2 (Z.eqb_neq c "%") H1), (proj2 (Z.leb_gt room 0) Hr).
  cbn [orb]. by rewrite E.
Qed.

Lemma vslprintf_directive n fuel room fmt fmt' args args' o out :
  0 < room -> directive room fmt args = Some (o, fmt', args') -> zlen o = n ->
  vslprintf fuel (room - n) fmt' args' = Some out ->
  vslprintf (S fuel) room ("%" :: fmt) args = Some (o ++ out).
Proof.
  intros Hr E1 <- E2. cbn [vslprintf]. rewrite (proj2 (Z.leb_gt room 0) Hr). cbn [orb]. cbn -[directive vslprintf].
  rewrite E1. cbn [mbind option_bind]. by rewrite E2.
Qed.

(** What is written on 64 bytes is written on more room too. *)
Lemma sprintf_num_room room ui zero hex width o :
  zlen o <= room -> zlen o < 64 -> ngx_sprintf_num 64 ui zero hex width = o ->
  ngx_sprintf_num room ui zero hex width = o.
Proof.
  pose proof (zlen_nonneg o). intros Hr Hl E. rewrite sprintf_num_take in E |- * by lia.
  set (l := replicate _ _ ++ _) in *. assert (Hl' : (length l < 64)%nat).
  { pose proof (f_equal (@length Z) E) as E'. rewrite length_take in E'. unfold zlen in *. lia. }
  rewrite take_ge in E by lia. subst o. apply take_ge. unfold zlen in *. lia.
Qed.

(** A table for the numbers below [n]. *)
Lemma number_table (f g : Z -> bytes) (n : Z) :
  forallb (fun i => bool_decide (f (Z.of_nat i) = g (Z.of_nat i))) (seq 0 (Z.to_nat n)) = true ->
  forall v, 0 <= v < n -> f v = g v.
Proof.
  intros H v Hv. rewrite forallb_forall in H. specialize (H (Z.to_nat v) ltac:(apply in_seq; lia)).
  apply bool_decide_eq_true in H. by rewrite Z2Nat.id in H by lia.
Qed.

Lemma sprintf_num_four room n width :
  4 <= room -> width <= 4 -> 1000 <= n < 10000 -> ngx_sprintf_num room n " " 0 width = four n.
Proof.
  intros Hr Hw Hn. rewrite sprintf_num_take by lia.
  pose proof (number_table (fun m => num_digits (m + 1000) 0) (fun m => four (m + 1000))
                9000 ltac:(by vm_compute) (n - 1000) ltac:(lia)) as H.
  cbn beta in H. replace (n - 1000 + 1000) with n in H by lia. rewrite H.
  change (zlen (four n)) with 4. replace (Z.to_nat (width - 4)) with O by lia.
  apply take_ge. cbn. lia.
Qed.

Lemma put_number_int room f n :
  sign f = true -> 0 <= n < 2 ^ 31 ->
  put_number room f (s32 n) (u32 n) = ngx_sprintf_num room n (zero f) (hex f) (width f).
Proof.
  intros Hs Hn. unfold put_number. rewrite Hs.
  replace (s32 n) with n by (unfold s32; rewrite Z.mod_small; lia).
  by rewrite (proj2 (Z.ltb_ge n 0)), u64_id by lia.
Qed.

Lemma directive_02d room fmt n args :
  2 <= room -> 0 <= n < 100 ->
  directive room ("0" :: "2" :: "d" :: fmt) (A_int n :: args) = Some (two n, fmt, args).
Proof.
  intros Hr Hn. unfold directive. cbn -[convert]. unfold convert. cbn -[put_number s32 u32].
  rewrite put_number_int by (done || lia). do 3 f_equal.
  apply sprintf_num_room; [done|done|]. revert n Hn.
  apply (number_table (fun n => ngx_sprintf_num 64 n 48 0 2) two 100). by vm_compute.
Qed.

Lemma directive_4d room fmt n args :
  4 <= room -> 1000 <= n < 10000 ->
  directive room ("4" :: "d" :: fmt) (A_int n :: args) = Some (four n, fmt, args).
Proof.
  intros Hr Hn. unfold directive. cbn -[convert]. unfold convert. cbn -[put_number s32 u32].
  rewrite put_number_int by (done || lia). do 3 f_equal. by apply sprintf_num_four.
Qed.

Lemma directive_d room fmt n args :
  4 <= room -> 1000 <= n < 10000 ->
  directive room ("d" :: fmt) (A_int n :: args) = Some (four n, fmt, args).
Proof.
  intros Hr Hn. unfold directive. cbn -[convert]. unfold convert. cbn -[put_number s32 u32].
  rewrite put_number_int by (done || lia). do 3 f_equal. by apply sprintf_num_four.
Qed.

Lemma copy_loop_name room (s : bytes) :
  zlen s <= room -> Forall (fun c => c <> 0) s -> copy_loop room (s ++ [0]) = s.
Proof.
  intros Hl Hs. revert room Hl. induction Hs as [|c s Hc _ IH]; intros room Hl; [done|].
  cbn [app copy_loop]. rewrite zlen_cons in Hl. pose proof (zlen_nonneg s).
  rewrite (proj2 (Z.eqb_neq c 0) Hc), (proj2 (Z.leb_gt room 0)) by lia. cbn [orb]. f_equal. apply IH. lia.
Qed.

Lemma directive_s room fmt s args :
  zlen s <= room -> Forall (fun c => c <> 0) s ->
  directive room ("s" :: fmt) (A_ptr (s ++ [0]) :: args) = Some (s, fmt, args).
Proof. intros Hl Hs. unfold directive. cbn -[copy_loop]. by rewrite copy_loop_name. Qed.

(** One turn of the loop, over the format of a date. *)
Lemma wday_name i : 0 <= i < 7 -> exists a b c, week !! Z.to_nat i = Some [a; b; c] /\
  Forall (fun c => c <> 0 /\ c <> "," /\ c <> " ") [a; b; c].
Proof.
  intros Hi. assert (H : i = 0 \/ i = 1 \/ i = 2 \/ i = 3 \/ i = 4 \/ i = 5 \/ i = 6) by lia.
  destruct_or! H; subst i; do 3 eexists; (split; [reflexivity|]); repeat constructor; done.
Qed.

Lemma month_name i : 0 <= i < 12 -> exists a b c, months !! Z.to_nat i = Some [a; b; c] /\
  Forall (fun c => c <> 0) [a; b; c] /\
  forall value p, rd value p = Some a -> rd value (p + 1) = Some b -> rd value (p + 2) = Some c ->
    month_at value p = mret i.
Proof.
  intros Hi. assert (H : i = 0 \/ i = 1 \/ i = 2 \/ i = 3 \/ i = 4 \/ i = 5 \/ i = 6 \/ i = 7 \/
    i = 8 \/ i = 9 \/ i = 10 \/ i = 11) by lia.
  destruct_or! H; subst i; do 3 eexists; (split; [reflexivity|]);
    (split; [repeat constructor; done|]);
    intros value p E1 E2 E3; unfold month_at, get; rewrite E1, ?E2, ?E3; cbn; rewrite ?E2, ?E3; done.
Qed.

(** ** What is written *)

Ltac put_step :=
  lazymatch goal with
  | |- vslprintf _ _ (37 :: 48 :: _) _ = _ =>
      eapply (vslprintf_directive 2); [lia|apply directive_02d; lia|done|]
  | |- vslprintf _ _ (37 :: 52 :: _) _ = _ =>
      eapply (vslprintf_directive 4); [lia|apply directive_4d; lia|done|]
  | |- vslprintf _ _ (37 :: 100 :: _) _ = _ =>
      eapply (vslprintf_directive 4); [lia|apply directive_d; lia|done|]
  | |- vslprintf _ _ (37 :: 115 :: _) _ = _ =>
      eapply (vslprintf_directive 3); [lia|apply directive_s; [change (zlen _) with 3; lia|done]|done|]
  | |- vslprintf _ _ (_ :: _) _ = _ => apply vslprintf_char; [done|done|lia|]
  | |- vslprintf _ _ [] _ = _ => reflexivity
  end.

(** The day of the week and the month in a text. *)
Definition wday_text (t : Z) : bytes := default [] (week !! Z.to_nat (tm_wday (ngx_gmtime t))).
Definition month_text (t : Z) : bytes := default [] (months !! Z.to_nat (tm_mon (ngx_gmtime t) - 1)).

Definition http_text (t : Z) : bytes :=
  let tm := ngx_gmtime t in
  wday_text t ++ bs ", " ++ two (tm_mday tm) ++ bs " " ++ month_text t ++ bs " " ++
  four (tm_year tm) ++ bs " " ++ two (tm_hour tm) ++ bs ":" ++ two (tm_min tm) ++ bs ":" ++
  two (tm_sec tm) ++ bs " GMT".

Definition cookie_text (t : Z) : bytes :=
  let tm := ngx_gmtime t in
  wday_text t ++ bs ", " ++ two (tm_mday tm) ++ bs "-" ++ month_text t ++ bs "-" ++
  (if 2037 <? tm_year tm then four (tm_year tm) else two (tm_year tm mod 100)) ++ bs " " ++
  two (tm_hour tm) ++ bs ":" ++ two (tm_min tm) ++ bs ":" ++ two (tm_sec tm) ++ bs " GMT".

(** The years that have four digits. *)
Definition END_OF_9999 : Z := 253402300800.
Definition END_OF_2037 : Z := 2145916800.

Lemma tm_bounds t :
  0 <= t < 2 ^ 55 ->
  let tm := ngx_gmtime t in
  1970 <= tm_year tm /\ 1 <= tm_mon tm <= 12 /\ 1 <= tm_mday tm <= 31 /\
  0 <= tm_hour tm < 24 /\ 0 <= tm_min tm < 60 /\ 0 <= tm_sec tm < 60 /\ 0 <= tm_wday tm < 7.
Proof.
  intros Ht. destruct (gmtime_date t ltac:(unfold END_OF_INT; lia)) as (? & (_ & Hm & ? & ?) & (? & ? & ?) & _ & Hw).
  pose proof (month_days_le (tm_year (ngx_gmtime t)) _ Hm).
  pose proof (Z.mod_pos_bound (4 + t / 86400) 7 ltac:(lia)). cbv zeta. rewrite Hw. lia.
Qed.

Lemma tm_year_le t e y :
  0 <= t < e -> e <= 2 ^ 55 -> 1970 <= y -> date_seconds (y + 1) 1 1 0 0 0 = e ->
  tm_year (ngx_gmtime t) <= y.
Proof.
  intros Ht He Hy E. pose proof (gmtime_date t ltac:(unfold END_OF_INT; lia)) as H. revert H. cbv zeta.
  generalize (ngx_gmtime t). intros tm (_ & (H1 & H2 & H3 & _) & Htime & Hs & _).
  destruct (Z.le_gt_cases (tm_year tm) y) as [?|Hgt]; [done|]. exfalso.
  pose proof (date_days_year (y + 1) (tm_year tm) (tm_mon tm) (tm_mday tm) ltac:(lia) ltac:(lia) ltac:(lia)).
  unfold date_seconds, valid_time in *. lia.
Qed.

Lemma tm_year_ge t e y :
  e <= t < 2 ^ 55 -> 0 <= e -> 1970 <= y -> date_seconds (y + 1) 1 1 0 0 0 = e ->
  y < tm_year (ngx_gmtime t).
Proof.
  intros Ht He Hy E. pose proof (gmtime_date t ltac:(unfold END_OF_INT; lia)) as H. revert H. cbv zeta.
  generalize (ngx_gmtime t). intros tm (H0 & (H1 & H2 & H3) & Htime & Hs & _).
  destruct (Z.lt_ge_cases y (tm_year tm)) as [?|Hge]; [done|]. exfalso.
  pose proof (date_days_before (tm_year tm) (tm_mon tm) (tm_mday tm) y ltac:(done) ltac:(lia)).
  unfold date_seconds, valid_time in *. lia.
Qed.

Lemma wday_text_ok t :
  0 <= t < 2 ^ 55 -> exists a b c, wday_text t = [a; b; c] /\
  Forall (fun c => c <> 0 /\ c <> "," /\ c <> " ") [a; b; c].
Proof.
  intros Ht. pose proof (tm_bounds t Ht) as H. cbv zeta in H. unfold wday_text.
  destruct (wday_name (tm_wday (ngx_gmtime t))) as (a & b & c & -> & Hf); [lia|]. by exists a, b, c.
Qed.

Lemma month_text_ok t :
  0 <= t < 2 ^ 55 -> exists a b c, month_text t = [a; b; c] /\ Forall (fun c => c <> 0) [a; b; c] /\
  forall value p, rd value p = Some a -> rd value (p + 1) = Some b -> rd value (p + 2) = Some c ->
    month_at value p = mret (tm_mon (ngx_gmtime t) - 1).
Proof.
  intros Ht. pose proof (tm_bounds t Ht) as H. cbv zeta in H. unfold month_text.
  destruct (month_name (tm_mon (ngx_gmtime t) - 1)) as (a & b & c & -> & Hf & Hm); [lia|]. by exists a, b, c.
Qed.

Lemma http_time_text buf t :
  0 <= t < END_OF_9999 -> 0 <= buf < 2 ^ 64 - 64 -> ngx_http_time buf t = Some (http_text t).
Proof.
  unfold END_OF_9999. intros Ht Hb. pose proof (tm_bounds t ltac:(lia)) as H. cbv zeta in H.
  pose proof (tm_year_le t 253402300800 9999 ltac:(lia) ltac:(lia) ltac:(lia) ltac:(by vm_compute)) as Hy.
  unfold ngx_http_time, http_text. cbv zeta. unfold name_of, ngx_sprintf, ngx_vslprintf.
  fold (wday_text t) (month_text t).
  destruct (wday_text_ok t ltac:(lia)) as (w1 & w2 & w3 & -> & Hw).
  destruct (month_text_ok t ltac:(lia)) as (m1 & m2 & m3 & -> & Hm & _).
  assert (Hw0 : Forall (fun c => c <> 0) [w1; w2; w3]) by (eapply Forall_impl; [exact Hw|]; naive_solver).
  set (room := 2 ^ 64 - 1 - buf). assert (Hroom : 63 <= room) by lia. clearbody room.
  change (bs "%s, %02d %s %4d %02d:%02d:%02d GMT") with
    ["%";"s";",";" ";"%";"0";"2";"d";" ";"%";"s";" ";"%";"4";"d";" ";"%";"0";"2";"d";":";
     "%";"0";"2";"d";":";"%";"0";"2";"d";" ";"G";"M";"T"].
  cbn [length]. etrans; [repeat put_step|reflexivity].
Qed.

Lemma cookie_time_text buf t :
  0 <= t < END_OF_9999 -> 0 <= buf < 2 ^ 64 - 64 -> ngx_http_cookie_time buf t = Some (cookie_text t).
Proof.
  unfold END_OF_9999. intros Ht Hb. pose proof (tm_bounds t ltac:(lia)) as H. cbv zeta in H.
  pose proof (tm_year_le t 253402300800 9999 ltac:(lia) ltac:(lia) ltac:(lia) ltac:(by vm_compute)) as Hy.
  unfold ngx_http_cookie_time, cookie_text. cbv zeta. unfold name_of, ngx_sprintf, ngx_vslprintf.
  fold (wday_text t) (month_text t).
  destruct (wday_text_ok t ltac:(lia)) as (w1 & w2 & w3 & -> & Hw).
  destruct (month_text_ok t ltac:(lia)) as (m1 & m2 & m3 & -> & Hm & _).
  assert (Hw0 : Forall (fun c => c <> 0) [w1; w2; w3]) by (eapply Forall_impl; [exact Hw|]; naive_solver).
  set (room := 2 ^ 64 - 1 - buf). assert (Hroom : 63 <= room) by lia. clearbody room.
  destruct (Z.ltb_spec 2037 (tm_year (ngx_gmtime t))) as [Hlt|Hge].
  - change (bs "%s, %02d-%s-%d %02d:%02d:%02d GMT") with
      ["%";"s";",";" ";"%";"0";"2";"d";"-";"%";"s";"-";"%";"d";" ";"%";"0";"2";"d";":";
       "%";"0";"2";"d";":";"%";"0";"2";"d";" ";"G";"M";"T"].
    cbn [length]. etrans; [repeat put_step|reflexivity].
  - pose proof (Z.mod_pos_bound (tm_year (ngx_gmtime t)) 100 ltac:(lia)).
    change (bs "%s, %02d-%s-%02d %02d:%02d:%02d GMT") with
      ["%";"s";",";" ";"%";"0";"2";"d";"-";"%";"s";"-";"%";"0";"2";"d";" ";"%";"0";"2";"d";":";
       "%";"0";"2";"d";":";"%";"0";"2";"d";" ";"G";"M";"T"].
    cbn [length]. etrans; [repeat put_step|reflexivity].
Qed.
