(* ===== verification/TimesParse.v ===== *)
(** [ngx_http_parse_time] reads back what [ngx_http_time] and [ngx_http_cookie_time] write. *)
From S2P Require Import Prelude HashKey CString Numbers Sprintf Times Calendar TimesText.

(** ** What the parser makes of digits *)

Section Digits.
Context (value : bytes).

Lemma get_digit_ok p d : rd value p = Some (digit d) -> 0 <= d < 10 -> get_digit value p = mret d.
Proof.
  intros E Hd. unfold get_digit, get. rewrite E. cbn. unfold is_digit, digit.
  rewrite (proj2 (Z.leb_le _ _)), (proj2 (Z.leb_le _ _)) by lia. cbn. do 2 f_equal. lia.
Qed.

Lemma two_digits_ok p n :
  0 <= n < 100 -> rd value p = Some (digit (n / 10)) -> rd value (p + 1) = Some (digit (n mod 10)) ->
  two_digits value p = mret n.
Proof.
  intros Hn E1 E2. unfold two_digits.
  rewrite (get_digit_ok p (n / 10)), (get_digit_ok (p + 1) (n mod 10)) by (done || dlia).
  cbn. do 2 f_equal. dlia.
Qed.

Lemma four_digits_ok p n :
  0 <= n < 10000 ->
  rd value p = Some (digit (n / 100 / 10)) -> rd value (p + 1) = Some (digit ((n / 100) mod 10)) ->
  rd value (p + 2) = Some (digit (n mod 100 / 10)) -> rd value (p + 3) = Some (digit (n mod 100 mod 10)) ->
  four_digits value p = mret n.
Proof.
  intros Hn E1 E2 E3 E4. unfold four_digits.
  rewrite (get_digit_ok p _ E1), (get_digit_ok _ _ E2), (get_digit_ok _ _ E3), (get_digit_ok _ _ E4) by dlia.
  cbn. do 2 f_equal. dlia.
Qed.

Lemma expect_ok p ch : rd value p = Some ch -> expect value p ch = mret tt.
Proof. intros E. unfold expect, get. rewrite E. cbn. by rewrite Z.eqb_refl. Qed.
End Digits.

(** ** What is read back *)

(** The test of a leap year, and of the day. *)
Lemma leap_land y : leap y = negb (negb (Z.land y 3 =? 0) || ((y mod 100 =? 0) && negb (y mod 400 =? 0))).
Proof.
  unfold leap. change 3 with (Z.ones 2). rewrite Z.land_ones by lia. change (2 ^ 2) with 4.
  by destruct (y mod 4 =? 0), (y mod 100 =? 0), (y mod 400 =? 0).
Qed.

Lemma date_ok_spec d m y h mi s :
  0 <= d -> 1 <= m <= 12 -> 0 <= h -> 0 <= mi -> 0 <= s ->
  date_ok d (m - 1) y h mi s = true <-> d <= month_days y m /\ valid_time h mi s.
Proof.
  intros Hd Hm Hh Hmi Hs. unfold date_ok, month_days, valid_time. rewrite andb_true_iff, <- leap_land.
  assert (Ht : negb ((23 <? h) || (59 <? mi) || (59 <? s)) = true <-> 0 <= h < 24 /\ 0 <= mi < 60 /\ 0 <= s < 60)
    by (rewrite negb_true_iff, !orb_false_iff, !Z.ltb_ge; lia).
  rewrite Ht. replace (m - 1 =? 1) with (m =? 2) by lia. destruct (Z.eqb_spec m 2) as [->|Hne].
  - rewrite andb_true_r. change (default 0 (mday !! Z.to_nat (2 - 1))) with 28.
    destruct (Z.eqb_spec d 29), (leap y); cbn [andb]; rewrite ?Z.leb_le; intuition (done || lia).
  - rewrite andb_false_r. cbn [andb]. rewrite Z.leb_le. lia.
Qed.

(** The formula of the parser, for the years of the calendar. *)
Lemma u64_mul_add a b c : u64 (u64 a * b + c) = u64 (a * b + c).
Proof.
  unfold u64. rewrite <- (Zplus_mod_idemp_l (a mod 2 ^ 64 * b)), Zmult_mod_idemp_l.
  by rewrite Zplus_mod_idemp_l.
Qed.

Lemma gauss_time_march d m y h mi s :
  0 <= y < 2 ^ 32 -> 1 <= m <= 12 -> (1 <= y \/ 3 <= m) -> 0 <= d <= 31 -> valid_time h mi s ->
  gauss_time d (m - 1) y h mi s =
  (gauss (march_year y m) + (367 * march_month m / 12 - 30) + d - 1 - 719527 + 31 + 28) * 86400
  + h * 3600 + mi * 60 + s.
Proof.
  unfold valid_time. intros Hy Hm Hy1 Hd Ht.
  set (r := (gauss (march_year y m) + (367 * march_month m / 12 - 30) + d - 1 - 719527 + 31 + 28) * 86400
            + h * 3600 + mi * 60 + s).
  assert (Hr : - 2 ^ 63 <= r < 2 ^ 63).
  { subst r. unfold gauss, march_year, march_month. destruct (Z.leb_spec m 2); dlia. }
  assert (E : gauss_time d (m - 1) y h mi s =
              s64 (u64 (u64 (gauss (march_year y m) + 367 * march_month m / 12 - 30 + d - 1 - 719527 + 31 + 28) * 86400
                        + h * 3600 + mi * 60 + s))).
  { unfold gauss_time, march_month, march_year, gauss.
    replace (m - 1 - 1 <=? 0) with (m <=? 2) by lia.
    destruct (Z.leb_spec m 2); [rewrite (u64_id (y - 1)) by lia; by replace (m - 1 - 1 + 12) with (m + 10) by lia|].
    by replace (m - 1 - 1) with (m - 2) by lia. }
  rewrite E, <- !Z.add_assoc, u64_mul_add, s64_u64, <- (s64_id r Hr). f_equal. subst r. lia.
Qed.

Lemma gauss_time_spec d m y h mi s :
  1970 <= y < 2 ^ 32 -> 1 <= m <= 12 -> 0 <= d <= 31 -> valid_time h mi s ->
  gauss_time d (m - 1) y h mi s = date_seconds y m d h mi s.
Proof.
  intros Hy Hm Hd Ht. rewrite gauss_time_march by (done || lia).
  unfold date_seconds. by rewrite date_days_gauss by lia.
Qed.

(** The parser on a date that was written: the checks hold and the formula gives [t]. *)
Lemma parse_checks t :
  0 <= t < END_OF_9999 ->
  let tm := ngx_gmtime t in
  date_ok (tm_mday tm) (tm_mon tm - 1) (tm_year tm) (tm_hour tm) (tm_min tm) (tm_sec tm) = true /\
  gauss_time (tm_mday tm) (tm_mon tm - 1) (tm_year tm) (tm_hour tm) (tm_min tm) (tm_sec tm) = t.
Proof.
  unfold END_OF_9999. intros Ht. pose proof (gmtime_date t ltac:(unfold END_OF_INT; lia)) as H. revert H.
  pose proof (tm_year_le t 253402300800 9999 ltac:(lia) ltac:(lia) ltac:(lia) ltac:(by vm_compute)) as Hle.
  revert Hle. cbv zeta. generalize (ngx_gmtime t). intros [s mi h d m y w].
  cbn [tm_sec tm_min tm_hour tm_mday tm_mon tm_year]. intros Hle (Hy & (_ & Hm & Hd) & (Hh & Hmi & Hs) & Hsec & _). split.
  - apply date_ok_spec; [lia..|]. unfold valid_time. lia.
  - pose proof (month_days_le y m Hm). rewrite <- Hsec. by apply gauss_time_spec; [lia..|].
Qed.

(** The first loops, on a text that begins with the day of the week. *)
Lemma first_separator_name a b c l :
  Forall (fun c => c <> 0 /\ c <> "," /\ c <> " ") [a; b; c] ->
  first_separator (a :: b :: c :: "," :: l) 0 = (3, no).
Proof.
  rewrite !Forall_cons. intros ((_ & H1 & H1') & (_ & H2 & H2') & (_ & H3 & H3') & _). cbn [first_separator].
  by rewrite (proj2 (Z.eqb_neq a _) H1), (proj2 (Z.eqb_neq a _) H1'), (proj2 (Z.eqb_neq b _) H2),
    (proj2 (Z.eqb_neq b _) H2'), (proj2 (Z.eqb_neq c _) H3), (proj2 (Z.eqb_neq c _) H3').
Qed.

Lemma skip_blanks_one n l p : 0 <= n -> skip_blanks (" " :: digit n :: l) p = p + 1.
Proof. intros H. cbn [skip_blanks]. rewrite Z.eqb_refl, (proj2 (Z.eqb_neq _ _)); [done|]. unfold digit. lia. Qed.

(** The time of the day at [p]. *)
Lemma time_of_day_ok value p h mi s :
  0 <= h < 24 -> 0 <= mi < 60 -> 0 <= s < 60 ->
  (forall i c, (bs " " ++ two h ++ bs ":" ++ two mi ++ bs ":" ++ two s) !! i = Some c ->
     rd value (p + Z.of_nat i) = Some c) ->
  time_of_day value p = mret (h, mi, s, p + 7).
Proof.
  intros Hh Hmi Hs Hv. unfold time_of_day.
  rewrite (expect_ok value p " ") by (rewrite <- (Z.add_0_r p); by apply (Hv O)). cbn -[two_digits expect].
  rewrite (two_digits_ok value (p + 1) h) by (lia || by rewrite <- ?Z.add_assoc; first [apply (Hv 1%nat)|apply (Hv 2%nat)]).
  cbn -[two_digits expect]. rewrite (expect_ok value (p + 3) ":") by by apply (Hv 3%nat). cbn -[two_digits expect].
  rewrite (two_digits_ok value (p + 4) mi) by (lia || by rewrite <- ?Z.add_assoc; first [apply (Hv 4%nat)|apply (Hv 5%nat)]).
  cbn -[two_digits expect]. rewrite (expect_ok value (p + 6) ":") by by apply (Hv 6%nat). cbn -[two_digits expect].
  by rewrite (two_digits_ok value (p + 7) s) by (lia || by rewrite <- ?Z.add_assoc; first [apply (Hv 7%nat)|apply (Hv 8%nat)]).
Qed.

(** A text of one of the first two formats, once its parts are known. *)
Lemma parse_fields_run value w1 w2 w3 l fmt sep day d m y p' r :
  value = w1 :: w2 :: w3 :: "," :: " " :: digit d :: l -> 18 <= zlen l -> 0 <= d ->
  Forall (fun c => c <> 0 /\ c <> "," /\ c <> " ") [w1; w2; w3] ->
  (fmt = rfc822 /\ sep = " " \/ fmt = rfc850 /\ sep = "-") ->
  day_first value 5 = mret (fmt, day, 8) -> month_at value 8 = mret m -> expect value 11 sep = mret tt ->
  year_first value fmt 12 = mret (y, p') -> time_of_day value p' = r ->
  parse_fields value = ('(h, mi, s, _) ← r; guard_ (date_ok day m y h mi s);; mret (gauss_time day m y h mi s)).
Proof.
  intros -> Hl Hd Hw Hsep Hday Hmon Hexp Hyear Htime. unfold parse_fields.
  rewrite (first_separator_name _ _ _ _ Hw). cbv zeta.
  replace (skip_blanks (drop (Z.to_nat (3 + 1)) _) (3 + 1)) with 5
    by (symmetry; exact (skip_blanks_one d l 4 Hd)).
  unfold parse_date.
  rewrite (proj2 (Z.ltb_ge _ 18)) by (rewrite !zlen_cons; lia).
  cbn [is_isoc negb guard_].
  destruct Hsep as [[-> ->]|[-> ->]];
    unfold mret, attempt_ret, mbind, attempt_bind in *; rewrite Hday; cbv beta iota; rewrite Hmon;
    change (8 + 3) with 11; rewrite Hexp; cbn [is_isoc]; change (11 + 1) with 12; rewrite Hyear;
    cbv beta iota; rewrite Htime; destruct r as [[[[[h mi] s] p'']|]|]; done.
Qed.

(** A date that was written, as the three records of its numbers. *)
Lemma written_date t :
  0 <= t < END_OF_9999 ->
  let tm := ngx_gmtime t in
  tm_year tm <= 9999 /\ (t < END_OF_2037 -> tm_year tm <= 2037) /\ (END_OF_2037 <= t -> 2037 < tm_year tm).
Proof.
  unfold END_OF_9999, END_OF_2037. intros Ht. cbv zeta. split_and!.
  - apply (tm_year_le t 253402300800); [lia|lia|lia|by vm_compute].
  - intros. apply (tm_year_le t 2145916800); [lia|lia|lia|by vm_compute].
  - intros. apply (tm_year_ge t 2145916800); [lia|lia|lia|by vm_compute].
Qed.

Lemma parse_http_text t :
  0 <= t < END_OF_9999 -> ngx_http_parse_time (http_text t) = Some t.
Proof.
  intros Ht. pose proof (parse_checks t Ht) as Hc. pose proof (written_date t Ht) as Hy. unfold END_OF_9999 in Ht.
  pose proof (tm_bounds t ltac:(lia)) as Hb. revert Hc Hb Hy. unfold http_text. cbv zeta.
  destruct (wday_text_ok t ltac:(lia)) as (w1 & w2 & w3 & -> & Hw).
  destruct (month_text_ok t ltac:(lia)) as (m1 & m2 & m3 & -> & _ & Hm). revert Hm.
  generalize (ngx_gmtime t). intros [s mi h d m y w]. cbn [tm_sec tm_min tm_hour tm_mday tm_mon tm_year tm_wday].
  intros Hm [Hok Hgauss] Hb [Hy _]. set (text := _ ++ _). unfold ngx_http_parse_time.
  rewrite (parse_fields_run text w1 w2 w3 (drop 6 text) rfc822 " " d (d / 10) (m - 1) y 16
             (mret (h, mi, s, 16 + 7))); [|done|by vm_compute|dlia|done|by left| |by apply Hm|by apply expect_ok| |].
  - unfold mbind, attempt_bind, mret, attempt_ret. cbv beta iota. rewrite Hok. cbn. by rewrite Hgauss.
  - unfold day_first. by rewrite (two_digits_ok text 5 d) by (done || lia).
  - unfold year_first. by rewrite (four_digits_ok text 12 y) by (done || lia).
  - apply time_of_day_ok; [lia..|]. intros i c Hi.
    do 9 (destruct i as [|i]; [by injection Hi as <-|]). done.
Qed.

Lemma parse_cookie_text t :
  0 <= t < END_OF_9999 ->
  zlen (cookie_text t) = (if t <? END_OF_2037 then 27 else 29) /\
  ngx_http_parse_time (cookie_text t) = Some (if t <? END_OF_2037 then t else NGX_ERROR).
Proof.
  intros Ht. pose proof (parse_checks t Ht) as Hc. pose proof (written_date t Ht) as Hy. unfold END_OF_9999 in Ht.
  pose proof (tm_bounds t ltac:(lia)) as Hb. revert Hc Hb Hy. unfold cookie_text. cbv zeta.
  destruct (wday_text_ok t ltac:(lia)) as (w1 & w2 & w3 & -> & Hw).
  destruct (month_text_ok t ltac:(lia)) as (m1 & m2 & m3 & -> & _ & Hm). revert Hm.
  generalize (ngx_gmtime t). intros [s mi h d m y w]. cbn [tm_sec tm_min tm_hour tm_mday tm_mon tm_year tm_wday].
  intros Hm [Hok Hgauss] Hb (Hy & Hy1 & Hy2).
  destruct (Z.ltb_spec t END_OF_2037) as [Hlt|Hge].
  - rewrite (proj2 (Z.ltb_ge 2037 y)) by auto. split; [by vm_compute|]. specialize (Hy1 Hlt).
    pose proof (Z.mod_pos_bound y 100 ltac:(lia)) as Hmod.
    set (text := _ ++ _). unfold ngx_http_parse_time.
    rewrite (parse_fields_run text w1 w2 w3 (drop 6 text) rfc850 "-" d (d / 10) (m - 1) y 14
               (mret (h, mi, s, 14 + 7))); [|done|by vm_compute|dlia|done|by right| |by apply Hm|by apply expect_ok| |].
    + unfold mbind, attempt_bind, mret, attempt_ret. cbv beta iota. rewrite Hok. cbn. by rewrite Hgauss.
    + unfold day_first. by rewrite (two_digits_ok text 5 d) by (done || lia).
    + unfold year_first. rewrite (two_digits_ok text 12 (y mod 100)) by (done || lia).
      unfold mbind, attempt_bind, mret, attempt_ret. do 3 f_equal.
      destruct (Z.ltb_spec (y mod 100) 70); clear -H Hy1 Hb; dlia.
    + apply time_of_day_ok; [lia..|]. intros i c Hi.
      do 9 (destruct i as [|i]; [by injection Hi as <-|]). done.
  - rewrite (proj2 (Z.ltb_lt 2037 y)) by auto. split; [by vm_compute|].
    set (text := _ ++ _). unfold ngx_http_parse_time.
    assert (Hy100 : 0 <= y / 100 < 100) by dlia. set (y2 := y / 100 + (if y / 100 <? 70 then 2000 else 1900)).
    rewrite (parse_fields_run text w1 w2 w3 (drop 6 text) rfc850 "-" d (d / 10) (m - 1) y2 14 error);
      [done|done|by vm_compute|dlia|done|by right| |by apply Hm|by apply expect_ok| |].
    + unfold day_first. by rewrite (two_digits_ok text 5 d) by (done || lia).
    + unfold year_first. by rewrite (two_digits_ok text 12 (y / 100)) by (done || lia).
    + unfold time_of_day, expect, get, access. change (rd text 14) with (Some (digit (y mod 100 / 10))). cbn [mbind option_bind attempt_bind].
      replace (digit (y mod 100 / 10) =? " ") with false; [done|]. unfold digit. dlia.
Qed.

(** C38: a date that is written is read back: what [ngx_http_time] writes for a time
    before the year 10000 is 29 bytes that [ngx_http_parse_time] turns into the time again;
    what [ngx_http_cookie_time] writes is 27 bytes until the end of 2037, read back too;
    later it has four digits for the year, which the parser refuses. *)
Theorem time_text_roundtrip (buf t : Z) :
  0 <= t < END_OF_9999 -> 0 <= buf < 2 ^ 64 - 64 ->
  (exists text, ngx_http_time buf t = Some text /\ zlen text = 29 /\ ngx_http_parse_time text = Some t) /\
  exists text, ngx_http_cookie_time buf t = Some text /\
    zlen text = (if t <? END_OF_2037 then 27 else 29) /\
    ngx_http_parse_time text = Some (if t <? END_OF_2037 then t else NGX_ERROR).
Proof.
  intros Ht Hb. split.
  - exists (http_text t). split_and!; [by apply http_time_text| |by apply parse_http_text].
    unfold END_OF_9999 in Ht. unfold http_text.
    destruct (wday_text_ok t ltac:(lia)) as (w1 & w2 & w3 & -> & _).
    destruct (month_text_ok t ltac:(lia)) as (m1 & m2 & m3 & -> & _).
    generalize (ngx_gmtime t). by vm_compute.
  - exists (cookie_text t). split; [by apply cookie_time_text|by apply parse_cookie_text].
Qed.

Lemma time_text_roundtrip_witness :
  exists text, ngx_http_time 4096 784111777 = Some text /\ zlen text = 29 /\
    ngx_http_parse_time text = Some 784111777.
Proof. apply (time_text_roundtrip 4096 784111777); [by vm_compute|lia]. Defined.

(** The day 0 is the last day of the month before. *)
Example parse_time_day_zero :
  ngx_http_parse_time (bs "Sun, 00 Nov 1994 08:49:37 GMT") =
  ngx_http_parse_time (bs "Sun, 31 Oct 1994 08:49:37 GMT").
Proof. by vm_compute. Qed.
