(* ===== verification/DateText.v ===== *)
(** The texts of the dates that [ngx_http_parse_time] accepts, and that it accepts no other. *)
From S2P Require Import Prelude HashKey CString Numbers Sprintf Times Calendar TimesText TimesParse.

(** ** The three formats *)

(** What the parser looks at in the three letters of a month, [?] for any character: the first
    pattern that matches. *)
Definition month_patterns : list (bytes * Z) :=
  [(bs "Ja?", 1); (bs "F??", 2); (bs "M?r", 3); (bs "Ap?", 4); (bs "M??", 5); (bs "J?n", 6);
   (bs "J??", 7); (bs "A??", 8); (bs "S??", 9); (bs "O??", 10); (bs "N??", 11); (bs "D??", 12)].

Fixpoint pattern_matches (pat s : bytes) : bool :=
  match pat, s with
  | [], [] => true
  | q :: pat, c :: s => ((q =? "?") || (q =? c)) && pattern_matches pat s
  | _, _ => false
  end.

Definition month_of (s : bytes) : option Z := snd <$> List.find (fun '(pat, _) => pattern_matches pat s) month_patterns.

(** The names of the months are read as these months. *)
Example month_of_names : month_of <$> months = Some <$> [1; 2; 3; 4; 5; 6; 7; 8; 9; 10; 11; 12].
Proof. by vm_compute. Qed.

Definition two_digit (n : Z) : Prop := 0 <= n < 100.
Definition clock (h mi s : Z) : bytes := bs " " ++ two h ++ bs ":" ++ two mi ++ bs ":" ++ two s.

(** The text of a date after the separator that the first loop finds, and what it shows. *)
Inductive date_text (sep : Z) : bytes -> Z -> Z -> Z -> Z -> Z -> Z -> Prop :=
| in_rfc822 y mon m d h mi s :
    sep = "," -> 0 <= y < 10000 -> month_of mon = Some m ->
    date_text sep (two d ++ bs " " ++ mon ++ bs " " ++ four y ++ clock h mi s) y m d h mi s
| in_rfc850 yy mon m d h mi s :
    sep = "," -> two_digit yy -> month_of mon = Some m ->
    date_text sep (two d ++ bs "-" ++ mon ++ bs "-" ++ two yy ++ clock h mi s)
      ((if yy <? 70 then 2000 else 1900) + yy) m d h mi s
| in_isoc y mon m any blank day d h mi s :
    sep = " " -> 0 <= y < 10000 -> month_of mon = Some m ->
    (blank = [] \/ blank = bs " ") -> (day = two d \/ day = [digit d] /\ d < 10) ->
    date_text sep (mon ++ [any] ++ (blank ++ day) ++ clock h mi s ++ bs " " ++ four y) y m d h mi s.

(** ** What a date is worth *)

(** In January and February of the year 0 the year of the formula wraps to 2^64 - 1, and the
    four quotients add up to 10368 seconds too many. *)
Definition YEAR_0_SHIFT : Z := 10368.
Definition date_value (y m d h mi s : Z) : Z :=
  date_seconds y m d h mi s + (if (y =? 0) && (m <=? 2) then YEAR_0_SHIFT else 0).

(** The text of a value that shows a date: a name without separator, the separator, blanks,
    the date in one of the formats, and anything.  The day of the month may be 0. *)
Definition shows (value : bytes) (t : Z) : Prop :=
  exists name sep blanks text rest y m d h mi s,
    value = name ++ sep :: blanks ++ text ++ rest /\
    Forall (fun c => c <> "," /\ c <> " ") name /\ Forall (fun c => c = " ") blanks /\
    date_text sep text y m d h mi s /\
    0 <= d <= month_days y m /\ valid_time h mi s /\ t = date_value y m d h mi s.

Lemma gauss_time_year_0 d m h mi s :
  1 <= m <= 2 -> 0 <= d <= 31 -> valid_time h mi s ->
  gauss_time d (m - 1) 0 h mi s = date_seconds 0 m d h mi s + YEAR_0_SHIFT.
Proof.
  unfold valid_time, YEAR_0_SHIFT, date_seconds. intros Hm Hd Ht. rewrite date_days_gauss by lia.
  unfold march_year, march_month, gauss_time.
  rewrite (proj2 (Z.leb_le m 2)), (proj2 (Z.leb_le (m - 1 - 1) 0)) by lia.
  change (gauss (0 - 1)) with (-366). change (u64 (0 - 1)) with (2 ^ 64 - 1).
  change ((2 ^ 64 - 1) / 4) with 4611686018427387903. change ((2 ^ 64 - 1) / 100) with 184467440737095516.
  change ((2 ^ 64 - 1) / 400) with 46116860184273879.
  replace (m - 1 - 1 + 12) with (m + 10) by lia.
  assert (Hk : 0 <= 367 * (m + 10) / 12 <= 367) by dlia. revert Hk. generalize (367 * (m + 10) / 12). intros k Hk.
  rewrite <- !Z.add_assoc, u64_mul_add, s64_u64.
  match goal with |- s64 ?a = ?b => rewrite <- (s64_id b) by lia; replace a with (b + 31556952 * 2 ^ 64) by lia end.
  apply s64_wrap. by rewrite Z.mod_add.
Qed.

Lemma gauss_time_value d m y h mi s :
  0 <= y < 10000 -> 1 <= m <= 12 -> 0 <= d <= 31 -> valid_time h mi s ->
  gauss_time d (m - 1) y h mi s = date_value y m d h mi s.
Proof.
  intros Hy Hm Hd Ht. unfold date_value. destruct (Z.eqb_spec y 0) as [->|]; cbn [andb].
  1: destruct (Z.leb_spec m 2); [apply gauss_time_year_0; done || lia|].
  all: rewrite gauss_time_march, Z.add_0_r by (done || lia); unfold date_seconds; by rewrite date_days_gauss by lia.
Qed.

(** ** Texts at a position *)

Definition text_at (value : bytes) (p : Z) (s : bytes) : Prop :=
  forall i c, s !! i = Some c -> rd value (p + Z.of_nat i) = Some c.

Section At.
Context (value : bytes).

Lemma text_at_move p q s : text_at value p s -> p = q -> text_at value q s.
Proof. by intros H <-. Qed.

Lemma text_at_app p s s' : text_at value p (s ++ s') <-> text_at value p s /\ text_at value (p + zlen s) s'.
Proof.
  split.
  - intros H. split; intros i c Hi.
    + apply H. by apply lookup_app_l_Some.
    + replace (p + zlen s + Z.of_nat i) with (p + Z.of_nat (length s + i)) by (unfold zlen; lia).
      apply H. by rewrite lookup_app_r, Nat.add_comm, Nat.add_sub by lia.
  - intros [H1 H2] i c [Hi|[Hl Hi]]%lookup_app_Some; [by apply H1|].
    replace (p + Z.of_nat i) with (p + zlen s + Z.of_nat (i - length s)) by (unfold zlen; lia). by apply H2.
Qed.

Lemma text_at_one p c : text_at value p [c] <-> rd value p = Some c.
Proof.
  split; intros H.
  - rewrite <- (Z.add_0_r p). by apply (H O).
  - intros i c' Hi. destruct i as [|i]; [|done]. injection Hi as <-. by rewrite Z.add_0_r.
Qed.

Lemma text_at_cons p c s : text_at value p (c :: s) <-> rd value p = Some c /\ text_at value (p + 1) s.
Proof. by rewrite (text_at_app p [c] s), text_at_one. Qed.

Lemma text_at_nil p : text_at value p [].
Proof. by intros i c Hi. Qed.
End At.

(** A text after the bytes before it. *)
Lemma text_at_split pre l s : text_at (pre ++ l) (zlen pre) s <-> exists rest, l = s ++ rest.
Proof.
  split.
  - intros H. exists (drop (length s) l). rewrite <- (take_drop (length s) l) at 1. f_equal.
    apply list_eq. intros i. destruct (decide (i < length s)%nat) as [Hi|Hi].
    + destruct (lookup_lt_is_Some_2 s i Hi) as [c Hc]. specialize (H i c Hc).
      rewrite rd_app_r in H by lia. unfold rd in H. rewrite (proj2 (Z.leb_le 0 _)), Nat2Z.id in H by lia.
      by rewrite lookup_take_lt, H, Hc.
    + rewrite (lookup_ge_None_2 s) by lia. apply lookup_ge_None_2. rewrite length_take. lia.
  - intros [rest ->] i c Hi. rewrite rd_app_r by lia. unfold rd.
    rewrite (proj2 (Z.leb_le 0 _)), Nat2Z.id by lia. by apply lookup_app_l_Some.
Qed.

(** ** The first two loops *)

Definition no_separator (name : bytes) : Prop := Forall (fun c => c <> "," /\ c <> " ") name.
Definition all_blank (l : bytes) : Prop := Forall (fun c => c = " ") l.
Definition date_fmt_of (sep : Z) : date_fmt := if sep =? " " then isoc else no.

Lemma first_separator_at name sep l p :
  no_separator name -> sep = "," \/ sep = " " ->
  first_separator (name ++ sep :: l) p = (p + zlen name, date_fmt_of sep).
Proof.
  intros Hn Hs. revert p. induction Hn as [|c name [H1 H2] _ IH]; intros p; cbn [app first_separator].
  - change (zlen []) with 0. rewrite Z.add_0_r. by destruct Hs as [-> | ->].
  - rewrite (proj2 (Z.eqb_neq _ _) H1), (proj2 (Z.eqb_neq _ _) H2), IH, zlen_cons. f_equal. lia.
Qed.

Lemma first_separator_none value p :
  no_separator value -> first_separator value p = (p + zlen value, no).
Proof.
  intros Hn. revert p. induction Hn as [|c name [H1 H2] _ IH]; intros p; cbn [first_separator].
  - change (zlen []) with 0. by rewrite Z.add_0_r.
  - rewrite (proj2 (Z.eqb_neq _ _) H1), (proj2 (Z.eqb_neq _ _) H2), IH, zlen_cons. f_equal. lia.
Qed.

Lemma skip_blanks_at blanks l p :
  all_blank blanks -> head l <> Some " " -> skip_blanks (blanks ++ l) p = p + zlen blanks.
Proof.
  intros Hb Hl. revert p. induction Hb as [|c blanks -> _ IH]; intros p; cbn [app skip_blanks].
  - change (zlen []) with 0. destruct l as [|c l]; cbn [skip_blanks]; [lia|].
    rewrite (proj2 (Z.eqb_neq c _)); [lia|]. intros ->. by apply Hl.
  - rewrite Z.eqb_refl, IH, zlen_cons. lia.
Qed.

Lemma skip_blanks_ge l p : p <= skip_blanks l p.
Proof.
  revert p. induction l as [|c l IH]; intros p; cbn [skip_blanks]; [lia|].
  destruct (c =? " "); [|lia]. specialize (IH (p + 1)). lia.
Qed.

(** Every value has no separator, or the separator, blanks and the rest after a name. *)
Lemma value_parts value :
  no_separator value \/
  exists name sep blanks l, value = name ++ sep :: blanks ++ l /\ no_separator name /\
    (sep = "," \/ sep = " ") /\ all_blank blanks /\ head l <> Some " ".
Proof.
  induction value as [|c value IH]; [left; constructor|].
  destruct (decide (c = "," \/ c = " ")) as [Hc|Hc].
  - right. exists [], c. clear IH. assert (H : exists blanks l, value = blanks ++ l /\ all_blank blanks /\ head l <> Some " ").
    { induction value as [|c' value (blanks & l & -> & Hb & Hl)]; [exists [], []; split_and!; [done|constructor|done]|].
      destruct (decide (c' = " ")) as [->|Hne].
      - exists (" " :: blanks), l. split_and!; [done|by constructor|done].
      - exists [], (c' :: blanks ++ l). split_and!; [done|constructor|]. cbn. by intros [= ->]. }
    destruct H as (blanks & l & -> & Hb & Hl). exists blanks, l. split_and!; [done|constructor|done|done|done].
  - destruct IH as [Hn|(name & sep & blanks & l & -> & Hn & Hr)]; [left|right].
    + constructor; [tauto|done].
    + exists (c :: name), sep, blanks, l. split_and!; [done|constructor; [tauto|done]|apply Hr..].
Qed.

(** ** What the parser has read *)

Ltac blia := cbv beta iota in *; lia.

Lemma zlen_two n : zlen (two n) = 2.
Proof. done. Qed.
Lemma zlen_four n : zlen (four n) = 4.
Proof. done. Qed.
Lemma zlen_clock h mi s : zlen (clock h mi s) = 9.
Proof. done. Qed.

(** The lengths of the parts of a text, and a part at its position. *)
Ltac lengths :=
  rewrite ?zlen_app, ?zlen_two, ?zlen_four, ?zlen_clock, ?zlen_cons;
  repeat match goal with
         | |- context [zlen (bs ?t)] => let v := eval cbv in (zlen (bs t)) in change (zlen (bs t)) with v
         end;
  change (zlen []) with 0.
Ltac at_position :=
  match goal with H : text_at _ _ _ |- _ => eapply text_at_move; [exact H|lengths; blia] end.

Section Read.
Context (value : bytes).
Let end_ : Z := zlen value.

Lemma ensures_get p : 0 <= p < end_ -> ensures (get value p) (fun c => rd value p = Some c).
Proof. intros Hp. unfold get. by destruct (rd_is_Some value p Hp) as [c ->]. Qed.

Lemma ensures_digit p : 0 <= p < end_ -> ensures (get_digit value p) (fun d => 0 <= d < 10 /\ rd value p = Some (digit d)).
Proof.
  intros Hp. eapply ensures_bind; [by apply ensures_get|]. intros c Hc.
  eapply ensures_bind; [apply ensures_guard|]. intros [] Hd. apply ensures_ret. unfold is_digit in Hd.
  split; [blia|]. rewrite Hc. f_equal. unfold digit. lia.
Qed.

Lemma ensures_two p :
  0 <= p -> p + 1 < end_ -> ensures (two_digits value p) (fun n => 0 <= n < 100 /\ text_at value p (two n)).
Proof.
  intros Hp Hl. eapply ensures_bind; [apply ensures_digit; blia|]. intros a [Ha E1].
  eapply ensures_bind; [apply ensures_digit; blia|]. intros b [Hb E2]. apply ensures_ret.
  split; [blia|]. unfold two. rewrite !text_at_cons.
  replace ((a * 10 + b) / 10) with a by dlia. replace ((a * 10 + b) mod 10) with b by dlia.
  split_and!; [done|done|apply text_at_nil].
Qed.

Lemma ensures_four p :
  0 <= p -> p + 3 < end_ -> ensures (four_digits value p) (fun n => 0 <= n < 10000 /\ text_at value p (four n)).
Proof.
  intros Hp Hl. eapply ensures_bind; [apply ensures_digit; blia|]; intros a [Ha E1].
  eapply ensures_bind; [apply ensures_digit; blia|]; intros b [Hb E2].
  eapply ensures_bind; [apply ensures_digit; blia|]; intros c [Hc E3].
  eapply ensures_bind; [apply ensures_digit; blia|]; intros d [Hd E4]. apply ensures_ret.
  split; [blia|]. unfold four, two. cbn [app].
  replace ((a * 1000 + b * 100 + c * 10 + d) / 100 / 10) with a by dlia.
  replace ((a * 1000 + b * 100 + c * 10 + d) / 100 mod 10) with b by dlia.
  replace ((a * 1000 + b * 100 + c * 10 + d) mod 100 / 10) with c by dlia.
  replace ((a * 1000 + b * 100 + c * 10 + d) mod 100 mod 10) with d by dlia.
  rewrite !text_at_cons, <- !Z.add_assoc. split_and!; [exact E1|exact E2|exact E3|exact E4|apply text_at_nil].
Qed.

Lemma ensures_expect p ch : 0 <= p < end_ -> ensures (expect value p ch) (fun _ => text_at value p [ch]).
Proof.
  intros Hp. eapply ensures_bind; [by apply ensures_get|]. intros c Hc.
  eapply ensures_mono; [apply ensures_guard|]. intros [] E. apply Z.eqb_eq in E as ->. by apply text_at_one.
Qed.

(** The month is decided by the first pattern that matches. *)
Lemma month_at_of p a b c :
  rd value p = Some a -> rd value (p + 1) = Some b -> rd value (p + 2) = Some c ->
  month_at value p = match month_of [a; b; c] with Some m => mret (m - 1) | None => error end.
Proof.
  intros Ha Hb Hc. unfold month_at, get, access. rewrite Ha, Hb, Hc. cbn [mbind option_bind attempt_bind].
  unfold month_of, month_patterns. cbn [List.find pattern_matches].
  repeat match goal with |- context [bs ?t] => let v := eval cbv in (bs t) in change (bs t) with v end.
  cbn [pattern_matches]. rewrite !andb_true_r, !(Z.eqb_sym _ a), !(Z.eqb_sym _ b), !(Z.eqb_sym _ c).
  repeat match goal with |- context [if a =? ?x then _ else _] => destruct (Z.eqb_spec a x) as [->|?] end;
    try (by destruct (b =? _), (c =? _)); by cbn.
Qed.

Lemma ensures_month p :
  0 <= p -> p + 2 < end_ ->
  ensures (month_at value p) (fun m => exists mon, zlen mon = 3 /\ month_of mon = Some (m + 1) /\ text_at value p mon).
Proof.
  intros Hp Hl. destruct (rd_is_Some value p ltac:(unfold end_ in *; lia)) as [a Ha].
  destruct (rd_is_Some value (p + 1) ltac:(unfold end_ in *; lia)) as [b Hb].
  destruct (rd_is_Some value (p + 2) ltac:(unfold end_ in *; lia)) as [c Hc].
  rewrite (month_at_of p a b c) by done. destruct (month_of [a; b; c]) as [m|] eqn:E; [|done].
  apply ensures_ret. exists [a; b; c]. replace (m - 1 + 1) with m by lia. split_and!; [done|done|].
  rewrite !text_at_cons, <- !Z.add_assoc. split_and!; [exact Ha|exact Hb|exact Hc|apply text_at_nil].
Qed.

Lemma month_of_range mon m : month_of mon = Some m -> 1 <= m <= 12.
Proof.
  unfold month_of. intros E. destruct (List.find _ _) as [[pat m']|] eqn:Ef; [|done]. injection E as <-.
  apply find_some in Ef as [Hin _]. assert (Hf : Forall (fun x => 1 <= x.2 <= 12) month_patterns)
    by (repeat constructor; cbn; lia).
  apply (proj1 (List.Forall_forall _ _) Hf) in Hin. done.
Qed.

(** The day first: the day, and the character after it. *)
Lemma ensures_day_first p :
  0 <= p -> 18 <= end_ - p ->
  ensures (day_first value p) (fun '(fmt, day, p') => 0 <= day < 100 /\ p' = p + 3 /\
    (fmt = rfc822 /\ 20 <= end_ - p /\ text_at value p (two day ++ bs " ") \/
     fmt = rfc850 /\ text_at value p (two day ++ bs "-"))).
Proof.
  intros Hp Hl. unfold day_first. eapply ensures_bind; [apply ensures_two; blia|]. intros day [Hd Hday].
  eapply ensures_bind; [apply ensures_get; blia|]. intros c Hc.
  assert (Hsep : forall ch, c = ch -> text_at value p (two day ++ [ch])).
  { intros ch <-. apply text_at_app. split; [done|]. by apply text_at_one. }
  destruct (Z.eqb_spec c " ").
  - eapply ensures_bind; [apply ensures_guard|]. intros [] Hg. apply ensures_ret. fold end_ in Hg.
    split_and!; [blia|blia|blia|left]. split_and!; [done|blia|by apply Hsep].
  - destruct (Z.eqb_spec c "-"); [|done]. apply ensures_ret.
    split_and!; [blia|blia|blia|right]. split; [done|by apply Hsep].
Qed.

(** The day after the month. *)
Lemma ensures_day_second p :
  0 <= p -> p + 4 < end_ ->
  ensures (day_second value p) (fun '(d, p') => 0 <= d < 100 /\ 14 <= end_ - p' /\
    exists blank day, (blank = [] \/ blank = bs " ") /\ (day = two d \/ day = [digit d] /\ d < 10) /\
      text_at value p (blank ++ day) /\ p' = p + zlen (blank ++ day)).
Proof.
  intros Hp Hl. unfold day_second. eapply ensures_bind; [apply ensures_get; blia|]. intros c Hc.
  set (p1 := if c =? " " then p + 1 else p).
  assert (H1 : exists blank, (blank = [] \/ blank = bs " ") /\ text_at value p blank /\ p1 = p + zlen blank /\ p <= p1 <= p + 1).
  { subst p1. destruct (Z.eqb_spec c " ") as [->|].
    - exists (bs " "). split_and!; [by right|by apply text_at_one|done|lia|lia].
    - exists []. split_and!; [by left|apply text_at_nil|change (zlen []) with 0; lia|lia|lia]. }
  clearbody p1. destruct H1 as (blank & Hblank & Hat & Hp1 & Hr).
  cbv zeta. eapply ensures_bind; [apply ensures_digit; blia|]. intros d [Hd Ed].
  eapply ensures_bind; [apply ensures_get; blia|]. intros c2 Hc2.
  eapply (ensures_bind _ _ (fun '(d, p') => 0 <= d < 100 /\ exists day,
    (day = two d \/ day = [digit d] /\ d < 10) /\ text_at value p (blank ++ day) /\ p' = p + zlen (blank ++ day))).
  - destruct (negb _).
    + eapply ensures_bind; [apply ensures_digit; blia|]. intros d2 [Hd2 Ed2]. apply ensures_ret.
      split; [blia|]. exists (two (d * 10 + d2)). split; [by left|]. split.
      * apply text_at_app. split; [done|]. rewrite <- Hp1. unfold two.
        replace ((d * 10 + d2) / 10) with d by dlia. replace ((d * 10 + d2) mod 10) with d2 by dlia.
        rewrite !text_at_cons. split_and!; [done|done|apply text_at_nil].
      * lengths. blia.
    + apply ensures_ret. split; [blia|]. exists [digit d]. split; [right; split; [done|blia]|]. split.
      * apply text_at_app. split; [done|]. rewrite <- Hp1. by apply text_at_one.
      * lengths. blia.
  - intros [d' p'] (H2 & day & Hday & Hat' & Hp'). eapply ensures_bind; [apply ensures_guard|]. intros [] Hg.
    apply ensures_ret. fold end_ in Hg. split_and!; [blia|blia|blia|]. by exists blank, day.
Qed.

Lemma ensures_time_of_day p :
  0 <= p -> p + 8 < end_ ->
  ensures (time_of_day value p) (fun '(h, mi, s, p') =>
    0 <= h /\ 0 <= mi /\ 0 <= s /\ p' = p + 7 /\ text_at value p (clock h mi s)).
Proof.
  intros Hp Hl. unfold time_of_day.
  eapply ensures_bind; [apply ensures_expect; blia|]; intros [] E1.
  eapply ensures_bind; [apply ensures_two; blia|]; intros h [Hh E2].
  eapply ensures_bind; [apply ensures_expect; blia|]; intros [] E3.
  eapply ensures_bind; [apply ensures_two; blia|]; intros mi [Hmi E4].
  eapply ensures_bind; [apply ensures_expect; blia|]; intros [] E5.
  eapply ensures_bind; [apply ensures_two; blia|]; intros s [Hs E6].
  apply ensures_ret. split_and!; try blia. unfold clock. rewrite !text_at_app.
  split_and!; at_position.
Qed.
End Read.

(** What the fields of a text give. *)
Definition shows_at (value : bytes) (sep p t : Z) : Prop :=
  exists text y m d h mi s, text_at value p text /\ date_text sep text y m d h mi s /\
    0 <= d <= month_days y m /\ valid_time h mi s /\ t = date_value y m d h mi s.

Lemma date_text_range sep text y m d h mi s : date_text sep text y m d h mi s -> 0 <= y < 10000 /\ 1 <= m <= 12.
Proof.
  intros [|yy ? ? ? ? ? ? ? Hyy|]; split; try (by eapply month_of_range); try done.
  unfold two_digit in Hyy. destruct (yy <? 70); lia.
Qed.

(** The last steps: the checks and the formula. *)
Lemma ensures_checks value sep p text y m d h mi s :
  date_text sep text y (m + 1) d h mi s -> text_at value p text -> 0 <= d -> 0 <= h -> 0 <= mi -> 0 <= s ->
  ensures (guard_ (date_ok d m y h mi s);; mret (gauss_time d m y h mi s)) (shows_at value sep p).
Proof.
  intros Ht Hat Hd Hh Hmi Hs. pose proof (date_text_range _ _ _ _ _ _ _ _ Ht) as [Hy Hm].
  eapply ensures_bind; [apply ensures_guard|]. intros [] Hok. apply ensures_ret.
  replace m with (m + 1 - 1) in Hok by blia. apply date_ok_spec in Hok as [Hd2 Htime]; [|blia..].
  exists text, y, (m + 1), d, h, mi, s. split_and!; try done. pose proof (month_days_le y (m + 1) Hm).
  rewrite <- gauss_time_value by (done || blia). f_equal. blia.
Qed.

Section Date.
Context (value : bytes) (p : Z).
Hypothesis Hp : 0 <= p.
Let end_ : Z := zlen value.

Lemma ensures_day_month_year : ensures (parse_date value p no) (shows_at value "," p).
Proof.
  unfold parse_date. cbn [is_isoc].
  eapply ensures_bind; [apply ensures_guard|]. intros [] Hlen%negb_true_iff%Z.ltb_ge. fold end_ in Hlen.
  eapply ensures_bind; [apply ensures_day_first; blia|]. intros [[fmt day] p1] (Hd & -> & Hfmt).
  eapply ensures_bind; [apply ensures_month; blia|]. intros month (mon & Hl & Hmon & Hat).
  destruct Hfmt as [(-> & Hlen2 & Hday)|[-> Hday]]; apply text_at_app in Hday as [Hday Hsep]; cbn [is_isoc year_first].
  - eapply ensures_bind; [apply ensures_expect; blia|]. intros [] Hsep2.
    eapply (ensures_bind _ _ (fun '(y, p') => p' = p + 3 + 3 + 1 + 4 /\ 0 <= y < 10000 /\ text_at value (p + 3 + 3 + 1) (four y))).
    { eapply ensures_bind; [apply ensures_four; blia|]. intros y Hy. by apply ensures_ret. }
    intros [y p2] (-> & Hy & Hyear). cbn [mbind attempt_bind mret attempt_ret].
    eapply ensures_bind; [apply ensures_time_of_day; blia|]. intros [[[h mi] s] p4] (Hh & Hmi & Hs & -> & Hclock).
    eapply ensures_checks; [by apply in_rfc822| |blia|done..]. rewrite !text_at_app. split_and!; at_position.
  - eapply ensures_bind; [apply ensures_expect; blia|]. intros [] Hsep2.
    eapply (ensures_bind _ _ (fun '(y, p') => p' = p + 3 + 3 + 1 + 2 /\ exists yy, y = (if yy <? 70 then 2000 else 1900) + yy /\
      0 <= yy < 100 /\ text_at value (p + 3 + 3 + 1) (two yy))).
    { eapply ensures_bind; [apply ensures_two; blia|]. intros yy Hy. apply ensures_ret.
      split; [done|]. exists yy. split; [blia|done]. }
    intros [y p2] (-> & yy & -> & Hyy & Hyear). cbn [mbind attempt_bind mret attempt_ret].
    eapply ensures_bind; [apply ensures_time_of_day; blia|]. intros [[[h mi] s] p4] (Hh & Hmi & Hs & -> & Hclock).
    eapply ensures_checks; [by apply in_rfc850| |blia|done..]. rewrite !text_at_app. split_and!; at_position.
Qed.

Lemma ensures_month_day_year : ensures (parse_date value p isoc) (shows_at value " " p).
Proof.
  unfold parse_date. cbn [is_isoc].
  eapply ensures_bind; [apply ensures_guard|]. intros [] Hlen%negb_true_iff%Z.ltb_ge. fold end_ in Hlen.
  cbn [mbind attempt_bind mret attempt_ret].
  eapply ensures_bind; [apply ensures_month; blia|]. intros month (mon & Hl & Hmon & Hat).
  cbn [is_isoc mbind attempt_bind mret attempt_ret].
  destruct (rd_is_Some value (p + 3) ltac:(unfold end_ in *; lia)) as [any Hany%text_at_one].
  eapply ensures_bind; [apply ensures_day_second; blia|].
  intros [d p3] (Hd & Hend & blank & day & Hblank & Hday & Hat2 & ->).
  eapply ensures_bind; [apply ensures_time_of_day; pose proof (zlen_nonneg (blank ++ day)); blia|].
  intros [[[h mi] s] p4] (Hh & Hmi & Hs & -> & Hclock).
  eapply (ensures_bind _ _ (fun y => 0 <= y < 10000 /\ exists q, q = p + 3 + 1 + zlen (blank ++ day) /\
    text_at value (q + 9) (bs " ") /\ text_at value (q + 10) (four y))).
  { pose proof (zlen_nonneg (blank ++ day)). eapply ensures_bind; [apply ensures_expect; blia|]. intros [] Hsep.
    eapply ensures_mono; [apply ensures_four; blia|]. intros y [Hy Hyear]. split; [done|].
    eexists. split; [done|]. split; at_position. }
  intros y [Hy (q & -> & Hsep & Hyear)].
  eapply ensures_checks; [by apply in_isoc| |blia|done..]. rewrite !(text_at_app value p), !(text_at_app _ _ [any]).
  rewrite (text_at_app _ _ (blank ++ day)), !(text_at_app _ _ (clock _ _ _)), (text_at_app _ _ (bs " ")).
  generalize dependent (blank ++ day). intros l Hat2 Hclock. intros. split_and!; at_position.
Qed.
End Date.

(** ** What a text gives *)

Section Shown.
Context (value : bytes).
Let end_ : Z := zlen value.

Lemma text_at_end p s : 0 <= p <= end_ -> text_at value p s -> p + zlen s <= end_.
Proof.
  intros Hp Hat. destruct (length s) as [|n] eqn:E; [unfold zlen; lia|].
  destruct (lookup_lt_is_Some_2 s n ltac:(lia)) as [c Hc]. specialize (Hat n c Hc). unfold rd in Hat.
  rewrite (proj2 (Z.leb_le 0 _)) in Hat by lia. apply lookup_lt_Some in Hat. unfold end_, zlen in *. lia.
Qed.

Lemma get_at p c : text_at value p [c] -> get value p = mret c.
Proof. intros E%text_at_one. unfold get. by rewrite E. Qed.

Lemma two_at p n : 0 <= n < 100 -> text_at value p (two n) -> two_digits value p = mret n.
Proof.
  intros Hn H. unfold two in H. rewrite !text_at_cons in H. destruct H as (E1 & E2 & _). by apply two_digits_ok.
Qed.

Lemma four_at p n : 0 <= n < 10000 -> text_at value p (four n) -> four_digits value p = mret n.
Proof.
  intros Hn H. unfold four, two in H. cbn [app] in H. rewrite !text_at_cons, <- !Z.add_assoc in H.
  destruct H as (E1 & E2 & E3 & E4 & _). by apply four_digits_ok.
Qed.

Lemma expect_at p ch : text_at value p [ch] -> expect value p ch = mret tt.
Proof. intros E%text_at_one. by apply expect_ok. Qed.

Lemma month_of_three mon m : month_of mon = Some m -> exists a b c, mon = [a; b; c].
Proof.
  unfold month_of. intros E. destruct (List.find _ _) as [[pat m']|] eqn:Ef; [|done].
  apply find_some in Ef as [Hin Hm].
  assert (Hlen : forall pat s, pattern_matches pat s = true -> length s = length pat).
  { clear. induction pat as [|q pat IH]; intros [|c s]; cbn; try done.
    intros [_ H]%andb_true_iff. f_equal. by apply IH. }
  apply Hlen in Hm. assert (Hf : Forall (fun x => length x.1 = 3%nat) month_patterns) by (repeat constructor; done).
  apply (proj1 (List.Forall_forall _ _) Hf) in Hin. cbn in Hin. rewrite Hin in Hm.
  destruct mon as [|a [|b [|c [|]]]]; try done. by exists a, b, c.
Qed.

Lemma month_shown p mon m : month_of mon = Some m -> text_at value p mon -> month_at value p = mret (m - 1).
Proof.
  intros Hm Hat. destruct (month_of_three mon m Hm) as (a & b & c & ->).
  rewrite !text_at_cons, <- !Z.add_assoc in Hat. destruct Hat as (Ha & Hb & Hc & _).
  by rewrite (month_at_of value p a b c Ha Hb Hc), Hm.
Qed.

Lemma time_of_day_shown p h mi s :
  valid_time h mi s -> text_at value p (clock h mi s) -> time_of_day value p = mret (h, mi, s, p + 7).
Proof. intros (Hh & Hmi & Hs) Hat. by apply time_of_day_ok. Qed.

Lemma digit_not_blank d : 0 <= d -> (digit d =? " ") = false.
Proof. intros. apply Z.eqb_neq. unfold digit. lia. Qed.

Lemma day_second_shown p d blank day h mi s :
  0 <= d < 100 -> (blank = [] \/ blank = bs " ") -> (day = two d \/ day = [digit d] /\ d < 10) ->
  text_at value p (blank ++ day) -> text_at value (p + zlen (blank ++ day)) (clock h mi s) ->
  14 <= end_ - (p + zlen (blank ++ day)) ->
  day_second value p = mret (d, p + zlen (blank ++ day)).
Proof.
  intros Hd Hblank Hday Hat Hclock Hend.
  assert (Hfirst : exists c rest, text_at value p [c] /\ day = digit rest :: tail day /\ 0 <= rest /\
    (if c =? " " then p + 1 else p) = p + zlen blank).
  { assert (H : exists n, day = digit n :: tail day /\ 0 <= n)
      by (destruct Hday as [->|[-> ?]]; [exists (d / 10)|exists d]; split; done || dlia).
    destruct H as (n & En & Hn). destruct Hblank as [-> | ->].
    - rewrite En in Hat. cbn [app] in Hat. apply text_at_cons in Hat as [Hat _]. exists (digit n), n.
      split_and!; [by apply text_at_one|done|done|]. rewrite (digit_not_blank n Hn). change (zlen []) with 0. lia.
    - apply text_at_app in Hat as [Hat _]. by exists " ", n. }
  destruct Hfirst as (c & n & Hc & En & Hn & Hp1). unfold day_second. rewrite (get_at _ _ Hc).
  cbn [mbind attempt_bind mret attempt_ret]. rewrite Hp1.
  apply text_at_app in Hat as [_ Hat]. rewrite zlen_app, Z.add_assoc in *. set (q := p + zlen blank) in *. clearbody q.
  destruct Hday as [->|[-> Hd10]].
  - unfold two in Hat. rewrite !text_at_cons in Hat. destruct Hat as (E1 & E2 & _).
    rewrite (get_digit_ok value q (d / 10) E1) by dlia. cbn [mbind attempt_bind mret attempt_ret].
    rewrite (get_at (q + 1) (digit (d mod 10))) by by apply text_at_one. cbn [mbind attempt_bind mret attempt_ret].
    rewrite digit_not_blank by dlia. cbn [negb]. rewrite (get_digit_ok value (q + 1) (d mod 10) E2) by dlia.
    cbn [mbind attempt_bind mret attempt_ret]. change (zlen (two d)) with 2 in *.
    replace (q + 1 + 1) with (q + 2) by lia. fold end_. rewrite (proj2 (Z.ltb_ge _ 14)) by lia.
    cbn. do 3 f_equal. dlia.
  - apply text_at_one in Hat. rewrite (get_digit_ok value q d Hat) by lia. cbn [mbind attempt_bind mret attempt_ret].
    change (zlen [digit d]) with 1 in *. apply text_at_app in Hclock as [Hclock _].
    rewrite (get_at (q + 1) " " Hclock). cbn [mbind attempt_bind mret attempt_ret]. change (" " =? " ") with true.
    cbn [negb mbind attempt_bind mret attempt_ret]. fold end_. by rewrite (proj2 (Z.ltb_ge _ 14)) by lia.
Qed.
End Shown.

(** The checks hold and the formula gives the value. *)
Lemma checks_shown y m d h mi s :
  0 <= y < 10000 -> 1 <= m <= 12 -> 0 <= d <= month_days y m -> valid_time h mi s ->
  (guard_ (date_ok d (m - 1) y h mi s);; mret (gauss_time d (m - 1) y h mi s)) = mret (date_value y m d h mi s) :> attempt Z.
Proof.
  intros Hy Hm Hd Ht. pose proof (month_days_le y m Hm).
  rewrite (proj2 (date_ok_spec d m y h mi s ltac:(lia) Hm ltac:(apply Ht) ltac:(apply Ht) ltac:(apply Ht))) by (split; [lia|done]).
  cbn. by rewrite gauss_time_value by (done || lia).
Qed.

Ltac run := cbn [is_isoc year_first guard_ negb mbind attempt_bind mret attempt_ret].

Lemma parse_date_shown value sep p t :
  0 <= p <= zlen value -> shows_at value sep p t -> parse_date value p (date_fmt_of sep) = mret t.
Proof.
  intros Hp (text & y & m & d & h & mi & s & Hat & Ht & Hd & Htime & ->).
  pose proof (date_text_range _ _ _ _ _ _ _ _ Ht) as [Hy Hm].
  pose proof (month_days_le y m Hm) as Hdays. pose proof (checks_shown y m d h mi s Hy Hm Hd Htime) as Hchecks.
  pose proof (text_at_end value p text Hp Hat) as Hend.
  destruct Ht as [y mon m d h mi s -> Hy0 Hmon|yy mon m d h mi s -> Hyy Hmon|y mon m any blank day d h mi s -> Hy0 Hmon Hblank Hday];
    unfold parse_date; change (date_fmt_of ",") with no; change (date_fmt_of " ") with isoc; cbn [is_isoc];
    destruct (month_of_three mon m Hmon) as (a & b & c & Emon); assert (Hl : zlen mon = 3) by (by subst mon); clear Emon.
  - rewrite !zlen_app, Hl in Hend. revert Hend. lengths. intros Hend. rewrite !text_at_app, !Hl in Hat.
    revert Hat. lengths. intros (H1 & H2 & H3 & H4 & H5 & H6).
    rewrite (proj2 (Z.ltb_ge _ 18)) by lia. run. unfold day_first. rewrite (two_at value p d) by (done || lia). run.
    rewrite (get_at value (p + 2) " " H2). run. change (" " =? " ") with true. cbv iota.
    rewrite (proj2 (Z.ltb_ge _ 18)) by lia. run.
    rewrite (month_shown value _ mon m Hmon) by at_position. run. rewrite (expect_at value _ " ") by at_position. run.
    rewrite (four_at value _ y) by (done || at_position). run.
    rewrite (time_of_day_shown value _ h mi s) by (done || at_position). run. exact Hchecks.
  - rewrite !zlen_app, Hl in Hend. revert Hend. lengths. intros Hend. rewrite !text_at_app, !Hl in Hat.
    revert Hat. lengths. intros (H1 & H2 & H3 & H4 & H5 & H6).
    rewrite (proj2 (Z.ltb_ge _ 18)) by lia. run. unfold day_first. rewrite (two_at value p d) by (done || lia). run.
    rewrite (get_at value (p + 2) "-" H2). run. change ("-" =? " ") with false. change ("-" =? "-") with true. cbv iota. run.
    rewrite (month_shown value _ mon m Hmon) by at_position. run. rewrite (expect_at value _ "-") by at_position. run.
    rewrite (two_at value _ yy) by (done || at_position). run.
    rewrite (time_of_day_shown value _ h mi s) by (done || at_position). run. rewrite (Z.add_comm yy). exact Hchecks.
  - pose proof (zlen_nonneg blank). assert (Hd1 : 1 <= zlen day) by (destruct Hday as [->|[-> _]]; done).
    rewrite !(text_at_app value p), !(text_at_app _ _ [any]), (text_at_app _ _ (blank ++ day)),
      !(text_at_app _ _ (clock _ _ _)), (text_at_app _ _ (bs " ")), !Hl in Hat.
    rewrite !zlen_app, Hl in Hend. revert Hend. lengths. intros Hend.
    destruct Hat as (H1 & H2 & H3 & H4 & H5 & H6). revert H3 H4 H5 H6. lengths. intros H3 H4 H5 H6.
    rewrite (proj2 (Z.ltb_ge _ 18)) by lia. run. rewrite (month_shown value _ mon m Hmon H1). run.
    rewrite <- zlen_app in *. pose proof (zlen_app blank day) as Hsum.
    rewrite (day_second_shown value (p + 3 + 1) d blank day h mi s) by (done || lia || at_position). run.
    rewrite (time_of_day_shown value _ h mi s Htime) by at_position. run. rewrite (expect_at value _ " ") by at_position. run.
    rewrite (four_at value _ y) by (done || at_position). run. exact Hchecks.
Qed.

(** ** The parser accepts these texts and no other *)

Lemma date_text_head sep text y m d h mi s rest :
  0 <= d < 100 -> date_text sep text y m d h mi s -> head (text ++ rest) <> Some " ".
Proof.
  intros Hd Ht. revert Hd. destruct Ht as [| |? mon ? ? ? ? ? ? ? ? _ _ Hmon]; intros Hd;
    try (cbn; intros [= E]; unfold digit in E; dlia).
  destruct (month_of_three mon _ Hmon) as (a & b & c & ->). cbn. by intros [= ->].
Qed.

Lemma date_text_sep sep text y m d h mi s : date_text sep text y m d h mi s -> sep = "," \/ sep = " ".
Proof. destruct 1; auto. Qed.

(** The parser starts a date after the separator and the blanks. *)
Lemma parse_fields_parts name sep blanks l :
  no_separator name -> sep = "," \/ sep = " " -> all_blank blanks -> head l <> Some " " ->
  let value := name ++ sep :: blanks ++ l in
  parse_fields value = parse_date value (zlen (name ++ sep :: blanks)) (date_fmt_of sep).
Proof.
  intros Hn Hs Hb Hl. cbv zeta. unfold parse_fields. rewrite first_separator_at by done. cbv iota beta zeta.
  replace (drop (Z.to_nat (0 + zlen name + 1)) (name ++ sep :: blanks ++ l)) with (blanks ++ l).
  - rewrite skip_blanks_at by done. f_equal. rewrite zlen_app, zlen_cons. lia.
  - replace (Z.to_nat (0 + zlen name + 1)) with (length (name ++ [sep])) by (rewrite length_app; unfold zlen; cbn; lia).
    replace (name ++ sep :: blanks ++ l) with ((name ++ [sep]) ++ blanks ++ l) by (by rewrite <- app_assoc).
    by rewrite drop_app_length.
Qed.

Lemma shows_parsed value t : shows value t -> parse_fields value = mret t.
Proof.
  intros (name & sep & blanks & text & rest & y & m & d & h & mi & s & -> & Hn & Hb & Ht & Hd & Htime & ->).
  pose proof (date_text_range _ _ _ _ _ _ _ _ Ht) as [_ Hm]. pose proof (month_days_le y m Hm).
  rewrite parse_fields_parts by (done || by eapply date_text_sep || by eapply date_text_head; [|done]; lia).
  replace (name ++ sep :: blanks ++ text ++ rest) with ((name ++ sep :: blanks) ++ text ++ rest)
    by (rewrite <- app_assoc; done).
  apply parse_date_shown.
  - rewrite (zlen_app (_ ++ _)). pose proof (zlen_nonneg (name ++ sep :: blanks)). pose proof (zlen_nonneg (text ++ rest)). lia.
  - exists text, y, m, d, h, mi, s. split_and!; [|done|lia|lia|done|done]. apply text_at_split. by exists rest.
Qed.

Lemma ensures_shows value : ensures (parse_fields value) (shows value).
Proof.
  destruct (value_parts value) as [Hn|(name & sep & blanks & l & -> & Hn & Hs & Hb & Hl)].
  - unfold parse_fields. rewrite first_separator_none by done. cbv iota beta zeta.
    pose proof (skip_blanks_ge (drop (Z.to_nat (0 + zlen value + 1)) value) (0 + zlen value + 1)) as Hge.
    unfold parse_date. by rewrite (proj2 (Z.ltb_lt _ 18)) by lia.
  - rewrite parse_fields_parts by done. pose proof (zlen_nonneg (name ++ sep :: blanks)) as Hp.
    eapply ensures_mono; [destruct Hs as [-> | ->]; [by apply ensures_day_month_year|by apply ensures_month_day_year]|].
    intros t (text & y & m & d & h & mi & s & Hat & Ht & Hd & Htime & ->).
    replace (name ++ sep :: blanks ++ l) with ((name ++ sep :: blanks) ++ l) in Hat by by rewrite <- app_assoc.
    apply text_at_split in Hat as [rest ->]. by exists name, sep, blanks, text, rest, y, m, d, h, mi, s.
Qed.

(** C39: [ngx_http_parse_time] reads no byte outside of the text, whatever the text, and
    accepts exactly the texts that show a date: a name without comma or blank, then a comma
    and a date "06 Nov 1994 08:49:37" or "06-Nov-94 08:49:37", or a blank and a date
    "Nov  6 08:49:37 1994", then anything, where the day is at most the length of the month
    in that year (and may be 0) and the time is that of a clock; its value is then the number
    of seconds of that date from 1970, negative before, but for January and February of the
    year 0000, where it is 10368 seconds too many; for every other text it is an error. *)
Theorem parse_time_spec (value : bytes) :
  exists t, ngx_http_parse_time value = Some t /\
    (shows value t \/ t = NGX_ERROR /\ forall t', ~ shows value t').
Proof.
  unfold ngx_http_parse_time. pose proof (ensures_shows value) as H.
  destruct (parse_fields value) as [[t|]|] eqn:E; [exists t; auto| |done].
  exists NGX_ERROR. split; [done|]. right. split; [done|]. intros t' H'%shows_parsed. by rewrite E in H'.
Qed.

Example parse_time_year_0 :
  date_seconds 0 1 1 0 0 0 = -62167219200 /\
  ngx_http_parse_time (bs "Sat, 01 Jan 0000 00:00:00 GMT") = Some (-62167219200 + 10368).
Proof. by vm_compute. Qed.
