(* ===== verification/LimitReq.v ===== *)
(** The limit of the request rate: src/http/modules/ngx_http_limit_req_module.c. *)
From S2P Require Import Prelude CString Numbers Crc.
From stdpp Require Import gmap.

#[global] Open Scope Z_scope.

(** ** Data *)

(** [ngx_http_limit_req_node_t], with the key of its tree node.  [len] is an [u_short],
    [data] the bytes that were copied. *)
Record lr_node := mk_lr { lr_key : Z; lr_len : Z; lr_data : bytes; lr_last : Z; lr_excess : Z }.
#[export] Instance rebuild_lr : Rebuild lr_node :=
  fun n => mk_lr (lr_key n) (lr_len n) (lr_data n) (lr_last n) (lr_excess n).

(** The tree of the nodes, which are addresses; NULL_ is the sentinel. *)
Inductive lr_tree := Leaf | Br (l : lr_tree) (x : Z) (r : lr_tree).

Fixpoint in_order (t : lr_tree) : list Z :=
  match t with Leaf => [] | Br l x r => in_order l ++ x :: in_order r end.

(** What the red-black tree promises: after an insertion at a leaf, and to delete a node, it
    moves nodes but keeps their order. *)
Class TreeOps := {
  rebalance : lr_tree -> lr_tree;
  tree_delete : Z -> lr_tree -> lr_tree;
  in_order_rebalance t : in_order (rebalance t) = in_order t;
  in_order_delete x t : NoDup (in_order t) -> in_order (tree_delete x t) = filter (fun y => y <> x) (in_order t)
}.

(** [ngx_http_limit_req_shctx_t], and the nodes in the shared memory; the head of the queue
    comes first. *)
Record lr_zone := mk_zone { rbtree : lr_tree; queue : list Z; nodes : gmap Z lr_node }.
#[export] Instance rebuild_zone : Rebuild lr_zone := fun z => mk_zone (rbtree z) (queue z) (nodes z).

(** [rate], [burst] and [nodelay]. *)
Record lr_conf := mk_conf { rate : Z; burst : Z; nodelay : bool }.

Definition NGX_HTTP_SERVICE_UNAVAILABLE : Z := 503.
Definition NGX_HTTP_INTERNAL_SERVER_ERROR : Z := 500.

Section LimitReq.
Context `{TreeOps} (conf : lr_conf).

(** The members of the node at [x]. *)
Definition node_at (z : lr_zone) (x : Z) : option lr_node := nodes z !! x.

(** ** Search *)

(** [while (node != sentinel)] *)
Fixpoint lookup_loop (z : lr_zone) (t : lr_tree) (hash : Z) (data : bytes) : option (option Z) :=
  match t with
  | Leaf => Some None
  | Br l x r =>
      n ← node_at z x;
      if hash <? lr_key n then lookup_loop z l hash data
      else if lr_key n <? hash then lookup_loop z r hash data
      else
        let rc := ngx_memn2cmp data (lr_data n) (zlen data) (lr_len n) in
        if rc =? 0 then Some (Some x)
        else lookup_loop z (if rc <? 0 then l else r) hash data
  end.

(** The excess of a node at a time, before it is compared with the burst: [ngx_uint_t]
    arithmetic read as [ngx_int_t]. *)
Definition leak (now : Z) (n : lr_node) : Z :=
  let ms := ngx_abs (s64 (now - lr_last n)) in
  u64 (rate conf * u64 ms) / 1000.

(** The zone, the return code and [*ep]. *)
Definition ngx_http_limit_req_lookup (z : lr_zone) (now hash : Z) (data : bytes) : option (lr_zone * Z * Z) :=
  found ← lookup_loop z (rbtree z) hash data;
  match found with
  | Some x =>
      lr ← node_at z x;
      let z := z <| queue := x :: filter (fun y => y <> x) (queue z) |> in
      let excess := s64 (lr_excess lr - leak now lr + 1000) in
      let excess := if excess <? 0 then 0 else excess in
      if burst conf <? excess then Some (z, NGX_BUSY, excess)
      else
        let z := z <| nodes := <[x := lr <| lr_excess := excess |> <| lr_last := now |>]> (nodes z) |> in
        Some (z, if negb (excess =? 0) then NGX_AGAIN else NGX_OK, excess)
  | None => Some (z, NGX_DECLINED, 0)
  end.

(** ** Expiration *)

(** [while (n < 3)] *)
Fixpoint expire_loop (fuel : nat) (z : lr_zone) (now n : Z) : option lr_zone :=
  match fuel with
  | O => Some z
  | S fuel =>
      if n <? 3 then
        match last (queue z) with
        | None => Some z
        | Some x =>
            lr ← node_at z x;
            let ms := ngx_abs (s64 (now - lr_last lr)) in
            if negb (n =? 0) && ((ms <? 60000) || (0 <? s64 (lr_excess lr - leak now lr))) then Some z
            else
              expire_loop fuel
                (mk_zone (tree_delete x (rbtree z)) (filter (fun y => y <> x) (queue z)) (delete x (nodes z))) now (n + 1)
        end
      else Some z
  end.

Definition ngx_http_limit_req_expire (z : lr_zone) (now n : Z) : option lr_zone := expire_loop 3 z now n.

(** ** Insertion *)

(** Where a new node goes: [ngx_http_limit_req_rbtree_insert_value]. *)
Definition goes_left (a b : lr_node) : bool :=
  if lr_key a <? lr_key b then true
  else if lr_key b <? lr_key a then false
  else ngx_memn2cmp (lr_data a) (lr_data b) (lr_len a) (lr_len b) <? 0.

Fixpoint ngx_http_limit_req_rbtree_insert_value (z : lr_zone) (t : lr_tree) (x : Z) (n : lr_node)
    : option lr_tree :=
  match t with
  | Leaf => Some (Br Leaf x Leaf)
  | Br l y r =>
      m ← node_at z y;
      if goes_left n m then l ← ngx_http_limit_req_rbtree_insert_value z l x n; Some (Br l y r)
      else r ← ngx_http_limit_req_rbtree_insert_value z r x n; Some (Br l y r)
  end.

(** ** The handler *)

(** What a request finds: whether a limit was applied to it already, whether the location
    has a limit, the value of the variable, and whether the read event can be handled. *)
Record lr_request := mk_request {
  limit_req_set : bool; has_zone : bool; vv : option bytes; read_ok : bool
}.

(** What it gives: the return code, whether a limit was applied, and the time after which
    the request goes on, if it has to wait. *)
Record lr_answer := mk_answer { rc : Z; set : bool; delay : option Z }.

(** The node of the request, in the memory [x] that was allocated for it. *)
Definition insert_node (z : lr_zone) (now hash : Z) (data : bytes) (x : Z) : option lr_zone :=
  let lr := mk_lr hash (u8 (zlen data)) data now 0 in
  t ← ngx_http_limit_req_rbtree_insert_value z (rbtree z) x lr;
  Some (mk_zone (rebalance t) (x :: queue z) (<[x := lr]> (nodes z))).

(** What is done once the excess is known. *)
Definition after_lookup (r : lr_request) (code excess : Z) : option lr_answer :=
  if code =? NGX_OK then Some (mk_answer NGX_DECLINED true None)
  else if code =? NGX_BUSY then Some (mk_answer NGX_HTTP_SERVICE_UNAVAILABLE true None)
  else if nodelay conf then Some (mk_answer NGX_DECLINED true None)
  else if negb (read_ok r) then Some (mk_answer NGX_HTTP_INTERNAL_SERVER_ERROR true None)
  else if rate conf =? 0 then None
  else Some (mk_answer NGX_AGAIN true (Some (u64 (excess * 1000) / rate conf))).

(** [slab] is the allocator: the address of a node, or NULL, in the memory as it is.
    [None]: a division by zero. *)
Definition ngx_http_limit_req_handler (slab : lr_zone -> option Z) (now : Z) (z : lr_zone) (r : lr_request)
    : option (lr_zone * lr_answer) :=
  if limit_req_set r then Some (z, mk_answer NGX_DECLINED true None)
  else if negb (has_zone r) then Some (z, mk_answer NGX_DECLINED false None)
  else
    match vv r with
    | None => Some (z, mk_answer NGX_DECLINED false None)
    | Some data =>
        let len := zlen data in
        if len =? 0 then Some (z, mk_answer NGX_DECLINED false None)
        else if 65535 <? len then Some (z, mk_answer NGX_DECLINED false None)
        else
          let hash := ngx_crc32_short data in
          z ← ngx_http_limit_req_expire z now 1;
          '(z, code, excess) ← ngx_http_limit_req_lookup z now hash data;
          if code =? NGX_DECLINED then
            match slab z with
            | Some x =>
                z ← insert_node z now hash data x;
                Some (z, mk_answer NGX_DECLINED true None)
            | None =>
                z ← ngx_http_limit_req_expire z now 0;
                match slab z with
                | Some x =>
                    z ← insert_node z now hash data x;
                    Some (z, mk_answer NGX_DECLINED true None)
                | None => Some (z, mk_answer NGX_HTTP_SERVICE_UNAVAILABLE true None)
                end
            end
          else
            a ← after_lookup r code excess;
            Some (z, a)
    end.
End LimitReq.

(** ** The delayed request *)

(** [ngx_http_limit_req_delay], on an event of the connection: whether the write event has
    timed out, and whether the two events can be handled. *)
Inductive delay_action := Wait | Fail_500 | Run_phases.
Definition ngx_http_limit_req_delay (timedout write_ok read_ok : bool) : delay_action :=
  if negb timedout then if write_ok then Wait else Fail_500
  else if read_ok then Run_phases else Fail_500.

(** ** The configuration *)

(** The value of [rate=] without the name: an integer, and [r/s] or [r/m]; the last three
    bytes are looked at even if that leaves the value. *)
Definition zone_rate (value : bytes) : option Z :=
  let v := bs "rate=" ++ value in
  let suffix := drop (length v - 3) v in
  let '(len, scale) :=
    if decide (suffix = bs "r/s") then (zlen value - 3, 1)
    else if decide (suffix = bs "r/m") then (zlen value - 3, 60)
    else (zlen value, 1) in
  let r := ngx_atoi (take (Z.to_nat len) value) in
  if r <=? NGX_ERROR then None else Some (u64 (Z.quot (s64 (r * 1000)) scale)).
