(* ===== verification/LimitReqSpec.v ===== *)
(** What the limit of the request rate promises: the handler of LimitReq.v keeps a map from
    keys to the time and the excess of their last request, and never lets more requests of
    a key through than the rate and the burst allow. *)
From S2P Require Import Prelude CString Crc LimitReq.
From stdpp Require Import gmap sorting.

#[global] Open Scope Z_scope.

(** ** The order of the nodes *)

Lemma lex_eq s1 s2 : lex s1 s2 = Eq <-> s1 = s2.
Proof.
  revert s2. induction s1 as [|c1 s1 IH]; intros [|c2 s2]; cbn [lex]; [done..|].
  destruct (Z.eqb_spec c1 c2) as [->|Hne].
  - rewrite IH. split; [by intros ->|by intros [= ->]].
  - split; [intros H%Z.compare_eq; lia|intros [= -> _]; lia].
Qed.

Lemma lex_antisym s1 s2 : lex s2 s1 = CompOpp (lex s1 s2).
Proof.
  revert s2. induction s1 as [|c1 s1 IH]; intros [|c2 s2]; cbn [lex]; [done..|].
  rewrite (Z.eqb_sym c2 c1). destruct (Z.eqb_spec c1 c2); [apply IH|apply Z.compare_antisym].
Qed.

Lemma lex_trans s1 s2 s3 : lex s1 s2 = Lt -> lex s2 s3 = Lt -> lex s1 s3 = Lt.
Proof.
  revert s2 s3. induction s1 as [|c1 s1 IH]; intros [|c2 s2] [|c3 s3]; cbn [lex]; try done.
  destruct (Z.eqb_spec c1 c2) as [->|H12], (Z.eqb_spec c2 c3) as [->|H23].
  - apply IH.
  - done.
  - by rewrite (proj2 (Z.eqb_neq c1 c3) H12).
  - rewrite !Z.compare_lt_iff. intros. destruct (Z.eqb_spec c1 c3); [lia|]. by apply Z.compare_lt_iff; lia.
Qed.

(** A node is found by its hash and its data. *)
Definition kcmp (a b : Z * bytes) : comparison :=
  match a.1 ?= b.1 with Eq => lex a.2 b.2 | c => c end.
Definition klt (a b : Z * bytes) : Prop := kcmp a b = Lt.

Lemma kcmp_eq a b : kcmp a b = Eq <-> a = b.
Proof.
  destruct a as [k d], b as [k' d']. unfold kcmp. cbn [fst snd].
  destruct (Z.compare_spec k k') as [->| |]; [rewrite lex_eq| |]; (split; [naive_solver lia|]); intros [= ]; subst; done || lia.
Qed.

Lemma kcmp_antisym a b : kcmp b a = CompOpp (kcmp a b).
Proof.
  unfold kcmp. rewrite (Z.compare_antisym (a.1)). destruct (a.1 ?= b.1); [apply lex_antisym|done|done].
Qed.

Lemma klt_gt a b : kcmp a b = Gt <-> klt b a.
Proof. unfold klt. rewrite (kcmp_antisym a b). by destruct (kcmp a b). Qed.

#[export] Instance klt_trans : Transitive klt.
Proof.
  intros [k1 d1] [k2 d2] [k3 d3]. unfold klt, kcmp. cbn [fst snd].
  destruct (Z.compare_spec k1 k2) as [->| |]; [|destruct (Z.compare_spec k2 k3) as [->| |]|done].
  - destruct (Z.compare_spec k2 k3); [apply lex_trans|done|done].
  - by rewrite (proj2 (Z.compare_lt_iff k1 k3)).
  - intros _ _. rewrite (proj2 (Z.compare_lt_iff k1 k3)) by lia. done.
  - done.
Qed.

Lemma klt_irrefl a : ~ klt a a.
Proof. unfold klt. rewrite (proj2 (kcmp_eq a a) eq_refl). done. Qed.

(** ** The state of a zone *)

Definition node_key (n : lr_node) : Z * bytes := (lr_key n, lr_data n).
Definition key_at (ns : gmap Z lr_node) (x : Z) : Z * bytes := default (0, []) (node_key <$> ns !! x).

(** A node of a zone that was used since the time [t0], at the time [now]. *)
Record node_ok (burst t0 now : Z) (n : lr_node) : Prop := {
  nd_len : lr_len n = zlen (lr_data n);
  nd_short : zlen (lr_data n) < 256;
  nd_key : lr_key n = ngx_crc32_short (lr_data n);
  nd_excess : 0 <= lr_excess n <= burst;
  nd_last : t0 <= lr_last n <= now
}.

Record zone_ok (burst t0 now : Z) (z : lr_zone) : Prop := {
  zn_sorted : StronglySorted klt (key_at (nodes z) <$> in_order (rbtree z));
  zn_queue : queue z ≡ₚ in_order (rbtree z);
  zn_dom x : x ∈ in_order (rbtree z) <-> is_Some (nodes z !! x);
  zn_nodes x n : nodes z !! x = Some n -> node_ok burst t0 now n
}.

(** The zone as a map from keys to the time and the excess of their last request. *)
Definition entries (ns : gmap Z lr_node) : gmap bytes (Z * Z) :=
  list_to_map ((fun p => (lr_data p.2, (lr_last p.2, lr_excess p.2))) <$> map_to_list ns).
Notation "'entries_of' z" := (entries (nodes z)) (at level 10).

Lemma sorted_nodup {A} (f : A -> Z * bytes) l : StronglySorted klt (f <$> l) -> NoDup l.
Proof.
  induction l as [|x l IH]; cbn [fmap list_fmap]; intros H; [constructor|].
  apply StronglySorted_inv in H as [H Hx]. constructor; [|by apply IH].
  intros Hin. rewrite Forall_fmap, Forall_forall in Hx. by apply (klt_irrefl (f x)), Hx.
Qed.

Lemma sorted_inj {A} (f : A -> Z * bytes) l x y :
  StronglySorted klt (f <$> l) -> x ∈ l -> y ∈ l -> f x = f y -> x = y.
Proof.
  induction l as [|w l IH]; cbn [fmap list_fmap]; intros H Hx Hy E; [by apply elem_of_nil in Hx|].
  apply StronglySorted_inv in H as [H Hw]. rewrite Forall_fmap, Forall_forall in Hw.
  apply elem_of_cons in Hx as [->|Hx], Hy as [->|Hy]; [done| | |by apply IH].
  - destruct (klt_irrefl (f y)). rewrite <- E at 1. by apply Hw.
  - destruct (klt_irrefl (f x)). rewrite E at 1. by apply Hw.
Qed.

Lemma klt_filter {A} (f : A -> Z * bytes) (P : A -> Prop) `{!forall x, Decision (P x)} l :
  StronglySorted klt (f <$> l) -> StronglySorted klt (f <$> filter P l).
Proof.
  induction l as [|x l IH]; cbn [fmap list_fmap]; intros Hs; [done|].
  apply StronglySorted_inv in Hs as [Hs Hx]. rewrite filter_cons. case_decide; [|by apply IH].
  cbn [fmap list_fmap]. constructor; [by apply IH|]. rewrite Forall_fmap, Forall_forall in *.
  intros y [_ Hy]%list_elem_of_filter. by apply Hx.
Qed.

Lemma sorted_node {A} (f : A -> Z * bytes) l x r :
  StronglySorted klt (f <$> l ++ x :: r) <->
  StronglySorted klt (f <$> l) /\ StronglySorted klt (f <$> r) /\
  (forall y, y ∈ l -> klt (f y) (f x)) /\ (forall y, y ∈ r -> klt (f x) (f y)).
Proof.
  rewrite fmap_app, fmap_cons, StronglySorted_app, StronglySorted_cons, Forall_fmap, Forall_forall. split.
  - intros (Hlr & Hl & Hx & Hr). split_and!; [done|done| |done]. intros y Hy. apply Hlr; set_solver.
  - intros (Hl & Hr & Hlx & Hxr). split_and!; [|done..].
    intros a b (y & -> & Hy)%list_elem_of_fmap [->|(w & -> & Hw)%list_elem_of_fmap]%elem_of_cons; [by apply Hlx|].
    etrans; [by apply Hlx|by apply Hxr].
Qed.

Section Zone.
Context {T : TreeOps} (conf : lr_conf) (t0 : Z).

Notation ok := (zone_ok (burst conf) t0).

Lemma key_at_node ns x n : ns !! x = Some n -> key_at ns x = node_key n.
Proof. unfold key_at. by intros ->. Qed.

Lemma zone_inj now z x y n m :
  ok now z -> nodes z !! x = Some n -> nodes z !! y = Some m -> lr_data n = lr_data m -> x = y.
Proof.
  intros Hz Hx Hy E. eapply sorted_inj; [apply Hz|apply (zn_dom _ _ _ _ Hz); eauto..|].
  rewrite (key_at_node _ _ _ Hx), (key_at_node _ _ _ Hy). unfold node_key.
  rewrite (nd_key _ _ _ _ (zn_nodes _ _ _ _ Hz _ _ Hx)), (nd_key _ _ _ _ (zn_nodes _ _ _ _ Hz _ _ Hy)). by rewrite E.
Qed.

Lemma entries_spec now z K v :
  ok now z ->
  entries_of z !! K = Some v <->
  exists x n, nodes z !! x = Some n /\ lr_data n = K /\ v = (lr_last n, lr_excess n).
Proof.
  intros Hz. unfold entries. rewrite <- elem_of_list_to_map.
  - rewrite list_elem_of_fmap. split.
    + intros ([x n] & [= -> ->] & H%elem_of_map_to_list). eauto.
    + intros (x & n & H & <- & ->). exists (x, n). split; [done|by apply elem_of_map_to_list].
  - rewrite <- list_fmap_compose. apply NoDup_fmap_2_strong; [|apply NoDup_map_to_list].
    intros [x n] [y m] Hx%elem_of_map_to_list Hy%elem_of_map_to_list E. cbn in E.
    assert (x = y) as -> by (eapply zone_inj; eauto). congruence.
Qed.

Lemma zone_later now now' z : ok now z -> now <= now' -> ok now' z.
Proof.
  intros [H1 H2 H3 H4] Hle. split; [done..|]. intros x n Hx. destruct (H4 x n Hx). split; [done..|lia].
Qed.
(** ** Search *)

Lemma lookup_loop_spec z now t K :
  (forall x n, nodes z !! x = Some n -> node_ok (burst conf) t0 now n) ->
  (forall x, x ∈ in_order t -> is_Some (nodes z !! x)) ->
  StronglySorted klt (key_at (nodes z) <$> in_order t) ->
  exists o, lookup_loop z t (ngx_crc32_short K) K = Some o /\
    match o with
    | Some x => exists n, nodes z !! x = Some n /\ lr_data n = K
    | None => forall x, x ∈ in_order t -> key_at (nodes z) x <> (ngx_crc32_short K, K)
    end.
Proof.
  intros Hn. induction t as [|l IHl x r IHr]; intros Hd Hs; [exists None; split; [done|set_solver]|].
  apply sorted_node in Hs as (Hl & Hr & Hlx & Hxr). cbn [in_order] in Hd.
  assert (Hdl : forall y, y ∈ in_order l -> is_Some (nodes z !! y)) by (intros; apply Hd; set_solver).
  assert (Hdr : forall y, y ∈ in_order r -> is_Some (nodes z !! y)) by (intros; apply Hd; set_solver).
  destruct (Hd x) as [n Hx]; [set_solver|]. pose proof (key_at_node _ _ _ Hx) as Hk.
  destruct (IHl Hdl Hl) as (ol & El & Hol), (IHr Hdr Hr) as (or & Er & Hor). clear IHl IHr.
  assert (Estep : lookup_loop z (Br l x r) (ngx_crc32_short K) K =
            match kcmp (ngx_crc32_short K, K) (node_key n) with Lt => Some ol | Eq => Some (Some x) | Gt => Some or end).
  { cbn [lookup_loop]. unfold node_at. rewrite Hx. cbn [mbind option_bind].
    rewrite (nd_len _ _ _ _ (Hn _ _ Hx)). unfold kcmp, node_key. cbn [fst snd]. rewrite <- memn2cmp_lex.
    destruct (Z.compare_spec (ngx_crc32_short K) (lr_key n)) as [Ek|Ek|Ek].
    - rewrite Ek, Z.ltb_irrefl, <- Ek.
      destruct (Z.compare_spec (ngx_memn2cmp K (lr_data n) (zlen K) (zlen (lr_data n))) 0) as [Ec|Ec|Ec].
      + by rewrite (proj2 (Z.eqb_eq _ _) Ec).
      + by rewrite (proj2 (Z.eqb_neq _ _)), (proj2 (Z.ltb_lt _ _) Ec) by lia.
      + rewrite (proj2 (Z.eqb_neq _ _)), (proj2 (Z.ltb_ge _ _)) by lia. done.
    - by rewrite (proj2 (Z.ltb_lt _ _) Ek).
    - by rewrite (proj2 (Z.ltb_ge _ _)), (proj2 (Z.ltb_lt _ _) Ek) by lia. }
  rewrite Estep. destruct (kcmp (ngx_crc32_short K, K) (node_key n)) eqn:Ec.
  - apply kcmp_eq in Ec. exists (Some x). split; [done|]. exists n. split; [done|]. by inversion Ec.
  - exists ol. split; [done|]. destruct ol as [y|]; [done|]. cbn [in_order]. intros y [Hy|[->|Hy]%elem_of_cons]%elem_of_app E.
    + by apply (Hol y).
    + rewrite Hk in E. rewrite E in Ec. by destruct (klt_irrefl _ Ec).
    + apply (klt_irrefl (ngx_crc32_short K, K)). rewrite <- E at 2. etrans; [exact Ec|]. rewrite <- Hk. by apply Hxr.
  - apply klt_gt in Ec. exists or. split; [done|]. destruct or as [y|]; [done|]. cbn [in_order]. intros y [Hy|[->|Hy]%elem_of_cons]%elem_of_app E.
    + apply (klt_irrefl (ngx_crc32_short K, K)). rewrite <- E at 1. etrans; [by apply Hlx|]. by rewrite Hk.
    + rewrite Hk in E. rewrite E in Ec. by destruct (klt_irrefl _ Ec).
    + by apply (Hor y).
Qed.

(** The search decides whether the zone has the key. *)
Lemma lookup_entry z now K :
  ok now z ->
  exists o, lookup_loop z (rbtree z) (ngx_crc32_short K) K = Some o /\
    match o with
    | Some x => exists n, nodes z !! x = Some n /\ lr_data n = K /\ entries_of z !! K = Some (lr_last n, lr_excess n)
    | None => entries_of z !! K = None /\
        forall x, x ∈ in_order (rbtree z) -> key_at (nodes z) x <> (ngx_crc32_short K, K)
    end.
Proof.
  intros Hz. destruct (lookup_loop_spec z now (rbtree z) K) as (o & E & Ho).
  - apply Hz.
  - intros x. apply Hz.
  - apply Hz.
  - exists o. split; [done|]. destruct o as [x|].
    + destruct Ho as (n & Hx & Hd). exists n. split_and!; [done|done|]. apply (entries_spec now); [done|]. eauto.
    + split; [|done]. apply eq_None_not_Some. intros [v (x & n & Hx & Hd & _)%(entries_spec now)]; [|done].
      apply (Ho x); [by apply Hz; eauto|]. rewrite (key_at_node _ _ _ Hx). unfold node_key.
      rewrite (nd_key _ _ _ _ (zn_nodes _ _ _ _ Hz _ _ Hx)). by rewrite Hd.
Qed.
(** ** Changes of the zone *)

Lemma zone_nodup now z : ok now z -> NoDup (in_order (rbtree z)).
Proof. intros Hz. eapply sorted_nodup, Hz. Qed.

Lemma key_at_ext ns ns' (l : list Z) :
  (forall y, y ∈ l -> node_key <$> ns !! y = node_key <$> ns' !! y) -> key_at ns <$> l = key_at ns' <$> l.
Proof. intros H. apply list_fmap_ext. intros i y Hy%list_elem_of_lookup_2. unfold key_at. by rewrite H. Qed.

Definition without (x : Z) (z : lr_zone) : lr_zone :=
  mk_zone (tree_delete x (rbtree z)) (filter (fun y => y <> x) (queue z)) (delete x (nodes z)).

Lemma remove_node now z x n :
  ok now z -> nodes z !! x = Some n ->
  ok now (without x z) /\ entries_of (without x z) = delete (lr_data n) (entries_of z).
Proof.
  intros Hz Hx. assert (Hok : ok now (without x z)).
  { unfold without. split; cbn [rbtree queue nodes]; rewrite ?in_order_delete by (by eapply zone_nodup).
    - erewrite key_at_ext; [apply klt_filter, Hz|]. intros y [Hy _]%list_elem_of_filter. by rewrite lookup_delete_ne.
    - by rewrite (zn_queue _ _ _ _ Hz).
    - intros y. rewrite list_elem_of_filter, (zn_dom _ _ _ _ Hz), lookup_delete_is_Some. naive_solver.
    - intros y m [_ Hy]%lookup_delete_Some. by apply Hz in Hy. }
  split; [done|]. apply map_eq. intros K. apply option_eq. intros v.
  rewrite (entries_spec now), lookup_delete_Some, (entries_spec now) by done. unfold without. cbn [nodes]. split.
  - intros (y & m & [Hne Hy]%lookup_delete_Some & Hd & ->). split; [|eauto]. intros E. apply Hne.
    eapply zone_inj; [exact Hz|exact Hx|exact Hy|congruence].
  - intros (Hne & y & m & Hy & Hd & ->). exists y, m. split; [|done]. rewrite lookup_delete_Some. split; [|done]. congruence.
Qed.

Lemma update_node now z x n n' :
  ok now z -> nodes z !! x = Some n -> node_key n' = node_key n -> node_ok (burst conf) t0 now n' ->
  let z' := mk_zone (rbtree z) (x :: filter (fun y => y <> x) (queue z)) (<[x := n']> (nodes z)) in
  ok now z' /\ entries_of z' = <[lr_data n := (lr_last n', lr_excess n')]> (entries_of z).
Proof.
  intros Hz Hx Hk Hn' z'. assert (Hok : ok now z').
  { unfold z'. split; cbn [rbtree queue nodes].
    - erewrite key_at_ext; [apply Hz|]. intros y Hy. destruct (decide (y = x)) as [->|].
      + rewrite lookup_insert_eq, Hx. cbn. by rewrite Hk.
      + by rewrite lookup_insert_ne.
    - rewrite (zn_queue _ _ _ _ Hz). apply NoDup_Permutation.
      + constructor; [rewrite list_elem_of_filter; naive_solver|]. by eapply NoDup_filter, zone_nodup.
      + by eapply zone_nodup.
      + intros y. rewrite elem_of_cons, list_elem_of_filter. split; [|destruct (decide (y = x)); naive_solver].
        intros [->|[_ H]]; [|done]. apply Hz. eauto.
    - intros y. rewrite (zn_dom _ _ _ _ Hz). rewrite lookup_insert_is_Some. destruct (decide (x = y)) as [<-|]; naive_solver.
    - intros y m [[_ <-]|[_ Hy]]%lookup_insert_Some; [done|]. by apply Hz in Hy. }
  split; [done|]. apply map_eq. intros K. apply option_eq. intros v.
  rewrite (entries_spec now), lookup_insert_Some, (entries_spec now) by done. unfold z'. cbn [nodes].
  assert (Hd' : lr_data n' = lr_data n) by (by inversion Hk). split.
  - intros (y & m & [[<- <-]|[Hne Hy]]%lookup_insert_Some & Hd & ->); [left; split; congruence|].
    right. split; [|eauto]. intros E. apply Hne. eapply zone_inj; [exact Hz|exact Hx|exact Hy|congruence].
  - intros [(<- & <-)|(Hne & y & m & Hy & Hd & ->)].
    + exists x, n'. rewrite lookup_insert_eq. done.
    + exists y, m. split; [|done]. rewrite lookup_insert_ne; [done|congruence].
Qed.

Lemma goes_left_klt a b :
  lr_len a = zlen (lr_data a) -> lr_len b = zlen (lr_data b) ->
  goes_left a b = match kcmp (node_key a) (node_key b) with Lt => true | _ => false end.
Proof.
  intros Ha Hb. unfold goes_left, kcmp, node_key. cbn [fst snd]. rewrite Ha, Hb, <- memn2cmp_lex.
  destruct (Z.compare_spec (lr_key a) (lr_key b)) as [Ek|Ek|Ek].
  - rewrite Ek, Z.ltb_irrefl. apply Z.ltb_compare.
  - by rewrite (proj2 (Z.ltb_lt _ _) Ek).
  - by rewrite (proj2 (Z.ltb_ge _ _)), (proj2 (Z.ltb_lt _ _) Ek) by lia.
Qed.

(** The insertion puts the node between the smaller and the greater ones. *)
Lemma insert_value_spec z now t x n :
  (forall y m, nodes z !! y = Some m -> node_ok (burst conf) t0 now m) ->
  (forall y, y ∈ in_order t -> is_Some (nodes z !! y) /\ key_at (nodes z) y <> node_key n) ->
  StronglySorted klt (key_at (nodes z) <$> in_order t) -> lr_len n = zlen (lr_data n) ->
  exists t' l1 l2, ngx_http_limit_req_rbtree_insert_value z t x n = Some t' /\
    in_order t = l1 ++ l2 /\ in_order t' = l1 ++ x :: l2 /\
    (forall y, y ∈ l1 -> klt (key_at (nodes z) y) (node_key n)) /\
    (forall y, y ∈ l2 -> klt (node_key n) (key_at (nodes z) y)).
Proof.
  intros Hn. induction t as [|l IHl y r IHr]; intros Hd Hs Hlen; [by exists (Br Leaf x Leaf), [], []; set_solver|].
  apply sorted_node in Hs as (Hl & Hr & Hly & Hyr). cbn [in_order] in Hd.
  destruct (Hd y) as [[m Hy] Hne]; [set_solver|]. pose proof (key_at_node _ _ _ Hy) as Hk.
  cbn [ngx_http_limit_req_rbtree_insert_value]. unfold node_at. rewrite Hy. cbn [mbind option_bind].
  rewrite goes_left_klt by (done || apply (Hn _ _ Hy)). destruct (kcmp (node_key n) (node_key m)) eqn:Ec.
  - apply kcmp_eq in Ec. by rewrite Hk, Ec in Hne.
  - destruct IHl as (t' & l1 & l2 & E & El & Et & H1 & H2); [intros; apply Hd; set_solver|done..|].
    rewrite E. exists (Br t' y r), l1, (l2 ++ y :: in_order r). cbn [in_order mbind option_bind]. rewrite El, Et.
    split_and!; [done|by rewrite <- app_assoc|by rewrite <- app_assoc|done|].
    intros w [Hw|[->|Hw]%elem_of_cons]%elem_of_app; [by apply H2|by rewrite Hk|].
    etrans; [exact Ec|]. rewrite <- Hk. by apply Hyr.
  - apply klt_gt in Ec. destruct IHr as (t' & l1 & l2 & E & El & Et & H1 & H2); [intros; apply Hd; set_solver|done..|].
    rewrite E. exists (Br l y t'), (in_order l ++ y :: l1), l2. cbn [in_order mbind option_bind]. rewrite El, Et.
    split_and!; [done|by rewrite <- app_assoc|by rewrite <- app_assoc| |done].
    intros w [Hw|[->|Hw]%elem_of_cons]%elem_of_app; [|by rewrite Hk|by apply H1].
    etrans; [by apply Hly|by rewrite Hk].
Qed.

Lemma insert_node_spec now z K x :
  ok now z -> nodes z !! x = None -> zlen K < 256 -> t0 <= now -> 0 <= burst conf ->
  (forall y, y ∈ in_order (rbtree z) -> key_at (nodes z) y <> (ngx_crc32_short K, K)) ->
  exists z', insert_node z now (ngx_crc32_short K) K x = Some z' /\ ok now z' /\
    entries_of z' = <[K := (now, 0)]> (entries_of z).
Proof.
  intros Hz Hx HK Hnow Hb Hnew. pose proof (zlen_nonneg K).
  set (lr := mk_lr (ngx_crc32_short K) (u8 (zlen K)) K now 0).
  assert (Hlr : node_ok (burst conf) t0 now lr) by (split; cbn; try apply u8_id; unfold is_u_char; (done || lia)).
  destruct (insert_value_spec z now (rbtree z) x lr) as (t & l1 & l2 & E & Et & Et' & H1 & H2).
  { apply Hz. } { intros y Hy. split; [by apply Hz|by apply Hnew]. } { apply Hz. } { apply Hlr. }
  unfold insert_node. fold lr. rewrite E. cbn [mbind option_bind]. eexists. split; [done|].
  set (z' := mk_zone _ _ _).
  assert (Hfresh : forall y, y ∈ in_order (rbtree z) -> y <> x) by (intros y [m Hy]%(zn_dom _ _ _ _ Hz) ->; congruence).
  assert (Hok : ok now z').
  { unfold z'. split; cbn [rbtree queue nodes]; rewrite ?in_order_rebalance, ?Et'.
    - pose proof (zn_sorted _ _ _ _ Hz) as Hs. rewrite Et, fmap_app, StronglySorted_app in Hs. destruct Hs as (Hs & Hs1 & Hs2).
      assert (Hext : forall l : list Z, (forall y, y ∈ l -> y ∈ l1 ++ l2) -> key_at (<[x := lr]> (nodes z)) <$> l = key_at (nodes z) <$> l).
      { intros l Hl. apply key_at_ext. intros y Hy. rewrite lookup_insert_ne; [done|]. intros ->. apply (Hfresh y); [|done]. rewrite Et. by apply Hl. }
      assert (Hkx : key_at (<[x := lr]> (nodes z)) x = node_key lr) by (unfold key_at; by rewrite lookup_insert_eq).
      assert (Hky : forall y, y ∈ l1 ++ l2 -> key_at (<[x := lr]> (nodes z)) y = key_at (nodes z) y).
      { intros y Hy. specialize (Hext [y]). cbn in Hext. assert (Hg : key_at (<[x := lr]> (nodes z)) y :: [] = [key_at (nodes z) y]) by (apply Hext; set_solver). by inversion Hg. }
      apply sorted_node. rewrite !Hext by set_solver. rewrite Hkx. split_and!; [done|done| |].
      + intros y Hy. rewrite Hky by set_solver. by apply H1.
      + intros y Hy. rewrite Hky by set_solver. by apply H2.
    - rewrite (zn_queue _ _ _ _ Hz), Et. apply Permutation_middle.
    - intros y. rewrite lookup_insert_is_Some. pose proof (zn_dom _ _ _ _ Hz y) as Hy. rewrite Et in Hy.
      destruct (decide (x = y)) as [<-|]; [set_solver|]. rewrite elem_of_app, elem_of_cons in *. naive_solver.
    - intros y m [[_ <-]|[_ Hy]]%lookup_insert_Some; [done|]. by apply Hz in Hy. }
  split; [done|]. apply map_eq. intros K'. apply option_eq. intros v.
  rewrite (entries_spec now), lookup_insert_Some, (entries_spec now) by done. unfold z'. cbn [nodes]. split.
  - intros (y & m & [[<- <-]|[Hne Hy]]%lookup_insert_Some & <- & ->); [by left|].
    right. split; [|eauto]. intros ->. apply (Hnew y); [apply Hz; eauto|].
    rewrite (key_at_node _ _ _ Hy). unfold node_key. by rewrite (nd_key _ _ _ _ (zn_nodes _ _ _ _ Hz _ _ Hy)).
  - intros [(<- & <-)|(Hne & y & m & Hy & Hd & ->)].
    + exists x, lr. by rewrite lookup_insert_eq.
    + exists y, m. split; [|done]. rewrite lookup_insert_ne; [done|congruence].
Qed.
(** ** Expiration *)

(** The times and the excess are far from the width of the integers. *)
Record times_fit (now : Z) : Prop := {
  tf_rate : 0 < rate conf;
  tf_burst : 0 <= burst conf /\ burst conf * 1000 < 2 ^ 63;
  tf_time : 0 <= t0 <= now /\ now < 2 ^ 63;
  tf_product : rate conf * (now - t0) < 2 ^ 63
}.

Lemma lr_ms now n : times_fit now -> node_ok (burst conf) t0 now n ->
  ngx_abs (s64 (now - lr_last n)) = now - lr_last n.
Proof.
  intros Hf Hn. destruct Hf as [_ _ Ht _], (nd_last _ _ _ _ Hn). unfold ngx_abs. rewrite s64_id by lia.
  by rewrite (proj2 (Z.leb_le _ _)) by lia.
Qed.

Lemma leak_eq now n : times_fit now -> node_ok (burst conf) t0 now n ->
  leak conf now n = rate conf * (now - lr_last n) / 1000 /\ 0 <= leak conf now n < 2 ^ 62.
Proof.
  intros Hf Hn. unfold leak. cbv zeta. rewrite (lr_ms _ _ Hf Hn). destruct Hf as [Hr _ Ht Hp], (nd_last _ _ _ _ Hn).
  assert (0 <= rate conf * (now - lr_last n) <= rate conf * (now - t0)) by nia.
  rewrite (u64_id (now - _)), u64_id by lia. split; [done|].
  split; [apply Z.div_pos; lia|apply Z.div_lt_upper_bound; lia].
Qed.

(** An entry that may be forgotten: it was not used for a minute, and its excess is gone. *)
Definition idle (now : Z) (v : Z * Z) : Prop :=
  60000 <= now - v.1 /\ v.2 <= rate conf * (now - v.1) / 1000.

(** [m'] is [m] without some idle entries. *)
Definition forgets (now : Z) (m m' : gmap bytes (Z * Z)) : Prop :=
  forall K, m' !! K = m !! K \/ m' !! K = None /\ exists v, m !! K = Some v /\ idle now v.

Lemma forgets_refl now m : forgets now m m.
Proof. intros K. by left. Qed.

Lemma forgets_delete now m m' K v : m !! K = Some v -> idle now v -> forgets now (delete K m) m' -> forgets now m m'.
Proof.
  intros Hv Hi H K'. destruct (decide (K' = K)) as [->|Hne].
  - right. destruct (H K) as [E|(E & w & Hw & _)]; rewrite lookup_delete_eq in *; [eauto|done].
  - specialize (H K'). by rewrite lookup_delete_ne in H.
Qed.

Lemma limit_expire_spec fuel now z n :
  times_fit now -> 0 < n -> ok now z ->
  exists z', expire_loop conf fuel z now n = Some z' /\ ok now z' /\ forgets now (entries_of z) (entries_of z').
Proof.
  intros Hf. revert z n. induction fuel as [|fuel IH]; intros z n Hn Hz; cbn [expire_loop].
  - exists z. split_and!; [done|done|apply forgets_refl].
  - case_match; [|exists z; split_and!; [done|done|apply forgets_refl]].
    destruct (last (queue z)) as [x|] eqn:El; [|exists z; split_and!; [done|done|apply forgets_refl]].
    assert (Hin : x ∈ queue z).
    { apply last_Some in El as [l ->]. set_solver. }
    rewrite (zn_queue _ _ _ _ Hz) in Hin. apply Hz in Hin as [lr Hx]. unfold node_at. rewrite Hx. cbn [mbind option_bind].
    pose proof (zn_nodes _ _ _ _ Hz _ _ Hx) as Hlr. destruct (leak_eq _ _ Hf Hlr) as [Hle Hlb].
    rewrite (lr_ms _ _ Hf Hlr), (proj2 (Z.eqb_neq n 0)) by lia. cbn [negb andb].
    destruct (nd_excess _ _ _ _ Hlr). destruct (tf_burst _ Hf). rewrite s64_id by lia.
    destruct (Z.ltb_spec (now - lr_last lr) 60000); cbn [orb]; [exists z; split_and!; [done|done|apply forgets_refl]|].
    destruct (Z.ltb_spec 0 (lr_excess lr - leak conf now lr)); [exists z; split_and!; [done|done|apply forgets_refl]|].
    destruct (remove_node _ _ _ _ Hz Hx) as [Hok Hent]. fold (without x z).
    destruct (IH (without x z) (n + 1)) as (z' & E & Hok' & Hfg); [lia|done|].
    exists z'. split_and!; [exact E|done|]. rewrite Hent in Hfg. eapply forgets_delete; [|shelve|exact Hfg].
    apply (entries_spec now); [done|]. exists x, lr. split_and!; [done|done|reflexivity].
    Unshelve. split; cbn; lia.
Qed.
(** ** What a request is answered *)

(** The excess after one more request of a key, if the burst allows it. *)
Definition take_token (m : gmap bytes (Z * Z)) (now : Z) (K : bytes) : option Z :=
  match m !! K with
  | None => Some 0
  | Some (l, e) =>
      let e' := Z.max 0 (e - rate conf * (now - l) / 1000 + 1000) in
      if burst conf <? e' then None else Some e'
  end.

Definition answer_for (r : lr_request) (excess : option Z) : lr_answer :=
  match excess with
  | None => mk_answer NGX_HTTP_SERVICE_UNAVAILABLE true None
  | Some e =>
      if (e =? 0) || nodelay conf then mk_answer NGX_DECLINED true None
      else if negb (read_ok r) then mk_answer NGX_HTTP_INTERNAL_SERVER_ERROR true None
      else mk_answer NGX_AGAIN true (Some (e * 1000 / rate conf))
  end.

(** A request that is limited by the key [K]. *)
Record limited (r : lr_request) (K : bytes) : Prop := {
  lm_first : limit_req_set r = false;
  lm_zone : has_zone r = true;
  lm_key : vv r = Some K;
  lm_len : 0 < zlen K < 256
}.

Definition allocates (slab : lr_zone -> option Z) : Prop :=
  forall z, exists x, slab z = Some x /\ nodes z !! x = None.

(** The return code of a search that found the entry. *)
Definition excess_code (excess : option Z) : Z :=
  match excess with None => NGX_BUSY | Some e => if e =? 0 then NGX_OK else NGX_AGAIN end.

Lemma lookup_hit now z K v :
  times_fit now -> ok now z -> entries_of z !! K = Some v ->
  exists z' excess, ngx_http_limit_req_lookup conf z now (ngx_crc32_short K) K =
      Some (z', excess_code (take_token (entries_of z) now K), excess) /\
    (forall e, take_token (entries_of z) now K = Some e -> excess = e) /\
    ok now z' /\
    entries_of z' = match take_token (entries_of z) now K with
                    | None => entries_of z | Some e => <[K := (now, e)]> (entries_of z) end.
Proof.
  intros Hf Hz Hv. destruct (lookup_entry z now K Hz) as (o & E & Ho).
  unfold ngx_http_limit_req_lookup. rewrite E. cbn [mbind option_bind].
  destruct o as [x|]; [|by rewrite (proj1 Ho) in Hv]. destruct Ho as (n & Hx & Hd & He).
  unfold node_at. rewrite Hx. cbn [mbind option_bind]. unfold take_token. rewrite He.
  pose proof (zn_nodes _ _ _ _ Hz _ _ Hx) as Hn. destruct (leak_eq _ _ Hf Hn) as [<- Hlb].
  destruct (nd_excess _ _ _ _ Hn), (tf_burst _ Hf). rewrite s64_id by lia.
  set (e := lr_excess n - leak conf now n + 1000) in *.
  replace (if e <? 0 then 0 else e) with (Z.max 0 e) by (destruct (Z.ltb_spec e 0); lia).
  destruct (Z.ltb_spec (burst conf) (Z.max 0 e)) as [Hb|Hb].
  - do 2 eexists. split_and!; [reflexivity|done| |].
    + destruct (update_node now z x n n Hz Hx eq_refl Hn) as [Hok _]. by rewrite insert_id in Hok.
    + done.
  - pose (n' := n <| lr_excess := Z.max 0 e |> <| lr_last := now |>).
    destruct (update_node now z x n n' Hz Hx eq_refl) as [Hok Hent].
    { destruct Hn, Hf. split; cbn; lia || done. }
    eexists _, (Z.max 0 e). split_and!; [|by intros ? [= <-]|exact Hok|by rewrite Hent, Hd].
    cbn [excess_code]. by destruct (Z.max 0 e =? 0).
Qed.

Lemma after_lookup_answer now r m K :
  times_fit now -> (forall v, m !! K = Some v -> 0 <= v.2) ->
  forall excess, (forall e, take_token m now K = Some e -> excess = e) ->
  after_lookup conf r (excess_code (take_token m now K)) excess = Some (answer_for r (take_token m now K)).
Proof.
  intros [Hr Hb _ _] Hm excess He. unfold after_lookup, answer_for, excess_code.
  destruct (take_token m now K) as [e|] eqn:Et; [|done]. rewrite (He e eq_refl).
  assert (0 <= e <= burst conf).
  { unfold take_token in Et. destruct (m !! K) as [[l e0]|]; [|inversion Et; lia].
    destruct (Z.ltb_spec (burst conf) (Z.max 0 (e0 - rate conf * (now - l) / 1000 + 1000))); [done|]. inversion Et. lia. }
  destruct (Z.eqb_spec e 0) as [->|]; cbn [orb]; [done|]. cbn. destruct (nodelay conf); [done|].
  destruct (read_ok r); [|done]. cbn [negb]. rewrite (proj2 (Z.eqb_neq (rate conf) 0)) by lia. by rewrite u64_id by lia.
Qed.

Lemma handler_limited slab now z r K :
  times_fit now -> ok now z -> limited r K -> allocates slab ->
  exists m z', forgets now (entries_of z) m /\
    ngx_http_limit_req_handler conf slab now z r = Some (z', answer_for r (take_token m now K)) /\ ok now z' /\
    entries_of z' = match take_token m now K with None => m | Some e => <[K := (now, e)]> m end.
Proof.
  intros Hf Hz [H1 H2 H3 H4] Hslab. unfold ngx_http_limit_req_handler. rewrite H1, H2, H3. cbn [negb].
  rewrite (proj2 (Z.eqb_neq (zlen K) 0)), (proj2 (Z.ltb_ge 65535 (zlen K))) by lia.
  destruct (limit_expire_spec 3 now z 1 Hf ltac:(lia) Hz) as (z1 & E1 & Hz1 & Hfg).
  unfold ngx_http_limit_req_expire. rewrite E1. cbn [mbind option_bind].
  exists (entries_of z1). destruct (entries_of z1 !! K) as [v|] eqn:Ev.
  - destruct (lookup_hit now z1 K v Hf Hz1 Ev) as (z2 & excess & E2 & He & Hz2 & Hent).
    exists z2. split; [done|]. rewrite E2. cbn [mbind option_bind].
    assert (Hc : excess_code (take_token (entries_of z1) now K) =? NGX_DECLINED = false).
    { unfold excess_code. destruct (take_token _ _ _) as [e|]; [|done]. by destruct (e =? 0). }
    rewrite Hc, (after_lookup_answer now); [done|done| |done].
    intros w (x & n & Hx & _ & ->)%(entries_spec now); [|done]. apply (zn_nodes _ _ _ _ Hz1 _ _ Hx).
  - destruct (lookup_entry z1 now K Hz1) as (o & E2 & Ho).
    unfold ngx_http_limit_req_lookup. rewrite E2. cbn [mbind option_bind].
    destruct o as [x|]; [destruct Ho as (n & _ & _ & E); by rewrite E in Ev|]. destruct Ho as [_ Hnew].
    cbn [mbind option_bind]. change (NGX_DECLINED =? NGX_DECLINED) with true. cbn iota.
    destruct (Hslab z1) as (x & -> & Hx).
    destruct (insert_node_spec now z1 K x) as (z2 & -> & Hz2 & Hent); [done|done|lia|apply Hf|apply Hf|done|].
    exists z2. unfold take_token. rewrite Ev. done.
Qed.
(** ** Runs *)

(** A request at its time, with the allocator as it then is. *)
Record event := mk_event { at_time : Z; alloc : lr_zone -> option Z; req : lr_request }.

(** Requests handled one after the other, with their answers. *)
Fixpoint run (z : lr_zone) (evs : list event) : option (lr_zone * list lr_answer) :=
  match evs with
  | [] => Some (z, [])
  | ev :: evs =>
      '(z, a) ← ngx_http_limit_req_handler conf (alloc ev) (at_time ev) z (req ev);
      '(z, answers) ← run z evs;
      Some (z, a :: answers)
  end.

(** The requests that are limited by [K] and get through, at once or after a delay. *)
Definition passes (K : bytes) (ev : event) (a : lr_answer) : bool :=
  negb (limit_req_set (req ev)) && has_zone (req ev) && bool_decide (vv (req ev) = Some K) &&
  negb (rc a =? NGX_HTTP_SERVICE_UNAVAILABLE).
Fixpoint passed (K : bytes) (evs : list event) (answers : list lr_answer) : Z :=
  match evs, answers with
  | ev :: evs, a :: answers => (if passes K ev a then 1 else 0) + passed K evs answers
  | _, _ => 0
  end.

(** The keys are not longer than a node can tell, and the memory suffices. *)
Record event_ok (ev : event) : Prop := {
  ev_key K : vv (req ev) = Some K -> zlen K < 256;
  ev_alloc : allocates (alloc ev)
}.

(** Events in the order of their time, between [a] and [b]. *)
Fixpoint in_time (a b : Z) (evs : list event) : Prop :=
  match evs with
  | [] => a <= b
  | ev :: evs => a <= at_time ev /\ in_time (at_time ev) b evs
  end.

Lemma in_time_le a b evs : in_time a b evs -> a <= b.
Proof. revert a. induction evs as [|ev evs IH]; intros a; cbn; [done|]. intros [H1 H2%IH]. lia. Qed.

(** A request that no limit concerns. *)
Lemma handler_unlimited slab now z r :
  (forall K, vv r = Some K -> zlen K < 256) -> (forall K, ~ limited r K) ->
  ngx_http_limit_req_handler conf slab now z r = Some (z, mk_answer NGX_DECLINED (limit_req_set r) None).
Proof.
  intros Hk Hn. unfold ngx_http_limit_req_handler. destruct (limit_req_set r) eqn:E1; [done|].
  destruct (has_zone r) eqn:E2; [|done]. destruct (vv r) as [K|] eqn:E3; [|done]. cbn [negb].
  destruct (Z.eqb_spec (zlen K) 0); [done|]. destruct (Hn K). split; [done..|].
  pose proof (zlen_nonneg K). specialize (Hk K eq_refl). lia.
Qed.

Lemma limited_dec r : (forall K, vv r = Some K -> zlen K < 256) -> {K | limited r K} + {forall K, ~ limited r K}.
Proof.
  intros Hk. destruct (limit_req_set r) eqn:E1; [right; intros K [? _ _ _]; congruence|].
  destruct (has_zone r) eqn:E2; [|right; intros K [_ ? _ _]; congruence].
  destruct (vv r) as [K|] eqn:E3; [|right; intros K [_ _ ? _]; congruence].
  destruct (decide (zlen K = 0)) as [E4|E4]; [right; intros K' [_ _ Hv Hl]; assert (K' = K) as -> by congruence; lia|].
  left. exists K. split; [done..|]. pose proof (zlen_nonneg K). specialize (Hk K eq_refl). lia.
Defined.

(** *** The account of a key

    In a window that begins at [a], with [n] requests let through up to [t]: a request costs
    10^6, a millisecond gives [rate] back; what the entry of the key shows as excess is the
    debt, and the entries that were forgotten, at most one in a minute, gave up 10^6 each. *)
Definition account (a t : Z) (o : option (Z * Z)) (n : Z) : Prop :=
  exists forgotten, 0 <= forgotten /\
  match o with
  | Some (l, e) =>
      10 ^ 6 * n <= Z.max (1000 * e - rate conf * (t - l)) (- 10 ^ 6) + 10 ^ 6 + rate conf * (t - a) + 10 ^ 6 * forgotten /\
      60000 * forgotten <= Z.max 0 (l - a) /\ (l < a -> n = 0)
  | None => 10 ^ 6 * n <= rate conf * (t - a) + 10 ^ 6 * forgotten /\ 60000 * forgotten <= t - a
  end.

Lemma account_later a t t' o n : 0 < rate conf -> t <= t' -> account a t o n -> account a t' o n.
Proof.
  intros Hr Ht (f & Hf & H). exists f. split; [done|].
  assert (0 <= rate conf * (t' - t)) by nia. destruct o as [[l e]|]; [|lia].
  destruct H as (H1 & H2 & H3). split_and!; [|done|done]. lia.
Qed.

Lemma account_forget a t v n : 0 < rate conf -> a <= t -> 0 <= n -> idle t v -> account a t (Some v) n -> account a t None n.
Proof.
  destruct v as [l e]. intros Hr Ht Hn [Hi1 Hi2] (f & Hf & H1 & H2 & H3). cbn [fst snd] in *.
  assert (1000 * e <= rate conf * (t - l)) by (pose proof (Z.mul_div_le (rate conf * (t - l)) 1000); lia).
  destruct (Z.lt_ge_cases l a) as [Hl|Hl].
  - exists 0. rewrite (H3 Hl). split; [done|]. nia.
  - exists (f + 1). split; [lia|]. split; lia.
Qed.

Lemma account_token a t m K n e :
  0 < rate conf -> a <= t -> (forall v, m !! K = Some v -> v.1 <= t) ->
  account a t (m !! K) n -> take_token m t K = Some e -> account a t (Some (t, e)) (n + 1).
Proof.
  intros Hr Ht Hm (f & Hf & H) Et. unfold take_token in Et. exists f. split; [done|]. destruct (m !! K) as [[l e0]|].
  - specialize (Hm _ eq_refl). cbn [fst] in Hm. destruct H as (H1 & H2 & H3). destruct (burst conf <? _); [done|]. injection Et as <-.
    pose proof (Z.mul_div_le (rate conf * (t - l)) 1000 ltac:(lia)). split_and!; [|lia|lia].
    destruct (Z.max_spec (e0 - rate conf * (t - l) / 1000 + 1000) 0); lia.
  - injection Et as <-. split_and!; lia.
Qed.

Lemma account_bound a b o n : 0 < rate conf -> a <= b -> 0 <= burst conf ->
  (forall v, o = Some v -> v.1 <= b /\ v.2 <= burst conf) -> account a b o n ->
  1000 * n <= 1000 * (1 + (b - a) / 60000) + burst conf + rate conf * (b - a) / 1000.
Proof.
  intros Hr Hab Hb Ho (f & Hf & H).
  assert (Hk : f <= (b - a) / 60000).
  { apply Z.div_le_lower_bound; [lia|]. destruct o as [[l e]|]; [|lia]. specialize (Ho _ eq_refl). cbn in Ho. lia. }
  assert (H6 : 10 ^ 6 * n <= 10 ^ 6 * (1 + f) + 1000 * burst conf + rate conf * (b - a)).
  { destruct o as [[l e]|]; [|lia]. specialize (Ho _ eq_refl). cbn [fst snd] in Ho. destruct H as (H1 & _ & _). nia. }
  assert (1000 * n - 1000 * (1 + f) - burst conf <= rate conf * (b - a) / 1000); [|lia].
  apply Z.div_le_lower_bound; lia.
Qed.
Lemma entry_bounds now z K v :
  ok now z -> entries_of z !! K = Some v -> v.1 <= now /\ 0 <= v.2 <= burst conf.
Proof.
  intros Hz (x & n & Hx & _ & ->)%(entries_spec now); [|done].
  destruct (zn_nodes _ _ _ _ Hz _ _ Hx). cbn [fst snd]. lia.
Qed.

Lemma answer_refused r o : rc (answer_for r o) =? NGX_HTTP_SERVICE_UNAVAILABLE = bool_decide (o = None).
Proof.
  unfold answer_for. destruct o as [e|]; [|done]. destruct ((e =? 0) || nodelay conf); [done|].
  by destruct (read_ok r).
Qed.

(** One request keeps the account of every key. *)
Lemma event_account a t z ev K n :
  times_fit (at_time ev) -> event_ok ev -> a <= t <= at_time ev -> 0 <= n -> 0 < zlen K -> ok t z ->
  account a t (entries_of z !! K) n ->
  exists z' ans, ngx_http_limit_req_handler conf (alloc ev) (at_time ev) z (req ev) = Some (z', ans) /\
    ok (at_time ev) z' /\
    account a (at_time ev) (entries_of z' !! K) (n + if passes K ev ans then 1 else 0).
Proof.
  intros Hf [Hkey Hal] Ht Hn HK0 Hz Ha. set (now := at_time ev) in *.
  apply (zone_later t now) in Hz; [|lia].
  assert (Hr : 0 < rate conf) by apply Hf. apply (account_later a t now) in Ha; [|lia|lia]. unfold passes.
  destruct (limited_dec (req ev) Hkey) as [[K' HK']|Hun].
  - destruct (handler_limited (alloc ev) now z (req ev) K' Hf Hz HK' Hal) as (m & z' & Hfg & E & Hz' & Hent).
    exists z', (answer_for (req ev) (take_token m now K')). split_and!; [done|done|].
    rewrite (lm_first _ _ HK'), (lm_zone _ _ HK'), (lm_key _ _ HK'), answer_refused. cbn [negb andb].
    assert (Hm : account a now (m !! K) n).
    { destruct (Hfg K) as [->|(-> & v & Hv & Hi)]; [done|]. rewrite Hv in Ha. by eapply account_forget; [..|exact Ha]; [|lia|..]. }
    rewrite Hent. destruct (decide (K' = K)) as [->|Hne].
    + rewrite bool_decide_true by done. destruct (take_token m now K) as [e|] eqn:Et.
      * rewrite bool_decide_false by done. cbn [negb andb]. rewrite lookup_insert_eq.
        eapply account_token; [done|lia| |exact Hm|exact Et].
        intros v Hv. destruct (Hfg K) as [E'|[E' _]]; [|congruence]. apply (entry_bounds now z K v Hz). congruence.
      * rewrite bool_decide_true by done. by rewrite Z.add_0_r.
    + rewrite bool_decide_false by congruence. cbn [andb]. rewrite Z.add_0_r.
      destruct (take_token m now K'); [|done]. by rewrite lookup_insert_ne.
  - exists z, (mk_answer NGX_DECLINED (limit_req_set (req ev)) None). split_and!; [by apply handler_unlimited|done|].
    destruct (limit_req_set (req ev)) eqn:E1; cbn [negb andb]; [by rewrite Z.add_0_r|].
    destruct (has_zone (req ev)) eqn:E2; cbn [andb]; [|by rewrite Z.add_0_r].
    case_bool_decide as E3; cbn [andb]; [|by rewrite Z.add_0_r].
    destruct (Hun K). split; [done..|]. specialize (Hkey K E3). lia.
Qed.

Lemma run_account a b K evs : forall t z n,
  times_fit b -> 0 < zlen K -> Forall event_ok evs -> t0 <= a <= t -> in_time t b evs -> 0 <= n -> ok t z ->
  account a t (entries_of z !! K) n ->
  exists z' answers, run z evs = Some (z', answers) /\ ok b z' /\ length answers = length evs /\
    account a b (entries_of z' !! K) (n + passed K evs answers).
Proof.
  induction evs as [|ev evs IH]; intros t z n Hf HK Hev Ht Hin Hn Hz Ha; cbn [run].
  - exists z, []. cbn in *. rewrite Z.add_0_r. pose proof (tf_rate _ Hf).
    split_and!; [done|by eapply zone_later|done|]. by eapply account_later.
  - apply Forall_cons in Hev as [He Hev]. destruct Hin as [Hle Hin]. pose proof (in_time_le _ _ _ Hin).
    assert (Hft : times_fit (at_time ev)).
    { destruct Hf as [H1 H2 H3 H4]. split; [done|done|lia|nia]. }
    destruct (event_account a t z ev K n Hft He) as (z1 & ans & -> & Hz1 & Ha1); [lia|done..|].
    set (d := if passes K ev ans then 1 else 0) in *. assert (0 <= d) by (unfold d; case_match; lia).
    destruct (IH (at_time ev) z1 (n + d)) as (z2 & answers & E & Hz2 & Hl & Ha2); [done..|lia|done|lia|done|done|].
    cbn [mbind option_bind]. rewrite E. exists z2, (ans :: answers). cbn [mbind option_bind passed length].
    split_and!; [done|done|congruence|]. fold d. by rewrite Z.add_assoc.
Qed.
End Zone.


(** C9: the rate is kept.  In every window of time, from any state a zone can be in, for
    requests in the order of their times whose keys have at most 255 bytes, with memory for
    every new entry (no entry is forced out), the number of requests of one key that are let
    through is at most the burst and one, what the rate allows in the window, and one more a
    minute (an entry that is idle for a minute may be forgotten, and the next request of its
    key is then free). *)
Theorem limit_req_rate `{TreeOps} conf t0 a b z evs K :
  times_fit conf t0 b -> t0 <= a -> zone_ok (burst conf) t0 a z ->
  Forall event_ok evs -> in_time a b evs -> 0 < zlen K ->
  exists z' answers, run conf z evs = Some (z', answers) /\ zone_ok (burst conf) t0 b z' /\
    length answers = length evs /\
    1000 * passed K evs answers <= 1000 * (1 + (b - a) / 60000) + burst conf + rate conf * (b - a) / 1000.
Proof.
  intros Hf Ha Hz Hev Hin HK. pose proof (in_time_le _ _ _ Hin).
  destruct (run_account conf t0 a b K evs a z 0) as (z' & answers & E & Hz' & Hl & Hacc); [done|done|done|lia|done|lia|done| |].
  - exists 0. split; [lia|]. destruct (entries_of z !! K) as [[l e]|]; lia.
  - exists z', answers. split_and!; [done|done|done|]. apply (account_bound conf a b (entries_of z' !! K)); [apply Hf|done|apply Hf| |done].
    intros v Hv. destruct (entry_bounds _ _ _ _ _ _ Hz' Hv). lia.
Qed.

(** ** Concrete runs *)

(** A tree without colors, that is rebuilt on deletion. *)
Definition plain (l : list Z) : lr_tree := foldr (fun x t => Br Leaf x t) Leaf l.

Lemma in_order_plain l : in_order (plain l) = l.
Proof. induction l as [|x l IH]; [done|]. change (x :: in_order (plain l) = x :: l). by rewrite IH. Qed.

Definition plain_ops : TreeOps.
Proof.
  refine {| rebalance := fun t => t; tree_delete := fun x t => plain (filter (fun y => y <> x) (in_order t)) |}.
  - done.
  - intros. apply in_order_plain.
Defined.

(** An allocator that always finds an address. *)
Definition any_address (z : lr_zone) : option Z := Some (fresh (dom (nodes z))).

Lemma any_address_allocates : allocates any_address.
Proof. intros z. exists (fresh (dom (nodes z))). split; [done|]. apply not_elem_of_dom, is_fresh. Qed.

Definition empty_zone : lr_zone := mk_zone Leaf [] ∅.

Lemma empty_zone_ok burst t0 now : zone_ok burst t0 now empty_zone.
Proof.
  split; cbn.
  - constructor.
  - done.
  - intros x. rewrite lookup_empty. split; [by intros ?%elem_of_nil|by intros []].
  - intros x n Hx. by rewrite lookup_empty in Hx.
Qed.

(** Two requests a second, a burst of one, and a client that sends a request every 100
    milliseconds: of eleven, four get through, as many as the bound says. *)
Definition two_a_second : lr_conf := mk_conf 2000 1000 false.
Definition client : lr_request := mk_request false true (Some (bs "10.0.0.1")) true.
Definition every_100ms : list event :=
  (fun i => mk_event (Z.of_nat i * 100) any_address client) <$> seq 0 11.


Lemma limit_req_rate_witness :
  exists z' answers, run (T := plain_ops) two_a_second empty_zone every_100ms = Some (z', answers) /\
    1000 * passed (bs "10.0.0.1") every_100ms answers <= 4000.
Proof.
  destruct (limit_req_rate (H := plain_ops) two_a_second 0 0 1000 empty_zone every_100ms (bs "10.0.0.1"))
    as (z' & answers & E & _ & _ & Hn).
  - split; cbn; lia.
  - lia.
  - apply empty_zone_ok.
  - apply Forall_fmap, Forall_forall. intros i _. split; [intros K [= <-]; by vm_compute|exact any_address_allocates].
  - by vm_compute.
  - by vm_compute.
  - exists z', answers. split; [exact E|exact Hn].
Defined.

Example four_of_eleven :
  (fun o => match o with Some (_, answers) => rc <$> answers | None => [] end)
    (run (T := plain_ops) two_a_second empty_zone every_100ms) =
  [NGX_DECLINED; NGX_AGAIN; 503; 503; 503; NGX_AGAIN; 503; 503; 503; 503; NGX_AGAIN].
Proof. vm_compute. reflexivity. Qed.

(** The length of a key is cut to one byte in the node, so that a key of more than 255 bytes
    is never found again: no limit is applied to it. *)
Example long_key_not_limited :
  let long := mk_request false true (Some (replicate 300 "x")) true in
  (fun o => match o with Some (_, answers) => rc <$> answers | None => [] end)
    (run (T := plain_ops) two_a_second empty_zone ((fun _ => mk_event 0 any_address long) <$> seq 0 5)) =
  replicate 5 NGX_DECLINED.
Proof. vm_compute. reflexivity. Qed.
