(* ===== verification/Phases.v ===== *)
(** The phases of the processing of a request: the array of handlers that
    src/http/ngx_http.c builds, and the engine of src/http/ngx_http_core_module.c that runs
    it.  What a request is besides the members that the engine uses is the type [X]; the
    handlers of the modules, the search of the location and the file system are parameters. *)
From S2P Require Import Prelude CString UriArgs Locations.

(** ** Data *)

(** The members of [ngx_http_core_loc_conf_t] that the phases use; [try_files] is a list of
    the names to try, the last of which is the fallback, and the code after it. *)
Record try_file := mk_try_file { tf_values : option Z; tf_name : bytes; test_dir : bool }.
Record core_loc_conf := mk_core_loc_conf {
  clcf_name : bytes; clcf_internal : bool; client_max_body_size : Z; satisfy : Z;
  limit_except : Z; limit_except_loc_conf : Z; clcf_handler : option Z;
  try_files : option (list try_file * Z); alias : Z; clcf_regex : bool;
  error_log_file : Z; error_log_level : Z; clcf_sendfile : bool; client_body_in_file_only : Z;
  client_body_in_single_buffer : bool; keepalive_timeout : Z; keepalive_requests : Z;
  keepalive_disable : Z; clcf_tcp_nopush : bool; clcf_limit_rate : Z
}.

(** The functions [write_event_handler] is set to. *)
Inductive write_handler := Run_phases | Request_empty | Other_handler.

(** [ctx] are the contexts of the modules, 0 where they are NULL, [cache] that of the cache, and
    [main_count] is [r->main->count], of 8 bits. *)
Record request (X : Type) := mk_request {
  uri : bytes; args : bytes; exten : bytes; method : Z; http_version : Z;
  internal : bool; is_main : bool; uri_changed : bool; valid_location : bool;
  add_uri_to_alias : bool; discard_body : bool; content_length_n : Z; connection_type : Z;
  msie6 : bool; safari : bool; access_code : Z; loc_conf : Z; content_handler : option Z;
  www_authenticate : option Z; location : option bytes; keepalive : bool;
  lingering_close : bool; limit_rate : Z; write_event_handler : write_handler;
  body_in_file_only : bool; body_in_persistent_file : bool; body_in_clean_file : bool;
  body_file_log_level : Z; body_in_single_buf : bool;
  connection_requests : Z; log_file : Z; log_level : Z; sendfile : bool; tcp_nopush_disabled : bool;
  ctx : list Z; cache : option Z; main_count : Z;
  rest : X
}.
Arguments mk_request {X}. Arguments uri {X}. Arguments args {X}. Arguments exten {X}.
Arguments method {X}. Arguments http_version {X}. Arguments internal {X}. Arguments is_main {X}.
Arguments uri_changed {X}. Arguments valid_location {X}. Arguments add_uri_to_alias {X}.
Arguments discard_body {X}. Arguments content_length_n {X}. Arguments connection_type {X}.
Arguments msie6 {X}. Arguments safari {X}. Arguments access_code {X}. Arguments loc_conf {X}.
Arguments content_handler {X}. Arguments www_authenticate {X}. Arguments location {X}.
Arguments keepalive {X}. Arguments lingering_close {X}. Arguments limit_rate {X}.
Arguments write_event_handler {X}. Arguments body_in_file_only {X}.
Arguments body_in_persistent_file {X}. Arguments body_in_clean_file {X}.
Arguments body_file_log_level {X}. Arguments body_in_single_buf {X}.
Arguments connection_requests {X}. Arguments log_file {X}. Arguments log_level {X}.
Arguments sendfile {X}. Arguments tcp_nopush_disabled {X}. Arguments ctx {X}.
Arguments cache {X}. Arguments main_count {X}. Arguments rest {X}.
#[export] Instance rebuild_request {X} : Rebuild (request X) := fun r =>
  mk_request (uri r) (args r) (exten r) (method r) (http_version r) (internal r) (is_main r)
    (uri_changed r) (valid_location r) (add_uri_to_alias r) (discard_body r) (content_length_n r)
    (connection_type r) (msie6 r) (safari r) (access_code r) (loc_conf r) (content_handler r)
    (www_authenticate r) (location r) (keepalive r) (lingering_close r) (limit_rate r)
    (write_event_handler r) (body_in_file_only r) (body_in_persistent_file r)
    (body_in_clean_file r) (body_file_log_level r) (body_in_single_buf r)
    (connection_requests r) (log_file r) (log_level r) (sendfile r) (tcp_nopush_disabled r)
    (ctx r) (cache r) (main_count r) (rest r).

Definition NGX_HTTP_CONNECTION_CLOSE : Z := 1.
Definition NGX_HTTP_CONNECTION_KEEP_ALIVE : Z := 2.
Definition NGX_HTTP_MOVED_PERMANENTLY : Z := 301.
Definition NGX_HTTP_UNAUTHORIZED : Z := 401.
Definition NGX_HTTP_NOT_FOUND : Z := 404.
Definition NGX_HTTP_REQUEST_ENTITY_TOO_LARGE : Z := 413.
Definition NGX_HTTP_INTERNAL_SERVER_ERROR : Z := 500.
Definition NGX_HTTP_POST : Z := 8.
Definition NGX_HTTP_SATISFY_ALL : Z := 0.
Definition NGX_HTTP_SATISFY_ANY : Z := 1.
Definition NGX_HTTP_KEEPALIVE_DISABLE_MSIE6 : Z := 4.
Definition NGX_HTTP_KEEPALIVE_DISABLE_SAFARI : Z := 8.
Definition NGX_HTTP_REQUEST_BODY_FILE_CLEAN : Z := 2.
Definition NGX_LOG_WARN : Z := 5.
Definition NGX_LOG_NOTICE : Z := 6.
Definition NGX_LOG_DEBUG_CONNECTION : Z := 0x80000000.

(** ** The array of handlers *)

Inductive ngx_http_phases :=
  | NGX_HTTP_POST_READ_PHASE | NGX_HTTP_SERVER_REWRITE_PHASE | NGX_HTTP_FIND_CONFIG_PHASE
  | NGX_HTTP_REWRITE_PHASE | NGX_HTTP_POST_REWRITE_PHASE | NGX_HTTP_PREACCESS_PHASE
  | NGX_HTTP_ACCESS_PHASE | NGX_HTTP_POST_ACCESS_PHASE | NGX_HTTP_TRY_FILES_PHASE
  | NGX_HTTP_CONTENT_PHASE | NGX_HTTP_LOG_PHASE.

(** The phases below [NGX_HTTP_LOG_PHASE]. *)
Definition phases_before_log : list ngx_http_phases :=
  [NGX_HTTP_POST_READ_PHASE; NGX_HTTP_SERVER_REWRITE_PHASE; NGX_HTTP_FIND_CONFIG_PHASE;
   NGX_HTTP_REWRITE_PHASE; NGX_HTTP_POST_REWRITE_PHASE; NGX_HTTP_PREACCESS_PHASE;
   NGX_HTTP_ACCESS_PHASE; NGX_HTTP_POST_ACCESS_PHASE; NGX_HTTP_TRY_FILES_PHASE;
   NGX_HTTP_CONTENT_PHASE].

Inductive checker_t :=
  | generic_phase | rewrite_phase | find_config_phase | post_rewrite_phase | access_phase
  | post_access_phase | try_files_phase | content_phase.

(** [handler] and [next] are 0 where the code leaves them so. *)
Record ngx_http_phase_handler_t := mk_ph { checker : checker_t; handler : Z; next : nat }.

(** [ngx_http_phase_engine_t]; the array ends with a NULL checker. *)
Record ngx_http_phase_engine_t := mk_engine {
  handlers : list ngx_http_phase_handler_t; server_rewrite_index : nat; location_rewrite_index : nat
}.

Section Init.
(** [cmcf->phases[i].handlers], in the order the modules registered them, and
    [cmcf->try_files]. *)
Context (phases : ngx_http_phases -> list Z) (use_try_files : bool).

Definition count_if (b : bool) : nat := if b then 1%nat else 0%nat.
Definition use_rewrite : bool := negb (bool_decide (phases NGX_HTTP_REWRITE_PHASE = [])).
Definition use_access : bool := negb (bool_decide (phases NGX_HTTP_ACCESS_PHASE = [])).

(** How many elements are allocated. *)
Definition phase_count : nat :=
  fold_left (fun n i => (n + length (phases i))%nat) phases_before_log
    (count_if use_rewrite + count_if use_access + count_if use_try_files + 1)%nat.

(** The variables of the loop over the phases; the indexes are -1 until they are set. *)
Record init_vars := mk_init {
  ph : list ngx_http_phase_handler_t; n : nat; find_config_index : nat;
  sr_index : option nat; lr_index : option nat
}.
#[local] Instance rebuild_init : Rebuild init_vars := fun v =>
  mk_init (ph v) (n v) (find_config_index v) (sr_index v) (lr_index v).

Definition put (e : ngx_http_phase_handler_t) (v : init_vars) : init_vars := v <| ph := ph v ++ [e] |>.
Definition count (k : nat) (v : init_vars) : init_vars := v <| n := (n v + k)%nat |>.

(** After the [switch]: the handlers of the phase, the last registered first. *)
Definition put_handlers (i : ngx_http_phases) (c : checker_t) (v : init_vars) : init_vars :=
  let v := count (length (phases i)) v in
  fold_left (fun v h => put (mk_ph c h (n v)) v) (rev (phases i)) v.

Definition init_phase (v : init_vars) (i : ngx_http_phases) : init_vars :=
  match i with
  | NGX_HTTP_SERVER_REWRITE_PHASE =>
      let v := if is_some (sr_index v) then v else v <| sr_index := Some (n v) |> in
      put_handlers i rewrite_phase v
  | NGX_HTTP_FIND_CONFIG_PHASE =>
      let v := v <| find_config_index := n v |> in
      count 1 (put (mk_ph find_config_phase 0 0) v)
  | NGX_HTTP_REWRITE_PHASE =>
      let v := if is_some (lr_index v) then v else v <| lr_index := Some (n v) |> in
      put_handlers i rewrite_phase v
  | NGX_HTTP_POST_REWRITE_PHASE =>
      if use_rewrite then count 1 (put (mk_ph post_rewrite_phase 0 (find_config_index v)) v) else v
  | NGX_HTTP_ACCESS_PHASE => put_handlers i access_phase (count 1 v)
  | NGX_HTTP_POST_ACCESS_PHASE => if use_access then put (mk_ph post_access_phase 0 (n v)) v else v
  | NGX_HTTP_TRY_FILES_PHASE => if use_try_files then count 1 (put (mk_ph try_files_phase 0 0) v) else v
  | NGX_HTTP_CONTENT_PHASE => put_handlers i content_phase v
  | _ => put_handlers i generic_phase v
  end.

Definition ngx_http_init_phase_handlers : ngx_http_phase_engine_t :=
  let v := fold_left init_phase phases_before_log (mk_init [] 0 0 None None) in
  mk_engine (ph v) (default 0%nat (sr_index v)) (default 0%nat (lr_index v)).
End Init.

(** ** The engine *)

(** What a handler of a module does: it returns a code, or the code of an internal redirect
    or of the switch to a named location that it makes at the end ([NGX_DONE]). *)
Inductive handled :=
  | Returns (rc : Z) | Redirects (uri : bytes) (args : option bytes) | Switches (name : bytes).

(** The state of a request in the engine; [uri_changes] is a 4-bit field. *)
Record state (X : Type) := mk_state { phase_handler : nat; uri_changes : Z; req : request X }.
Arguments mk_state {X}. Arguments phase_handler {X}. Arguments uri_changes {X}. Arguments req {X}.
#[export] Instance rebuild_state {X} : Rebuild (state X) := fun s =>
  mk_state (phase_handler s) (uri_changes s) (req s).

(** How the loop over the array ends: a handler waits for an event, the request is finalized
    with a code, or the array ends. *)
Inductive outcome (X : Type) :=
  | Waits (s : state X) | Finalized (rc : Z) (s : state X) | Ended (s : state X).
Arguments Waits {X}. Arguments Finalized {X}. Arguments Ended {X}.

(** What a checker does: [NGX_AGAIN], or [NGX_OK] with how it ends. *)
Inductive checked (X : Type) := Again (s : state X) | Stops (o : outcome X).
Arguments Again {X}. Arguments Stops {X}.

(** What the engine is used with: the handlers by their pointers, with the index at which they
    are called; what [ngx_http_core_find_location] gives ([None]: it fails) for a path from a
    location on; the configurations by their pointers, and that of the server; its named
    locations; whether the pool has memory; the root of the paths of a location with the room
    it leaves, or NULL; the value of a name with variables; whether a file is there, and is a
    directory; whether the system has sendfile; what is left of a request when its body is read
    from the connection and dropped.  No handler changes which request is the main
    one. *)
Class Server (X : Type) := {
  call : Z -> nat -> request X -> handled * request X;
  call_main h i r : is_main (call h i r).2 = is_main r;
  find_location : bytes -> Z -> option (Z * Z);
  conf : Z -> core_loc_conf;
  srv_loc_conf : Z;
  named_locations : list (bytes * Z);
  pool_ok : request X -> bool;
  map_uri_to_path : request X -> Z -> option (bytes * Z);
  evaluate : Z -> request X -> bytes;
  open_file : bytes -> option bool;
  io_sendfile : bool;
  discard_input : request X -> request X
}.

Section Engine.
Context `{Server X} (engine : ngx_http_phase_engine_t).

Definition clcf (r : request X) : core_loc_conf := conf (loc_conf r).

(** [r->main->count++] *)
Definition count_up (r : request X) : request X := r <| main_count := u8 (main_count r + 1) |>.

(** [r->uri_changes--] *)
Definition u4_dec (v : Z) : Z := (v - 1) mod 2 ^ 4.

(** *** [ngx_http_set_exten] *)

(** The loop from the character [i] down to the third; [prev] is the one before. *)
Fixpoint exten_loop (i : nat) (u : bytes) : bytes :=
  match i with
  | S (S _ as k) =>
      if (at_ u (Z.of_nat i) =? ".") && negb (at_ u (Z.of_nat k) =? "/") then drop (S i) u
      else if at_ u (Z.of_nat i) =? "/" then []
      else exten_loop k u
  | _ => []
  end.
Definition ngx_http_set_exten (r : request X) : request X :=
  r <| exten := exten_loop (length (uri r) - 1) (uri r) |>.

(** *** [ngx_http_update_location_config] *)

Definition keeps_alive (c : core_loc_conf) (r : request X) : bool :=
  if keepalive_timeout c =? 0 then false
  else if keepalive_requests c <=? connection_requests r then false
  else if msie6 r && (method r =? NGX_HTTP_POST)
          && negb (Z.land (keepalive_disable c) NGX_HTTP_KEEPALIVE_DISABLE_MSIE6 =? 0) then false
  else if safari r && negb (Z.land (keepalive_disable c) NGX_HTTP_KEEPALIVE_DISABLE_SAFARI =? 0) then false
  else true.

Definition ngx_http_update_location_config (r : request X) : request X :=
  let c := clcf r in
  let r := if Z.land (method r) (limit_except c) =? 0 then r
           else r <| loc_conf := limit_except_loc_conf c |> in
  let c := clcf r in
  let r :=
    if is_main r then
      let r := r <| log_file := error_log_file c |> in
      if Z.land (log_level r) NGX_LOG_DEBUG_CONNECTION =? 0 then r <| log_level := error_log_level c |> else r
    else r in
  let r := r <| sendfile := io_sendfile && clcf_sendfile c |> in
  let r :=
    if client_body_in_file_only c =? 0 then r <| body_file_log_level := NGX_LOG_WARN |>
    else r <| body_in_file_only := true |> <| body_in_persistent_file := true |>
           <| body_in_clean_file := client_body_in_file_only c =? NGX_HTTP_REQUEST_BODY_FILE_CLEAN |>
           <| body_file_log_level := NGX_LOG_NOTICE |> in
  let r := r <| body_in_single_buf := client_body_in_single_buffer c |> in
  let r := if keepalive r then r <| keepalive := keeps_alive c r |> else r in
  let r := if clcf_tcp_nopush c then r else r <| tcp_nopush_disabled := true |> in
  let r := if limit_rate r =? 0 then r <| limit_rate := clcf_limit_rate c |> else r in
  match clcf_handler c with Some h => r <| content_handler := Some h |> | None => r end.

(** *** Where the engine starts *)

Definition ngx_http_handler (s : state X) : state X :=
  let r := req s in
  let s :=
    if internal r then s <| phase_handler := server_rewrite_index engine |>
    else
      let r :=
        if connection_type r =? 0 then r <| keepalive := NGX_HTTP_VERSION_10 <? http_version r |>
        else if connection_type r =? NGX_HTTP_CONNECTION_CLOSE then r <| keepalive := false |>
        else if connection_type r =? NGX_HTTP_CONNECTION_KEEP_ALIVE then r <| keepalive := true |>
        else r in
      s <| req := r <| lingering_close := 0 <? content_length_n r |> |> <| phase_handler := 0%nat |> in
  s <| req := (req s) <| valid_location := true |> <| write_event_handler := Run_phases |> |>.

Definition ngx_http_internal_redirect (u : bytes) (a : option bytes) (s : state X) : checked X :=
  let s := s <| uri_changes := u4_dec (uri_changes s) |> in
  if uri_changes s =? 0
  then Stops (Finalized NGX_HTTP_INTERNAL_SERVER_ERROR (s <| req := count_up (req s) |>))
  else
    let r := ngx_http_set_exten ((req s) <| uri := u |> <| args := default [] a |>) in
    (* clear the modules contexts *)
    let r := r <| ctx := (fun _ => 0) <$> ctx r |> in
    let r := ngx_http_update_location_config (r <| loc_conf := srv_loc_conf |>) in
    let r := r <| cache := None |> <| internal := true |> <| add_uri_to_alias := false |> in
    Again (ngx_http_handler (s <| req := count_up r |>)).

Definition ngx_http_named_location (nm : bytes) (s : state X) : checked X :=
  let s := s <| req := count_up (req s) |> in
  let s := s <| uri_changes := u4_dec (uri_changes s) |> in
  if uri_changes s =? 0 then Stops (Finalized NGX_HTTP_INTERNAL_SERVER_ERROR s)
  else
    match list_find (fun l => l.1 = nm) named_locations with
    | Some (_, (_, lc)) =>
        let r := (req s) <| internal := true |> <| content_handler := None |> <| loc_conf := lc |> in
        Again (s <| req := ngx_http_update_location_config r |>
                 <| phase_handler := location_rewrite_index engine |>)
    | None => Stops (Finalized NGX_HTTP_INTERNAL_SERVER_ERROR s)
    end.

(** The call of a handler; the loop that a redirect starts is the rest of this one, which
    stops on the [NGX_DONE] it returns. *)
Definition with_handler (h : Z) (s : state X) (k : Z -> state X -> checked X) : checked X :=
  let '(res, r) := call h (phase_handler s) (req s) in
  let s := s <| req := r |> in
  match res with
  | Returns rc => k rc s
  | Redirects u a => ngx_http_internal_redirect u a s
  | Switches nm => ngx_http_named_location nm s
  end.

(** [r->phase_handler++] *)
Definition next_handler (s : state X) : checked X := Again (s <| phase_handler := S (phase_handler s) |>).
Definition jump (i : nat) (s : state X) : checked X := Again (s <| phase_handler := i |>).
Definition finalize (rc : Z) (s : state X) : checked X := Stops (Finalized rc s).
Definition waits (s : state X) : checked X := Stops (Waits s).

(** *** The checkers *)

Definition ngx_http_core_generic_phase (p : ngx_http_phase_handler_t) (s : state X) : checked X :=
  with_handler (handler p) s (fun rc s =>
    if rc =? NGX_OK then jump (next p) s
    else if rc =? NGX_DECLINED then next_handler s
    else if (rc =? NGX_AGAIN) || (rc =? NGX_DONE) then waits s
    else finalize rc s).

Definition ngx_http_core_rewrite_phase (p : ngx_http_phase_handler_t) (s : state X) : checked X :=
  with_handler (handler p) s (fun rc s =>
    if rc =? NGX_DECLINED then next_handler s
    else if rc =? NGX_DONE then waits s
    else finalize rc s).

(** The body of a request that is not the main one, or that is dropped already, is left. *)
Definition ngx_http_discard_request_body (r : request X) : request X :=
  if negb (is_main r) || discard_body r then r else discard_input r.

(** [None]: the search of the location fails. *)
Definition ngx_http_core_find_config_phase (s : state X) : option (checked X) :=
  let s := s <| req := (req s) <| content_handler := None |> <| uri_changed := false |> |> in
  '(rc, lc) ← find_location (uri (req s)) (loc_conf (req s));
  let s := s <| req := (req s) <| loc_conf := lc |> |> in
  Some (
    if rc =? NGX_ERROR then finalize NGX_HTTP_INTERNAL_SERVER_ERROR s
    else
      let c := clcf (req s) in
      if negb (internal (req s)) && clcf_internal c then finalize NGX_HTTP_NOT_FOUND s
      else
        let r := ngx_http_update_location_config (req s) in
        let s := s <| req := r |> in
        if negb (content_length_n r =? -1) && negb (discard_body r)
           && negb (client_max_body_size c =? 0) && (client_max_body_size c <? content_length_n r)
        then finalize NGX_HTTP_REQUEST_ENTITY_TOO_LARGE (s <| req := ngx_http_discard_request_body r |>)
        else if rc =? NGX_DONE then
          let s := s <| req := r <| location := None |> |> in
          if negb (pool_ok r) then finalize NGX_HTTP_INTERNAL_SERVER_ERROR s
          else
            let value := if decide (args r = []) then clcf_name c
                         else clcf_name c ++ bs "?" ++ args r in
            finalize NGX_HTTP_MOVED_PERMANENTLY (s <| req := r <| location := Some value |> |>)
        else next_handler s).

Definition ngx_http_core_post_rewrite_phase (p : ngx_http_phase_handler_t) (s : state X) : checked X :=
  if negb (uri_changed (req s)) then next_handler s
  else
    let s := s <| uri_changes := u4_dec (uri_changes s) |> in
    if uri_changes s =? 0 then finalize NGX_HTTP_INTERNAL_SERVER_ERROR s
    else jump (next p) (s <| req := (req s) <| loc_conf := srv_loc_conf |> |>).

Definition ngx_http_core_access_phase (p : ngx_http_phase_handler_t) (s : state X) : checked X :=
  if negb (is_main (req s)) then jump (next p) s
  else
    with_handler (handler p) s (fun rc s =>
      if rc =? NGX_DECLINED then next_handler s
      else if (rc =? NGX_AGAIN) || (rc =? NGX_DONE) then waits s
      else if satisfy (clcf (req s)) =? NGX_HTTP_SATISFY_ALL then
        if rc =? NGX_OK then next_handler s else finalize rc s
      else if rc =? NGX_OK then
        let r := (req s) <| access_code := 0 |> in
        jump (next p) (s <| req := r <| www_authenticate := (fun _ => 0) <$> www_authenticate r |> |>)
      else if (rc =? NGX_HTTP_FORBIDDEN) || (rc =? NGX_HTTP_UNAUTHORIZED) then
        next_handler (s <| req := (req s) <| access_code := rc |> |>)
      else finalize rc s).

Definition ngx_http_core_post_access_phase (s : state X) : checked X :=
  let code := access_code (req s) in
  if code =? 0 then next_handler s
  else finalize code (s <| req := (req s) <| access_code := 0 |> |>).

(** *** [try_files] *)

(** What the loop finds: a file, and the request for it, or the fallback. *)
Inductive tried := Found (r : request X) | Fallback_code (rc : Z) | Fallback_name (nm : bytes)
  | Fallback_uri (u a : bytes).

(** [for ( ;; )]; [path] is the root and the room after it, once there is one.  [None]: the
    list has no fallback. *)
Fixpoint try_loop (tfs : list try_file) (code : Z) (path : option (bytes * Z)) (r : request X) : option tried :=
  match tfs with
  | [] => None
  | tf :: tfs =>
      let c := clcf r in
      let value := match tf_values tf with Some v => evaluate v r | None => tf_name tf end in
      let len := zlen value + 1 in
      let reserve := u64 (u64 (ngx_abs (s64 (len - zlen (uri r)))) + alias c + 16) in
      let allocated := match path with Some (_, a) => a | None => 0 end in
      match (if allocated <? reserve then map_uri_to_path r reserve else path) with
      | None => Some (Fallback_code NGX_HTTP_INTERNAL_SERVER_ERROR)
      | Some (root, allocated) =>
          let a := Z.to_nat (alias c) in
          let nm := if is_some (tf_values tf) && negb (alias c =? 0)
                       && bool_decide (take a value = take a (clcf_name c) /\ (a <= length value)%nat)
                    then drop a value else value in
          match tfs with
          | [] =>
              if negb (code =? 0) then Some (Fallback_code code)
              else if ch_ nm =? "@" then Some (Fallback_name nm)
              else
                let '(u, ar) := ngx_http_split_args nm in
                Some (Fallback_uri u ar)
          | _ :: _ =>
              match open_file (root ++ nm) with
              | None => try_loop tfs code (Some (root, allocated)) r
              | Some is_dir =>
                  if is_dir && negb (test_dir tf) then try_loop tfs code (Some (root, allocated)) r
                  else if alias c =? 0 then Some (Found (ngx_http_set_exten (r <| uri := nm |>)))
                  else if clcf_regex c then
                    let r := if test_dir tf then r else r <| uri := nm |> <| add_uri_to_alias := true |> in
                    Some (Found (ngx_http_set_exten r))
                  else if negb (pool_ok r) then Some (Fallback_code NGX_HTTP_INTERNAL_SERVER_ERROR)
                  else Some (Found (ngx_http_set_exten (r <| uri := take a (clcf_name c) ++ nm |>)))
              end
          end
      end
  end.

Definition ngx_http_core_try_files_phase (s : state X) : option (checked X) :=
  match try_files (clcf (req s)) with
  | None => Some (next_handler s)
  | Some (tfs, code) =>
      t ← try_loop tfs code None (req s);
      Some match t with
           | Found r => next_handler (s <| req := r |>)
           | Fallback_code rc => finalize rc s
           | Fallback_name nm => ngx_http_named_location nm s
           | Fallback_uri u a => ngx_http_internal_redirect u (Some a) s
           end
  end.

(** *** Content *)

Definition ngx_http_core_content_phase (p : ngx_http_phase_handler_t) (s : state X) : checked X :=
  match content_handler (req s) with
  | Some h =>
      let s := s <| req := (req s) <| write_event_handler := Request_empty |> |> in
      with_handler h s finalize
  | None =>
      with_handler (handler p) s (fun rc s =>
        if negb (rc =? NGX_DECLINED) then finalize rc s
        else if is_some (handlers engine !! S (phase_handler s)) then next_handler s
        else if at_ (uri (req s)) (zlen (uri (req s)) - 1) =? "/" then finalize NGX_HTTP_FORBIDDEN s
        else finalize NGX_HTTP_NOT_FOUND s)
  end.

(** *** The loop *)

Definition check (p : ngx_http_phase_handler_t) (s : state X) : option (checked X) :=
  match checker p with
  | generic_phase => Some (ngx_http_core_generic_phase p s)
  | rewrite_phase => Some (ngx_http_core_rewrite_phase p s)
  | find_config_phase => ngx_http_core_find_config_phase s
  | post_rewrite_phase => Some (ngx_http_core_post_rewrite_phase p s)
  | access_phase => Some (ngx_http_core_access_phase p s)
  | post_access_phase => Some (ngx_http_core_post_access_phase s)
  | try_files_phase => ngx_http_core_try_files_phase s
  | content_phase => Some (ngx_http_core_content_phase p s)
  end.

(** [None]: the search of a location fails, an index is out of the array, or the fuel is
    not enough. *)
Fixpoint ngx_http_core_run_phases (fuel : nat) (s : state X) : option (outcome X) :=
  match fuel with
  | O => None
  | S fuel =>
      match handlers engine !! phase_handler s with
      | Some p =>
          c ← check p s;
          match c with
          | Again s => ngx_http_core_run_phases fuel s
          | Stops o => Some o
          end
      | None => if Nat.eqb (phase_handler s) (length (handlers engine)) then Some (Ended s) else None
      end
  end.
End Engine.
