(* ===== verification/PhasesSpec.v ===== *)
(** What the engine of the phases promises: the array of handlers is the phases one after the
    other, with jumps to the right places, and running it is running the phases by name. *)
From S2P Require Import Prelude Locations Phases.

#[global] Open Scope Z_scope.

(** ** The array *)

Section Layout.
Context (phases : ngx_http_phases -> list Z) (use_try_files : bool).

Notation engine := (ngx_http_init_phase_handlers phases use_try_files).

(** How many elements of the array a phase takes, and where it starts. *)
Definition size (p : ngx_http_phases) : nat :=
  match p with
  | NGX_HTTP_FIND_CONFIG_PHASE => 1
  | NGX_HTTP_POST_REWRITE_PHASE => count_if (use_rewrite phases)
  | NGX_HTTP_POST_ACCESS_PHASE => count_if (use_access phases)
  | NGX_HTTP_TRY_FILES_PHASE => count_if use_try_files
  | NGX_HTTP_LOG_PHASE => 0
  | _ => length (phases p)
  end.

Definition number (p : ngx_http_phases) : nat :=
  match p with
  | NGX_HTTP_POST_READ_PHASE => 0 | NGX_HTTP_SERVER_REWRITE_PHASE => 1
  | NGX_HTTP_FIND_CONFIG_PHASE => 2 | NGX_HTTP_REWRITE_PHASE => 3
  | NGX_HTTP_POST_REWRITE_PHASE => 4 | NGX_HTTP_PREACCESS_PHASE => 5
  | NGX_HTTP_ACCESS_PHASE => 6 | NGX_HTTP_POST_ACCESS_PHASE => 7
  | NGX_HTTP_TRY_FILES_PHASE => 8 | NGX_HTTP_CONTENT_PHASE => 9 | NGX_HTTP_LOG_PHASE => 10
  end.

Definition start (p : ngx_http_phases) : nat := sum_list_with size (take (number p) phases_before_log).

(** The elements of the handlers of a phase: the last registered comes first. *)
Definition entries_of (c : checker_t) (nxt : nat) (p : ngx_http_phases) : list ngx_http_phase_handler_t :=
  (fun h => mk_ph c h nxt) <$> rev (phases p).
Definition optional (b : bool) (e : ngx_http_phase_handler_t) : list ngx_http_phase_handler_t :=
  if b then [e] else [].

(** A generic phase is left for the one after it, the access phase for the one after its
    check, and a changed URI goes back to the search of the location. *)
Definition entries (p : ngx_http_phases) : list ngx_http_phase_handler_t :=
  match p with
  | NGX_HTTP_POST_READ_PHASE => entries_of generic_phase (start NGX_HTTP_SERVER_REWRITE_PHASE) p
  | NGX_HTTP_SERVER_REWRITE_PHASE => entries_of rewrite_phase (start NGX_HTTP_FIND_CONFIG_PHASE) p
  | NGX_HTTP_FIND_CONFIG_PHASE => [mk_ph find_config_phase 0 0]
  | NGX_HTTP_REWRITE_PHASE => entries_of rewrite_phase (start NGX_HTTP_POST_REWRITE_PHASE) p
  | NGX_HTTP_POST_REWRITE_PHASE =>
      optional (use_rewrite phases) (mk_ph post_rewrite_phase 0 (start NGX_HTTP_FIND_CONFIG_PHASE))
  | NGX_HTTP_PREACCESS_PHASE => entries_of generic_phase (start NGX_HTTP_ACCESS_PHASE) p
  | NGX_HTTP_ACCESS_PHASE => entries_of access_phase (start NGX_HTTP_TRY_FILES_PHASE) p
  | NGX_HTTP_POST_ACCESS_PHASE =>
      optional (use_access phases) (mk_ph post_access_phase 0 (start NGX_HTTP_TRY_FILES_PHASE))
  | NGX_HTTP_TRY_FILES_PHASE => optional use_try_files (mk_ph try_files_phase 0 0)
  | NGX_HTTP_CONTENT_PHASE =>
      (* without access handlers, the loop has counted one element too many *)
      entries_of content_phase (start NGX_HTTP_LOG_PHASE + if use_access phases then 0 else 1)%nat p
  | NGX_HTTP_LOG_PHASE => []
  end.

Lemma put_handlers_eq i c v :
  put_handlers phases i c v =
  mk_init (ph v ++ entries_of c (n v + length (phases i))%nat i) (n v + length (phases i))%nat
    (find_config_index v) (sr_index v) (lr_index v).
Proof.
  unfold put_handlers, entries_of. cbv zeta. destruct v as [p m f s l]. unfold count. cbn -[rev].
  generalize (rev (phases i)). intros hs. revert p. generalize (m + length (phases i))%nat. clear m. intros m.
  induction hs as [|h hs IH]; intros p; cbn; [by rewrite app_nil_r|]. unfold put. cbn. rewrite IH. cbn.
  by rewrite <- app_assoc.
Qed.

Lemma use_access_nil : use_access phases = false -> phases NGX_HTTP_ACCESS_PHASE = [].
Proof. unfold use_access. case_bool_decide; done. Qed.

Definition access_shift : nat := if use_access phases then 0%nat else 1%nat.

Lemma start_succ p q : number q = S (number p) -> start q = (start p + size p)%nat.
Proof. unfold start. destruct p, q; intros [=]; cbn [number take phases_before_log sum_list_with size]; lia. Qed.

(** What the loop over the phases has done before the phase [p]; [shift] is how far the
    count is ahead. *)
Definition before (p : ngx_http_phases) (shift f : nat) (sr lr : option nat) (v : init_vars) : Prop :=
  v = mk_init (concat (entries <$> take (number p) phases_before_log)) (start p + shift)%nat f sr lr.

Lemma concat_app_1 {A} (l : list (list A)) x : concat (l ++ [x]) = concat l ++ x.
Proof. rewrite concat_app. cbn. by rewrite app_nil_r. Qed.

(** One turn of the loop. *)
Lemma before_succ p q shift shift' f f' sr sr' lr lr' v :
  number q = S (number p) -> phases_before_log !! number p = Some p ->
  before p shift f sr lr v ->
  init_phase phases use_try_files v p = mk_init (ph v ++ entries p) (start q + shift')%nat f' sr' lr' ->
  before q shift' f' sr' lr' (init_phase phases use_try_files v p).
Proof.
  intros Hq Hp -> ->. unfold before. f_equal. cbn [ph]. rewrite Hq, (take_S_r _ _ _ Hp), fmap_app. symmetry. apply concat_app_1.
Qed.

Ltac turn p :=
  eapply (before_succ p); [reflexivity|reflexivity|eassumption|];
  match goal with H : before p _ _ _ _ _ |- _ => rewrite H end;
  cbn [init_phase is_some sr_index lr_index]; unfold put, count;
  cbv beta zeta iota delta [update_field]; cbn [ph n find_config_index sr_index lr_index];
  rewrite ?put_handlers_eq; cbn [ph n find_config_index sr_index lr_index entries].

(** The starts of the phases, one after the other. *)
Ltac start_facts :=
  pose proof (start_succ NGX_HTTP_POST_READ_PHASE NGX_HTTP_SERVER_REWRITE_PHASE eq_refl);
  pose proof (start_succ NGX_HTTP_SERVER_REWRITE_PHASE NGX_HTTP_FIND_CONFIG_PHASE eq_refl);
  pose proof (start_succ NGX_HTTP_FIND_CONFIG_PHASE NGX_HTTP_REWRITE_PHASE eq_refl);
  pose proof (start_succ NGX_HTTP_REWRITE_PHASE NGX_HTTP_POST_REWRITE_PHASE eq_refl);
  pose proof (start_succ NGX_HTTP_POST_REWRITE_PHASE NGX_HTTP_PREACCESS_PHASE eq_refl);
  pose proof (start_succ NGX_HTTP_PREACCESS_PHASE NGX_HTTP_ACCESS_PHASE eq_refl);
  pose proof (start_succ NGX_HTTP_ACCESS_PHASE NGX_HTTP_POST_ACCESS_PHASE eq_refl);
  pose proof (start_succ NGX_HTTP_POST_ACCESS_PHASE NGX_HTTP_TRY_FILES_PHASE eq_refl);
  pose proof (start_succ NGX_HTTP_TRY_FILES_PHASE NGX_HTTP_CONTENT_PHASE eq_refl);
  pose proof (start_succ NGX_HTTP_CONTENT_PHASE NGX_HTTP_LOG_PHASE eq_refl);
  cbn [size] in *.

Lemma init_vars_eq P P' m m' f f' sr sr' lr lr' :
  P = P' -> m = m' -> f = f' -> sr = sr' -> lr = lr' -> mk_init P m f sr lr = mk_init P' m' f' sr' lr'.
Proof. by intros -> -> -> -> ->. Qed.

Lemma entries_of_eq P c a b p : a = b -> P ++ entries_of c a p = P ++ entries_of c b p.
Proof. by intros ->. Qed.
Lemma entry_eq P c h a b : a = b -> P ++ [mk_ph c h a] = P ++ [mk_ph c h b].
Proof. by intros ->. Qed.

Ltac close_turn :=
  unfold optional, access_shift in *; destruct (use_access phases) eqn:?; cbn [count_if] in *;
  repeat first [progress (unfold entries_of in *; rewrite !use_access_nil in * by done; cbn [rev fmap list_fmap length] in *)
    | match goal with |- context [if ?b then _ else _] => destruct b eqn:?; cbn [count_if] in * end];
  (rewrite ?app_nil_r; apply init_vars_eq;
  [first [reflexivity|apply entries_of_eq; lia|apply entry_eq; lia]|lia|reflexivity || lia
   |reflexivity || (f_equal; lia)|reflexivity || (f_equal; lia)]).

Lemma engine_layout :
  handlers engine = concat (entries <$> phases_before_log) /\
  server_rewrite_index engine = start NGX_HTTP_SERVER_REWRITE_PHASE /\
  location_rewrite_index engine = start NGX_HTTP_REWRITE_PHASE.
Proof.
  start_facts. unfold ngx_http_init_phase_handlers. set (v0 := mk_init [] 0 0 None None).
  assert (B0 : before NGX_HTTP_POST_READ_PHASE 0 0 None None v0) by done.
  set (v1 := init_phase phases use_try_files v0 NGX_HTTP_POST_READ_PHASE).
  assert (B1 : before NGX_HTTP_SERVER_REWRITE_PHASE 0 0 None None v1) by (turn NGX_HTTP_POST_READ_PHASE; close_turn).
  set (v2 := init_phase phases use_try_files v1 NGX_HTTP_SERVER_REWRITE_PHASE).
  assert (B2 : before NGX_HTTP_FIND_CONFIG_PHASE 0 0 (Some (start NGX_HTTP_SERVER_REWRITE_PHASE)) None v2) by (turn NGX_HTTP_SERVER_REWRITE_PHASE; close_turn).
  set (v3 := init_phase phases use_try_files v2 NGX_HTTP_FIND_CONFIG_PHASE).
  assert (B3 : before NGX_HTTP_REWRITE_PHASE 0 (start NGX_HTTP_FIND_CONFIG_PHASE) (Some (start NGX_HTTP_SERVER_REWRITE_PHASE)) None v3) by (turn NGX_HTTP_FIND_CONFIG_PHASE; close_turn).
  set (v4 := init_phase phases use_try_files v3 NGX_HTTP_REWRITE_PHASE).
  assert (B4 : before NGX_HTTP_POST_REWRITE_PHASE 0 (start NGX_HTTP_FIND_CONFIG_PHASE) (Some (start NGX_HTTP_SERVER_REWRITE_PHASE)) (Some (start NGX_HTTP_REWRITE_PHASE)) v4) by (turn NGX_HTTP_REWRITE_PHASE; close_turn).
  set (v5 := init_phase phases use_try_files v4 NGX_HTTP_POST_REWRITE_PHASE).
  assert (B5 : before NGX_HTTP_PREACCESS_PHASE 0 (start NGX_HTTP_FIND_CONFIG_PHASE) (Some (start NGX_HTTP_SERVER_REWRITE_PHASE)) (Some (start NGX_HTTP_REWRITE_PHASE)) v5) by (turn NGX_HTTP_POST_REWRITE_PHASE; close_turn).
  set (v6 := init_phase phases use_try_files v5 NGX_HTTP_PREACCESS_PHASE).
  assert (B6 : before NGX_HTTP_ACCESS_PHASE 0 (start NGX_HTTP_FIND_CONFIG_PHASE) (Some (start NGX_HTTP_SERVER_REWRITE_PHASE)) (Some (start NGX_HTTP_REWRITE_PHASE)) v6) by (turn NGX_HTTP_PREACCESS_PHASE; close_turn).
  set (v7 := init_phase phases use_try_files v6 NGX_HTTP_ACCESS_PHASE).
  assert (B7 : before NGX_HTTP_POST_ACCESS_PHASE 1 (start NGX_HTTP_FIND_CONFIG_PHASE) (Some (start NGX_HTTP_SERVER_REWRITE_PHASE)) (Some (start NGX_HTTP_REWRITE_PHASE)) v7) by (turn NGX_HTTP_ACCESS_PHASE; close_turn).
  set (v8 := init_phase phases use_try_files v7 NGX_HTTP_POST_ACCESS_PHASE).
  assert (B8 : before NGX_HTTP_TRY_FILES_PHASE access_shift (start NGX_HTTP_FIND_CONFIG_PHASE) (Some (start NGX_HTTP_SERVER_REWRITE_PHASE)) (Some (start NGX_HTTP_REWRITE_PHASE)) v8) by (turn NGX_HTTP_POST_ACCESS_PHASE; close_turn).
  set (v9 := init_phase phases use_try_files v8 NGX_HTTP_TRY_FILES_PHASE).
  assert (B9 : before NGX_HTTP_CONTENT_PHASE access_shift (start NGX_HTTP_FIND_CONFIG_PHASE) (Some (start NGX_HTTP_SERVER_REWRITE_PHASE)) (Some (start NGX_HTTP_REWRITE_PHASE)) v9) by (turn NGX_HTTP_TRY_FILES_PHASE; close_turn).
  set (v10 := init_phase phases use_try_files v9 NGX_HTTP_CONTENT_PHASE).
  assert (B10 : before NGX_HTTP_LOG_PHASE access_shift (start NGX_HTTP_FIND_CONFIG_PHASE) (Some (start NGX_HTTP_SERVER_REWRITE_PHASE)) (Some (start NGX_HTTP_REWRITE_PHASE)) v10) by (turn NGX_HTTP_CONTENT_PHASE; close_turn).
  change (fold_left (init_phase phases use_try_files) phases_before_log v0) with v10. rewrite B10.
  split_and!; reflexivity.
Qed.

Lemma length_entries p : length (entries p) = size p.
Proof.
  destruct p; cbn [entries size]; unfold entries_of, optional;
    rewrite ?length_fmap, ?length_rev; try case_match; done.
Qed.

Lemma length_engine : (length (handlers engine) <= phase_count phases use_try_files)%nat /\
  length (handlers engine) = start NGX_HTTP_LOG_PHASE.
Proof.
  destruct engine_layout as [-> _].
  assert (Hs : forall l, length (concat (entries <$> l)) = sum_list_with size l).
  { intros l. induction l as [|p l IH]; cbn; [done|]. by rewrite length_app, length_entries, IH. }
  rewrite Hs. split; [|done]. unfold phase_count, phases_before_log. cbn. lia.
Qed.

(** Where the elements of a phase are. *)
Lemma engine_lookup p j e :
  entries p !! j = Some e -> handlers engine !! (start p + j)%nat = Some e.
Proof.
  intros He. destruct engine_layout as [-> _].
  assert (Hsplit : exists l, phases_before_log = take (number p) phases_before_log ++ p :: l).
  { destruct p; try by (eexists; reflexivity). done. }
  destruct Hsplit as [l Hl]. rewrite Hl at 1. rewrite fmap_app, concat_app, fmap_cons. cbn [concat].
  assert (Hs : length (concat (entries <$> take (number p) phases_before_log)) = start p).
  { unfold start. generalize (take (number p) phases_before_log). intros l'.
    induction l' as [|q l' IH]; cbn; [done|]. by rewrite length_app, length_entries, IH. }
  rewrite lookup_app_r by lia. rewrite Hs. replace (start p + j - start p)%nat with j by lia.
  by apply lookup_app_l_Some.
Qed.
End Layout.

(** ** The phases by name *)

(** How a phase ends: it is done and the next one follows, the processing starts again from
    a phase, or it stops. *)
Inductive ended (X : Type) :=
  | Done (s : state X) | Restarts (p : ngx_http_phases) (s : state X) | Stopped (o : outcome X).
Arguments Done {X}. Arguments Restarts {X}. Arguments Stopped {X}.

Section Spec.
Context `{Server X} (phases : ngx_http_phases -> list Z) (use_try_files : bool).

Notation engine := (ngx_http_init_phase_handlers phases use_try_files).
Notation start := (start phases use_try_files).
Notation size := (size phases use_try_files).
Notation entries := (entries phases use_try_files).
Notation run := (ngx_http_core_run_phases engine).

Definition at_index (i : nat) (s : state X) : state X := s <| phase_handler := i |>.
Definition from_checked (p : ngx_http_phases) (c : checked X) : ended X :=
  match c with Again s => Restarts p s | Stops o => Stopped o end.

(** The call of a handler, with what follows from its code. *)
Definition calls (h : Z) (s : state X) (k : Z -> state X -> ended X) : ended X :=
  let '(res, r) := call h (phase_handler s) (req s) in
  let s := s <| req := r |> in
  match res with
  | Returns rc => k rc s
  | Redirects u a => from_checked NGX_HTTP_SERVER_REWRITE_PHASE (ngx_http_internal_redirect engine u a s)
  | Switches nm => from_checked NGX_HTTP_REWRITE_PHASE (ngx_http_named_location engine nm s)
  end.

Definition stop (rc : Z) (s : state X) : ended X := Stopped (Finalized rc s).
Definition wait (s : state X) : ended X := Stopped (Waits s).

(** The handlers of a phase one after the other; [step] is what a code means: to call the
    next handler, to leave the phase as it says. *)
Fixpoint each (step : Z -> state X -> (state X -> ended X) -> ended X) (done : state X -> ended X)
    (hs : list Z) (s : state X) : ended X :=
  match hs with
  | [] => done s
  | h :: hs =>
      calls h s (fun rc s => step rc s (fun s => each step done hs (at_index (S (phase_handler s)) s)))
  end.

Definition generic_step (done : state X -> ended X) (rc : Z) (s : state X) (next : state X -> ended X) : ended X :=
  if rc =? NGX_OK then done s
  else if rc =? NGX_DECLINED then next s
  else if (rc =? NGX_AGAIN) || (rc =? NGX_DONE) then wait s
  else stop rc s.

Definition rewrite_step (rc : Z) (s : state X) (next : state X -> ended X) : ended X :=
  if rc =? NGX_DECLINED then next s
  else if rc =? NGX_DONE then wait s
  else stop rc s.

(** With [satisfy all] every handler has to agree, with [satisfy any] one that agrees is
    enough, and one that forbids is remembered. *)
Definition access_step (granted : state X -> ended X) (rc : Z) (s : state X) (next : state X -> ended X) : ended X :=
  if rc =? NGX_DECLINED then next s
  else if (rc =? NGX_AGAIN) || (rc =? NGX_DONE) then wait s
  else if satisfy (clcf (req s)) =? NGX_HTTP_SATISFY_ALL then
    if rc =? NGX_OK then next s else stop rc s
  else if rc =? NGX_OK then
    let r := (req s) <| access_code := 0 |> in
    granted (s <| req := r <| www_authenticate := (fun _ => 0) <$> www_authenticate r |> |>)
  else if (rc =? NGX_HTTP_FORBIDDEN) || (rc =? NGX_HTTP_UNAUTHORIZED) then
    next (s <| req := (req s) <| access_code := rc |> |>)
  else stop rc s.

(** The handlers and then the check of the code that is remembered. *)
Definition access_spec (hs : list Z) (s : state X) : ended X :=
  let done s := Done (at_index (start NGX_HTTP_TRY_FILES_PHASE) s) in
  if decide (hs = []) then Done s
  else if negb (is_main (req s)) then done s
  else
    each (access_step done)
      (fun s => if access_code (req s) =? 0 then done s
                else stop (access_code (req s)) (s <| req := (req s) <| access_code := 0 |> |>)) hs s.

Definition post_rewrite_spec (s : state X) : ended X :=
  if negb (uri_changed (req s)) then Done (at_index (start NGX_HTTP_PREACCESS_PHASE) s)
  else
    let s := s <| uri_changes := u4_dec (uri_changes s) |> in
    if uri_changes s =? 0 then stop NGX_HTTP_INTERNAL_SERVER_ERROR s
    else Restarts NGX_HTTP_FIND_CONFIG_PHASE
           (at_index (start NGX_HTTP_FIND_CONFIG_PHASE) (s <| req := (req s) <| loc_conf := srv_loc_conf |> |>)).

(** The handler of the location, or else the first of the phase that does not decline; after
    the last one the request is refused. *)
Fixpoint content_spec (hs : list Z) (s : state X) : ended X :=
  match hs with
  | [] => Done s
  | h :: hs =>
      match content_handler (req s) with
      | Some h => calls h (s <| req := (req s) <| write_event_handler := Request_empty |> |>) stop
      | None =>
          calls h s (fun rc s =>
            if negb (rc =? NGX_DECLINED) then stop rc s
            else match hs with
                 | [] => stop (if at_ (uri (req s)) (zlen (uri (req s)) - 1) =? "/" then NGX_HTTP_FORBIDDEN
                               else NGX_HTTP_NOT_FOUND) s
                 | _ => content_spec hs (at_index (S (phase_handler s)) s)
                 end)
      end
  end.

Definition find_config_spec (s : state X) : option (ended X) :=
  c ← ngx_http_core_find_config_phase s;
  Some match c with Again s => Done s | Stops o => Stopped o end.

Definition try_files_spec (s : state X) : option (ended X) :=
  match try_files (clcf (req s)) with
  | None => Some (Done (at_index (start NGX_HTTP_CONTENT_PHASE) s))
  | Some (tfs, code) =>
      t ← try_loop tfs code None (req s);
      Some match t with
           | Found r => Done (at_index (start NGX_HTTP_CONTENT_PHASE) (s <| req := r |>))
           | Fallback_code rc => stop rc s
           | Fallback_name nm => from_checked NGX_HTTP_REWRITE_PHASE (ngx_http_named_location engine nm s)
           | Fallback_uri u a =>
               from_checked NGX_HTTP_SERVER_REWRITE_PHASE (ngx_http_internal_redirect engine u (Some a) s)
           end
  end.

(** What a phase does; the check after the access phase is part of it. *)
Definition phase_spec (p : ngx_http_phases) (s : state X) : option (ended X) :=
  let hs := rev (phases p) in
  match p with
  | NGX_HTTP_POST_READ_PHASE =>
      Some (each (generic_step (fun s => Done (at_index (start NGX_HTTP_SERVER_REWRITE_PHASE) s))) Done hs s)
  | NGX_HTTP_PREACCESS_PHASE =>
      Some (each (generic_step (fun s => Done (at_index (start NGX_HTTP_ACCESS_PHASE) s))) Done hs s)
  | NGX_HTTP_SERVER_REWRITE_PHASE | NGX_HTTP_REWRITE_PHASE => Some (each rewrite_step Done hs s)
  | NGX_HTTP_FIND_CONFIG_PHASE => find_config_spec s
  | NGX_HTTP_POST_REWRITE_PHASE => Some (if use_rewrite phases then post_rewrite_spec s else Done s)
  | NGX_HTTP_ACCESS_PHASE => Some (access_spec hs s)
  | NGX_HTTP_TRY_FILES_PHASE => if use_try_files then try_files_spec s else Some (Done s)
  | NGX_HTTP_CONTENT_PHASE => Some (content_spec hs s)
  | NGX_HTTP_POST_ACCESS_PHASE | NGX_HTTP_LOG_PHASE => Some (Done s)
  end.

Fixpoint phases_spec (ps : list ngx_http_phases) (s : state X) : option (ended X) :=
  match ps with
  | [] => Some (Stopped (Ended s))
  | p :: ps =>
      e ← phase_spec p s;
      match e with Done s => phases_spec ps s | _ => Some e end
  end.

(** The processing of a request from a phase on: every new start takes one from the number
    of changes of the URI that are left. *)
Fixpoint serve (changes : nat) (p : ngx_http_phases) (s : state X) : option (outcome X) :=
  e ← phases_spec (drop (number p) phases_before_log) s;
  match e, changes with
  | Stopped o, _ => Some o
  | Restarts p s, S changes => serve changes p s
  | _, _ => None
  end.

(** ** The engine runs the phases *)

(** Where a phase starts, its check being part of the access phase. *)
Definition pos (p : ngx_http_phases) : nat :=
  match p with NGX_HTTP_POST_ACCESS_PHASE => start NGX_HTTP_TRY_FILES_PHASE | _ => start p end.

(** From the state [s] the engine gets to where the phase ends, in at most [bound] steps. *)
Definition leads (bound : nat) (s : state X) (e : option (ended X)) : Prop :=
  exists k, (k <= bound)%nat /\ forall fuel, run (k + fuel) s =
    match e with
    | None => None
    | Some (Done s') | Some (Restarts _ s') => run fuel s'
    | Some (Stopped o) => Some o
    end.

(** Where the phase leaves the request. *)
Definition lands (i : nat) (s : state X) (e : option (ended X)) : Prop :=
  match e with
  | Some (Done s') => phase_handler s' = i /\ uri_changes s' = uri_changes s
  | Some (Restarts p s') =>
      phase_handler s' = pos p /\ uri_changes s' = u4_dec (uri_changes s) /\ uri_changes s' <> 0
  | _ => True
  end.

Lemma run_step s p fuel :
  handlers engine !! phase_handler s = Some p ->
  run (S fuel) s = c ← check engine p s; match c with Again s => run fuel s | Stops o => Some o end.
Proof. intros Hp. cbn [ngx_http_core_run_phases]. by rewrite Hp. Qed.

(** One step, whatever the phase makes of it. *)
Lemma leads_one b p s e :
  handlers engine !! phase_handler s = Some p ->
  match check engine p s, e with
  | None, None => True
  | Some (Stops o), Some (Stopped o') => o = o'
  | Some (Again s1), Some (Done s2) | Some (Again s1), Some (Restarts _ s2) => s1 = s2
  | _, _ => False
  end -> leads (S b) s e.
Proof.
  intros Hp Hc. exists 1%nat. split; [lia|]. intros fuel. change (1 + fuel)%nat with (S fuel). rewrite (run_step _ _ _ Hp).
  destruct (check engine p s) as [[s1|o]|], e as [[s2|q s2|o']|]; cbn [mbind option_bind]; try done; by subst.
Qed.

Lemma leads_step b p s s' e :
  handlers engine !! phase_handler s = Some p -> check engine p s = Some (Again s') ->
  leads b s' e -> leads (S b) s e.
Proof.
  intros Hp Hc (k & Hk & Hrun). exists (S k). split; [lia|]. intros fuel. change (S k + fuel)%nat with (S (k + fuel)).
  rewrite (run_step _ _ _ Hp), Hc. apply Hrun.
Qed.

(** The same end, by the checker and by the phase. *)
Definition same_end (c : checked X) (e : ended X) : Prop :=
  match c, e with
  | Stops o, Stopped o' => o = o'
  | Again s, Done s' | Again s, Restarts _ s' => s = s'
  | _, _ => False
  end.

Lemma from_checked_same p c : same_end c (from_checked p c).
Proof. by destruct c. Qed.

Lemma redirect_lands i u a s :
  lands i s (Some (from_checked NGX_HTTP_SERVER_REWRITE_PHASE (ngx_http_internal_redirect engine u a s))).
Proof.
  unfold ngx_http_internal_redirect. cbv zeta. case_match eqn:E; [done|]. cbn [from_checked lands pos].
  apply Z.eqb_neq in E. destruct (engine_layout phases use_try_files) as (_ & <- & _). done.
Qed.

Lemma named_lands i nm s :
  lands i s (Some (from_checked NGX_HTTP_REWRITE_PHASE (ngx_http_named_location engine nm s))).
Proof.
  unfold ngx_http_named_location. cbv zeta. case_match eqn:E; [done|]. apply Z.eqb_neq in E.
  destruct (list_find _ _) as [[? [? lc]]|]; [|done]. cbn [from_checked lands pos].
  destruct (engine_layout phases use_try_files) as (_ & _ & <-). done.
Qed.

(** *** The handlers of a phase *)

Section Each.
Context (p : ngx_http_phases) (c : checker_t) (nxt bound iend : nat)
  (step : Z -> state X -> (state X -> ended X) -> ended X) (done : state X -> ended X)
  (k : Z -> state X -> checked X) (I : request X -> Prop).
Hypothesis Hentries : entries p = entries_of phases c nxt p.
Hypothesis HI : forall h i r, I r -> I (call h i r).2.
Hypothesis Hcheck : forall h s, I (req s) -> check engine (mk_ph c h nxt) s = Some (with_handler engine h s k).
(** A code goes on to the next handler, or ends the phase. *)
Hypothesis Hk : forall rc s, I (req s) ->
  (exists s', k rc s = Again (at_index (S (phase_handler s)) s') /\ phase_handler s' = phase_handler s /\
     uri_changes s' = uri_changes s /\ I (req s') /\ forall next, step rc s next = next s') \/
  (exists e, (forall next, step rc s next = e) /\ same_end (k rc s) e /\ lands iend s (Some e)).
Hypothesis Hdone : forall s, I (req s) -> phase_handler s = (start p + length (phases p))%nat ->
  leads bound s (Some (done s)) /\ lands iend s (Some (done s)).

Lemma each_leads hs : forall j s,
  hs = drop j (rev (phases p)) -> (j <= length (phases p))%nat -> phase_handler s = (start p + j)%nat -> I (req s) ->
  leads (length hs + bound) s (Some (each step done hs s)) /\ lands iend s (Some (each step done hs s)).
Proof.
  induction hs as [|h hs IH]; intros j s Ehs Hj Hs HIs; cbn [each length Nat.add].
  - apply Hdone; [done|]. assert (length (drop j (rev (phases p))) = 0%nat) by (by rewrite <- Ehs).
    rewrite length_drop, length_rev in *. lia.
  - assert (Hlk : rev (phases p) !! j = Some h).
    { rewrite <- (Nat.add_0_r j), <- lookup_drop, <- Ehs. done. }
    assert (Hp : handlers engine !! phase_handler s = Some (mk_ph c h nxt)).
    { rewrite Hs. apply engine_lookup. rewrite Hentries. unfold entries_of. by rewrite list_lookup_fmap, Hlk. }
    pose proof (Hcheck h s HIs) as Hc. pose proof (HI h (phase_handler s) (req s) HIs) as HIr.
    unfold calls, with_handler in *. destruct (call h (phase_handler s) (req s)) as [res r]. cbn [snd] in HIr.
    assert (Hleave : forall e, same_end match res with Returns rc => k rc (s <| req := r |>)
        | Redirects u a => ngx_http_internal_redirect engine u a (s <| req := r |>)
        | Switches nm => ngx_http_named_location engine nm (s <| req := r |>) end e ->
        leads (S (length hs + bound)) s (Some e)).
    { intros e He. eapply leads_one; [exact Hp|]. rewrite Hc. destruct res, e; exact He. }
    destruct res as [rc|u a|nm].
    + specialize (Hk rc (s <| req := r |>)). destruct (Hk HIr) as [(s' & Ek & Hph & Hu & HI' & Est)|(e & Est & Hse & Hl)]; rewrite Est.
      * destruct (IH (S j) (at_index (S (phase_handler s')) s')) as [IHl IHd].
        -- rewrite <- (Nat.add_1_r j), <- drop_drop, <- Ehs. done.
        -- apply lookup_lt_Some in Hlk. rewrite length_rev in Hlk. lia.
        -- cbn. rewrite Hph. cbn. rewrite Hs. lia.
        -- done.
        -- split.
           ++ eapply leads_step; [exact Hp| |exact IHl]. rewrite Hc, Ek, Hph. done.
           ++ revert IHd. unfold lands. cbn. rewrite Hu. done.
      * split; [by apply Hleave|]. exact Hl.
    + split; [apply Hleave, from_checked_same|]. pose proof (redirect_lands iend u a (s <| req := r |>)) as Hr. exact Hr.
    + split; [apply Hleave, from_checked_same|]. pose proof (named_lands iend nm (s <| req := r |>)) as Hr. exact Hr.
Qed.
End Each.

(** *** Every phase *)

Lemma leads_done s : leads 0 s (Some (Done s)).
Proof. exists 0%nat. by split. Qed.

Lemma leads_more b b' s e : (b <= b')%nat -> leads b s e -> leads b' s e.
Proof. intros Hb (k & Hk & Hrun). exists k. split; [lia|done]. Qed.

Lemma generic_leads p q s :
  entries p = entries_of phases generic_phase (start q) p -> size p = length (phases p) ->
  number q = S (number p) -> phase_handler s = start p ->
  let e := Some (each (generic_step (fun s => Done (at_index (start q) s))) Done (rev (phases p)) s) in
  leads (size p) s e /\ lands (start q) s e.
Proof.
  intros He Hsz Hq Hs e. rewrite Hsz, <- (length_rev (phases p)), <- (Nat.add_0_r (length (rev _))).
  eapply (each_leads p generic_phase (start q) 0 (start q) _ _
    (fun rc s => if rc =? NGX_OK then jump (start q) s else if rc =? NGX_DECLINED then next_handler s
       else if (rc =? NGX_AGAIN) || (rc =? NGX_DONE) then waits s else finalize rc s) (fun _ => True) He)
    with (j := 0%nat); try done; try lia.
  - intros rc s0 _. unfold generic_step. destruct (rc =? NGX_OK).
    { right. eexists. split; [done|]. by repeat split. }
    destruct (rc =? NGX_DECLINED); [left; by exists s0|].
    right. eexists. split; [done|]. by destruct (_ || _).
  - intros s0 _ Hs0. split; [apply leads_done|]. split; [|done].
    rewrite Hs0, (start_succ phases use_try_files p q Hq), Hsz. done.
Qed.

Lemma rewrite_leads p q s :
  entries p = entries_of phases rewrite_phase (start q) p -> size p = length (phases p) ->
  number q = S (number p) -> phase_handler s = start p ->
  let e := Some (each rewrite_step Done (rev (phases p)) s) in
  leads (size p) s e /\ lands (start q) s e.
Proof.
  intros He Hsz Hq Hs e. rewrite Hsz, <- (length_rev (phases p)), <- (Nat.add_0_r (length (rev _))).
  eapply (each_leads p rewrite_phase (start q) 0 (start q) _ _
    (fun rc s => if rc =? NGX_DECLINED then next_handler s
       else if rc =? NGX_DONE then waits s else finalize rc s) (fun _ => True) He)
    with (j := 0%nat); try done; try lia.
  - intros rc s0 _. unfold rewrite_step. destruct (rc =? NGX_DECLINED); [left; by exists s0|].
    right. eexists. split; [done|]. by destruct (rc =? NGX_DONE).
  - intros s0 _ Hs0. split; [apply leads_done|]. split; [|done].
    rewrite Hs0, (start_succ phases use_try_files p q Hq), Hsz. done.
Qed.

(** A phase of at most one element. *)
Lemma one_leads p q (b : bool) e0 s (e : option (ended X)) :
  entries p = optional b e0 -> number q = S (number p) -> phase_handler s = start p ->
  (b = true -> match check engine e0 s, e with
               | None, None => True | Some c, Some e => same_end c e | _, _ => False end) ->
  (b = true -> lands (S (start p)) s e) -> (b = false -> e = Some (Done s)) ->
  leads (count_if b) s e /\ lands (start q) s e.
Proof.
  intros He Hq Hs Hc Hl Hd. rewrite (start_succ phases use_try_files p q Hq), <- length_entries, He.
  destruct b; cbn [optional length count_if].
  - split; [|rewrite Nat.add_1_r; by apply Hl]. apply (leads_one 0 e0).
    + rewrite Hs, <- (Nat.add_0_r (start p)). apply engine_lookup. by rewrite He.
    + specialize (Hc eq_refl). destruct (check engine e0 s) as [[s1|o]|], e as [[s2|q' s2|o']|]; done.
  - rewrite (Hd eq_refl). split; [apply leads_done|]. split; [lia|done].
Qed.

Lemma size_post_rewrite : size NGX_HTTP_POST_REWRITE_PHASE = count_if (use_rewrite phases).
Proof. done. Qed.
Lemma size_try_files : size NGX_HTTP_TRY_FILES_PHASE = count_if use_try_files.
Proof. done. Qed.

Lemma find_config_leads s :
  phase_handler s = start NGX_HTTP_FIND_CONFIG_PHASE ->
  leads 1 s (find_config_spec s) /\ lands (start NGX_HTTP_REWRITE_PHASE) s (find_config_spec s).
Proof.
  intros Hs. apply (one_leads NGX_HTTP_FIND_CONFIG_PHASE NGX_HTTP_REWRITE_PHASE true (mk_ph find_config_phase 0 0)); try done.
  - intros _. unfold check. cbn [checker]. unfold find_config_spec.
    destruct (ngx_http_core_find_config_phase s) as [[s1|o]|]; done.
  - intros _. rewrite <- Hs. unfold find_config_spec, ngx_http_core_find_config_phase.
    destruct (find_location _ _) as [[rc lc]|]; [|done]. cbn [mbind option_bind]. unfold finalize, next_handler.
    repeat case_match; simplify_eq; done.
Qed.

Lemma post_rewrite_leads s :
  phase_handler s = start NGX_HTTP_POST_REWRITE_PHASE ->
  let e := Some (if use_rewrite phases then post_rewrite_spec s else Done s) in
  leads (count_if (use_rewrite phases)) s e /\ lands (start NGX_HTTP_PREACCESS_PHASE) s e.
Proof.
  intros Hs e. eapply (one_leads NGX_HTTP_POST_REWRITE_PHASE NGX_HTTP_PREACCESS_PHASE); [done..| | |]; subst e.
  - intros Hu. rewrite Hu. unfold check. cbn [checker]. unfold ngx_http_core_post_rewrite_phase, post_rewrite_spec. cbn [next].
    rewrite (start_succ phases use_try_files NGX_HTTP_POST_REWRITE_PHASE NGX_HTTP_PREACCESS_PHASE eq_refl), <- Hs.
    rewrite size_post_rewrite, Hu. cbn [count_if]. rewrite Nat.add_1_r.
    destruct (negb _); [done|]. cbv zeta. case_match; done.
  - intros Hu. rewrite Hu. unfold post_rewrite_spec.
    rewrite (start_succ phases use_try_files NGX_HTTP_POST_REWRITE_PHASE NGX_HTTP_PREACCESS_PHASE eq_refl).
    rewrite size_post_rewrite, Hu. cbn [count_if]. rewrite Nat.add_1_r.
    destruct (negb _); [done|]. cbv zeta. case_match eqn:E; [done|]. apply Z.eqb_neq in E. done.
  - by intros ->.
Qed.

Lemma if_true {A} (b : bool) (x y : A) : b = true -> (if b then x else y) = x.
Proof. by intros ->. Qed.

Lemma try_files_leads s :
  phase_handler s = start NGX_HTTP_TRY_FILES_PHASE ->
  let e := if use_try_files then try_files_spec s else Some (Done s) in
  leads (count_if use_try_files) s e /\ lands (start NGX_HTTP_CONTENT_PHASE) s e.
Proof.
  intros Hs e. pose proof (start_succ phases use_try_files NGX_HTTP_TRY_FILES_PHASE NGX_HTTP_CONTENT_PHASE eq_refl) as Hn.
  rewrite size_try_files in Hn.
  eapply (one_leads NGX_HTTP_TRY_FILES_PHASE NGX_HTTP_CONTENT_PHASE); [done..| | |]; subst e.
  - intros Hu. rewrite (if_true _ _ _ Hu). unfold check. cbn [checker]. unfold ngx_http_core_try_files_phase, try_files_spec.
    rewrite Hn, (f_equal count_if Hu), Nat.add_1_r, <- Hs.
    destruct (try_files _) as [[tfs code]|]; [|done]. destruct (try_loop _ _ _ _) as [[]|]; cbn [mbind option_bind]; try done; apply from_checked_same.
  - intros Hu. rewrite (if_true _ _ _ Hu). unfold try_files_spec. rewrite Hn, (f_equal count_if Hu), Nat.add_1_r.
    destruct (try_files _) as [[tfs code]|]; [|done]. destruct (try_loop _ _ _ _) as [[]|]; cbn [mbind option_bind]; try done.
    + apply named_lands.
    + apply redirect_lands.
  - intros Hu. by rewrite Hu.
Qed.

Lemma rev_nil (l : list Z) : rev l = [] -> l = [].
Proof. intros Hl. rewrite <- (rev_involutive l), Hl. done. Qed.

Lemma start_after_access :
  start NGX_HTTP_TRY_FILES_PHASE =
  (start NGX_HTTP_ACCESS_PHASE + length (phases NGX_HTTP_ACCESS_PHASE) + count_if (use_access phases))%nat.
Proof.
  rewrite (start_succ phases use_try_files NGX_HTTP_POST_ACCESS_PHASE NGX_HTTP_TRY_FILES_PHASE eq_refl).
  by rewrite (start_succ phases use_try_files NGX_HTTP_ACCESS_PHASE NGX_HTTP_POST_ACCESS_PHASE eq_refl).
Qed.

Lemma use_access_true : phases NGX_HTTP_ACCESS_PHASE <> [] -> use_access phases = true.
Proof. intros. unfold use_access. by rewrite bool_decide_false. Qed.

(** The check after the access phase. *)
Lemma post_access_leads s :
  phases NGX_HTTP_ACCESS_PHASE <> [] ->
  phase_handler s = (start NGX_HTTP_ACCESS_PHASE + length (phases NGX_HTTP_ACCESS_PHASE))%nat ->
  let e := Some (if access_code (req s) =? 0 then Done (at_index (start NGX_HTTP_TRY_FILES_PHASE) s)
                 else stop (access_code (req s)) (s <| req := (req s) <| access_code := 0 |> |>)) in
  leads 1 s e /\ lands (start NGX_HTTP_TRY_FILES_PHASE) s e.
Proof.
  intros Hne Hs e. pose proof (use_access_true Hne) as Hu. subst e. split.
  - apply (leads_one 0 (mk_ph post_access_phase 0 (start NGX_HTTP_TRY_FILES_PHASE))).
    + assert (Hpa : start NGX_HTTP_POST_ACCESS_PHASE = (start NGX_HTTP_ACCESS_PHASE + length (phases NGX_HTTP_ACCESS_PHASE))%nat)
        by exact (start_succ phases use_try_files NGX_HTTP_ACCESS_PHASE NGX_HTTP_POST_ACCESS_PHASE eq_refl).
      rewrite Hs, <- Hpa, <- (Nat.add_0_r (start NGX_HTTP_POST_ACCESS_PHASE)). apply engine_lookup. cbn [PhasesSpec.entries]. by rewrite Hu.
    + unfold check. cbn [checker]. unfold ngx_http_core_post_access_phase.
      rewrite start_after_access, (f_equal count_if Hu), <- Hs, Nat.add_1_r. by destruct (_ =? 0).
  - by destruct (_ =? 0).
Qed.

Lemma access_leads s :
  phase_handler s = start NGX_HTTP_ACCESS_PHASE ->
  let hs := rev (phases NGX_HTTP_ACCESS_PHASE) in
  leads (length (phases NGX_HTTP_ACCESS_PHASE) + count_if (use_access phases)) s (Some (access_spec hs s)) /\
  lands (start NGX_HTTP_TRY_FILES_PHASE) s (Some (access_spec hs s)).
Proof.
  intros Hs hs. unfold access_spec. destruct (decide (hs = [])) as [Hnil|Hne].
  { apply rev_nil in Hnil. assert (Hu : use_access phases = false) by (unfold use_access; by rewrite bool_decide_true).
    split; [eapply leads_more, leads_done; lia|]. split; [|done]. rewrite start_after_access, Hnil, (f_equal count_if Hu). cbn [length count_if]. lia. }
  assert (Hne' : phases NGX_HTTP_ACCESS_PHASE <> []) by (intros E; apply Hne; unfold hs; by rewrite E).
  rewrite (f_equal count_if (use_access_true Hne')). cbn [count_if].
  assert (He : entries NGX_HTTP_ACCESS_PHASE = entries_of phases access_phase (start NGX_HTTP_TRY_FILES_PHASE) NGX_HTTP_ACCESS_PHASE) by done.
  destruct (is_main (req s)) eqn:Em; cbn [negb].
  - rewrite <- (length_rev (phases _)). fold hs.
    eapply (each_leads NGX_HTTP_ACCESS_PHASE access_phase (start NGX_HTTP_TRY_FILES_PHASE) 1 _ _ _
      (fun rc s => if rc =? NGX_DECLINED then next_handler s
        else if (rc =? NGX_AGAIN) || (rc =? NGX_DONE) then waits s
        else if satisfy (clcf (req s)) =? NGX_HTTP_SATISFY_ALL then
          if rc =? NGX_OK then next_handler s else finalize rc s
        else if rc =? NGX_OK then
          let r := (req s) <| access_code := 0 |> in
          jump (start NGX_HTTP_TRY_FILES_PHASE) (s <| req := r <| www_authenticate := (fun _ => 0) <$> www_authenticate r |> |>)
        else if (rc =? NGX_HTTP_FORBIDDEN) || (rc =? NGX_HTTP_UNAUTHORIZED) then
          next_handler (s <| req := (req s) <| access_code := rc |> |>)
        else finalize rc s) (fun r => is_main r = true) He) with (j := 0%nat); try done; try lia.
    + intros h i r Hr. by rewrite call_main.
    + intros h s0 Hm. unfold check. cbn [checker]. unfold ngx_http_core_access_phase. by rewrite Hm.
    + intros rc s0 Hm. unfold access_step.
      destruct (rc =? NGX_DECLINED); [left; by exists s0|].
      destruct (_ || _); [right; eexists; split; [done|]; by repeat split|].
      destruct (satisfy _ =? _); (destruct (rc =? NGX_OK); [|]).
      * left. by exists s0.
      * right. eexists. split; [done|]. by repeat split.
      * right. eexists. split; [done|]. by repeat split.
      * destruct (_ || _); [left; by eexists|right; eexists; split; [done|]; by repeat split].
    + intros s0 _ Hs0. by apply post_access_leads.
  - split; [|done]. eapply leads_more; [|apply (leads_one 0 (mk_ph access_phase (hd 0 hs) (start NGX_HTTP_TRY_FILES_PHASE)))].
    + lia.
    + rewrite Hs, <- (Nat.add_0_r (start NGX_HTTP_ACCESS_PHASE)). apply engine_lookup. rewrite He. unfold entries_of. fold hs.
      destruct hs; done.
    + unfold check. cbn [checker]. unfold ngx_http_core_access_phase. by rewrite Em.
Qed.

(** What a call leads to, when the checker does nothing before it. *)
Lemma calls_leads b p s s0 h k k' i :
  handlers engine !! phase_handler s = Some p ->
  check engine p s = Some (with_handler engine h s0 k) ->
  uri_changes s0 = uri_changes s ->
  (forall rc r, let s1 := s0 <| req := r |> in
     (leads (S b) s (Some (k' rc s1)) /\ lands i s (Some (k' rc s1))) \/
     (same_end (k rc s1) (k' rc s1) /\ lands i s (Some (k' rc s1))) \/
     (exists s2, k rc s1 = Again s2 /\ leads b s2 (Some (k' rc s1)) /\ lands i s (Some (k' rc s1)))) ->
  leads (S b) s (Some (calls h s0 k')) /\ lands i s (Some (calls h s0 k')).
Proof.
  intros Hp Hc Hu Hk. unfold calls, with_handler in *. destruct (call h (phase_handler s0) (req s0)) as [res r].
  assert (Hone : forall c e, check engine p s = Some c -> same_end c e -> leads (S b) s (Some e)).
  { intros c e Hce He. eapply leads_one; [exact Hp|]. rewrite Hce. by destruct c, e. }
  destruct res as [rc|u a|nm].
  - specialize (Hk rc r). cbv zeta in Hk. destruct Hk as [Hk|[[Hk Hl]|(s2 & Hk & Hle & Hl)]]; [done| |].
    + split; [eapply Hone; [exact Hc|exact Hk]|done].
    + split; [|done]. eapply leads_step; [exact Hp| |exact Hle]. by rewrite Hc, Hk.
  - pose proof (redirect_lands i u a (s0 <| req := r |>)) as Hr.
    split; [eapply Hone; [exact Hc|apply from_checked_same]|]. revert Hr. unfold lands. by rewrite <- Hu.
  - pose proof (named_lands i nm (s0 <| req := r |>)) as Hr.
    split; [eapply Hone; [exact Hc|apply from_checked_same]|]. revert Hr. unfold lands. by rewrite <- Hu.
Qed.

Lemma start_log : start NGX_HTTP_LOG_PHASE = (start NGX_HTTP_CONTENT_PHASE + length (phases NGX_HTTP_CONTENT_PHASE))%nat.
Proof. exact (start_succ phases use_try_files NGX_HTTP_CONTENT_PHASE NGX_HTTP_LOG_PHASE eq_refl). Qed.

Lemma content_leads hs : forall j s,
  hs = drop j (rev (phases NGX_HTTP_CONTENT_PHASE)) -> (j <= length (phases NGX_HTTP_CONTENT_PHASE))%nat ->
  phase_handler s = (start NGX_HTTP_CONTENT_PHASE + j)%nat ->
  leads (length hs) s (Some (content_spec hs s)) /\ lands (start NGX_HTTP_LOG_PHASE) s (Some (content_spec hs s)).
Proof.
  induction hs as [|h hs IH]; intros j s Ehs Hj Hs; cbn [content_spec length].
  - split; [apply leads_done|]. split; [|done]. rewrite Hs, start_log.
    assert (length (drop j (rev (phases NGX_HTTP_CONTENT_PHASE))) = 0%nat) by (by rewrite <- Ehs).
    rewrite length_drop, length_rev in *. lia.
  - set (nxt := (start NGX_HTTP_LOG_PHASE + if use_access phases then 0 else 1)%nat).
    assert (Hlk : rev (phases NGX_HTTP_CONTENT_PHASE) !! j = Some h).
    { rewrite <- (Nat.add_0_r j), <- lookup_drop, <- Ehs. done. }
    assert (Hp : handlers engine !! phase_handler s = Some (mk_ph content_phase h nxt)).
    { rewrite Hs. apply engine_lookup. cbn [PhasesSpec.entries]. unfold entries_of. by rewrite list_lookup_fmap, Hlk. }
    assert (Ehs' : hs = drop (S j) (rev (phases NGX_HTTP_CONTENT_PHASE))).
    { rewrite <- (Nat.add_1_r j), <- drop_drop, <- Ehs. done. }
    assert (Hjl : (S j + length hs = length (phases NGX_HTTP_CONTENT_PHASE))%nat).
    { apply (f_equal length) in Ehs. cbn [length] in Ehs. rewrite length_drop, length_rev in Ehs. lia. }
    destruct (content_handler (req s)) as [ch|] eqn:Ech.
    + eapply (calls_leads _ _ _ _ _ finalize); [exact Hp| |done|].
      * unfold check. cbn [checker]. unfold ngx_http_core_content_phase. by rewrite Ech.
      * intros rc r s1. right. left. done.
    + eapply (calls_leads _ _ _ _ _ (fun rc s => if negb (rc =? NGX_DECLINED) then finalize rc s
          else if is_some (handlers engine !! S (phase_handler s)) then next_handler s
          else if at_ (uri (req s)) (zlen (uri (req s)) - 1) =? "/" then finalize NGX_HTTP_FORBIDDEN s
          else finalize NGX_HTTP_NOT_FOUND s)); [exact Hp| |done|].
      * unfold check. cbn [checker]. unfold ngx_http_core_content_phase. by rewrite Ech.
      * intros rc r s1. destruct (negb _) eqn:Erc; [right; left; done|]. right.
        assert (Hph : phase_handler s1 = phase_handler s) by done. rewrite Hph, Hs.
        destruct hs as [|h' hs'].
        -- left. rewrite (proj2 (lookup_ge_None _ _)).
           ++ cbn [is_some]. split; [|done]. by destruct (at_ (uri (req s1)) (zlen (uri (req s1)) - 1) =? "/").
           ++ destruct (length_engine phases use_try_files) as [_ ->]. rewrite start_log. cbn [length] in Hjl. lia.
        -- right. destruct (handlers engine !! S (start NGX_HTTP_CONTENT_PHASE + j)) as [p'|] eqn:Ep.
           ++ eexists. split; [unfold next_handler; by rewrite Hph, Hs|]. destruct (IH (S j) (at_index (S (start NGX_HTTP_CONTENT_PHASE + j)) s1)) as [IHl IHd]; [done|cbn [length] in Hjl; lia|cbn; lia|].
              split; [exact IHl|]. exact IHd.
           ++ apply lookup_ge_None in Ep. destruct (length_engine phases use_try_files) as [_ Hl]. rewrite Hl, start_log in Ep. cbn [length] in Hjl. lia.
Qed.

(** *** All of them *)

Definition bound (p : ngx_http_phases) : nat :=
  match p with
  | NGX_HTTP_ACCESS_PHASE => length (phases p) + count_if (use_access phases)
  | NGX_HTTP_POST_ACCESS_PHASE => 0
  | _ => size p
  end.

Lemma phase_leads p q s :
  number q = S (number p) -> phase_handler s = pos p ->
  leads (bound p) s (phase_spec p s) /\ lands (pos q) s (phase_spec p s).
Proof.
  intros Hq Hs. destruct p, q; try discriminate Hq; cbn [phase_spec bound].
  - by apply (generic_leads NGX_HTTP_POST_READ_PHASE NGX_HTTP_SERVER_REWRITE_PHASE).
  - by apply (rewrite_leads NGX_HTTP_SERVER_REWRITE_PHASE NGX_HTTP_FIND_CONFIG_PHASE).
  - by apply find_config_leads.
  - by apply (rewrite_leads NGX_HTTP_REWRITE_PHASE NGX_HTTP_POST_REWRITE_PHASE).
  - by apply post_rewrite_leads.
  - by apply (generic_leads NGX_HTTP_PREACCESS_PHASE NGX_HTTP_ACCESS_PHASE).
  - by apply access_leads.
  - split; [apply leads_done|by split].
  - by apply try_files_leads.
  - pose proof (content_leads (rev (phases NGX_HTTP_CONTENT_PHASE)) 0 s) as Hc. rewrite length_rev in Hc.
    apply Hc; [done|lia|]. by rewrite Nat.add_0_r.
Qed.

(** The end of all the phases from one on. *)
Definition lands_all (s : state X) (e : option (ended X)) : Prop :=
  match e with Some (Done _) => False | _ => lands 0 s e end.

Lemma phases_cons p q ps b :
  number q = S (number p) ->
  (forall s, phase_handler s = pos q -> leads b s (phases_spec ps s) /\ lands_all s (phases_spec ps s)) ->
  forall s, phase_handler s = pos p ->
  leads (bound p + b) s (phases_spec (p :: ps) s) /\ lands_all s (phases_spec (p :: ps) s).
Proof.
  intros Hq IH s Hs. destruct (phase_leads p q s Hq Hs) as [(k & Hk & Hrun) Hl]. cbn [phases_spec].
  destruct (phase_spec p s) as [[s'|p' s'|o]|]; cbn [mbind option_bind].
  - destruct Hl as [Hl1 Hl2]. destruct (IH s' Hl1) as [(k' & Hk' & Hrun') Hl']. split.
    + exists (k + k')%nat. split; [lia|]. intros fuel. rewrite <- Nat.add_assoc, Hrun. apply Hrun'.
    + revert Hl'. unfold lands_all, lands. by rewrite Hl2.
  - split; [|exact Hl]. exists k. split; [lia|exact Hrun].
  - split; [|done]. exists k. split; [lia|exact Hrun].
  - split; [|done]. exists k. split; [lia|exact Hrun].
Qed.

(** The bounds of the phases add up to the length of the array. *)
Lemma bound_total :
  S (length (handlers engine)) =
  (bound NGX_HTTP_POST_READ_PHASE + (bound NGX_HTTP_SERVER_REWRITE_PHASE + (bound NGX_HTTP_FIND_CONFIG_PHASE +
  (bound NGX_HTTP_REWRITE_PHASE + (bound NGX_HTTP_POST_REWRITE_PHASE + (bound NGX_HTTP_PREACCESS_PHASE +
  (bound NGX_HTTP_ACCESS_PHASE + (bound NGX_HTTP_POST_ACCESS_PHASE + (bound NGX_HTTP_TRY_FILES_PHASE +
  (bound NGX_HTTP_CONTENT_PHASE + 1))))))))))%nat.
Proof.
  destruct (length_engine phases use_try_files) as [_ ->]. unfold PhasesSpec.start.
  cbn [number take phases_before_log sum_list_with bound PhasesSpec.size]. lia.
Qed.

Lemma end_leads s :
  phase_handler s = pos NGX_HTTP_LOG_PHASE -> leads 1 s (phases_spec [] s) /\ lands_all s (phases_spec [] s).
Proof.
  destruct (length_engine phases use_try_files) as [_ Hlen].
  intros Hs. split; [|done]. exists 1%nat. split; [lia|]. intros fuel. cbn [Nat.add ngx_http_core_run_phases phases_spec].
  rewrite (proj2 (lookup_ge_None _ _)) by (rewrite Hs; unfold pos; lia). by rewrite Hs, Hlen, Nat.eqb_refl.
Qed.

Lemma phases_leads p s :
  phase_handler s = pos p ->
  leads (S (length (handlers engine))) s (phases_spec (drop (number p) phases_before_log) s) /\
  lands_all s (phases_spec (drop (number p) phases_before_log) s).
Proof.
  assert (Hb : forall b ps, (b <= S (length (handlers engine)))%nat ->
            (leads b s (phases_spec ps s) /\ lands_all s (phases_spec ps s)) ->
            leads (S (length (handlers engine))) s (phases_spec ps s) /\ lands_all s (phases_spec ps s)).
  { intros b ps Hle [Hl Hla]. split; [by eapply leads_more|done]. }
  pose proof bound_total. pose proof end_leads as H20.
  pose proof (phases_cons NGX_HTTP_CONTENT_PHASE NGX_HTTP_LOG_PHASE _ _ eq_refl H20) as H19.
  pose proof (phases_cons NGX_HTTP_TRY_FILES_PHASE NGX_HTTP_CONTENT_PHASE _ _ eq_refl H19) as H18.
  pose proof (phases_cons NGX_HTTP_POST_ACCESS_PHASE NGX_HTTP_TRY_FILES_PHASE _ _ eq_refl H18) as H17.
  pose proof (phases_cons NGX_HTTP_ACCESS_PHASE NGX_HTTP_POST_ACCESS_PHASE _ _ eq_refl H17) as H16.
  pose proof (phases_cons NGX_HTTP_PREACCESS_PHASE NGX_HTTP_ACCESS_PHASE _ _ eq_refl H16) as H15.
  pose proof (phases_cons NGX_HTTP_POST_REWRITE_PHASE NGX_HTTP_PREACCESS_PHASE _ _ eq_refl H15) as H14.
  pose proof (phases_cons NGX_HTTP_REWRITE_PHASE NGX_HTTP_POST_REWRITE_PHASE _ _ eq_refl H14) as H13.
  pose proof (phases_cons NGX_HTTP_FIND_CONFIG_PHASE NGX_HTTP_REWRITE_PHASE _ _ eq_refl H13) as H12.
  pose proof (phases_cons NGX_HTTP_SERVER_REWRITE_PHASE NGX_HTTP_FIND_CONFIG_PHASE _ _ eq_refl H12) as H11.
  pose proof (phases_cons NGX_HTTP_POST_READ_PHASE NGX_HTTP_SERVER_REWRITE_PHASE _ _ eq_refl H11) as H10.
  intros Hs. destruct p; cbn [drop number phases_before_log]; 
    [eapply Hb; [|apply H10; exact Hs]|eapply Hb; [|apply H11; exact Hs]|eapply Hb; [|apply H12; exact Hs]
    |eapply Hb; [|apply H13; exact Hs]|eapply Hb; [|apply H14; exact Hs]|eapply Hb; [|apply H15; exact Hs]
    |eapply Hb; [|apply H16; exact Hs]|eapply Hb; [|apply H17; exact Hs]|eapply Hb; [|apply H18; exact Hs]
    |eapply Hb; [|apply H19; exact Hs]|eapply Hb; [|apply H20; exact Hs]]; lia.
Qed.

Lemma u4_dec_pos u c : u = Z.of_nat (S c) -> 1 <= u < 16 -> u4_dec u = Z.of_nat c.
Proof. intros Hu Hr. unfold u4_dec. rewrite Z.mod_small by lia. lia. Qed.

Lemma run_serve changes p s fuel :
  uri_changes s = Z.of_nat changes -> 1 <= uri_changes s < 16 -> phase_handler s = pos p ->
  (changes * S (length (handlers engine)) <= fuel)%nat -> run fuel s = serve changes p s.
Proof.
  pose proof phases_leads as Hleads. unfold leads in Hleads. revert Hleads.
  generalize (S (length (handlers engine))). intros B Hleads.
  revert p s fuel. induction changes as [|changes IH]; intros p s fuel Hu Hr Hs Hf; [lia|].
  destruct (Hleads p s Hs) as [(k & Hk & Hrun) Hl].
  assert (exists fuel', fuel = (k + fuel')%nat /\ (changes * B <= fuel')%nat) as (fuel' & -> & Hf') by (exists (fuel - k)%nat; lia).
  rewrite Hrun. cbn [serve].
  destruct (phases_spec _ s) as [[s'|p' s'|o]|]; cbn [mbind option_bind]; [done| |done|done].
  destruct Hl as (Hp' & Hu' & Hne).
  rewrite (u4_dec_pos _ _ Hu Hr) in Hu'.
  apply IH; [done|lia|done|done].
Qed.

(** The parts of the server that are searched do not fail. *)
Record server_ok : Prop := {
  ok_locations u l : is_Some (find_location u l);
  ok_try_files l tfs code : try_files (conf l) = Some (tfs, code) -> tfs <> []
}.

Lemma try_loop_some tfs code path r : tfs <> [] -> is_Some (try_loop tfs code path r).
Proof.
  revert path. induction tfs as [|tf tfs IH]; intros path Hne; [done|]. cbn [try_loop]. clear Hne.
  repeat first [progress case_match | apply IH | eexists; reflexivity]; done.
Qed.

Lemma phase_some p s : server_ok -> is_Some (phase_spec p s).
Proof.
  intros [Hf Ht]. destruct p; cbn [phase_spec]; try (eexists; reflexivity).
  - unfold find_config_spec, ngx_http_core_find_config_phase.
    destruct (find_location _ _) as [[rc lc]|] eqn:E; [by eexists|].
    match type of E with find_location ?u ?l = _ => destruct (Hf u l) as [x Hx] end. by rewrite Hx in E.
  - destruct use_try_files; [|by eexists]. unfold try_files_spec.
    destruct (try_files _) as [[tfs code]|] eqn:E; [|by eexists].
    destruct (try_loop_some tfs code None (req s) (Ht _ _ _ E)) as [t ->]. by eexists.
Qed.

Lemma phases_some ps s : server_ok -> is_Some (phases_spec ps s).
Proof.
  intros Hok. revert s. induction ps as [|p ps IH]; intros s; cbn [phases_spec]; [by eexists|].
  destruct (phase_some p s Hok) as [e ->]. cbn [mbind option_bind]. destruct e; [apply IH|by eexists|by eexists].
Qed.

Lemma serve_some changes p s :
  server_ok -> uri_changes s = Z.of_nat changes -> 1 <= uri_changes s < 16 -> phase_handler s = pos p ->
  is_Some (serve changes p s).
Proof.
  intros Hok. revert p s. induction changes as [|changes IH]; intros p s Hu Hr Hs; [lia|]. cbn [serve].
  destruct (phases_leads p s Hs) as [_ Hl]. destruct (phases_some (drop (number p) phases_before_log) s Hok) as [e He].
  rewrite He in *. cbn [mbind option_bind]. destruct e as [s'|p' s'|o]; [done| |by eexists].
  destruct Hl as (Hp' & Hu' & Hne).
  rewrite (u4_dec_pos _ _ Hu Hr) in Hu'.
  apply IH; [done|lia|done].
Qed.
(** *** Access *)

(** The codes of the access handlers that are called, in order; a code that forbids is
    remembered if one that agrees is enough. *)
Definition remember (rc : Z) (s : state X) : state X :=
  if (satisfy (clcf (req s)) =? NGX_HTTP_SATISFY_ALL) || negb ((rc =? NGX_HTTP_FORBIDDEN) || (rc =? NGX_HTTP_UNAUTHORIZED))
  then s else s <| req := (req s) <| access_code := rc |> |>.

Inductive asked : list Z -> state X -> list Z -> Prop :=
  | asked_end hs s : asked hs s []
  | asked_next h hs s rc r rcs :
      call h (phase_handler s) (req s) = (Returns rc, r) ->
      asked hs (at_index (S (phase_handler s)) (remember rc (s <| req := r |>))) rcs ->
      asked (h :: hs) s (rc :: rcs).

(** Handlers that leave the location and the remembered code alone. *)
Definition quiet : Prop := forall h i r,
  loc_conf (call h i r).2 = loc_conf r /\ access_code (call h i r).2 = access_code r.

Definition refuses (rc : Z) : Prop := rc = NGX_DECLINED \/ rc = NGX_HTTP_FORBIDDEN \/ rc = NGX_HTTP_UNAUTHORIZED.

(** What the codes have to be for the request to pass. *)
Definition granted (all : bool) (hs rcs : list Z) : Prop :=
  if all then length rcs = length hs /\ Forall (fun rc => rc = NGX_OK \/ rc = NGX_DECLINED) rcs
  else (exists rcs', rcs = rcs' ++ [NGX_OK] /\ Forall refuses rcs') \/
       (length rcs = length hs /\ Forall (fun rc => rc = NGX_DECLINED) rcs).

Definition satisfy_all (s : state X) : bool := satisfy (clcf (req s)) =? NGX_HTTP_SATISFY_ALL.

(** The engine goes through the access phase to its end, step by step and without a new start. *)
Inductive through : state X -> state X -> Prop :=
  | through_end s : phase_handler s = start NGX_HTTP_TRY_FILES_PHASE -> through s s
  | through_step s p s1 s' :
      (start NGX_HTTP_ACCESS_PHASE <= phase_handler s < start NGX_HTTP_TRY_FILES_PHASE)%nat ->
      handlers engine !! phase_handler s = Some p -> check engine p s = Some (Again s1) ->
      uri_changes s1 = uri_changes s -> through s1 s' -> through s s'.

Lemma u4_dec_ne u : u4_dec u <> u.
Proof. unfold u4_dec. pose proof (Z.div_mod (u - 1) 16). change (2 ^ 4) with 16. lia. Qed.

Lemma redirect_changes u a s s1 : ngx_http_internal_redirect engine u a s = Again s1 -> uri_changes s1 <> uri_changes s.
Proof.
  pose proof (redirect_lands 0 u a s) as Hl. intros E. rewrite E in Hl. destruct Hl as (_ & -> & _). apply u4_dec_ne.
Qed.

Lemma named_changes nm s s1 : ngx_http_named_location engine nm s = Again s1 -> uri_changes s1 <> uri_changes s.
Proof.
  pose proof (named_lands 0 nm s) as Hl. intros E. rewrite E in Hl. destruct Hl as (_ & -> & _). apply u4_dec_ne.
Qed.

(** A handler after which the engine goes on without a new start has returned a code. *)
Lemma handler_goes_on h s k s1 :
  with_handler engine h s k = Again s1 -> uri_changes s1 = uri_changes s ->
  exists rc r, call h (phase_handler s) (req s) = (Returns rc, r) /\ k rc (s <| req := r |>) = Again s1.
Proof.
  unfold with_handler. destruct (call h (phase_handler s) (req s)) as [[rc|u a|nm] r]; [by eauto|intros E Hu; exfalso..].
  - by apply redirect_changes in E.
  - by apply named_changes in E.
Qed.

Lemma granted_cons (all : bool) h hs rc rcs :
  (if all then rc = NGX_OK \/ rc = NGX_DECLINED else rc = NGX_DECLINED) -> granted all hs rcs -> granted all (h :: hs) (rc :: rcs).
Proof.
  unfold granted. destruct all.
  - intros Hrc [Hl Hf]. split; [by cbn; f_equal|by constructor].
  - intros Hrc [(rcs' & -> & Hf)|[Hl Hf]].
    + left. exists (rc :: rcs'). split; [done|]. constructor; [by left|done].
    + right. split; [by cbn; f_equal|by constructor].
Qed.

(** What the codes say, with what is remembered on the way. *)
Definition passed (hs : list Z) (s : state X) (rcs : list Z) : Prop :=
  if satisfy_all s then granted true hs rcs
  else (exists rcs', rcs = rcs' ++ [NGX_OK] /\ Forall refuses rcs') \/
       (access_code (req s) = 0 /\ length rcs = length hs /\ Forall (fun rc => rc = NGX_DECLINED) rcs).

(** One handler: either the phase goes on with the next one, or it is left at once because
    this one agrees. *)
Lemma access_one h nxt s s1 :
  quiet -> is_main (req s) = true ->
  ngx_http_core_access_phase engine (mk_ph access_phase h nxt) s = Again s1 -> uri_changes s1 = uri_changes s ->
  exists rc r, call h (phase_handler s) (req s) = (Returns rc, r) /\ is_main r = true /\
    let s2 := remember rc (s <| req := r |>) in
    satisfy_all s2 = satisfy_all s /\
    ((s1 = at_index (S (phase_handler s)) s2 /\
      if satisfy_all s then rc = NGX_OK \/ rc = NGX_DECLINED
      else (rc = NGX_DECLINED /\ access_code (req s2) = access_code (req s)) \/ (refuses rc /\ access_code (req s2) <> 0)) \/
     (satisfy_all s = false /\ rc = NGX_OK)).
Proof.
  intros Hq Hm Hc Hu. unfold ngx_http_core_access_phase in Hc. rewrite Hm in Hc. cbn [negb handler next] in Hc.
  apply handler_goes_on in Hc as (rc & r & Hcall & Hk); [|done]. exists rc, r. split; [done|].
  pose proof (Hq h (phase_handler s) (req s)) as [Hlc Hac]. pose proof (call_main h (phase_handler s) (req s)) as Hmr.
  rewrite Hcall in Hlc, Hac, Hmr. cbn [snd] in *. split; [by rewrite Hmr|]. cbv zeta.
  set (s0 := s <| req := r |>) in *.
  assert (Hs0 : satisfy_all s0 = satisfy_all s) by (unfold satisfy_all, clcf; cbn; by rewrite Hlc).
  assert (Hs2 : satisfy_all (remember rc s0) = satisfy_all s).
  { rewrite <- Hs0. unfold remember. by destruct (_ || negb _). }
  split; [done|]. unfold remember. fold (satisfy_all s0). fold (satisfy_all s0) in Hk. rewrite Hs0 in *.
  destruct (Z.eqb_spec rc NGX_DECLINED) as [->|].
  { left. rewrite orb_true_r. injection Hk as <-. split; [done|]. destruct (satisfy_all s); [by right|]. by left. }
  destruct ((rc =? NGX_AGAIN) || (rc =? NGX_DONE)); [done|]. destruct (satisfy_all s) eqn:Es.
  { destruct (Z.eqb_spec rc NGX_OK) as [->|]; [|done]. injection Hk as <-. left. split; [done|by left]. }
  destruct (Z.eqb_spec rc NGX_OK) as [->|]; [by right|].
  destruct ((rc =? NGX_HTTP_FORBIDDEN) || (rc =? NGX_HTTP_UNAUTHORIZED)) eqn:Ef; [|done].
  injection Hk as <-. left. split; [done|]. right. apply orb_true_iff in Ef. rewrite !Z.eqb_eq in Ef.
  split; [by right|]. cbn. by destruct Ef as [->| ->].
Qed.

Lemma access_asked hs : forall j s s',
  quiet -> phases NGX_HTTP_ACCESS_PHASE <> [] -> hs = drop j (rev (phases NGX_HTTP_ACCESS_PHASE)) ->
  (j <= length (phases NGX_HTTP_ACCESS_PHASE))%nat ->
  phase_handler s = (start NGX_HTTP_ACCESS_PHASE + j)%nat -> is_main (req s) = true -> through s s' ->
  exists rcs, asked hs s rcs /\ passed hs s rcs.
Proof.
  induction hs as [|h hs IH]; intros j s s' Hq Hne Ehs Hj Hs Hm Hth;
    pose proof start_after_access as Hst; rewrite (f_equal count_if (use_access_true Hne)) in Hst; cbn [count_if] in Hst.
  - assert (Hjl : j = length (phases NGX_HTTP_ACCESS_PHASE)).
    { apply (f_equal length) in Ehs. rewrite length_drop, length_rev in Ehs. cbn in Ehs. lia. }
    subst j. inversion Hth as [s0 He|s0 p s1 s2 Hr Hp Hc Hu Hth']; subst; [lia|].
    exists []. split; [constructor|]. unfold passed. destruct (satisfy_all s); [split; [done|constructor]|right].
    assert (Hpa : start NGX_HTTP_POST_ACCESS_PHASE = (start NGX_HTTP_ACCESS_PHASE + length (phases NGX_HTTP_ACCESS_PHASE))%nat)
      by exact (start_succ phases use_try_files NGX_HTTP_ACCESS_PHASE NGX_HTTP_POST_ACCESS_PHASE eq_refl).
    rewrite Hs, <- Hpa, <- (Nat.add_0_r (start NGX_HTTP_POST_ACCESS_PHASE)) in Hp.
    rewrite (engine_lookup phases use_try_files NGX_HTTP_POST_ACCESS_PHASE 0
      (mk_ph post_access_phase 0 (start NGX_HTTP_TRY_FILES_PHASE))) in Hp by (cbn [PhasesSpec.entries]; by rewrite (use_access_true Hne)).
    injection Hp as <-. unfold check in Hc. cbn [checker] in Hc. unfold ngx_http_core_post_access_phase in Hc.
    destruct (Z.eqb_spec (access_code (req s)) 0); [by split|done].
  - assert (Hlk : rev (phases NGX_HTTP_ACCESS_PHASE) !! j = Some h).
    { rewrite <- (Nat.add_0_r j), <- lookup_drop, <- Ehs. done. }
    assert (Hjl : (S j + length hs = length (phases NGX_HTTP_ACCESS_PHASE))%nat).
    { apply (f_equal length) in Ehs. cbn [length] in Ehs. rewrite length_drop, length_rev in Ehs. lia. }
    inversion Hth as [s0 He|s0 p s1 s2 Hr Hp Hc Hu Hth']; subst; [lia|].
    rewrite Hs in Hp. rewrite (engine_lookup phases use_try_files NGX_HTTP_ACCESS_PHASE j
      (mk_ph access_phase h (start NGX_HTTP_TRY_FILES_PHASE))) in Hp
      by (cbn [PhasesSpec.entries]; unfold entries_of; by rewrite list_lookup_fmap, Hlk).
    injection Hp as <-. unfold check in Hc. cbn [checker] in Hc. injection Hc as Hc.
    apply access_one in Hc as (rc & r & Hcall & Hmr & Hsat & Hend); [|done..]. cbv zeta in Hsat, Hend.
    destruct Hend as [[-> Hrc]|[Hany ->]].
    + destruct (IH (S j) (at_index (S (phase_handler s)) (remember rc (s <| req := r |>))) s') as (rcs & Ha & Hp); try done.
      * rewrite <- (Nat.add_1_r j), <- drop_drop, <- Ehs. done.
      * lia.
      * change (phase_handler (at_index ?a _)) with a. lia.
      * cbn. unfold remember. by destruct (_ || negb _).
      * exists (rc :: rcs). split; [by eapply asked_next|]. unfold passed in *.
        change (satisfy_all (at_index _ ?x)) with (satisfy_all x) in Hp. rewrite Hsat in Hp. destruct (satisfy_all s).
        -- by apply (granted_cons true).
        -- destruct Hp as [(rcs' & -> & Hf)|(Ha0 & Hl & Hf)].
           ++ left. exists (rc :: rcs'). split; [done|]. constructor; [|done]. destruct Hrc as [[-> _]|[? _]]; [by left|done].
           ++ change (req (at_index _ ?x)) with (req x) in Ha0. destruct Hrc as [[-> Hac]|[_ Hac]]; [|done]. right.
              split; [by rewrite <- Hac|]. split; [by cbn; f_equal|by constructor].
    + exists [NGX_OK]. split; [eapply asked_next; [done|constructor]|]. unfold passed. rewrite Hany. left. exists []. split; [done|constructor].
Qed.
End Spec.

(** C5: the engine runs the phases.  From the start of a phase (the first one for a new
    request, that of the server rewrites after an internal redirect, that of the location
    rewrites for a named location), with some changes of the URI left, the loop over the
    array of handlers ends within the stated number of steps, never leaves the array, and
    ends as the phases do when they are run by name: the handlers of a phase one after the
    other with the meaning of their codes, the access phase with its check, every rewrite of
    the URI back at the search of the location and every redirect back at the server
    rewrites, each for one of the changes left. *)
Theorem phases_refine `{Server X} phases use_try_files p (s : state X) fuel :
  let engine := ngx_http_init_phase_handlers phases use_try_files in
  server_ok -> 1 <= uri_changes s < 16 -> phase_handler s = start phases use_try_files p ->
  p <> NGX_HTTP_POST_ACCESS_PHASE ->
  (Z.to_nat (uri_changes s) * S (length (handlers engine)) <= fuel)%nat ->
  exists o, serve phases use_try_files (Z.to_nat (uri_changes s)) p s = Some o /\
    ngx_http_core_run_phases engine fuel s = Some o.
Proof.
  intros engine Hok Hu Hs Hp Hf.
  assert (Hpos : phase_handler s = pos phases use_try_files p) by (rewrite Hs; by destruct p).
  destruct (serve_some phases use_try_files (Z.to_nat (uri_changes s)) p s Hok) as [o Ho]; [lia|done|done|].
  exists o. split; [done|]. rewrite <- Ho. apply run_serve; [lia|done|done|done].
Qed.

(** The array of the engine is the phases one after the other, each with its handlers in
    the reverse order of their registration; it fits in what is allocated for it, and the
    two indexes are the starts of the rewrites. *)
Theorem phase_array phases use_try_files :
  let engine := ngx_http_init_phase_handlers phases use_try_files in
  handlers engine = concat (entries phases use_try_files <$> phases_before_log) /\
  server_rewrite_index engine = start phases use_try_files NGX_HTTP_SERVER_REWRITE_PHASE /\
  location_rewrite_index engine = start phases use_try_files NGX_HTTP_REWRITE_PHASE /\
  (length (handlers engine) <= phase_count phases use_try_files)%nat.
Proof.
  destruct (engine_layout phases use_try_files) as (H1 & H2 & H3).
  destruct (length_engine phases use_try_files) as [H4 _]. done.
Qed.

(** C6: nothing gets past the access phase without leave.  If the engine takes a main request
    from the start of the access phase to its end, without a new start in between, then,
    where all handlers have to agree, every one was called and agreed or declined; where one
    is enough, either the last one that was called agreed and the ones before it declined or
    forbade, or every one was called and declined. *)
Theorem access_granted `{Server X} phases use_try_files (s s' : state X) :
  let hs := rev (phases NGX_HTTP_ACCESS_PHASE) in
  quiet -> phase_handler s = start phases use_try_files NGX_HTTP_ACCESS_PHASE ->
  is_main (req s) = true -> through phases use_try_files s s' ->
  exists rcs, asked hs s rcs /\ granted (satisfy_all s) hs rcs.
Proof.
  intros hs Hq Hs Hm Hth. destruct (decide (phases NGX_HTTP_ACCESS_PHASE = [])) as [Hnil|Hne].
  - exists []. split; [constructor|]. unfold hs. rewrite Hnil. unfold granted. destruct (satisfy_all s); [|right]; by split.
  - destruct (access_asked phases use_try_files hs 0 s s') as (rcs & Has & Hg); [done|done|done|lia|lia|done|done|].
    exists rcs. split; [done|]. revert Hg. unfold passed, granted. destruct (satisfy_all s); [done|].
    intros [Hg|(_ & Hg)]; [by left|by right].
Qed.

(** ** A small server *)

(** A handler that goes around in circles (1), one that declines (2), access handlers that
    forbid (3) and agree (4), and a content handler (5). *)
Definition sample_call (h : Z) (i : nat) (r : request unit) : handled * request unit :=
  if h =? 1 then (Returns NGX_DECLINED, r <| uri_changed := true |>)
  else if h =? 3 then (Returns NGX_HTTP_FORBIDDEN, r)
  else if h =? 4 then (Returns NGX_OK, r)
  else if h =? 5 then (Returns 200, r)
  else (Returns NGX_DECLINED, r).

Definition sample_conf (satisfy : Z) : core_loc_conf :=
  mk_core_loc_conf (bs "/") false 0 satisfy 0 0 None None 0 false 0 0 true 0 false 75 100 0 true 0.

Definition sample_server (satisfy : Z) : Server unit.
Proof.
  refine {| call := sample_call; find_location := fun _ l => Some (NGX_OK, l);
    conf := fun _ => sample_conf satisfy; srv_loc_conf := 0; named_locations := []; pool_ok := fun _ => true;
    map_uri_to_path := fun _ _ => Some (bs "/www", 1000); evaluate := fun _ _ => []; open_file := fun _ => None;
    io_sendfile := true; discard_input := fun r => r |}.
  intros h i r. unfold sample_call. by repeat case_match.
Defined.

Definition sample_phases (rewrites access : list Z) (p : ngx_http_phases) : list Z :=
  match p with
  | NGX_HTTP_REWRITE_PHASE => rewrites
  | NGX_HTTP_PREACCESS_PHASE => [2]
  | NGX_HTTP_ACCESS_PHASE => access
  | NGX_HTTP_CONTENT_PHASE => [5; 2]
  | _ => []
  end.

Definition sample_request : request unit :=
  mk_request (bs "/a") [] [] 2 1001 false true false true false false (-1) 0 false false 0 0 None
    None None true false 0 Run_phases false false false 0 false 1 0 0 false false [] None 1 tt.

(** The loop ended with the code and the index, and the number of changes left. *)
Definition ended_with (rc : Z) (i : nat) (changes : Z) (o : option (outcome unit)) : bool :=
  match o with
  | Some (Finalized rc' s) => (rc' =? rc) && Nat.eqb (phase_handler s) i && (uri_changes s =? changes)
  | _ => false
  end.

Definition run_sample (satisfy : Z) (rewrites access : list Z) (fuel : nat) : option (outcome unit) :=
  let server := sample_server satisfy in
  ngx_http_core_run_phases (ngx_http_init_phase_handlers (sample_phases rewrites access) false) fuel
    (mk_state 0 11 sample_request).

(** A URI that every rewrite changes ends in an error after ten changes. *)
Example rewrite_cycle : ended_with 500 2 0 (run_sample 0 [1] [4; 3] 88) = true.
Proof. by vm_compute. Qed.
(** The handler registered last is asked first, here the one that forbids. *)
Example all_forbids : ended_with 403 2 11 (run_sample 0 [] [4; 3] 77) = true.
Proof. by vm_compute. Qed.
Example any_agrees : ended_with 200 6 11 (run_sample 1 [] [4; 3] 77) = true.
Proof. by vm_compute. Qed.

Lemma sample_ok satisfy : @server_ok unit (sample_server satisfy).
Proof. split; [by eexists|done]. Qed.

Lemma phases_refine_witness :
  exists o, @serve unit (sample_server 1) (sample_phases [] [4; 3]) false 11 NGX_HTTP_POST_READ_PHASE
      (mk_state 0 11 sample_request) = Some o /\ run_sample 1 [] [4; 3] 88 = Some o.
Proof.
  apply (@phases_refine unit (sample_server 1) (sample_phases [] [4; 3]) false NGX_HTTP_POST_READ_PHASE
    (mk_state 0 11 sample_request) 88).
  - apply sample_ok.
  - cbn. lia.
  - done.
  - done.
  - by vm_compute; lia.
Defined.

Lemma access_granted_witness :
  exists rcs, @asked unit (sample_server 1) [3; 4] (mk_state 2 11 sample_request) rcs /\
    exists rcs', rcs = rcs' ++ [NGX_OK] /\ Forall refuses rcs'.
Proof.
  set (s := mk_state 2 11 sample_request).
  set (s' := at_index 5 (s <| req := sample_request <| access_code := 0 |> |>)).
  destruct (@access_granted unit (sample_server 1) (sample_phases [] [4; 3]) false s s') as (rcs & Ha & Hg).
  - intros h i r. cbn. unfold sample_call. by repeat case_match.
  - done.
  - done.
  - eapply through_step; [by vm_compute; lia|done|done|done|].
    eapply through_step; [by vm_compute; lia|done|done|done|]. by apply through_end.
  - exists rcs. split; [exact Ha|]. destruct Hg as [Hg|[Hl Hf]]; [exact Hg|].
    exfalso. inversion Ha; subst; [done|]. match goal with H : _ = (Returns _, _) |- _ => injection H as <- <- end.
    apply Forall_cons in Hf as [Hf _]. discriminate Hf.
Defined.
