(* ===== verification/RoundRobin.v ===== *)
(** The balancing of upstream servers: src/http/ngx_http_upstream_round_robin.c, with
    [ngx_sort] of src/core/ngx_string.c that it sorts the servers with. *)
From S2P Require Import Prelude.

(** ** [ngx_sort] *)

Section Sort.
Context {A : Type} (cmp : A -> A -> Z).

(** The inner loop: the place of [p] from the end of the sorted part, reversed here. *)
Fixpoint sort_back (p : A) (l : list A) : list A :=
  match l with
  | [] => [p]
  | prev :: l' => if 0 <? cmp prev p then prev :: sort_back p l' else p :: l
  end.

(** Without memory for one element the array is left as it is. *)
Definition ngx_sort (alloc_ok : bool) (base : list A) : list A :=
  if alloc_ok then reverse (fold_left (fun sorted p => sort_back p sorted) base []) else base.
End Sort.

(** ** Data *)

(** [ngx_http_upstream_rr_peer_t]; [sockaddr] stands for the address with its length. *)
Record rr_peer := mk_peer {
  sockaddr : Z; peer_name : bytes; current_weight : Z; weight : Z; fails : Z; accessed : Z;
  max_fails : Z; fail_timeout : Z; down : bool
}.
#[export] Instance rebuild_peer : Rebuild rr_peer := fun p =>
  mk_peer (sockaddr p) (peer_name p) (current_weight p) (weight p) (fails p) (accessed p)
    (max_fails p) (fail_timeout p) (down p).

(** [ngx_http_upstream_rr_peers_t]; [number] is the length of the array [peer]; the element
    [next] is the one after in the list of these. *)
Record rr_peers := mk_peers {
  single : bool; last_cached : Z; cached : list Z; peers_name : bytes; peer : list rr_peer
}.
#[export] Instance rebuild_peers : Rebuild rr_peers := fun p =>
  mk_peers (single p) (last_cached p) (cached p) (peers_name p) (peer p).
Definition number (ps : rr_peers) : Z := zlen (peer ps).

(** [ngx_http_upstream_rr_peer_data_t] of a request: [peers] is the index in the list,
    [tried] an array of words. *)
Record rr_data := mk_data { peers : nat; current : Z; tried : list Z }.
#[export] Instance rebuild_data : Rebuild rr_data := fun d => mk_data (peers d) (current d) (tried d).

(** The members of [ngx_peer_connection_t] that are used. *)
Record peer_connection := mk_pc {
  pc_connection : option Z; pc_sockaddr : Z; pc_name : bytes; tries : Z; pc_cached : bool
}.
#[export] Instance rebuild_pc : Rebuild peer_connection := fun pc =>
  mk_pc (pc_connection pc) (pc_sockaddr pc) (pc_name pc) (tries pc) (pc_cached pc).

Definition NGX_PEER_FAILED : Z := 4.

(** ** Initialisation *)

(** [ngx_http_upstream_server_t], with its addresses. *)
Record upstream_server := mk_server {
  addrs : list (Z * bytes); srv_weight : Z; srv_max_fails : Z; srv_fail_timeout : Z;
  srv_down : bool; backup : bool
}.

Definition ngx_http_upstream_cmp_servers (first second : rr_peer) : Z :=
  if weight first <? weight second then 1 else 0.

(** The peers of the servers that are for backup, or that are not. *)
Definition peers_of (bak : bool) (servers : list upstream_server) : list rr_peer :=
  servers ≫= fun s =>
    if Bool.eqb (backup s) bak then
      (fun a => let w := if negb bak && srv_down s then 0 else srv_weight s in
                mk_peer a.1 a.2 w w 0 0 (srv_max_fails s) (srv_fail_timeout s) (srv_down s)) <$> addrs s
    else [].

Definition ngx_http_upstream_init_round_robin (sort_ok : bool) (host : bytes) (servers : list upstream_server)
    : list rr_peers :=
  let ps := peers_of false servers in
  let bs := peers_of true servers in
  let sort := ngx_sort ngx_http_upstream_cmp_servers sort_ok in
  if decide (bs = []) then [mk_peers (zlen ps =? 1) 0 [] host (sort ps)]
  else [mk_peers false 0 [] host (sort ps); mk_peers false 0 [] host (sort bs)].

(** The words of [tried]: one in the structure, or an array. *)
Definition WORD : Z := 64.
Definition tried_words (n : Z) : nat := if n <=? WORD then 1 else Z.to_nat ((n + (WORD - 1)) / WORD).

(** The data and the number of tries of a request. *)
Definition ngx_http_upstream_init_round_robin_peer (us : list rr_peers) : option (rr_data * Z) :=
  ps ← us !! 0%nat;
  let n := match us !! 1%nat with
           | Some next => if number ps <? number next then number next else number ps
           | None => number ps
           end in
  Some (mk_data 0 0 (replicate (tried_words n) 0), number ps).

(** ** The choice of a peer *)

(** [while (i < peers->number - 1)]: the result is [inl n] for [return n], or the values
    of [n] and [i] after it.  [None]: a division by zero. *)
Fixpoint heavier (ps : list rr_peer) (pn : rr_peer) (n i : Z) : option (Z + Z * Z) :=
  match ps with
  | [] => Some (inr (n, i))
  | pi :: ps =>
      let i := i + 1 in
      if current_weight pi <=? 0 then heavier ps pn n i
      else if weight pi =? 0 then None
      else if Z.quot (s64 (weight pn * 1000)) (weight pi)
              <? Z.quot (s64 (current_weight pn * 1000)) (current_weight pi)
      then Some (inl n)
      else heavier ps pi i i
  end.

(** [for (i = 0; i < peers->number; i++)]; the result is [None] if no weight is left. *)
Fixpoint pick (ps : list rr_peer) (i : Z) : option (option Z) :=
  match ps with
  | [] => Some None
  | p :: ps =>
      if current_weight p <=? 0 then pick ps (i + 1)
      else
        h ← heavier ps p i i;
        Some (Some match h with
                   | inl n => n
                   | inr (n, i') =>
                       if 0 <? current_weight (default p (list.last (p :: ps))) then i' else n
                   end)
  end.

(** [peer[i].current_weight = peer[i].weight] *)
Definition refill (p : rr_peer) : rr_peer := p <| current_weight := weight p |>.

(** The peers, with their weights given again if none was left. *)
Definition ngx_http_upstream_get_peer (ps : list rr_peer) : option (list rr_peer * Z) :=
  r ← pick ps 0;
  match r with
  | Some n => Some (ps, n)
  | None =>
      let ps := refill <$> ps in
      r ← pick ps 0;
      Some (ps, default 0 r)
  end.

(** *** The bits of the peers that were tried *)

Definition bit_word (n : Z) : nat := Z.to_nat (n / WORD).
Definition bit_mask (n : Z) : Z := Z.shiftl 1 (n mod WORD).
Definition is_tried (t : list Z) (n : Z) : option bool :=
  w ← t !! bit_word n;
  Some (negb (Z.land w (bit_mask n) =? 0)).
Definition set_tried (t : list Z) (n : Z) : option (list Z) :=
  w ← t !! bit_word n;
  Some (<[bit_word n := Z.lor w (bit_mask n)]> t).
(** [for (i = 0; i < n; i++) { tried[i] = 0; }]; [None]: out of the array. *)
Definition clear_tried (t : list Z) (n : nat) : option (list Z) :=
  if Nat.leb n (length t) then Some (replicate n 0 ++ drop n t) else None.

(** *** A peer that is looked at *)

Inductive verdict := Good (p : rr_peer) | Bad (p : rr_peer) | Down.

Definition look_at (now : Z) (p : rr_peer) : verdict :=
  if down p then Down
  else if (max_fails p =? 0) || (fails p <? max_fails p) then Good p
  else if fail_timeout p <? s64 (now - accessed p) then Good (p <| fails := 0 |>)
  else Bad (p <| current_weight := 0 |>).

(** The variables of the loops. *)
Record rr_vars := mk_rr { v_peer : list rr_peer; v_data : rr_data; v_tries : Z }.
Inductive turn := Chosen (v : rr_vars) | Failed (v : rr_vars) | Goes_on (v : rr_vars).

(** The part of a turn that the two loops share: [Chosen] with the current peer, or the
    loop goes on. *)
Definition try_current (now : Z) (v : rr_vars) : option turn :=
  let d := v_data v in
  t ← is_tried (tried d) (current d);
  if (t : bool) then Some (Goes_on v)
  else
    p ← v_peer v !! Z.to_nat (current d);
    let put p := <[Z.to_nat (current d) := p]> (v_peer v) in
    match look_at now p with
    | Good p => Some (Chosen (mk_rr (put p) d (v_tries v)))
    | Bad p => Some (Goes_on (mk_rr (put p) d (u64 (v_tries v - 1))))
    | Down =>
        ts ← set_tried (tried d) (current d);
        Some (Goes_on (mk_rr (v_peer v) (d <| tried := ts |>) (u64 (v_tries v - 1))))
    end.

(** [if (pc->tries == 0) goto failed; if (--i == 0) goto failed;] *)
Definition gives_up (v : rr_vars) (i : Z) : bool := (v_tries v =? 0) || (u64 (i - 1) =? 0).

(** The loop of a first try. *)
Fixpoint first_loop (fuel : nat) (now : Z) (v : rr_vars) (i : Z) : option turn :=
  match fuel with
  | O => None
  | S fuel =>
      '(ps, n) ← ngx_http_upstream_get_peer (v_peer v);
      let v := mk_rr ps ((v_data v) <| current := n |>) (v_tries v) in
      r ← try_current now v;
      match r with
      | Goes_on v => if gives_up v i then Some (Failed v) else first_loop fuel now v (u64 (i - 1))
      | _ => Some r
      end
  end.

(** [rrp->current++; if (rrp->current >= rrp->peers->number) rrp->current = 0;] *)
Definition advance (n : Z) (d : rr_data) : rr_data :=
  let c := current d + 1 in
  d <| current := if n <=? c then 0 else c |>.

(** The loop of another try. *)
Fixpoint next_loop (fuel : nat) (now : Z) (v : rr_vars) (i : Z) : option turn :=
  match fuel with
  | O => None
  | S fuel =>
      r ← try_current now v;
      match r with
      | Goes_on v =>
          let v := mk_rr (v_peer v) (advance (zlen (v_peer v)) (v_data v)) (v_tries v) in
          if gives_up v i then Some (Failed v) else next_loop fuel now v (u64 (i - 1))
      | _ => Some r
      end
  end.

(** [peer->current_weight--] and the bit of the peer. *)
Definition take_current (v : rr_vars) : option (rr_vars * rr_peer) :=
  let d := v_data v in
  p ← v_peer v !! Z.to_nat (current d);
  let p := p <| current_weight := s64 (current_weight p - 1) |> in
  ts ← set_tried (tried d) (current d);
  Some (mk_rr (<[Z.to_nat (current d) := p]> (v_peer v)) (d <| tried := ts |>) (v_tries v), p).

(** [peers->peer[i].fails = 0] *)
Definition revive (p : rr_peer) : rr_peer := p <| fails := 0 |>.

(** ** [ngx_http_upstream_get_round_robin_peer] *)

(** The result: the list from the current peers on, the data of the request, the connection
    and the return code. *)
Definition rr_result : Type := list rr_peers * rr_data * peer_connection * Z.

(** The peer is found: the end of the function.  [None]: memory out of [tried]. *)
Definition rr_found (rrp : rr_peers) (next : list rr_peers) (d : rr_data) (pc : peer_connection)
    (p : rr_peer) : option rr_result :=
  let pc := pc <| pc_sockaddr := sockaddr p |> <| pc_name := peer_name p |> in
  match next with
  | b :: _ =>
      if tries pc =? 1 then
        ts ← clear_tried (tried d) (Z.to_nat (number b / WORD + 1));
        Some (rrp :: next, d <| tried := ts |>, pc <| tries := u64 (tries pc + number b) |>, NGX_OK)
      else Some (rrp :: next, d, pc, NGX_OK)
  | [] => Some (rrp :: next, d, pc, NGX_OK)
  end.

(** All peers failed. *)
Definition rr_busy (rrp : rr_peers) (next : list rr_peers) (d : rr_data) (pc : peer_connection) : rr_result :=
  (rrp <| peer := revive <$> peer rrp |> :: next, d, pc <| pc_name := peers_name rrp |>, NGX_BUSY).

(** The peers of the group are asked. *)
Definition rr_turns (now : Z) (rrp : rr_peers) (d : rr_data) (pc : peer_connection) : option turn :=
  let v := mk_rr (peer rrp) d (tries pc) in
  let fuel := S (Z.to_nat (tries pc)) in
  if tries pc =? number rrp then first_loop fuel now v (tries pc) else next_loop fuel now v (tries pc).

(** [us] is the list from the current peers on, [d] the data of the request; [None]: memory
    out of the arrays, or a division by zero. *)
Fixpoint ngx_http_upstream_get_round_robin_peer (now : Z) (us : list rr_peers) (d : rr_data)
    (pc : peer_connection) : option rr_result :=
  match us with
  | [] => None
  | rrp :: next =>
      if negb (last_cached rrp =? 0) then
        c ← cached rrp !! Z.to_nat (last_cached rrp);
        Some (rrp <| last_cached := last_cached rrp - 1 |> :: next, d,
              pc <| pc_connection := Some c |> <| pc_cached := true |>, NGX_OK)
      else
        let pc := pc <| pc_cached := false |> <| pc_connection := None |> in
        if single rrp then
          p ← peer rrp !! 0%nat;
          rr_found rrp next d pc p
        else
          r ← rr_turns now rrp d pc;
          match r with
          | Chosen v =>
              '(v, p) ← take_current v;
              rr_found (rrp <| peer := v_peer v |>) next (v_data v) (pc <| tries := v_tries v |>) p
          | Failed v | Goes_on v =>
              let rrp := rrp <| peer := v_peer v |> in
              let pc := pc <| tries := v_tries v |> in
              match next with
              | b :: _ =>
                  ts ← clear_tried (tried (v_data v)) (Z.to_nat (number b / WORD + 1));
                  let d := (v_data v) <| peers := S (peers (v_data v)) |> <| tried := ts |> in
                  '(next, d, pc, rc) ← ngx_http_upstream_get_round_robin_peer now next d (pc <| tries := number b |>);
                  Some (if negb (rc =? NGX_BUSY) then (rrp :: next, d, pc, rc) else rr_busy rrp next d pc)
              | [] => Some (rr_busy rrp [] (v_data v) pc)
              end
          end
  end.

(** ** [ngx_http_upstream_free_round_robin_peer] *)

(** A failure is counted, and lowers the share. *)
Definition peer_failed (now : Z) (p : rr_peer) : rr_peer :=
  let w := if negb (max_fails p =? 0)
           then s64 (current_weight p - u64 (weight p) / max_fails p) else current_weight p in
  p <| fails := u64 (fails p + 1) |> <| accessed := now |> <| current_weight := if w <? 0 then 0 else w |>.

(** [None]: the current peer is out of the array. *)
Definition ngx_http_upstream_free_round_robin_peer (now : Z) (rrp : rr_peers) (d : rr_data)
    (pc : peer_connection) (state : Z) : option (rr_peers * rr_data * peer_connection) :=
  if (state =? 0) && (tries pc =? 0) then Some (rrp, d, pc)
  else if single rrp then Some (rrp, d, pc <| tries := 0 |>)
  else
    rrp ← (if negb (Z.land state NGX_PEER_FAILED =? 0) then
             p ← peer rrp !! Z.to_nat (current d);
             Some (rrp <| peer := <[Z.to_nat (current d) := peer_failed now p]> (peer rrp) |>)
           else Some rrp);
    Some (rrp, advance (number rrp) d, if negb (tries pc =? 0) then pc <| tries := tries pc - 1 |> else pc).
