(* ===== verification/RoundRobinSpec.v ===== *)
(** What the balancing of RoundRobin.v promises: the order of the peers, that a choice is
    always made and is usable, and that the weights are respected. *)
From stdpp Require Import sorting.
From S2P Require Import Prelude RoundRobin.

(** ** The search of the heaviest peer *)

(** A peer that is left with a share. *)
Definition has_weight (ps : list rr_peer) (i n : Z) : Prop :=
  exists k p, ps !! k = Some p /\ n = i + Z.of_nat k /\ 0 < current_weight p.

Definition weighted (p : rr_peer) : Prop := current_weight p <= weight p.

Lemma has_weight_cons p ps i n : has_weight ps (i + 1) n -> has_weight (p :: ps) i n.
Proof. intros (k & q & Hk & -> & Hq). exists (S k), q. split_and!; [done|lia|done]. Qed.

Lemma heavier_spec ps pn n i :
  Forall weighted ps ->
  exists r, heavier ps pn n i = Some r /\
    match r with
    | inl m => m = n \/ has_weight ps (i + 1) m
    | inr (m, i') => (m = n \/ has_weight ps (i + 1) m) /\ i' = i + zlen ps
    end.
Proof.
  intros H. revert pn n i. induction H as [|p ps Hp H IH]; intros pn n i; simpl.
  { eexists. split; [done|]. autorewrite with zlen. split; [by left | lia]. }
  case_match eqn:E1.
  { destruct (IH pn n (i + 1)) as (r & -> & Hr). exists r. split; [done|].
    destruct r as [m|[m i']]; autorewrite with zlen; [|split; [|lia]; destruct Hr as [Hr ->]];
      (destruct Hr as [->|Hr]; [by left | right; by apply has_weight_cons]). }
  unfold weighted in Hp. case_match eqn:E2; [lia|]. case_match; [eexists; split; [done|by left]|].
  destruct (IH p (i + 1) (i + 1)) as (r & -> & Hr). exists r. split; [done|].
  assert (has_weight (p :: ps) (i + 1) (i + 1)) by (exists 0%nat, p; split_and!; [done|lia|lia]).
  destruct r as [m|[m i']]; autorewrite with zlen; [|split; [|lia]; destruct Hr as [Hr ->]];
    (destruct Hr as [->|Hr]; [by right | right; by apply has_weight_cons]).
Qed.

Lemma pick_spec ps i :
  Forall weighted ps ->
  (pick ps i = Some None /\ Forall (fun p => current_weight p <= 0) ps) \/
  (exists n, pick ps i = Some (Some n) /\ has_weight ps i n).
Proof.
  intros H. revert i. induction H as [|p ps Hp H IH]; intros i; simpl; [by left|].
  case_match eqn:E1.
  { destruct (IH (i + 1)) as [[-> Hz]|(n & -> & Hn)].
    - left. split; [done|]. constructor; [lia|done].
    - right. exists n. split; [done|]. by apply has_weight_cons. }
  right. destruct (heavier_spec ps p i i H) as (r & -> & Hr). simpl.
  assert (Hi : forall m, m = i \/ has_weight ps (i + 1) m -> has_weight (p :: ps) i m).
  { intros m [->|Hm]; [|by apply has_weight_cons]. exists 0%nat, p. split_and!; [done|lia|lia]. }
  eexists. split; [done|]. destruct r as [m|[m i']]; [by apply Hi|].
  destruct Hr as [Hm ->]. case_match eqn:E2; [|by apply Hi].
  rewrite Z.ltb_lt, last_lookup in E2. simpl in E2.
  destruct ((p :: ps) !! length ps) as [q|] eqn:Hq; [|by apply lookup_ge_None in Hq; simpl in Hq; lia].
  exists (length ps), q. split_and!; [done|done|done].
Qed.

(** ** The changes of the peers *)

(** The peers without the weights that are left. *)
Definition strip (p : rr_peer) : rr_peer := p <| current_weight := 0 |>.
Definition strips (ps : list rr_peer) : list rr_peer := strip <$> ps.

(** Between the weight and a debt. *)
Definition wf_peer (debt : Z) (p : rr_peer) : Prop :=
  - debt <= current_weight p <= weight p /\ 0 <= weight p < 2 ^ 62 /\ 0 <= max_fails p.

Lemma wf_weighted debt ps : Forall (wf_peer debt) ps -> Forall weighted ps.
Proof. intros H. eapply Forall_impl; [exact H|]. unfold wf_peer, weighted. intros p. lia. Qed.

Lemma strips_length ps ps' : strips ps = strips ps' -> length ps = length ps'.
Proof. unfold strips. intros H. apply (f_equal length) in H. by rewrite !length_fmap in H. Qed.

Lemma strips_lookup ps ps' k p :
  strips ps = strips ps' -> ps !! k = Some p -> exists q, ps' !! k = Some q /\ strip p = strip q.
Proof.
  intros H Hk. assert (Hs : strips ps !! k = Some (strip p)) by (unfold strips; by rewrite list_lookup_fmap, Hk).
  rewrite H in Hs. unfold strips in Hs. rewrite list_lookup_fmap in Hs.
  destruct (ps' !! k) as [q|]; [|done]. apply (inj Some) in Hs. by exists q.
Qed.

Lemma strips_insert ps k p q :
  ps !! k = Some p -> strip q = strip p -> strips (<[k := q]> ps) = strips ps.
Proof.
  intros Hk Hs. unfold strips. rewrite list_fmap_insert, Hs. apply list_insert_id.
  by rewrite list_lookup_fmap, Hk.
Qed.

(** [ngx_http_upstream_get_peer] returns, in the range of the peers; where a share is left
    nothing else changes. *)
Lemma get_peer_spec debt ps :
  0 <= debt -> Forall (wf_peer debt) ps -> ps <> [] ->
  exists ps' n, ngx_http_upstream_get_peer ps = Some (ps', n) /\ 0 <= n < zlen ps /\
    strips ps' = strips ps /\ Forall (wf_peer debt) ps' /\
    (Exists (fun p => 0 < current_weight p) ps -> ps' = ps /\ has_weight ps 0 n).
Proof.
  intros Hd Hps Hne. unfold ngx_http_upstream_get_peer.
  assert (Hlen : forall ps n, has_weight ps 0 n -> 0 <= n < zlen ps).
  { intros l n (k & p & Hk & -> & _). apply lookup_lt_Some in Hk. unfold zlen. lia. }
  destruct (pick_spec ps 0) as [[-> Hz]|(n & -> & Hn)]; [by eapply wf_weighted| |].
  2:{ exists ps, n. pose proof (Hlen _ _ Hn). split_and!; (done || lia). }
  cbn [mbind option_bind]. set (ps' := refill <$> ps).
  assert (Hps' : Forall (wf_peer debt) ps').
  { apply Forall_fmap. eapply Forall_impl; [exact Hps|]. unfold wf_peer. simpl. lia. }
  assert (Hl : zlen ps' = zlen ps) by (unfold zlen, ps'; by rewrite length_fmap).
  assert (Hs : strips ps' = strips ps) by (unfold strips, ps'; rewrite <- list_fmap_compose; by apply map_ext).
  assert (~ Exists (fun p => 0 < current_weight p) ps).
  { intros He. apply Exists_exists in He as (p & Hp & H0).
    rewrite Forall_forall in Hz. apply Hz in Hp. lia. }
  destruct (pick_spec ps' 0) as [[-> _]|(n & -> & Hn)]; [by eapply wf_weighted| |];
    cbn [mbind option_bind].
  - exists ps', 0. destruct ps as [|p0 ps0]; [done|].
    assert (0 < zlen (p0 :: ps0)) by (autorewrite with zlen; pose proof (zlen_nonneg ps0); lia).
    split_and!; (done || lia).
  - exists ps', n. pose proof (Hlen _ _ Hn). split_and!; (done || lia).
Qed.

(** ** The bits of the peers that were tried *)

Definition in_words (t : list Z) (n : Z) : Prop := 0 <= n < WORD * zlen t.

Lemma in_words_lookup t n : in_words t n -> exists w, t !! bit_word n = Some w.
Proof.
  unfold in_words, bit_word, WORD, zlen. intros H. apply lookup_lt_is_Some_2. dlia.
Qed.

Lemma is_tried_bit t n w :
  t !! bit_word n = Some w -> is_tried t n = Some (Z.testbit w (n mod WORD)).
Proof.
  intros H. unfold is_tried, bit_mask. rewrite H. cbn [mbind option_bind].
  rewrite Z.shiftl_1_l, land_bit; [done|]. unfold WORD. dlia.
Qed.

Lemma is_tried_Some t n : in_words t n -> exists b, is_tried t n = Some b.
Proof. intros (w & Hw)%in_words_lookup. eexists. by apply is_tried_bit. Qed.

Lemma set_tried_spec t n :
  in_words t n ->
  exists t', set_tried t n = Some t' /\ length t' = length t /\
    forall m, 0 <= m -> is_tried t' m = if m =? n then Some true else is_tried t m.
Proof.
  intros Hn. destruct (in_words_lookup t n Hn) as (w & Hw). unfold set_tried. rewrite Hw.
  eexists. split; [done|]. rewrite length_insert. split; [done|]. intros m Hm.
  assert (Hl : (bit_word n < length t)%nat) by (by eapply lookup_lt_Some).
  unfold in_words, WORD in Hn.
  destruct (decide (bit_word m = bit_word n)) as [E|E].
  - erewrite is_tried_bit by (rewrite E; by apply list_lookup_insert_eq).
    assert (0 <= m mod WORD /\ 0 <= n mod WORD) as [? ?] by (unfold WORD; split; dlia).
    rewrite Z.lor_spec. unfold bit_mask. rewrite Z.shiftl_1_l, Z.pow2_bits_eqb by done.
    assert (m = WORD * Z.of_nat (bit_word m) + m mod WORD) as E1 by (unfold bit_word, WORD; dlia).
    assert (n = WORD * Z.of_nat (bit_word n) + n mod WORD) as E2 by (unfold bit_word, WORD; dlia).
    case_match eqn:Emn.
    + apply Z.eqb_eq in Emn as ->. by rewrite Z.eqb_refl, orb_true_r.
    + apply Z.eqb_neq in Emn. replace (n mod WORD =? m mod WORD) with false by (rewrite E in E1; lia).
      rewrite orb_false_r. symmetry. apply is_tried_bit. by rewrite E.
  - replace (m =? n) with false by (symmetry; apply Z.eqb_neq; by intros ->).
    unfold is_tried. by rewrite list_lookup_insert_ne by done.
Qed.

(** ** One turn of the loops *)

(** A peer that may be asked at the time [now]. *)
Definition usable (now : Z) (p : rr_peer) : Prop :=
  down p = false /\
  (max_fails p = 0 \/ fails p < max_fails p \/ fail_timeout p < s64 (now - accessed p)).

(** The variables at every turn: the peers have their weights, and [tried] has a bit for each. *)
Definition sound (debt : Z) (v : rr_vars) : Prop :=
  Forall (wf_peer debt) (v_peer v) /\ v_peer v <> [] /\ in_words (tried (v_data v)) (zlen (v_peer v) - 1).

(** The bits that are set stay. *)
Definition bits_kept (d d' : rr_data) : Prop :=
  forall m, 0 <= m -> is_tried (tried d) m = Some true -> is_tried (tried d') m = Some true.

#[export] Instance bits_kept_preorder : PreOrder bits_kept.
Proof. unfold bits_kept. split; [by intros d|intros d1 d2 d3 ??; eauto]. Qed.

(** What turns change: weights that are left, and more bits. *)
Definition evolves (v v' : rr_vars) : Prop :=
  strips (v_peer v') = strips (v_peer v) /\ peers (v_data v') = peers (v_data v) /\
  length (tried (v_data v')) = length (tried (v_data v)) /\
  bits_kept (v_data v) (v_data v').

(** The peer [p] at [current] is chosen, and is [q] from then on. *)
Definition chosen (now : Z) (v v' : rr_vars) : Prop :=
  exists p q, let c := current (v_data v') in
    0 <= c < zlen (v_peer v) /\ v_peer v !! Z.to_nat c = Some p /\ v_peer v' !! Z.to_nat c = Some q /\
    usable now p /\ (strip q = strip p \/ strip q = strip (revive p)) /\
    is_tried (tried (v_data v)) c = Some false /\
    strips (v_peer v') = <[Z.to_nat c := strip q]> (strips (v_peer v)) /\
    bits_kept (v_data v) (v_data v') /\ peers (v_data v') = peers (v_data v) /\ length (tried (v_data v')) = length (tried (v_data v)).

Definition good_turn (debt now : Z) (v : rr_vars) (r : turn) : Prop :=
  match r with
  | Chosen v' => sound debt v' /\ chosen now v v' /\ 1 <= v_tries v' <= v_tries v
  | Failed v' => sound debt v' /\ evolves v v'
  | Goes_on v' => False
  end.

Lemma evolves_refl v : evolves v v.
Proof. by split_and!. Qed.

Lemma evolves_trans v1 v2 v3 : evolves v1 v2 -> evolves v2 v3 -> evolves v1 v3.
Proof. intros (?&?&?&?) (?&?&?&?). split_and!; [congruence..|etrans; eassumption]. Qed.

Lemma usable_strip now p q : strip p = strip q -> usable now p -> usable now q.
Proof. destruct p, q. cbv [strip usable]. cbn. intros [= <- <- <- <- <- <- <- <-]. done. Qed.

Lemma chosen_evolves now v v1 v' :
  evolves v v1 -> in_words (tried (v_data v)) (zlen (v_peer v) - 1) -> chosen now v1 v' -> chosen now v v'.
Proof.
  intros (Hs & Hp & Hl & Hm) Hw (p & q & Hc & Hpk & Hqk & Hu & Hq & Ht & Hs' & Hm' & Hp' & Hl').
  assert (Hz : zlen (v_peer v1) = zlen (v_peer v)) by (unfold zlen; by rewrite (strips_length _ _ Hs)).
  destruct (strips_lookup _ _ _ _ Hs Hpk) as (p0 & Hp0 & E).
  exists p0, q. split_and!; [lia|lia|done|done|by eapply usable_strip| | |congruence| |congruence..].
  - destruct Hq as [->| ->]; [by left|right]. destruct p, p0. cbv [strip revive]. cbn in E |- *. by simplify_eq.
  - destruct (is_tried_Some (tried (v_data v)) (current (v_data v'))) as ([|] & Hb); [unfold in_words in *; lia| |done].
    apply Hm in Hb; [congruence|lia].
  - etrans; eassumption.
Qed.

Lemma good_turn_evolves debt now v v1 r :
  evolves v v1 -> in_words (tried (v_data v)) (zlen (v_peer v) - 1) -> v_tries v1 <= v_tries v ->
  good_turn debt now v1 r -> good_turn debt now v r.
Proof.
  intros He Hw Ht. destruct r as [v'|v'|v']; simpl; [|intros [? ?]; split; [done|by eapply evolves_trans]|done].
  intros (? & ? & ?). split_and!; [done|by eapply chosen_evolves|lia|lia].
Qed.

Lemma sound_peer debt v k q :
  sound debt v -> wf_peer debt q -> sound debt (mk_rr (<[k := q]> (v_peer v)) (v_data v) (v_tries v)).
Proof.
  intros (H1 & H2 & H3) Hq. unfold sound; simpl. split_and!.
  - by apply Forall_insert.
  - intros E. apply (f_equal length) in E. rewrite length_insert in E. by destruct (v_peer v).
  - unfold zlen. by rewrite length_insert.
Qed.

Lemma look_at_spec debt now p :
  wf_peer debt p -> 0 <= debt ->
  match look_at now p with
  | Good q => usable now p /\ wf_peer debt q /\ (q = p \/ q = revive p)
  | Bad q => ~ usable now p /\ wf_peer debt q /\ strip q = strip p
  | Down => ~ usable now p
  end.
Proof.
  intros Hp Hd. unfold look_at, usable. destruct (down p); [naive_solver|].
  destruct (_ || _) eqn:E1.
  { split_and!; [done| |done|by left]. apply orb_true_iff in E1 as [E1|E1].
    - left. lia.
    - right; left. lia. }
  apply orb_false_iff in E1 as [E1 E2]. destruct (fail_timeout p <? _) eqn:E3.
  { split_and!; [done|by do 2 right; apply Z.ltb_lt|done|by right]. }
  split_and!; [intros (_ & [?|[?|?]]); lia| |done]. unfold wf_peer in *. simpl. lia.
Qed.

Lemma evolves_peer v k p q :
  v_peer v !! k = Some p -> strip q = strip p ->
  forall n, evolves v (mk_rr (<[k := q]> (v_peer v)) (v_data v) n).
Proof. intros Hk Hs n. split_and!; simpl; [by eapply strips_insert|done..]. Qed.

Lemma evolves_tried v ts c n :
  length ts = length (tried (v_data v)) ->
  (forall m, 0 <= m -> is_tried ts m = if m =? c then Some true else is_tried (tried (v_data v)) m) ->
  evolves v (mk_rr (v_peer v) ((v_data v) <| tried := ts |>) n).
Proof.
  intros Hl Hm. split_and!; simpl; [done..|]. intros m H0 Ht. rewrite Hm by done. by case_match.
Qed.

Lemma sound_tried debt v ts n :
  length ts = length (tried (v_data v)) -> sound debt v ->
  sound debt (mk_rr (v_peer v) ((v_data v) <| tried := ts |>) n).
Proof. intros Hl (?&?&?). split_and!; simpl; [done..|]. unfold in_words, zlen in *. by rewrite Hl. Qed.

Lemma sound_strips debt v v' :
  sound debt v -> evolves v v' -> Forall (wf_peer debt) (v_peer v') -> sound debt v'.
Proof.
  intros (H1 & H2 & H3) (Hs & _ & Hl & _) H. pose proof (strips_length _ _ Hs) as Hn.
  split_and!; [done| |].
  - intros E. rewrite E in Hn. by destruct (v_peer v).
  - unfold in_words, zlen in *. by rewrite Hn, Hl.
Qed.

(** A turn that does not choose costs at most one try. *)
Definition goes_on (debt : Z) (v v' : rr_vars) : Prop :=
  sound debt v' /\ evolves v v' /\ current (v_data v') = current (v_data v) /\
  v_tries v - 1 <= v_tries v' <= v_tries v.

Lemma try_current_spec debt now v :
  0 <= debt -> sound debt v -> 0 <= current (v_data v) < zlen (v_peer v) -> 1 <= v_tries v < 2 ^ 64 ->
  exists r, try_current now v = Some r /\
    match r with Goes_on v' => goes_on debt v v' | _ => good_turn debt now v r end.
Proof.
  intros Hd Hv Hc Ht. pose proof Hv as (Hwf & Hne & Hw). unfold try_current.
  set (c := current (v_data v)) in *.
  assert (Hw' : in_words (tried (v_data v)) c) by (unfold in_words in *; lia).
  destruct (is_tried_Some _ _ Hw') as (b & Hb). rewrite Hb. cbn [mbind option_bind].
  destruct b.
  { eexists. split; [done|]. split_and!; [done..|apply evolves_refl|done|lia|lia]. }
  destruct (lookup_lt_is_Some_2 (v_peer v) (Z.to_nat c)) as (p & Hp); [unfold zlen in Hc; lia|].
  rewrite Hp. cbn [mbind option_bind].
  assert (Hpw : wf_peer debt p) by (by eapply Forall_lookup_1 in Hwf).
  pose proof (look_at_spec debt now p Hpw Hd) as Hl. destruct (look_at now p) as [q|q|].
  - destruct Hl as (Hu & Hq & Hpq). eexists. split; [done|]. split_and!; simpl; [by apply sound_peer| |lia|lia].
    exists p, q. simpl. fold c. split_and!; try done; [lia|lia| | |].
    + apply list_lookup_insert_eq. unfold zlen in Hc. lia.
    + destruct Hpq as [->| ->]; [by left|by right].
    + unfold strips. by rewrite list_fmap_insert.
  - destruct Hl as (_ & Hq & Hs). eexists. split; [done|]. rewrite u64_id by lia. split_and!; simpl.
    + by apply (sound_peer debt (mk_rr (v_peer v) (v_data v) (v_tries v - 1))).
    + by eapply evolves_peer.
    + done.
    + lia.
    + lia.
  - destruct (set_tried_spec _ _ Hw') as (ts & -> & Hlen & Hm). cbn [mbind option_bind].
    eexists. split; [done|]. rewrite u64_id by lia.
    split_and!; simpl; [by apply sound_tried|by eapply evolves_tried|done|lia|lia].
Qed.

(** ** The loops *)

Lemma gives_up_false v i :
  1 <= i < 2 ^ 64 -> gives_up v i = false -> v_tries v <> 0 /\ u64 (i - 1) = i - 1 /\ 1 <= i - 1.
Proof.
  intros Hi H. unfold gives_up in H. rewrite u64_id in * by lia.
  apply orb_false_iff in H as [H1 H2]. lia.
Qed.

Lemma in_words_sound debt v : sound debt v -> in_words (tried (v_data v)) (zlen (v_peer v) - 1).
Proof. by intros (_ & _ & ?). Qed.

(** The state before and after a turn of either loop agree on the number of peers. *)
Lemma evolves_zlen v v' : evolves v v' -> zlen (v_peer v') = zlen (v_peer v).
Proof. intros (Hs & _). unfold zlen. by rewrite (strips_length _ _ Hs). Qed.

Lemma evolves_current v c : evolves v (mk_rr (v_peer v) ((v_data v) <| current := c |>) (v_tries v)).
Proof. split_and!; [done..|by intros m]. Qed.

Lemma sound_current debt v c :
  sound debt v -> sound debt (mk_rr (v_peer v) ((v_data v) <| current := c |>) (v_tries v)).
Proof. by intros (?&?&?). Qed.

Lemma get_peer_step debt v :
  0 <= debt -> sound debt v ->
  exists ps n, ngx_http_upstream_get_peer (v_peer v) = Some (ps, n) /\ 0 <= n < zlen ps /\
    let v1 := mk_rr ps ((v_data v) <| current := n |>) (v_tries v) in sound debt v1 /\ evolves v v1.
Proof.
  intros Hd Hv. pose proof Hv as (Hwf & Hne & Hw).
  destruct (get_peer_spec debt (v_peer v)) as (ps & n & E & Hn & Hs & Hps & _); [done..|].
  exists ps, n. assert (zlen ps = zlen (v_peer v)) as Hz by (unfold zlen; by rewrite (strips_length _ _ Hs)).
  split_and!; [done|lia|lia|]. intros v1. assert (evolves v v1) by (split_and!; [done..|by intros m]).
  split; [|done]. by eapply sound_strips.
Qed.

Lemma first_loop_spec debt now fuel v i :
  0 <= debt -> sound debt v -> 1 <= v_tries v < 2 ^ 64 -> 1 <= i < 2 ^ 64 -> i <= Z.of_nat fuel ->
  exists r, first_loop fuel now v i = Some r /\ good_turn debt now v r.
Proof.
  intros Hd. revert v i. induction fuel as [|fuel IH]; intros v i Hv Ht Hi Hf; [lia|].
  cbn [first_loop]. destruct (get_peer_step debt v Hd Hv) as (ps & n & -> & Hn & Hv1 & He).
  cbn [mbind option_bind]. set (v1 := mk_rr ps _ _) in *.
  destruct (try_current_spec debt now v1) as (r & -> & Hr); [done..|]. cbn [mbind option_bind].
  pose proof (in_words_sound _ _ Hv) as Hw.
  destruct r as [v'|v'|v']; [eexists; split; [done|]; by apply (good_turn_evolves _ _ _ v1)..|].
  destruct Hr as (Hv' & He' & _ & Ht'). subst v1. simpl in Ht'.
  assert (evolves v v') by by eapply evolves_trans.
  destruct (gives_up v' i) eqn:Eg; [eexists; split; [done|by split]|].
  apply gives_up_false in Eg as (? & -> & ?); [|done].
  destruct (IH v' (i - 1)) as (r & -> & Hr); [done|lia..|].
  eexists. split; [done|]. eapply good_turn_evolves; [done|done|lia|done].
Qed.

Lemma advance_range n d : 0 < n -> 0 <= current d < n -> 0 <= current (advance n d) < n.
Proof. intros Hn Hc. unfold advance. simpl. case_match; lia. Qed.

Lemma next_loop_spec debt now fuel v i :
  0 <= debt -> sound debt v -> 0 <= current (v_data v) < zlen (v_peer v) ->
  1 <= v_tries v < 2 ^ 64 -> 1 <= i < 2 ^ 64 -> i <= Z.of_nat fuel ->
  exists r, next_loop fuel now v i = Some r /\ good_turn debt now v r.
Proof.
  intros Hd. revert v i. induction fuel as [|fuel IH]; intros v i Hv Hc Ht Hi Hf; [lia|].
  cbn [next_loop]. destruct (try_current_spec debt now v) as (r & -> & Hr); [done..|]. cbn [mbind option_bind].
  destruct r as [v'|v'|v']; [by eexists..|].
  destruct Hr as (Hv' & He' & Hc' & Ht'). set (v1 := mk_rr (v_peer v') _ _).
  assert (Hz : zlen (v_peer v') = zlen (v_peer v)) by by apply evolves_zlen.
  assert (evolves v v1) by (eapply evolves_trans; [done|apply evolves_current]).
  assert (sound debt v1) by (by apply sound_current).
  destruct (gives_up v1 i) eqn:Eg; [eexists; split; [done|by split]|].
  apply gives_up_false in Eg as (Hn & -> & ?); [|done]. simpl in Hn.
  destruct (IH v1 (i - 1)) as (r & -> & Hr); [done| |simpl; lia|lia|lia|].
  { apply advance_range; simpl; rewrite ?Hc'; lia. }
  eexists. split; [done|]. eapply good_turn_evolves; [done|by eapply in_words_sound|simpl; lia|done].
Qed.

(** [peer->current_weight--] may go one further into debt. *)
Lemma take_current_spec debt v :
  0 <= debt < 2 ^ 62 -> sound debt v -> 0 <= current (v_data v) < zlen (v_peer v) ->
  exists v' p, take_current v = Some (v', p) /\ sound (debt + 1) v' /\ evolves v v' /\
    v_peer v' !! Z.to_nat (current (v_data v)) = Some p /\
    current (v_data v') = current (v_data v) /\ v_tries v' = v_tries v /\
    is_tried (tried (v_data v')) (current (v_data v)) = Some true.
Proof.
  intros Hd Hv Hc. pose proof Hv as (Hwf & Hne & Hw). unfold take_current.
  set (c := current (v_data v)) in *.
  destruct (lookup_lt_is_Some_2 (v_peer v) (Z.to_nat c)) as (p & Hp); [unfold zlen in Hc; lia|].
  rewrite Hp. cbn [mbind option_bind].
  assert (Hpw : wf_peer debt p) by (by eapply Forall_lookup_1 in Hwf).
  assert (Hw' : in_words (tried (v_data v)) c) by (unfold in_words in *; lia).
  destruct (set_tried_spec _ _ Hw') as (ts & -> & Hlen & Hm). cbn [mbind option_bind].
  set (q := update_field _ _ p). eexists _, q. split; [done|].
  assert (wf_peer (debt + 1) q) by (unfold wf_peer in *; subst q; simpl; rewrite s64_id by lia; lia).
  split_and!; try done; simpl.
  - split_and!; simpl.
    + apply Forall_insert; [|done]. eapply Forall_impl; [exact Hwf|]. unfold wf_peer. lia.
    + intros E. apply (f_equal length) in E. rewrite length_insert in E. by destruct (v_peer v).
    + unfold in_words, zlen in *. by rewrite length_insert, Hlen.
  - split_and!; simpl; [by eapply strips_insert|done..|]. intros m H0 Ht. rewrite Hm by done. by case_match.
  - apply list_lookup_insert_eq. unfold zlen in Hc. lia.
  - rewrite Hm by lia. by rewrite Z.eqb_refl.
Qed.

(** ** [ngx_http_upstream_get_round_robin_peer] *)

(** A list of peers that is used with the words [t]. *)
Definition group_ok (debt : Z) (t : list Z) (g : rr_peers) : Prop :=
  last_cached g = 0 /\ Forall (wf_peer debt) (peer g) /\ peer g <> [] /\ number g < 2 ^ 64 /\
  in_words t (number g - 1).

(** The words that are cleared for the servers for backup. *)
Definition room_next (t : list Z) (us : list rr_peers) : Prop :=
  Forall (fun b => number b / WORD + 1 <= zlen t) (tail us).

(** A server is answered: the one [p] of the [k]-th list.  The only server of a list marked
    [single] is answered whatever its state, and left as it is. *)
Definition serves (now : Z) (us : list rr_peers) (d : rr_data) (pc : peer_connection) (us' : list rr_peers) (d' : rr_data)
    (pc' : peer_connection) : Prop :=
  exists k g g' p q, let c := Z.to_nat (if single g then 0 else current d') in
    us !! k = Some g /\ us' !! k = Some g' /\ peers d' = (peers d + k)%nat /\
    peer g !! c = Some p /\ peer g' !! c = Some q /\
    pc_sockaddr pc' = sockaddr q /\ pc_name pc' = peer_name q /\
    (strip q = strip p \/ strip q = strip (revive p)) /\
    (single g = true -> g' = g) /\
    (single g = false -> usable now p /\ (k = 0%nat -> is_tried (tried d) (current d') = Some false) /\
      (us = [g] -> bits_kept d d' /\ is_tried (tried d') (current d') = Some true /\
        0 <= current d' < number g /\ 1 <= tries pc' <= tries pc)).

Definition all_revived (us : list rr_peers) : Prop :=
  Forall (fun g => Forall (fun p => fails p = 0) (peer g)) us.

Lemma group_ok_words debt t t' g : length t' = length t -> group_ok debt t g -> group_ok debt t' g.
Proof. intros Hl (?&?&?&?&?). split_and!; [done..|]. unfold in_words, zlen in *. by rewrite Hl. Qed.

Lemma group_ok_mono debt t g : 0 <= debt -> group_ok debt t g -> group_ok (debt + 1) t g.
Proof.
  intros Hd (?&H&?&?&?). split_and!; try done. eapply Forall_impl; [exact H|]. unfold wf_peer. lia.
Qed.

Lemma groups_next debt t t' us :
  0 <= debt -> length t' = length t -> Forall (group_ok debt t) us -> Forall (group_ok (debt + 1) t') us.
Proof.
  intros Hd Hl H. eapply Forall_impl; [exact H|]. intros g Hg. by eapply group_ok_words, group_ok_mono.
Qed.

Lemma group_ok_sound debt t g d n : tried d = t -> group_ok debt t g -> sound debt (mk_rr (peer g) d n).
Proof. intros <- (?&?&?&?&?). by split_and!. Qed.

(** A group with the peers that turns have left. *)
Lemma group_ok_turns debt debt' g d n v' :
  group_ok debt (tried d) g -> sound debt' v' -> evolves (mk_rr (peer g) d n) v' ->
  group_ok debt' (tried (v_data v')) (g <| peer := v_peer v' |>).
Proof.
  intros (?&?&?&?&?) (?&?&?) He. assert (Hz := evolves_zlen _ _ He). simpl in Hz.
  unfold group_ok, number in *. simpl. rewrite Hz in *. split_and!; done.
Qed.

Lemma clear_tried_spec t n :
  0 <= n -> n <= zlen t -> exists t', clear_tried t (Z.to_nat n) = Some t' /\ length t' = length t.
Proof.
  intros H0 Hn. unfold clear_tried, zlen in *. rewrite (proj2 (Nat.leb_le _ _)) by lia.
  eexists. split; [done|]. rewrite length_app, length_replicate, length_drop. lia.
Qed.

(** Chosen, and then counted. *)
Lemma chosen_taken now v v' v'' p :
  chosen now v v' -> evolves v' v'' ->
  v_peer v'' !! Z.to_nat (current (v_data v')) = Some p -> current (v_data v'') = current (v_data v') ->
  zlen (v_peer v'') = zlen (v_peer v) /\ length (tried (v_data v'')) = length (tried (v_data v)) /\
  peers (v_data v'') = peers (v_data v) /\ is_tried (tried (v_data v)) (current (v_data v'')) = Some false /\
  bits_kept (v_data v) (v_data v'') /\ exists p0, v_peer v !! Z.to_nat (current (v_data v'')) = Some p0 /\ usable now p0 /\
    (strip p = strip p0 \/ strip p = strip (revive p0)).
Proof.
  intros (p0 & q & Hc & Hp0 & Hq & Hu & Hs & Ht & Hs' & Hm & Hps & Hl) He Hp Ec.
  pose proof (evolves_zlen _ _ He) as Hz. destruct He as (Es & Ep & El & Em). rewrite Ec.
  assert (zlen (v_peer v') = zlen (v_peer v)) as Hz'.
  { apply (f_equal length) in Hs'. unfold strips in Hs'. rewrite length_insert, !length_fmap in Hs'.
    unfold zlen. by rewrite Hs'. }
  split_and!; [lia|congruence|congruence|done|etrans; eassumption|]. exists p0. split_and!; [done|done|].
  destruct (strips_lookup _ _ _ _ Es Hp) as (q' & Hq' & E). rewrite Hq in Hq'.
  apply (inj Some) in Hq' as <-. by rewrite E.
Qed.

Lemma rr_found_spec rrp next d pc p :
  room_next (tried d) (rrp :: next) ->
  exists d' pc', rr_found rrp next d pc p = Some (rrp :: next, d', pc', NGX_OK) /\
    length (tried d') = length (tried d) /\ peers d' = peers d /\ current d' = current d /\
    pc_sockaddr pc' = sockaddr p /\ pc_name pc' = peer_name p /\
    (next = [] -> d' = d /\ tries pc' = tries pc).
Proof.
  intros Hr. unfold rr_found. destruct next as [|b next]; [by do 2 eexists|].
  case_match; [|by do 2 eexists]. inversion Hr as [|? ? Hb]; subst.
  destruct (clear_tried_spec (tried d) (number b / WORD + 1)) as (t' & -> & Hl).
  { unfold number, WORD. pose proof (zlen_nonneg (peer b)). dlia. }
  { done. }
  by do 2 eexists.
Qed.

Lemma rr_turns_spec debt now g d pc :
  0 <= debt -> group_ok debt (tried d) g -> 1 <= tries pc < 2 ^ 64 ->
  (tries pc = number g \/ 0 <= current d < number g) ->
  exists r, rr_turns now g d pc = Some r /\ good_turn debt now (mk_rr (peer g) d (tries pc)) r.
Proof.
  intros Hd Hg Ht Hc. pose proof (group_ok_sound debt _ g d (tries pc) eq_refl Hg) as Hs.
  unfold rr_turns, number in *. case_match eqn:E; [apply first_loop_spec; simpl; done || lia|].
  apply Z.eqb_neq in E. apply next_loop_spec; simpl; done || lia.
Qed.

Lemma revived_ok debt t g : group_ok debt t g -> group_ok debt t (g <| peer := revive <$> peer g |>).
Proof.
  intros (?&H&?&?&?). unfold group_ok, number, zlen in *. simpl. rewrite length_fmap. split_and!; try done.
  - apply Forall_fmap. eapply Forall_impl; [exact H|]. done.
  - intros E. by apply fmap_nil_inv in E.
Qed.

Lemma revived g : Forall (fun p => fails p = 0) (peer (g <| peer := revive <$> peer g |>)).
Proof. simpl. apply Forall_fmap, Forall_forall. done. Qed.

(** What the groups and the words are after a call. *)
Definition keeps (debt : Z) (us : list rr_peers) (d : rr_data) (us' : list rr_peers) (d' : rr_data) : Prop :=
  number <$> us' = number <$> us /\ single <$> us' = single <$> us /\ length (tried d') = length (tried d) /\
  Forall (group_ok (debt + 1) (tried d')) us'.

Definition outcome (now : Z) (us : list rr_peers) (d : rr_data) (pc : peer_connection) (us' : list rr_peers) (d' : rr_data)
    (pc' : peer_connection) (rc : Z) : Prop :=
  (rc = NGX_OK /\ serves now us d pc us' d' pc') \/
  (rc = NGX_BUSY /\ all_revived us' /\ Some (pc_name pc') = peers_name <$> head us).

(** The servers for backup that follow are answered in the place of the peers. *)
Lemma outcome_next now g g' next d d1 pc pc1 next' d' pc' rc :
  peers d1 = S (peers d) -> (rc = NGX_BUSY -> False) ->
  outcome now next d1 pc1 next' d' pc' rc -> outcome now (g :: next) d pc (g' :: next') d' pc' rc.
Proof.
  intros Hp Hrc [[-> (k & b & b' & p & q & H1 & H2 & H3 & H4 & H5 & H6 & H7 & H8 & H10 & H9)]|[-> _]]; [|done].
  left. split; [done|]. exists (S k), b, b', p, q. split_and!; try done; [lia|].
  intros Hs. destruct (H9 Hs) as (Hu & _). split_and!; [done|done|]. intros [= -> ->]. done.
Qed.

(** The case of a peer that is chosen in the first group. *)
Lemma serve_chosen debt now g next d pc v' :
  0 <= debt < 2 ^ 62 -> single g = false -> Forall (group_ok debt (tried d)) (g :: next) ->
  room_next (tried d) (g :: next) ->
  good_turn debt now (mk_rr (peer g) d (tries pc)) (Chosen v') ->
  exists v'' p us' d' pc', take_current v' = Some (v'', p) /\
    rr_found (g <| peer := v_peer v'' |>) next (v_data v'') (pc <| tries := v_tries v'' |>) p
    = Some (us', d', pc', NGX_OK) /\ keeps debt (g :: next) d us' d' /\
    outcome now (g :: next) d pc us' d' pc' NGX_OK.
Proof.
  intros Hd Hsg Hok Hr (Hs & Hc & Htries). inversion Hok as [|? ? Hg Hnext]; subst.
  assert (Hcur : 0 <= current (v_data v') < zlen (v_peer v')).
  { destruct Hc as (p & q & Hc & _ & Hq & _). apply lookup_lt_Some in Hq. unfold zlen. lia. }
  destruct (take_current_spec debt v' Hd Hs Hcur) as (v'' & p & -> & Hs'' & He & Hp & Ec & Et & Hbit).
  destruct (chosen_taken _ _ _ _ _ Hc He Hp Ec) as (Hz & Hl & Hps & Ht & Hm & p0 & Hp0 & Hu & Hsp). simpl in *.
  set (g' := g <| peer := v_peer v'' |>).
  assert (Hr' : room_next (tried (v_data v'')) (g' :: next)).
  { eapply Forall_impl; [exact Hr|]. unfold zlen. by rewrite Hl. }
  destruct (rr_found_spec g' next (v_data v'') (pc <| tries := v_tries v'' |>) p Hr')
    as (d' & pc' & E & Hl' & Hp' & Hc' & Ha & Hn & Hlast).
  exists v'', p, (g' :: next), d', pc'. split_and!; [done|exact E| |].
  - split_and!; [unfold number; simpl; by rewrite Hz|done|congruence|].
    assert (Hg' : group_ok (debt + 1) (tried (v_data v'')) g').
    { destruct Hg as (?&?&?&?&?), Hs'' as (?&?&?). unfold group_ok, number in *. simpl. rewrite Hz in *.
      by split_and!. }
    constructor; [by eapply group_ok_words|]. apply (groups_next debt (tried d)); [lia|congruence|done].
  - left. split; [done|]. exists 0%nat, g, g', p0, p. rewrite Hsg, Hc', <- Ec in *. simpl.
    split_and!; try done; [lia|]. intros _. split_and!; [done|done|]. intros [= ->].
    destruct (Hlast eq_refl) as [-> ->]. apply lookup_lt_Some in Hp0. simpl in Htries.
    unfold number, zlen. split_and!; simpl; (done || lia).
Qed.

(** The request that is asked about: a first try, or the place of the last one. *)
Definition request_ok (g : rr_peers) (d : rr_data) (pc : peer_connection) : Prop :=
  1 <= tries pc < 2 ^ 64 /\ (tries pc = number g \/ 0 <= current d < number g).

Lemma serve_single debt now g next d pc :
  0 <= debt -> single g = true -> Forall (group_ok debt (tried d)) (g :: next) ->
  room_next (tried d) (g :: next) ->
  exists p us' d' pc', peer g !! 0%nat = Some p /\ rr_found g next d pc p = Some (us', d', pc', NGX_OK) /\
    keeps debt (g :: next) d us' d' /\ outcome now (g :: next) d pc us' d' pc' NGX_OK.
Proof.
  intros Hd Hsg Hok Hr. pose proof Hok as (Hg & Hnext)%Forall_cons.
  destruct Hg as (_ & _ & Hne & _). destruct (peer g) as [|p ps] eqn:Eg; [done|].
  destruct (rr_found_spec g next d pc p Hr) as (d' & pc' & E & Hl & Hp & Hc & Ha & Hn & _).
  exists p, (g :: next), d', pc'. split_and!; [done|done| |].
  - split_and!; [done..|]. by apply (groups_next debt (tried d)).
  - left. split; [done|]. exists 0%nat, g, g, p, p. rewrite Hsg, Eg. split_and!; try done; [lia|by left].
Qed.

(** A failed group that has none after it. *)
Lemma serve_none debt now g d pc pc0 n v' :
  0 <= debt -> group_ok debt (tried d) g -> good_turn debt now (mk_rr (peer g) d n) (Failed v') ->
  exists us' d' pc', rr_busy (g <| peer := v_peer v' |>) [] (v_data v') pc = (us', d', pc', NGX_BUSY) /\
    keeps debt [g] d us' d' /\ outcome now [g] d pc0 us' d' pc' NGX_BUSY.
Proof.
  intros Hd Hg (Hs & He). do 3 eexists. split; [done|].
  pose proof (group_ok_turns _ _ _ _ _ _ Hg Hs He) as Hok. pose proof He as (_ & _ & Hl & _).
  pose proof (evolves_zlen _ _ He) as Hz. simpl in Hl, Hz. set (g' := g <| peer := v_peer v' |>) in *.
  split; [split_and!|right; split_and!; [done| |done]].
  - unfold number, zlen in *. simpl. by rewrite length_fmap, Hz.
  - done.
  - done.
  - constructor; [|done]. apply group_ok_mono; [lia|]. by apply revived_ok.
  - constructor; [|done]. apply revived.
Qed.

(** The answer of the groups that follow a failed one. *)
Definition after_next (g : rr_peers) (r : rr_result) : rr_result :=
  let '(next, d, pc, rc) := r in
  if negb (rc =? NGX_BUSY) then (g :: next, d, pc, rc) else rr_busy g next d pc.

Lemma serve_next debt now g next d d1 pc pc1 v' n r :
  0 <= debt -> group_ok debt (tried d) g -> good_turn debt now (mk_rr (peer g) d n) (Failed v') ->
  peers d1 = S (peers d) -> length (tried d1) = length (tried d) ->
  (let '(us', d', pc', rc) := r in keeps debt next d1 us' d' /\ outcome now next d1 pc1 us' d' pc' rc) ->
  let '(us', d', pc', rc) := after_next (g <| peer := v_peer v' |>) r in
  keeps debt (g :: next) d us' d' /\ outcome now (g :: next) d pc us' d' pc' rc.
Proof.
  intros Hd Hg (Hs & He) Hp Hl. destruct r as [[[next' d'] pc'] rc]. intros ((Hn & Hsg & Hl' & Hok) & Ho).
  pose proof (group_ok_turns _ _ _ _ _ _ Hg Hs He) as Hg'. pose proof He as (_ & _ & Hlv & _).
  pose proof (evolves_zlen _ _ He) as Hz. simpl in Hlv, Hz. set (g' := g <| peer := v_peer v' |>) in *.
  assert (Hng : number g' = number g) by done.
  assert (Hg1 : group_ok (debt + 1) (tried d') g').
  { eapply group_ok_words; [|by apply group_ok_mono]. congruence. }
  unfold after_next. destruct (Z.eqb_spec rc NGX_BUSY) as [->|Hrc]; simpl.
  - destruct Ho as [[? _]|(_ & Hf & _)]; [done|]. split; [split_and!|right; split_and!; [done| |done]].
    + simpl. f_equal; [|done]. unfold number, zlen in *. simpl. by rewrite length_fmap.
    + rewrite !fmap_cons. by rewrite Hsg.
    + congruence.
    + constructor; [exact (revived_ok _ _ _ Hg1)|done].
    + constructor; [exact (revived g')|done].
  - split; [split_and!|].
    + rewrite !fmap_cons. by rewrite Hng, Hn.
    + rewrite !fmap_cons. by rewrite Hsg.
    + congruence.
    + by constructor.
    + by eapply outcome_next.
Qed.

Lemma get_spec debt now us d pc :
  0 <= debt < 2 ^ 62 -> Forall (group_ok debt (tried d)) us -> room_next (tried d) us ->
  (exists g, head us = Some g /\ (single g = true \/ request_ok g d pc)) ->
  exists us' d' pc' rc, ngx_http_upstream_get_round_robin_peer now us d pc = Some (us', d', pc', rc) /\
    keeps debt us d us' d' /\ outcome now us d pc us' d' pc' rc.
Proof.
  intros Hd. revert d pc. induction us as [|g next IH]; intros d pc Hok Hr (g0 & Hg0 & Hreq); [done|].
  injection Hg0 as <-. pose proof Hok as (Hg & Hnext)%Forall_cons. cbn [ngx_http_upstream_get_round_robin_peer].
  pose proof Hg as (Hc & _). rewrite Hc. cbn [Z.eqb negb].
  set (pc1 := update_field _ _ (update_field _ _ pc)).
  destruct (single g) eqn:Hsg.
  { destruct (serve_single debt now g next d pc1) as (p & us' & d' & pc' & -> & E & H); [lia|done..|].
    cbn [mbind option_bind]. exists us', d', pc', NGX_OK. split; [done|exact H]. }
  destruct Hreq as [?|(Ht & Hcur)]; [done|].
  destruct (rr_turns_spec debt now g d pc1) as (r & -> & Hturn); [lia|done..|]. cbn [mbind option_bind].
  destruct r as [v'|v'|v']; [|clear Hcur|done].
  { destruct (serve_chosen debt now g next d pc1 v') as (v'' & p & us' & d' & pc' & -> & E & H); [done..|].
    cbn [mbind option_bind]. rewrite E. exists us', d', pc', NGX_OK. split; [done|exact H]. }
  destruct next as [|b next].
  { destruct (serve_none debt now g d (pc1 <| tries := v_tries v' |>) pc _ v' (proj1 Hd) Hg Hturn)
      as (us' & d' & pc' & -> & H). exists us', d', pc', NGX_BUSY. split; [done|exact H]. }
  pose proof Hturn as (_ & (_ & Hp & Hl & _)). simpl in Hp, Hl.
  pose proof Hr as (Hb & Hr')%Forall_cons.
  destruct (clear_tried_spec (tried (v_data v')) (number b / WORD + 1)) as (ts & -> & Hts).
  { unfold number, WORD. pose proof (zlen_nonneg (peer b)). dlia. }
  { unfold zlen in *. by rewrite Hl. }
  cbn [mbind option_bind].
  set (d1 := (v_data v') <| peers := S (peers (v_data v')) |> <| tried := ts |>).
  set (pc2 := pc1 <| tries := v_tries v' |> <| tries := number b |>).
  assert (Hl1 : length (tried d1) = length (tried d)) by (simpl; congruence).
  destruct (IH d1 pc2) as (us' & d' & pc' & rc & -> & H).
  - eapply Forall_impl; [exact Hnext|]. intros x. by apply group_ok_words.
  - eapply Forall_impl; [exact Hr'|]. unfold zlen. by rewrite Hl1.
  - exists b. split; [done|]. right. inversion Hnext as [|? ? (_ & _ & Hne & Hnb & _)]; subst.
    split; [|by left]. simpl. unfold number, zlen in *. destruct (peer b); [done|]. simpl in *. lia.
  - cbn [mbind option_bind].
    pose proof (serve_next debt now g (b :: next) d d1 pc pc2 v' _ (us', d', pc', rc) (proj1 Hd) Hg Hturn) as Hn.
    specialize (Hn ltac:(simpl; congruence) Hl1 H). unfold after_next in Hn.
    destruct (negb _); [by exists (g <| peer := v_peer v' |> :: us'), d', pc', rc|].
    unfold rr_busy in *. by do 4 eexists.
Qed.
