(* ===== verification/RoundRobinRequest.v ===== *)
(** The balancing seen from the requests: the peers that the configuration makes, the
    answers to a request and to its retries, the share of each server. *)
From stdpp Require Import sorting.
From S2P Require Import Prelude RoundRobin RoundRobinSpec.

(** ** The peers of a configuration *)

Definition by_weight (w : Z) (p : rr_peer) : Prop := weight p = w.
#[export] Instance by_weight_dec w p : Decision (by_weight w p).
Proof. unfold by_weight. apply _. Defined.

Definition lighter (p q : rr_peer) : Prop := weight q <= weight p.

Notation cmp := ngx_http_upstream_cmp_servers.

Lemma cmp_pos p q : (0 <? cmp p q) = (weight p <? weight q).
Proof. unfold ngx_http_upstream_cmp_servers. by destruct (weight p <? weight q). Qed.

Lemma sort_back_perm p l : Permutation (sort_back cmp p l) (p :: l).
Proof.
  induction l as [|q l IH]; simpl; [done|]. destruct (0 <? _); [|done].
  rewrite IH. apply perm_swap.
Qed.

Lemma sort_back_sorted p l :
  StronglySorted (flip lighter) l -> StronglySorted (flip lighter) (sort_back cmp p l).
Proof.
  induction 1 as [|q l Hs IH Hq]; simpl; [repeat constructor|]. rewrite cmp_pos.
  destruct (Z.ltb_spec (weight q) (weight p)).
  - constructor; [done|]. rewrite sort_back_perm. constructor; [|done]. unfold flip, lighter. lia.
  - constructor; [by constructor|]. constructor; [unfold flip, lighter; lia|].
    eapply Forall_impl; [exact Hq|]. unfold flip, lighter. lia.
Qed.

Lemma sort_back_stable w p l : filter (by_weight w) (sort_back cmp p l) = filter (by_weight w) (p :: l).
Proof.
  induction l as [|q l IH]; [done|]. cbn [sort_back]. rewrite cmp_pos.
  destruct (Z.ltb_spec (weight q) (weight p)); [|done].
  rewrite !filter_cons in *. rewrite IH. unfold by_weight in *.
  repeat case_decide; (done || lia).
Qed.

Lemma StronglySorted_reverse (l : list rr_peer) :
  StronglySorted (flip lighter) l -> StronglySorted lighter (reverse l).
Proof.
  induction 1 as [|q l Hs IH Hq]; [constructor|]. rewrite reverse_cons.
  apply StronglySorted_app_2; [|done|repeat constructor].
  intros x y Hx Hy. apply list_elem_of_singleton in Hy as ->. rewrite elem_of_reverse in Hx.
  rewrite Forall_forall in Hq. by apply Hq.
Qed.

Lemma filter_reverse_by w (l : list rr_peer) : filter (by_weight w) (reverse l) = reverse (filter (by_weight w) l).
Proof.
  induction l as [|p l IH]; [done|]. rewrite reverse_cons, filter_app, IH, !filter_cons, filter_nil.
  case_decide; [by rewrite reverse_cons|by rewrite app_nil_r].
Qed.

(** The servers in the order of the weights, those of one weight in the order they had. *)
Definition in_order (ps l : list rr_peer) : Prop :=
  Permutation l ps /\ StronglySorted lighter l /\ forall w, filter (by_weight w) l = filter (by_weight w) ps.

Lemma ngx_sort_in_order ps : in_order ps (ngx_sort cmp true ps).
Proof.
  unfold ngx_sort. set (f := fun sorted p => _).
  assert (H : forall ps acc, StronglySorted (flip lighter) acc ->
    let l := fold_left f ps acc in Permutation l (ps ++ acc) /\ StronglySorted (flip lighter) l /\
      forall w, filter (by_weight w) l = reverse (filter (by_weight w) ps) ++ filter (by_weight w) acc).
  { clear ps. induction ps as [|p ps IH]; intros acc Ha; [done|]. cbn [fold_left].
    destruct (IH (f acc p)) as (H1 & H2 & H3); [by apply sort_back_sorted|]. split_and!; [|done|].
    - rewrite H1. unfold f. rewrite sort_back_perm. symmetry. apply Permutation_middle.
    - intros w. rewrite H3. unfold f. rewrite sort_back_stable, !filter_cons. case_decide; [|done].
      by rewrite reverse_cons, <- (assoc_L (++)). }
  destruct (H ps [] (SSorted_nil _)) as (H1 & H2 & H3). split_and!.
  - rewrite reverse_Permutation, H1. by rewrite app_nil_r.
  - by apply StronglySorted_reverse.
  - intros w. by rewrite filter_reverse_by, H3, filter_nil, app_nil_r, reverse_involutive.
Qed.

(** What the directives [server] give. *)
Definition server_ok (s : upstream_server) : Prop :=
  0 <= srv_weight s < 2 ^ 62 /\ 0 <= srv_max_fails s.

#[export] Instance server_ok_dec s : Decision (server_ok s).
Proof. unfold server_ok. apply _. Defined.

Lemma peers_of_wf bak servers :
  Forall server_ok servers -> Forall (wf_peer 0) (peers_of bak servers).
Proof.
  intros H. unfold peers_of. apply Forall_bind. eapply Forall_impl; [exact H|]. intros s (Hw & Hm).
  unfold compose. destruct (Bool.eqb _ _); [|constructor]. apply Forall_fmap, Forall_forall. intros a _.
  unfold wf_peer. simpl. case_match; lia.
Qed.

Lemma tried_words_room n : 0 < n -> n <= WORD * Z.of_nat (tried_words n).
Proof. intros Hn. unfold tried_words, WORD. case_match; dlia. Qed.

Lemma group_of_servers bak servers host sg :
  Forall server_ok servers -> peers_of bak servers <> [] -> zlen (peers_of bak servers) < 2 ^ 64 ->
  let g := mk_peers sg 0 [] host (ngx_sort cmp true (peers_of bak servers)) in
  in_order (peers_of bak servers) (peer g) /\ number g = zlen (peers_of bak servers) /\ 0 < number g /\
  forall t, number g <= WORD * zlen t -> group_ok 0 t g.
Proof.
  intros Hs Hne Hlen g. pose proof (ngx_sort_in_order (peers_of bak servers)) as (Hp & Hss & Hst).
  assert (Hn : number g = zlen (peers_of bak servers)) by (unfold number, zlen; simpl; by rewrite Hp).
  assert (0 < number g) by (rewrite Hn; unfold zlen; destruct (peers_of _ _); [done|simpl; lia]).
  split_and!; [done..|]. intros t Ht. split_and!; [done| | |lia|unfold in_words; lia].
  - simpl. rewrite Hp. by apply peers_of_wf.
  - intros E. unfold number in *. rewrite E in *. done.
Qed.

Lemma fresh_untried k m : in_words (replicate k 0) m -> is_tried (replicate k 0) m = Some false.
Proof.
  intros Hm. destruct (in_words_lookup _ _ Hm) as (w & Hw). erewrite is_tried_bit by done.
  apply lookup_replicate in Hw as [-> _]. by rewrite Z.bits_0.
Qed.

Lemma room_next_words n m k :
  0 < n -> 0 < m -> k = tried_words (Z.max n m) ->
  m / WORD + 1 <= Z.of_nat k <-> ~ (n <= m /\ m mod WORD = 0).
Proof. intros Hn Hm ->. unfold tried_words, WORD. case_match; dlia. Qed.

(** The number of words is too small for the clearing exactly where the servers for backup
    fill the last word and are not fewer than the others. *)
Definition overrun (ps bs : list rr_peer) : Prop :=
  bs <> [] /\ zlen ps <= zlen bs /\ zlen bs mod WORD = 0.

Definition fresh (d : rr_data) : Prop :=
  peers d = 0%nat /\ current d = 0 /\ forall m, in_words (tried d) m -> is_tried (tried d) m = Some false.

(** C14: the configuration makes the lists of peers and a request the words of the tried
    ones: the peers are the servers in the order of their weights, those of one weight in
    the order of the directives; every list is well-formed and has a bit for each peer; no
    peer is tried; and the words can be cleared for the servers for backup unless these are a
    multiple of 64 and not fewer than the others. *)
Theorem init_ready host servers :
  let ps := peers_of false servers in
  let bs := peers_of true servers in
  let us := ngx_http_upstream_init_round_robin true host servers in
  Forall server_ok servers -> ps <> [] -> zlen ps < 2 ^ 64 -> zlen bs < 2 ^ 64 ->
  exists d, ngx_http_upstream_init_round_robin_peer us = Some (d, zlen ps) /\ fresh d /\
    Forall2 in_order (if decide (bs = []) then [ps] else [ps; bs]) (peer <$> us) /\
    Forall (group_ok 0 (tried d)) us /\ (room_next (tried d) us <-> ~ overrun ps bs).
Proof.
  intros ps bs us Hs Hne Hps Hbs. subst us. unfold ngx_http_upstream_init_round_robin.
  fold ps bs. case_decide as E.
  - destruct (group_of_servers false servers host (zlen ps =? 1) Hs Hne Hps) as (Ho & Hn & H0 & Hg).
    fold ps in Ho, Hn, H0, Hg. set (g := mk_peers _ _ _ _ _) in *.
    eexists. split; [unfold ngx_http_upstream_init_round_robin_peer; simpl; by rewrite Hn|].
    split; [split_and!; [done..|apply fresh_untried]|]. split; [apply Forall2_cons_2; [done|apply Forall2_nil_2]|].
    split; [|split; [by intros _ (? & _)|constructor]].
    constructor; [|done]. apply Hg. rewrite Hn in *. unfold zlen at 2. simpl tried. rewrite length_replicate.
    by apply tried_words_room.
  - destruct (group_of_servers false servers host false Hs Hne Hps) as (Ho & Hn & H0 & Hg).
    destruct (group_of_servers true servers host false Hs E Hbs) as (Ho' & Hn' & H0' & Hg').
    fold ps in Ho, Hn, H0, Hg. fold bs in Ho', Hn', H0', Hg'.
    set (g := mk_peers false 0 [] host (ngx_sort cmp true ps)) in *.
    set (g' := mk_peers false 0 [] host (ngx_sort cmp true bs)) in *.
    set (k := tried_words (Z.max (number g) (number g'))).
    exists (mk_data 0 0 (replicate k 0)). split.
    { rewrite <- Hn.
      change (Some (mk_data 0 0 (replicate (tried_words (if number g <? number g' then number g' else number g)) 0),
                    number g) = Some (mk_data 0 0 (replicate k 0), number g)).
      do 4 f_equal. subst k. f_equal. destruct (Z.ltb_spec (number g) (number g')); lia. }
    split; [split_and!; [done..|apply fresh_untried]|]. split; [apply Forall2_cons_2, Forall2_cons_2, Forall2_nil_2; done|].
    assert (number g <= WORD * zlen (replicate k 0) /\ number g' <= WORD * zlen (replicate k 0)) as [Hk Hk'].
    { unfold zlen. rewrite length_replicate.
      pose proof (tried_words_room (Z.max (number g) (number g'))). fold k in H. lia. }
    split; [apply Forall_cons_2; [by apply Hg|apply Forall_cons_2; [by apply Hg'|done]]|].
    pose proof (room_next_words (number g) (number g') k H0 H0' eq_refl) as Hr.
    assert (Hz : zlen (replicate k 0) = Z.of_nat k) by (unfold zlen; by rewrite length_replicate).
    unfold room_next, overrun. cbn [tail]. rewrite list.Forall_singleton. cbn [tried].
    rewrite Hz, Hr, Hn, Hn'. naive_solver.
Qed.

(** *** A request is answered *)


(** *** A peer is given back *)

Lemma peer_failed_wf debt now p : 0 <= debt < 2 ^ 62 -> wf_peer debt p -> wf_peer debt (peer_failed now p).
Proof.
  intros Hd Hp. unfold wf_peer, peer_failed in *. simpl.
  destruct (negb (max_fails p =? 0)) eqn:E; [|case_match; lia].
  rewrite (u64_id (weight p)) by lia.
  assert (0 <= weight p / max_fails p <= weight p).
  { split; [apply Z.div_pos; lia|]. apply Z.div_le_upper_bound; nia. }
  rewrite s64_id by lia. case_match; lia.
Qed.

Lemma free_spec debt now g d pc state :
  0 <= debt < 2 ^ 62 -> group_ok debt (tried d) g -> single g = false ->
  0 <= current d < number g -> 1 <= tries pc < 2 ^ 64 ->
  exists g' d' pc', ngx_http_upstream_free_round_robin_peer now g d pc state = Some (g', d', pc') /\
    group_ok debt (tried d') g' /\ number g' = number g /\ single g' = false /\
    tried d' = tried d /\ peers d' = peers d /\ 0 <= current d' < number g /\ tries pc' = tries pc - 1.
Proof.
  intros Hd Hg Hs Hc Ht. unfold ngx_http_upstream_free_round_robin_peer. rewrite Hs.
  replace (tries pc =? 0) with false by lia. rewrite andb_false_r.
  assert (0 <= current (advance (number g) d) < number g) as [Ha1 Ha2] by (apply advance_range; lia).
  destruct (negb (Z.land _ _ =? 0)).
  2:{ cbn [mbind option_bind negb]. do 3 eexists. split; [done|]. destruct Hg as (?&?&?&?&[]). by split_and!. }
  destruct (lookup_lt_is_Some_2 (peer g) (Z.to_nat (current d))) as (p & Hp).
  { unfold number, zlen in Hc. lia. }
  rewrite Hp. cbn [mbind option_bind negb].
  destruct Hg as (?&Hw&?&?&?). assert (Hq : wf_peer debt (peer_failed now p)).
  { apply peer_failed_wf; [done|]. by apply (Forall_lookup_1 _ _ _ _ Hw Hp). }
  do 3 eexists. split; [done|]. unfold group_ok, number, zlen in *. simpl. rewrite length_insert.
  split_and!; try done.
  - by apply Forall_insert.
  - intros E. apply (f_equal length) in E. rewrite length_insert in E. by destruct (peer g).
Qed.

(** ** A request and its retries *)

(** A request whose server fails is passed to the next one while there are tries; the times
    are those of the attempts, the results the servers that were asked, by their list and
    their place in it. *)
Fixpoint attempts (nows : list Z) (us : list rr_peers) (d : rr_data) (pc : peer_connection) : option (list (nat * Z)) :=
  match nows with
  | [] => Some []
  | now :: nows =>
      '(us, d', pc, rc) ← ngx_http_upstream_get_round_robin_peer now us d pc;
      if negb (rc =? NGX_OK) then Some []
      else
        (* the list that has answered is the current one *)
        let us := drop (peers d' - peers d) us in
        g ← head us;
        '(g, d'', pc) ← ngx_http_upstream_free_round_robin_peer now g d' pc NGX_PEER_FAILED;
        cs ← (if tries pc =? 0 then Some [] else attempts nows (g :: tail us) d'' pc);
        Some ((peers d', current d') :: cs)
  end.

(** One attempt. *)
Lemma get_one debt now g d pc :
  0 <= debt < 2 ^ 62 -> group_ok debt (tried d) g -> single g = false -> request_ok g d pc ->
  exists us' d' pc' rc, ngx_http_upstream_get_round_robin_peer now [g] d pc = Some (us', d', pc', rc) /\
    (rc = NGX_BUSY \/ rc = NGX_OK /\ exists g', us' = [g'] /\ group_ok (debt + 1) (tried d') g' /\
      number g' = number g /\ single g' = false /\ peers d' = peers d /\
      is_tried (tried d) (current d') = Some false /\ bits_kept d d' /\
      is_tried (tried d') (current d') = Some true /\ 0 <= current d' < number g /\ 1 <= tries pc' <= tries pc).
Proof.
  intros Hd Hg Hs Hr. destruct (get_spec debt now [g] d pc) as (us' & d' & pc' & rc & E & Hk & Ho); [done|..].
  - by apply Forall_cons_2.
  - constructor.
  - exists g. auto.
  - exists us', d', pc', rc. split; [done|].
    destruct Ho as [[-> (k & g0 & g' & p & q & Hg0 & Hg' & Hpe & _ & _ & _ & _ & _ & _ & Hu)]|[-> _]]; [right|by left].
    destruct k as [|k]; [|done]. injection Hg0 as <-. destruct (Hu Hs) as (_ & Ht & Hone).
    destruct (Hone eq_refl) as (Hb & Ht' & Hc & Htr). destruct Hk as (Hn & Hsg & _ & Hok).
    destruct us' as [|g1 [|]]; [done| |done]. injection Hg' as ->. injection Hn as Hn. injection Hsg as Hsg.
    split; [done|]. exists g'. apply Forall_cons in Hok as [Hok _]. split_and!; (done || lia || auto || congruence).
Qed.

Lemma attempts_spec nows debt g d pc :
  0 <= debt -> debt + zlen nows < 2 ^ 62 -> group_ok debt (tried d) g -> single g = false -> request_ok g d pc ->
  exists cs, attempts nows [g] d pc = Some cs /\ NoDup cs.*2 /\
    Forall (fun '(k, c) => k = peers d /\ 0 <= c < number g /\ is_tried (tried d) c = Some false) cs.
Proof.
  revert debt g d pc. induction nows as [|now nows IH]; intros debt g d pc Hd Hn Hg Hs Hr.
  { exists []. by repeat constructor. }
  rewrite zlen_cons in Hn. pose proof (zlen_nonneg nows). cbn [attempts].
  destruct (get_one debt now g d pc) as (us' & d1 & pc1 & rc & -> & Ho); [lia|done..|].
  cbn [mbind option_bind]. destruct Ho as [->|(-> & g1 & -> & Hg1 & Hn1 & Hs1 & Hpe & Ht & Hb & Ht' & Hc & Htr)].
  { exists []. by repeat constructor. }
  destruct Hr as (Htries & _). cbn [negb Z.eqb]. rewrite Hpe, Nat.sub_diag. cbn [drop head tail mbind option_bind].
  destruct (free_spec (debt + 1) now g1 d1 pc1 NGX_PEER_FAILED)
    as (g2 & d2 & pc2 & E & Hg2 & Hn2 & Hs2 & Hd2 & Hpe2 & Hc2 & Ht2); [lia|done|done|lia|lia|].
  cbn [option_map] in *. simpl. rewrite E. cbn [mbind option_bind].
  destruct (Z.eqb_spec (tries pc2) 0) as [E0|E0].
  { exists [(peers d, current d1)]. split; [done|]. split; [apply NoDup_singleton|].
    by apply list.Forall_singleton. }
  destruct (IH (debt + 1) g2 d2 pc2) as (cs & -> & Hnd & Hcs); [lia|lia|done|done|split; lia|].
  exists ((peers d, current d1) :: cs). split; [done|]. rewrite Hd2, Hpe2, Hpe, Hn2, Hn1 in *. split.
  - rewrite fmap_cons. apply NoDup_cons_2; [|done]. intros ((k & c) & Hkc & Hin)%list_elem_of_fmap.
    rewrite Forall_forall in Hcs. apply Hcs in Hin as (_ & _ & Hin). cbn in *. congruence.
  - apply Forall_cons_2; [done|]. eapply Forall_impl; [exact Hcs|]. intros [k c] (Hk & Hc' & Hf). split; [done|]. split; [done|].
    destruct Hg as (_ & _ & _ & _ & Hw). destruct (is_tried_Some (tried d) c) as ([|] & Hb'); [unfold in_words in *; lia| |done].
    apply Hb in Hb'; [congruence|lia].
Qed.

Lemma distinct_range (cs : list Z) n :
  0 <= n -> NoDup cs -> Forall (fun c => 0 <= c < n) cs -> zlen cs <= n.
Proof.
  intros Hn Hnd Hcs. rewrite Forall_forall in Hcs.
  assert (Hin : cs ⊆+ (Z.of_nat <$> seq 0 (Z.to_nat n))).
  { apply NoDup_submseteq; [done|]. intros c Hc. apply Hcs in Hc. apply list_elem_of_fmap.
    exists (Z.to_nat c). split; [lia|]. apply elem_of_seq. lia. }
  apply submseteq_length in Hin. rewrite length_fmap, length_seq in Hin. unfold zlen. lia.
Qed.

(** C13: without servers for backup and with at least two servers, a request and its retries
    ask no server twice, and end after as many attempts as there are servers. *)
Theorem retries_distinct host servers nows :
  let ps := peers_of false servers in
  let us := ngx_http_upstream_init_round_robin true host servers in
  Forall server_ok servers -> peers_of true servers = [] -> 2 <= zlen ps < 2 ^ 64 -> zlen nows < 2 ^ 62 ->
  exists d n cs, ngx_http_upstream_init_round_robin_peer us = Some (d, n) /\
    attempts nows us d (mk_pc None 0 [] n false) = Some cs /\ NoDup cs /\ zlen cs <= zlen ps /\
    Forall (fun '(k, c) => k = 0%nat /\ 0 <= c < zlen ps) cs.
Proof.
  intros ps us Hs Hb Hps Hn.
  assert (Hne : ps <> []) by (intros E; rewrite E in Hps; unfold zlen in Hps; simpl in Hps; lia).
  destruct (group_of_servers false servers host false Hs Hne (proj2 Hps)) as (_ & Hng & H0 & Hg).
  fold ps in Hng, H0, Hg. set (g := mk_peers _ _ _ _ _) in *.
  assert (us = [g]) as Hus.
  { subst us. unfold ngx_http_upstream_init_round_robin. rewrite decide_True by done. fold ps.
    by replace (zlen ps =? 1) with false by lia. }
  set (d := mk_data 0 0 (replicate (tried_words (number g)) 0)).
  assert (Hd : group_ok 0 (tried d) g).
  { apply Hg. simpl. unfold zlen. rewrite length_replicate. by apply tried_words_room. }
  destruct (attempts_spec nows 0 g d (mk_pc None 0 [] (number g) false)) as (cs & E & Hnd & Hcs);
    [lia|lia|done|done|split; [simpl; lia|by left]|].
  assert (Hrange : Forall (fun '(k, c) => k = 0%nat /\ 0 <= c < zlen ps) cs).
  { eapply Forall_impl; [exact Hcs|]. rewrite <- Hng. by intros [k c] (-> & Hc & _). }
  exists d, (number g), cs. rewrite Hus. split_and!; [done|done| | |done].
  - by apply NoDup_fmap_1 in Hnd.
  - replace (zlen cs) with (zlen cs.*2) by (unfold zlen; by rewrite length_fmap).
    apply distinct_range; [lia|done|]. apply Forall_fmap. eapply Forall_impl; [exact Hrange|]. by intros [k c] [_ Hc].
Qed.

(** ** The share of each server *)

(** A server that is up and does not fail. *)
Definition healthy (p : rr_peer) : Prop := down p = false /\ (max_fails p = 0 \/ fails p < max_fails p).

Lemma look_at_healthy now p : healthy p -> look_at now p = Good p.
Proof. intros [Hd Hf]. unfold look_at. rewrite Hd. replace (_ || _) with true; [done|]. symmetry. apply orb_true_iff. lia. Qed.

(** Requests one after another, with the servers that they are given. *)
Fixpoint serve (nows : list Z) (us : list rr_peers) : option (list rr_peers * list Z) :=
  match nows with
  | [] => Some (us, [])
  | now :: nows =>
      '(d, n) ← ngx_http_upstream_init_round_robin_peer us;
      '(us, d, _, _) ← ngx_http_upstream_get_round_robin_peer now us d (mk_pc None 0 [] n false);
      '(us, cs) ← serve nows us;
      Some (us, current d :: cs)
  end.

(** Servers between two refills. *)
Record cycle (g : rr_peers) : Prop := {
  cycle_group : last_cached g = 0 /\ single g = false /\ 0 < number g < 2 ^ 64;
  cycle_peers : Forall (fun p => healthy p /\ wf_peer 0 p) (peer g)
}.

Definition lower (p : rr_peer) : rr_peer := p <| current_weight := current_weight p - 1 |>.
Definition left_weight (ps : list rr_peer) : Z := foldr (fun p s => current_weight p + s) 0 ps.

Lemma left_weight_insert ps k p q :
  ps !! k = Some p -> left_weight (<[k := q]> ps) = left_weight ps - current_weight p + current_weight q.
Proof.
  revert k. induction ps as [|x ps IH]; intros [|k] Hk; [done|done| |]; simpl in *.
  - injection Hk as ->. lia.
  - rewrite (IH k Hk). lia.
Qed.

Lemma left_weight_pos ps :
  Forall (fun p => 0 <= current_weight p) ps ->
  0 <= left_weight ps /\ (0 < left_weight ps -> Exists (fun p => 0 < current_weight p) ps).
Proof.
  induction 1 as [|p ps Hp H IH]; simpl; [lia|]. split; [lia|]. intros Hs.
  destruct (decide (0 < current_weight p)); [by constructor|]. apply Exists_cons_tl, IH. lia.
Qed.

Lemma first_turn now g d pc k p :
  ngx_http_upstream_get_peer (peer g) = Some (peer g, Z.of_nat k) -> tries pc = number g ->
  is_tried (tried d) (Z.of_nat k) = Some false -> peer g !! k = Some p -> healthy p ->
  rr_turns now g d pc = Some (Chosen (mk_rr (peer g) (d <| current := Z.of_nat k |>) (tries pc))).
Proof.
  intros Hg Ht Hd Hk Hh. unfold rr_turns. rewrite Ht, Z.eqb_refl. cbn [first_loop v_peer]. rewrite Hg.
  cbn [mbind option_bind]. unfold try_current. simpl. rewrite Hd. cbn [mbind option_bind].
  rewrite Nat2Z.id, Hk. cbn [mbind option_bind]. rewrite look_at_healthy by done.
  by rewrite list_insert_id.
Qed.

Lemma take_lower v k p t' :
  current (v_data v) = Z.of_nat k -> v_peer v !! k = Some p -> 0 < current_weight p < 2 ^ 63 ->
  set_tried (tried (v_data v)) (Z.of_nat k) = Some t' ->
  take_current v =
  Some (mk_rr (<[k := lower p]> (v_peer v)) ((v_data v) <| tried := t' |>) (v_tries v), lower p).
Proof.
  intros Hc Hk Hp Ht. unfold take_current. rewrite Hc, Nat2Z.id, Hk. cbn [mbind option_bind].
  rewrite Ht. cbn [mbind option_bind]. by rewrite s64_id by lia.
Qed.

Lemma cycle_step now g :
  cycle g -> 0 < left_weight (peer g) ->
  exists d n k p pc' d', ngx_http_upstream_init_round_robin_peer [g] = Some (d, n) /\
    peer g !! k = Some p /\ 0 < current_weight p /\ current d' = Z.of_nat k /\
    ngx_http_upstream_get_round_robin_peer now [g] d (mk_pc None 0 [] n false)
    = Some ([g <| peer := <[k := lower p]> (peer g) |>], d', pc', NGX_OK).
Proof.
  intros [(Hl & Hs & Hn) Hps] Hw.
  assert (Hwf : Forall (wf_peer 0) (peer g)) by (eapply Forall_impl; [exact Hps|]; by intros p []).
  assert (Hne : peer g <> []) by (intros E; unfold number in Hn; rewrite E in Hn; unfold zlen in Hn; simpl in Hn; lia).
  destruct (get_peer_spec 0 (peer g)) as (ps & n & E & Hr & _ & _ & Hsame); [done..|].
  destruct Hsame as [-> (k & p & Hk & -> & Hp)].
  { apply left_weight_pos; [|done]. eapply Forall_impl; [exact Hwf|]. unfold wf_peer. lia. }
  rewrite Z.add_0_l in *. set (t := replicate (tried_words (number g)) 0). set (d := mk_data 0 0 t).
  assert (Hin : in_words t (Z.of_nat k)).
  { pose proof (tried_words_room (number g)). apply lookup_lt_Some in Hk. unfold in_words, t, zlen, number in *.
    rewrite length_replicate. unfold zlen in *. lia. }
  apply (Forall_lookup_1 _ _ _ _ Hps) in Hk as Hpp. destruct Hpp as [Hh Hpw].
  destruct (set_tried_spec t (Z.of_nat k) Hin) as (t' & Et & _ & _).
  exists d, (number g), k, p. do 2 eexists. split_and!; [done|done|done| |].
  2:{ cbn [ngx_http_upstream_get_round_robin_peer]. rewrite Hl. cbn [Z.eqb negb]. rewrite Hs.
      rewrite (first_turn now g d _ k p) by (done || by apply fresh_untried). cbn [mbind option_bind].
      rewrite (take_lower _ k p t') by (done || unfold wf_peer in Hpw; lia). reflexivity. }
  done.
Qed.

Lemma cycle_lower g k p :
  cycle g -> peer g !! k = Some p -> 0 < current_weight p ->
  cycle (g <| peer := <[k := lower p]> (peer g) |>).
Proof.
  intros [(Hl & Hs & Hn) Hps] Hk Hp. pose proof (Forall_lookup_1 _ _ _ _ Hps Hk) as [Hh Hw].
  split.
  - unfold number, zlen in *. simpl. by rewrite length_insert.
  - simpl. apply Forall_insert; [done|]. split; [done|]. unfold wf_peer in *. simpl. lia.
Qed.

(** The number of times a server is given. *)
Definition times (i : nat) (cs : list Z) : Z := Z.of_nat (count_occ Z.eq_dec cs (Z.of_nat i)).

Lemma serve_cycle nows g :
  cycle g -> zlen nows = left_weight (peer g) ->
  exists g' cs, serve nows [g] = Some ([g'], cs) /\ cycle g' /\ left_weight (peer g') = 0 /\
    forall i p, peer g !! i = Some p -> exists p', peer g' !! i = Some p' /\
      times i cs = current_weight p - current_weight p'.
Proof.
  revert g. induction nows as [|now nows IH]; intros g Hc Hn.
  { exists g, []. split_and!; [done|done|done|]. intros i p Hi. exists p. split; [done|]. unfold times. simpl. lia. }
  rewrite zlen_cons in Hn. pose proof (zlen_nonneg nows).
  destruct (cycle_step now g Hc) as (d & n & k & p & pc' & d' & Ei & Hk & Hp & Hd' & Eg); [lia|].
  cbn [serve]. rewrite Ei. cbn [mbind option_bind]. rewrite Eg. cbn [mbind option_bind].
  set (g1 := g <| peer := <[k := lower p]> (peer g) |>).
  destruct (IH g1) as (g' & cs & Es & Hc' & Hz & Ht).
  { by apply cycle_lower. }
  { subst g1. simpl. rewrite (left_weight_insert _ _ _ _ Hk). simpl. lia. }
  rewrite Es. cbn [mbind option_bind]. exists g', (current d' :: cs). split_and!; [done|done|done|].
  intros i q Hi. unfold times in *. cbn [count_occ]. rewrite Hd'. destruct (decide (i = k)) as [->|Hne].
  - destruct (Ht k (lower p)) as (p' & Hp' & Hcount).
    { simpl. apply list_lookup_insert_eq. by eapply lookup_lt_Some. }
    exists p'. split; [done|]. rewrite Hk in Hi. injection Hi as <-.
    destruct (Z.eq_dec (Z.of_nat k) (Z.of_nat k)); [|done]. simpl in Hcount. lia.
  - destruct (Ht i q) as (p' & Hp' & Hcount); [simpl; by rewrite list_lookup_insert_ne|].
    exists p'. split; [done|]. destruct (Z.eq_dec (Z.of_nat k) (Z.of_nat i)); [lia|done].
Qed.

Lemma left_weight_zero ps i p :
  Forall (wf_peer 0) ps -> left_weight ps = 0 -> ps !! i = Some p -> current_weight p = 0.
Proof.
  intros H. revert i. induction H as [|q ps Hq H IH]; intros [|i] Hz Hi; [done|done| |]; simpl in Hz;
    (assert (0 <= left_weight ps) by
      (apply left_weight_pos; eapply Forall_impl; [exact H|]; unfold wf_peer; lia)); unfold wf_peer in Hq.
  - injection Hi as <-. lia.
  - apply (IH i); [lia|done].
Qed.

(** C11: with one list of several servers, all of them up and none failing too often, and
    their shares full, as many first requests as the sum of the weights give each server
    exactly as many as its weight. *)
Theorem round_robin_fair nows g :
  cycle g -> Forall (fun p => current_weight p = weight p) (peer g) ->
  zlen nows = foldr (fun p s => weight p + s) 0 (peer g) ->
  exists g' cs, serve nows [g] = Some ([g'], cs) /\ zlen cs = zlen nows /\
    forall i p, peer g !! i = Some p -> times i cs = weight p.
Proof.
  intros Hc Hfull Hn. destruct (serve_cycle nows g Hc) as (g' & cs & E & Hc' & Hz & Ht).
  { rewrite Hn. clear -Hfull. induction Hfull as [|p ps Hp H IH]; simpl; [done|]. by rewrite Hp, IH. }
  exists g', cs. split; [done|]. split.
  - clear -E. revert g' cs E. generalize [g] as us. induction nows as [|now nows IH]; intros us g' cs E.
    { simpl in E. by simplify_eq. }
    cbn [serve] in E. repeat (case_match || simplify_option_eq). rewrite !zlen_cons. f_equal. by eapply IH.
  - intros i p Hi. destruct (Ht i p Hi) as (p' & Hp' & ->).
    rewrite (left_weight_zero (peer g') i p'); [|eapply Forall_impl; [exact (cycle_peers _ Hc')|]; by intros q []|done..].
    apply (Forall_lookup_1 _ _ _ _ Hfull) in Hi. simpl in Hi. lia.
Qed.

(** ** Concrete configurations *)

Definition plain_server (w : Z) : upstream_server := mk_server [(1, bs "10.0.0.1:80")] w 1 10 false false.
Definition backup_server : upstream_server := mk_server [(2, bs "10.0.0.2:80")] 1 1 10 false true.
Definition down_server : upstream_server := mk_server [(3, bs "10.0.0.3:80")] 5 1 10 true false.

Definition three_servers : list upstream_server := [plain_server 1; down_server; plain_server 4].

Lemma init_ready_witness :
  exists d, ngx_http_upstream_init_round_robin_peer
    (ngx_http_upstream_init_round_robin true (bs "backend") (backup_server :: three_servers)) = Some (d, 3) /\ fresh d.
Proof.
  destruct (init_ready (bs "backend") (backup_server :: three_servers)) as (d & E & Hf & _).
  - by_decide.
  - by vm_compute.
  - by vm_compute.
  - by vm_compute.
  - exists d. split; [exact E|exact Hf].
Defined.

Definition lone (bad : Z) : rr_peers :=
  mk_peers false 0 [] (bs "backend")
    [mk_peer 1 (bs "a") 0 1 0 0 1 10 false; mk_peer 2 (bs "b") 1 1 bad 100 1 10 false].

Lemma lone_ok bad : group_ok 0 [0] (lone bad).
Proof.
  split_and!; [done| |done|by vm_compute|split; by vm_compute].
  repeat constructor; simpl; lia.
Qed.


Lemma retries_distinct_witness :
  exists d n cs, attempts [0; 0; 0; 0] (ngx_http_upstream_init_round_robin true (bs "backend") three_servers) d
    (mk_pc None 0 [] n false) = Some cs /\ zlen cs <= 3.
Proof.
  destruct (retries_distinct (bs "backend") three_servers [0; 0; 0; 0]) as (d & n & cs & _ & E & _ & Hl & _).
  - by_decide.
  - by vm_compute.
  - by vm_compute.
  - by vm_compute.
  - exists d, n, cs. split; [exact E|exact Hl].
Defined.

(** With a server for backup the bits are cleared when one try is left, while the first list
    is still the current one: its servers, here without [max_fails], are asked again. *)
Example backup_asks_again :
  let forgiving := mk_server [(1, bs "10.0.0.1:80")] 1 0 10 false false in
  let us := ngx_http_upstream_init_round_robin true (bs "backend") [forgiving; forgiving; backup_server] in
  exists d n, ngx_http_upstream_init_round_robin_peer us = Some (d, n) /\
    attempts (replicate 6 0) us d (mk_pc None 0 [] n false) =
    Some [(0%nat, 1); (0%nat, 0); (0%nat, 1); (0%nat, 0); (0%nat, 1); (0%nat, 0)].
Proof. exists (mk_data 0 0 [0]), 2. split; vm_compute; reflexivity. Qed.

Definition four_two_one : rr_peers :=
  mk_peers false 0 [] (bs "backend")
    [mk_peer 1 (bs "a") 4 4 0 0 1 10 false; mk_peer 2 (bs "b") 2 2 0 0 1 10 false; mk_peer 3 (bs "c") 1 1 0 0 1 10 false].

Lemma round_robin_fair_witness :
  exists g' cs, serve (replicate 7 0) [four_two_one] = Some ([g'], cs) /\ times 0 cs = 4.
Proof.
  destruct (round_robin_fair (replicate 7 0) four_two_one) as (g' & cs & E & _ & Ht).
  - split; [split_and!; by vm_compute|]. repeat (constructor; [split; [split; [done|simpl; lia]|unfold wf_peer; simpl; lia]|]). constructor.
  - repeat constructor.
  - by vm_compute.
  - exists g', cs. split; [exact E|exact (Ht 0%nat _ eq_refl)].
Defined.

(** The servers are mixed. *)
Example mixed_order :
  snd <$> serve (replicate 7 0) [four_two_one] = Some [2; 1; 0; 0; 1; 0; 0].
Proof. vm_compute. reflexivity. Qed.

(** The clearing of [tried] for 64 servers for backup writes a second word of an array of one. *)
Example tried_overrun :
  let us := ngx_http_upstream_init_round_robin true (bs "backend") (plain_server 1 :: replicate 64 backup_server) in
  exists d n, ngx_http_upstream_init_round_robin_peer us = Some (d, n) /\ length (tried d) = 1%nat /\
    ngx_http_upstream_get_round_robin_peer 0 us d (mk_pc None 0 [] n false) = None.
Proof. exists (mk_data 0 0 [0]), 1. split_and!; vm_compute; reflexivity. Qed.

(** The server "b" fails and alone has a share left: it is looked at, the shares are given
    again, and it is looked at once more, so that the tries are used up and the request is
    refused though "a" is live. *)
Example live_server_missed :
  (fun r : rr_result => r.2) <$>
    ngx_http_upstream_get_round_robin_peer 105 [lone 1] (mk_data 0 0 [0]) (mk_pc None 0 [] 2 false) = Some NGX_BUSY.
Proof. vm_compute. reflexivity. Qed.
