(* ===== verification/Resolver.v ===== *)
(** The messages of the resolver of src/core/ngx_resolver.c: the queries that are sent and
    the responses that are read, as bytes.  The nodes of the resolver are found by
    arguments of the functions; a result says what is done with the node. *)
From S2P Require Import Prelude CString Numbers Bytes Sprintf Times.

(** ** Messages *)

(** The sizes of [ngx_resolver_query_t], [ngx_resolver_qs_t] and [ngx_resolver_an_t]. *)
Definition QUERY_SIZE : Z := 12.
Definition QS_SIZE : Z := 4.
Definition AN_SIZE : Z := 10.

Definition NGX_RESOLVE_A : Z := 1.
Definition NGX_RESOLVE_CNAME : Z := 5.
Definition NGX_RESOLVE_PTR : Z := 12.
Definition NGX_RESOLVE_DNAME : Z := 39.
Definition NGX_RESOLVE_FORMERR : Z := 1.
Definition NGX_RESOLVE_NXDOMAIN : Z := 3.
Definition NGX_RESOLVE_REFUSED : Z := 5.

(** [(hi << 8) + lo] of two bytes of memory. *)
Definition word (buf : bytes) (i : Z) : attempt Z :=
  hi ← access (rd buf i);
  lo ← access (rd buf (i + 1));
  mret (Z.shiftl hi 8 + lo).

(** ** Queries *)

(** The members of the header: the identifier, the flag that asks for recursion, one
    question. *)
Definition query_header (ident : Z) : bytes :=
  [u8 (Z.land (Z.shiftr ident 8) 255); u8 (Z.land ident 255); 1; 0; 0; 1; 0; 0; 0; 0; 0; 0].

(** The loop from the end of the name; [p] is what is written from [p] on, [len] the length
    of the label that is begun. *)
Fixpoint name_loop (s : bytes) (len : Z) (p : bytes) : option (Z * bytes) :=
  match s with
  | [] => Some (len, p)
  | c :: s =>
      if negb (c =? ".") then name_loop s (len + 1) (c :: p)
      else if len =? 0 then None
      else name_loop s 0 (u8 len :: p)
  end.

(** The last byte of the header is the one before the name where this is empty. *)
Definition ngx_resolver_create_name_query (alloc_ok : bool) (ident type : Z) (name : bytes) : bytes + Z :=
  if negb alloc_ok then inr NGX_ERROR
  else
    let qs := [0; u8 type; 0; 1] in
    match name_loop (reverse name) 0 [0] with
    | None => inr NGX_DECLINED
    | Some (len, p) =>
        if decide (name = []) then inl (take 11 (query_header ident) ++ [u8 len] ++ p ++ qs)
        else inl (query_header ident ++ u8 len :: p ++ qs)
    end.

(** The numbers of the address from the last one on; [buf] is the address of the text. *)
Fixpoint addr_labels (buf addr : Z) (ns : list Z) : option bytes :=
  match ns with
  | [] => Some []
  | n :: ns =>
      d ← ngx_sprintf (buf + 1) (bs "%ud") [A_int (Z.land (Z.shiftr addr n) 255)];
      l ← addr_labels (buf + 1 + zlen d) addr ns;
      Some (u8 (zlen d) :: d ++ l)
  end.

Definition in_addr_arpa : bytes := 7 :: bs "in-addr" ++ 4 :: bs "arpa".

(** [buf] is the address of the allocated memory. *)
Definition ngx_resolver_create_addr_query (alloc_ok : bool) (buf ident addr : Z) : option (bytes + Z) :=
  if negb alloc_ok then Some (inr NGX_ERROR)
  else
    l ← addr_labels (buf + QUERY_SIZE) addr [0; 8; 16; 24];
    Some (inl (query_header ident ++ l ++ in_addr_arpa ++ [0; 0; 12; 0; 1])).

(** ** Names in a response *)

Definition compressed (n : Z) : bool := negb (Z.land n 192 =? 0).
(** [((n & 0x3f) << 8) + *p] *)
Definition pointer (n lo : Z) : Z := Z.shiftl (Z.land n 63) 8 + lo.

(** The first loop: the length of the name, [-1] for the root. *)
Fixpoint name_length (fuel : nat) (buf : bytes) (last p len : Z) : attempt Z :=
  match fuel with
  | O => error
  | S fuel =>
      n ← access (rd buf p);
      if n =? 0 then mret len
      else if compressed n then
        lo ← access (rd buf (p + 1));
        if last <=? pointer n lo then error else name_length fuel buf last (pointer n lo) len
      else if last <=? p + 1 + n then error
      else name_length fuel buf last (p + 1 + n) (len + (1 + n))
  end.

(** The second loop, from a byte [n] that was read; the result is what is written to
    [name->data].  The loop has no bound of its own. *)
Fixpoint name_copy (fuel : nat) (buf : bytes) (src n : Z) : option bytes :=
  match fuel with
  | O => None
  | S fuel =>
      if compressed n then
        lo ← rd buf src;
        let src := pointer n lo in
        n ← rd buf src;
        if n =? 0 then Some [] else name_copy fuel buf (src + 1) n
      else
        if src + n <=? zlen buf then
          let label := slice buf src (src + n) in
          let src := src + n in
          n ← rd buf src;
          if n =? 0 then Some label
          else
            rest ← name_copy fuel buf (src + 1) n;
            Some (label ++ "." :: rest)
        else None
  end.

Definition POINTERS : nat := 128.

(** The name with the size that was allocated for it. *)
Record copied := mk_copied { allocated : Z; name : bytes }.

Definition ngx_resolver_copy (alloc : Z -> bool) (want : bool) (buf : bytes) (src last : Z) : attempt copied :=
  len ← name_length POINTERS buf last src (-1);
  if negb want then mret (mk_copied 0 [])
  else if len =? -1 then mret (mk_copied 0 [])
  else if negb (alloc len) then error
  else
    n ← access (rd buf src);
    data ← access (name_copy POINTERS buf (src + 1) n);
    mret (mk_copied len data).

(** ** Responses *)

(** The members of [ngx_resolver_node_t] that are used. *)
Record rnode := mk_rnode { rn_query : option bytes; rn_name : bytes }.

(** What is done with a node. *)
Inductive reaction :=
  | Fails (rn : rnode) (code : Z)          (* the node is removed, the waiting have [code] *)
  | Resolves (rn : rnode) (addrs : list Z) (* the node and the waiting have the addresses *)
  | Aliases (rn : rnode) (cname : copied)  (* the node has the name, which is resolved next *)
  | Names (rn : rnode) (host : copied).    (* the node and the waiting have the name *)

Section Response.
Context (alloc : Z -> bool) (lookup_name : bytes -> option rnode) (lookup_addr : Z -> option rnode).

(** [(rn->query[0] << 8) + rn->query[1]] of a node with a query; else the response is not
    expected. *)
Definition node_ident (rn : option rnode) : attempt (rnode * Z) :=
  match rn with
  | Some rn =>
      match rn_query rn with
      | Some query => ident ← word query 0; mret (rn, ident)
      | None => error
      end
  | None => error
  end.

(** The address at [i]. *)
Definition addr_at (buf : bytes) (i : Z) : attempt Z :=
  b0 ← access (rd buf i);
  b1 ← access (rd buf (i + 1));
  b2 ← access (rd buf (i + 2));
  b3 ← access (rd buf (i + 3));
  mret (htonl (u32 (Z.shiftl b0 24 + Z.shiftl b1 16 + Z.shiftl b2 8 + b3))).

(** [while (i < last)] over the name of an answer. *)
Fixpoint skip_name (fuel : nat) (buf : bytes) (last start i : Z) : attempt Z :=
  match fuel with
  | O => None
  | S fuel =>
      if negb (i <? last) then error
      else
        n ← access (rd buf i);
        if compressed n then mret (i + 2)
        else if n =? 0 then if i + 1 - start <? 2 then error else mret (i + 1)
        else skip_name fuel buf last start (i + 1 + n)
  end.

(** The variables of the loop over the answers. *)
Record answers := mk_answers { an_i : Z; naddrs : Z; an_addr : Z; cname : option Z }.

(** One turn. *)
Definition answer_step (buf : bytes) (last : Z) (v : answers) : attempt answers :=
  i ← skip_name (S (length buf)) buf last (an_i v) (an_i v);
  if last <=? i + AN_SIZE then error
  else
    qtype ← word buf i;
    len ← word buf (i + 8);
    if qtype =? NGX_RESOLVE_A then
      let i := i + AN_SIZE in
      if last <? i + len then error
      else
        addr ← addr_at buf i;
        mret (mk_answers (i + len) (naddrs v + 1) addr (cname v))
    else if qtype =? NGX_RESOLVE_CNAME then
      mret (mk_answers (i + AN_SIZE + len) (naddrs v) (an_addr v) (Some (i + AN_SIZE)))
    else if qtype =? NGX_RESOLVE_DNAME then
      mret (mk_answers (i + AN_SIZE + len) (naddrs v) (an_addr v) (cname v))
    else (* logged *) mret (mk_answers i (naddrs v) (an_addr v) (cname v)).

Fixpoint answer_loop (nan : nat) (buf : bytes) (last : Z) (v : answers) : attempt answers :=
  match nan with
  | O => mret v
  | S nan => v ← answer_step buf last v; answer_loop nan buf last v
  end.

(** The second loop over the answers has no bounds. *)
Fixpoint pass_name (fuel : nat) (buf : bytes) (i : Z) : attempt Z :=
  match fuel with
  | O => None
  | S fuel =>
      n ← access (rd buf i);
      if compressed n then mret (i + 2)
      else if n =? 0 then mret (i + 1)
      else pass_name fuel buf (i + 1 + n)
  end.

(** [rest] of the addresses are not written yet; [None] too if the answers end before, as
    the rest of the array is then used as it was allocated. *)
Fixpoint collect (nan : nat) (buf : bytes) (i : Z) (rest : nat) : attempt (list Z) :=
  match nan with
  | O => None
  | S nan =>
      i ← pass_name (S (length buf)) buf i;
      qtype ← word buf i;
      len ← word buf (i + 8);
      let i := i + AN_SIZE in
      if qtype =? NGX_RESOLVE_A then
        addr ← addr_at buf i;
        match rest with
        | O | 1%nat => mret [addr]
        | S rest => addrs ← collect nan buf (i + len) rest; mret (addr :: addrs)
        end
      else collect nan buf (i + len) rest
  end.

(** [code == 0 && nan == 0] *)
Definition code_of (code nan : Z) : Z := if (code =? 0) && (nan =? 0) then NGX_RESOLVE_NXDOMAIN else code.

(** [last] is the length of the response; [error] where it is only logged, or where memory
    is short. *)
Definition ngx_resolver_process_a (buf : bytes) (last ident code nan ans : Z) : attempt reaction :=
  c ← ngx_resolver_copy alloc true buf 12 last;
  '(rn, qident) ← node_ident (lookup_name (name c));
  guard_ (ident =? qident);;
  let code := code_of code nan in
  if negb (code =? 0) then mret (Fails rn code)
  else
    v ← answer_loop (Z.to_nat nan) buf last (mk_answers ans 0 0 None);
    if negb (naddrs v =? 0) then
      if naddrs v =? 1 then mret (Resolves rn [an_addr v])
      else
        guard_ (alloc (naddrs v * 4));;
        addrs ← collect (Z.to_nat nan) buf ans (Z.to_nat (naddrs v));
        guard_ (alloc (naddrs v * 4));;
        mret (Resolves rn addrs)
    else
      match cname v with
      | Some p => c ← ngx_resolver_copy alloc true buf p last; mret (Aliases rn c)
      | None => error
      end.

(** [ngx_atoi(&buf[i], len)]: it reads to the first byte that is no digit. *)
Definition atoi_at (buf : bytes) (i len : Z) : attempt Z :=
  let text := slice buf i (i + len) in
  if (i + len <=? zlen buf) || negb (forallb is_digit text) then mret (ngx_atoi text) else None.

(** The numbers at the front of the name, the lowest first: the address and the place after
    them. *)
Fixpoint ptr_loop (masks : list Z) (buf : bytes) (i addr : Z) : attempt (Z * Z) :=
  match masks with
  | [] => mret (addr, i)
  | mask :: masks =>
      len ← access (rd buf i);
      let i := i + 1 in
      digit ← atoi_at buf i len;
      if (digit =? NGX_ERROR) || (255 <? digit) then error
      else ptr_loop masks buf (i + len) (u32 (addr + Z.shiftl digit mask))
  end.

(** [ngx_strcmp(&buf[i], text) == 0]: it reads to the first byte that differs. *)
Fixpoint strcmp_at (buf : bytes) (i : Z) (text : bytes) : attempt bool :=
  match text with
  | [] => c ← access (rd buf i); mret (c =? 0)
  | t :: text => c ← access (rd buf i); if c =? t then strcmp_at buf (i + 1) text else mret false
  end.

Definition ngx_resolver_process_ptr (buf : bytes) (n ident code nan : Z) : attempt reaction :=
  ngx_resolver_copy alloc false buf 12 n;;
  '(addr, i) ← ptr_loop [0; 8; 16; 24] buf 12 0;
  eq ← strcmp_at buf i in_addr_arpa;
  guard_ eq;;
  '(rn, qident) ← node_ident (lookup_addr addr);
  guard_ (ident =? qident);;
  let code := code_of code nan in
  if negb (code =? 0) then mret (Fails rn code)
  else
    let i := i + (zlen in_addr_arpa + 1) + QS_SIZE in
    if n <? i + 2 + AN_SIZE then error
    else
      b0 ← access (rd buf i);
      if negb (b0 =? 192) then error
      else
        b1 ← access (rd buf (i + 1));
        if negb (b1 =? 12) then error
        else
          len ← word buf (i + 2 + 8);
          let i := i + (2 + AN_SIZE) in
          if n <? i + len then error
          else
            c ← ngx_resolver_copy alloc true buf i n;
            (* the name of the node, if it is another one, is a copy *)
            let same := (zlen (name c) =? zlen (rn_name rn)) && (strncmp (name c) (rn_name rn) (length (name c)) =? 0) in
            if same || alloc (zlen (name c)) then mret (Names rn c) else error.

(** The search of a query that was refused, in the nodes of the queue, whose queries are
    read ([None]: a NULL query): past the last one the head of the queue is taken for a node. *)
Fixpoint formerr_loop (queue : list rnode) (ident : Z) : attempt reaction :=
  match queue with
  | [] => None
  | rn :: queue =>
      query ← access (rn_query rn);
      qident ← word query 0;
      if qident =? ident then error else formerr_loop queue ident
  end.

(** The question. *)
Fixpoint question_loop (fuel : nat) (buf : bytes) (n i : Z) : attempt Z :=
  match fuel with
  | O => None
  | S fuel =>
      if negb (i <? n) then error
      else
        len ← access (rd buf i);
        if len =? 0 then mret i else question_loop fuel buf n (i + 1 + len)
  end.

(** [queue] is the queue of the names to be sent again. *)
Definition ngx_resolver_process_response (queue : list rnode) (buf : bytes) (n : Z) : attempt reaction :=
  if n <? QUERY_SIZE then error
  else
    ident ← word buf 0;
    flags ← word buf 2;
    nqs ← word buf 4;
    nan ← word buf 6;
    if Z.land flags 32768 =? 0 then error
    else
      let code := Z.land flags 127 in
      if code =? NGX_RESOLVE_FORMERR then formerr_loop queue ident
      else if NGX_RESOLVE_REFUSED <? code then error
      else if negb (nqs =? 1) then error
      else
        i ← question_loop (S (length buf)) buf n QUERY_SIZE;
        if i =? 0 then error
        else
          let i := i + 1 in
          if n <? i + QS_SIZE + nan * (2 + AN_SIZE) then error
          else
            qtype ← word buf i;
            qclass ← word buf (i + 2);
            if negb (qclass =? 1) then error
            else if qtype =? NGX_RESOLVE_A then
              ngx_resolver_process_a buf n ident code nan (i + QS_SIZE)
            else if qtype =? NGX_RESOLVE_PTR then ngx_resolver_process_ptr buf n ident code nan
            else error.
End Response.
