(* ===== verification/ResolverSpec.v ===== *)
(** What the messages of the resolver promise: the names that are copied out of a response,
    and by how much they fit; the queries are read back; the answers are those to a query
    that was sent. *)
From S2P Require Import Prelude CString Numbers Bytes Sprintf Times Resolver.

(** ** Names in a message *)

Section NameAt.
Context (buf : bytes) (last : Z).

(** At most [k] bytes of lengths and pointers from [p] on give the labels; the last
    component: a pointer to the root follows them. *)
Inductive name_at : nat -> Z -> list bytes -> bool -> Prop :=
  | at_root k p : rd buf p = Some 0 -> name_at (S k) p [] false
  | at_pointer k p n lo ls tail :
      rd buf p = Some n -> compressed n = true -> rd buf (p + 1) = Some lo -> pointer n lo < last ->
      name_at k (pointer n lo) ls tail -> name_at (S k) p ls (tail || bool_decide (ls = []))
  | at_label k p n ls tail :
      rd buf p = Some n -> n <> 0 -> compressed n = false -> p + 1 + n < last ->
      name_at k (p + 1 + n) ls tail -> name_at (S k) p (slice buf (p + 1) (p + 1 + n) :: ls) tail.
End NameAt.

(** The bytes of the labels with one of length or dot for each. *)
Definition total (ls : list bytes) : Z := foldr (fun l s => 1 + zlen l + s) 0 ls.

(** The labels with dots between, and a last one. *)
Fixpoint dotted (ls : list bytes) (tail : bool) : bytes :=
  match ls with
  | [] => []
  | l :: ls => l ++ match ls with [] => if tail then bs "." else [] | _ => "." :: dotted ls tail end
  end.

Lemma dotted_length ls tail :
  ls <> [] -> zlen (dotted ls tail) = total ls - 1 + (if tail then 1 else 0).
Proof.
  induction ls as [|l [|l' ls] IH]; intros Hne; [done| |].
  - simpl. rewrite zlen_app. destruct tail; unfold zlen; simpl; lia.
  - change (dotted (l :: l' :: ls) tail) with (l ++ "." :: dotted (l' :: ls) tail).
    rewrite zlen_app, zlen_cons, IH by done. simpl. lia.
Qed.

Lemma compressed_0 : compressed 0 = false.
Proof. done. Qed.

Lemma pointer_nonneg n lo : is_u_char n -> is_u_char lo -> 0 <= pointer n lo.
Proof.
  intros Hn Hlo. unfold pointer. rewrite Z.shiftl_mul_pow2 by lia.
  assert (0 <= Z.land n 63) by (apply Z.land_nonneg; lia). unfold is_u_char in *. lia.
Qed.

Lemma bind_access {A B} (a : A) (k : A -> attempt B) : (access (Some a) ≫= k) = k a.
Proof. done. Qed.
Lemma bind_ok {A B} (a : A) (k : A -> attempt B) : (mbind (M := attempt) k (Some (Some a))) = k a.
Proof. done. Qed.
Lemma bind_guard {B} (k : unit -> attempt B) : (guard_ true ≫= k) = k tt.
Proof. done. Qed.
Lemma bind_none {A B} (k : A -> attempt B) : (access None ≫= k) = None.
Proof. done. Qed.

Lemma labels_nonneg ls : 0 <= total ls.
Proof. induction ls as [|l ls IH]; simpl; [lia|]. pose proof (zlen_nonneg l). lia. Qed.

Section Copy.
Context (buf : bytes) (last : Z) (Hbuf : Forall is_u_char buf) (Hlast : last < zlen buf).

Lemma rd_at p : 0 <= p < zlen buf -> exists n, rd buf p = Some n /\ is_u_char n.
Proof.
  intros Hp. destruct (rd_is_Some buf p Hp) as (n & Hn). exists n. split; [done|]. by eapply rd_u_char.
Qed.

Lemma label_length p n : 0 <= p -> is_u_char n -> p + 1 + n < last -> zlen (slice buf (p + 1) (p + 1 + n)) = n.
Proof. intros Hp Hn Hl. unfold is_u_char in Hn. rewrite zlen_slice; lia. Qed.

(** The first loop: no access outside, and the length of the labels. *)
Lemma name_length_total fuel p len : 0 <= p < last -> exists r, name_length fuel buf last p len = Some r.
Proof.
  revert p len. induction fuel as [|fuel IH]; intros p len Hp; cbn [name_length]; [by eexists|].
  destruct (rd_at p) as (n & -> & Hc); [lia|]. rewrite bind_access.
  destruct (n =? 0); [by eexists|]. destruct (compressed n).
  - destruct (rd_at (p + 1)) as (lo & -> & Hlo); [lia|]. rewrite bind_access.
    pose proof (pointer_nonneg n lo Hc Hlo).
    destruct (Z.leb_spec last (pointer n lo)); [by eexists|]. apply IH. lia.
  - destruct (Z.leb_spec last (p + 1 + n)); [by eexists|]. apply IH. unfold is_u_char in Hc. lia.
Qed.

Lemma name_length_sound fuel p len l :
  0 <= p -> name_length fuel buf last p len = Some (Some l) ->
  exists ls tail, name_at buf last fuel p ls tail /\ l = len + total ls.
Proof.
  revert p len. induction fuel as [|fuel IH]; intros p len Hp; cbn [name_length]; [done|].
  destruct (rd buf p) as [n|] eqn:Hn; [|done]. rewrite bind_access.
  assert (Hc : is_u_char n) by (by eapply rd_u_char).
  destruct (Z.eqb_spec n 0) as [->|Hn0].
  { intros [= <-]. exists [], false. split; [by constructor|simpl; lia]. }
  destruct (compressed n) eqn:Ec.
  - destruct (rd buf (p + 1)) as [lo|] eqn:Hlo; [|done]. rewrite bind_access.
    assert (0 <= pointer n lo) by (apply pointer_nonneg; [done|by eapply rd_u_char]).
    destruct (Z.leb_spec last (pointer n lo)); [done|]. intros (ls & tail & Hl & ->)%IH; [|done].
    exists ls, (tail || bool_decide (ls = [])). split; [|done]. by apply (at_pointer _ _ _ _ n lo).
  - destruct (Z.leb_spec last (p + 1 + n)); [done|].
    intros (ls & tail & Hl & ->)%IH; [|unfold is_u_char in Hc; lia].
    exists (slice buf (p + 1) (p + 1 + n) :: ls), tail. split; [by apply at_label|].
    simpl. rewrite label_length by done. lia.
Qed.

Lemma name_length_complete fuel p len ls tail :
  0 <= p -> name_at buf last fuel p ls tail -> name_length fuel buf last p len = Some (Some (len + total ls)).
Proof.
  intros Hp H. revert len Hp. induction H as [k p Hn|k p n lo ls tail Hn Hc Hlo Hl H IH|k p n ls tail Hn Hn0 Hc Hl H IH];
    intros len Hp; cbn [name_length]; rewrite Hn, bind_access.
  - simpl. by rewrite Z.add_0_r.
  - destruct (Z.eqb_spec n 0) as [->|_]; [done|]. rewrite Hc, Hlo, bind_access.
    destruct (Z.leb_spec last (pointer n lo)); [lia|]. apply IH.
    apply pointer_nonneg; by eapply rd_u_char.
  - assert (is_u_char n) as Hn' by (by eapply rd_u_char).
    destruct (Z.eqb_spec n 0) as [->|_]; [done|]. rewrite Hc.
    destruct (Z.leb_spec last (p + 1 + n)); [lia|]. rewrite IH by (unfold is_u_char in Hn'; lia).
    simpl. rewrite label_length by done. do 2 f_equal. lia.
Qed.

Lemma name_at_zero fuel p ls tail :
  name_at buf last fuel p ls tail -> rd buf p = Some 0 -> ls = [] /\ tail = false.
Proof. intros H Hp. inversion H; subst; simplify_eq; done. Qed.

(** The second loop writes the labels. *)
Lemma name_copy_spec fuel p n ls tail :
  0 <= p -> name_at buf last fuel p ls tail -> rd buf p = Some n -> n <> 0 ->
  name_copy fuel buf (p + 1) n = Some (dotted ls tail).
Proof.
  intros Hp H. revert n Hp. induction H as [k p Hn|k p n lo ls tail Hn Hc Hlo Hl H IH|k p n ls tail Hn Hn0 Hc Hl H IH];
    intros m Hp Hm Hm0; cbn [name_copy].
  - congruence.
  - rewrite Hn in Hm. injection Hm as <-. rewrite Hc, Hlo. cbn [mbind option_bind].
    assert (Hp' : 0 <= pointer n lo) by (apply pointer_nonneg; by eapply rd_u_char).
    destruct (rd_at (pointer n lo)) as (n' & Hn' & _); [lia|]. rewrite Hn'. cbn [mbind option_bind].
    destruct (Z.eqb_spec n' 0) as [->|Hn'0].
    + destruct (name_at_zero _ _ _ _ H Hn') as [-> ->]. done.
    + rewrite (IH n' Hp' Hn' Hn'0). by destruct ls; [|rewrite orb_false_r].
  - rewrite Hn in Hm. injection Hm as <-. rewrite Hc.
    assert (is_u_char n) as Hn' by (by eapply rd_u_char). unfold is_u_char in Hn'.
    destruct (Z.leb_spec (p + 1 + n) (zlen buf)); [|lia].
    destruct (rd_at (p + 1 + n)) as (n' & Hr & _); [lia|]. rewrite Hr. cbn [mbind option_bind].
    destruct (Z.eqb_spec n' 0) as [->|Hn'0].
    + destruct (name_at_zero _ _ _ _ H Hr) as [-> ->]. simpl. by rewrite app_nil_r.
    + rewrite (IH n') by (done || lia). cbn [mbind option_bind].
      inversion H; subst; simplify_eq; [|done]. destruct ls as [|l ls]; [|done].
      by rewrite bool_decide_true, orb_true_r by done.
Qed.
End Copy.


(** ** Queries *)

(** A label as the protocol has it. *)
Definition label_ok (l : bytes) : Prop := 1 <= zlen l <= 63 /\ ~ ("." ∈ l).
#[export] Instance label_ok_dec l : Decision (label_ok l).
Proof. unfold label_ok. apply _. Defined.
Definition wire (l : bytes) : bytes := zlen l :: l.
Definition wires (ls : list bytes) : bytes := concat (wire <$> ls).

Lemma name_loop_label l s len p :
  ~ ("." ∈ l) -> name_loop (reverse l ++ s) len p = name_loop s (len + zlen l) (l ++ p).
Proof.
  revert s len p. induction l as [|c l IH] using rev_ind; intros s len p Hl.
  { simpl. f_equal. unfold zlen. simpl. lia. }
  rewrite elem_of_app, list_elem_of_singleton in Hl. rewrite reverse_app. simpl.
  destruct (Z.eqb_spec c ".") as [->|_]; [by destruct Hl; right|]. cbn [negb].
  rewrite IH by (intros Hin; by destruct Hl; left). rewrite zlen_app, <- (assoc_L (++)). f_equal. unfold zlen at 3. simpl. lia.
Qed.

Lemma dotted_snoc ls l : ls <> [] -> dotted (ls ++ [l]) false = dotted ls false ++ "." :: l.
Proof.
  induction ls as [|l0 [|l1 ls] IH]; intros Hne; [done| |].
  - simpl. by rewrite !app_nil_r.
  - change ((l0 :: l1 :: ls) ++ [l]) with (l0 :: (l1 :: ls) ++ [l]).
    change (dotted (l0 :: (l1 :: ls) ++ [l]) false) with (l0 ++ "." :: dotted ((l1 :: ls) ++ [l]) false).
    rewrite IH by done.
    change (dotted (l0 :: l1 :: ls) false) with (l0 ++ "." :: dotted (l1 :: ls) false).
    by rewrite <- (assoc_L (++)).
Qed.

Lemma wires_snoc ls l : wires (ls ++ [l]) = wires ls ++ wire l.
Proof. unfold wires. rewrite fmap_app, concat_app. simpl. by rewrite app_nil_r. Qed.

Lemma u8_label l : label_ok l -> u8 (zlen l) = zlen l.
Proof. intros [Hl _]. apply u8_id. unfold is_u_char. lia. Qed.

Lemma name_loop_labels ls p :
  ls <> [] -> Forall label_ok ls ->
  exists len p', name_loop (reverse (dotted ls false)) 0 p = Some (len, p') /\ u8 len :: p' = wires ls ++ p.
Proof.
  revert p. induction ls as [|l ls IH] using rev_ind; intros p Hne Hok; [done|].
  apply Forall_app in Hok as [Hls [Hl _]%Forall_cons]. pose proof (u8_label l Hl) as Hu. destruct Hl as [Hl Hdot].
  destruct (decide (ls = [])) as [->|Hls0].
  - simpl. rewrite app_nil_r. exists (zlen l), (l ++ p). split.
    + pose proof (name_loop_label l [] 0 p Hdot) as E. by rewrite app_nil_r in E.
    + rewrite Hu. unfold wires, wire. simpl. by rewrite <- ?(assoc_L (++)), ?app_nil_r.
  - rewrite dotted_snoc by done. rewrite reverse_app, reverse_cons, <- (assoc_L (++)).
    rewrite name_loop_label by done. cbn [app name_loop]. rewrite Z.eqb_refl. cbn [negb].
    replace (0 + zlen l =? 0) with false by lia. destruct (IH (u8 (0 + zlen l) :: l ++ p)) as (len & p' & -> & E); [done..|].
    exists len, p'. split; [done|]. rewrite E, wires_snoc, Z.add_0_l, Hu. unfold wire. by rewrite <- (assoc_L (++)).
Qed.

Lemma compressed_label l : label_ok l -> compressed (zlen l) = false.
Proof.
  intros [Hl _]. unfold compressed. rewrite negb_false_iff, Z.eqb_eq.
  pose proof (u_char_forall (fun c => (63 <? c) || (Z.land c 192 =? 0)) ltac:(by vm_compute) (zlen l)) as H.
  specialize (H ltac:(unfold is_u_char; lia)). apply orb_true_iff in H as [H|H]; lia.
Qed.

Lemma rd_app_mid l1 c l2 : rd (l1 ++ c :: l2) (zlen l1) = Some c.
Proof. pose proof (rd_app_r l1 (c :: l2) 0 ltac:(lia)) as H. by rewrite Z.add_0_r in H. Qed.

Lemma name_at_wires pre ls rest last k :
  Forall label_ok ls -> zlen pre + zlen (wires ls) < last -> (length ls < k)%nat ->
  name_at (pre ++ wires ls ++ 0 :: rest) last k (zlen pre) ls false.
Proof.
  revert pre k. induction ls as [|l ls IH]; intros pre [|k] Hok Hlast Hk; simpl in Hk; [lia| |lia|].
  - constructor. apply rd_app_mid.
  - apply Forall_cons in Hok as [Hl Hls].
    assert (E : wires (l :: ls) = wire l ++ wires ls) by done. rewrite E in *. clear E.
    rewrite zlen_app in Hlast. unfold wire in *. rewrite zlen_cons in Hlast.
    pose proof (zlen_nonneg (wires ls)). destruct Hl as [Hl1 Hl2].
    assert (Hs : slice (pre ++ ((zlen l :: l) ++ wires ls) ++ 0 :: rest) (zlen pre + 1) (zlen pre + 1 + zlen l) = l).
    { pose proof (slice_mid (pre ++ [zlen l]) l (wires ls ++ 0 :: rest)) as H0.
      rewrite zlen_app in H0. unfold zlen at 2 4 in H0. simpl in H0. rewrite <- H0 at 4. f_equal.
      by rewrite <- !(assoc_L (++)). }
    rewrite <- Hs at 3. apply at_label.
    + simpl. apply rd_app_mid.
    + lia.
    + by apply compressed_label.
    + lia.
    + specialize (IH (pre ++ zlen l :: l) k Hls). rewrite zlen_app, zlen_cons in IH.
      rewrite <- !(assoc_L (++)) in *. replace (zlen pre + 1 + zlen l) with (zlen pre + (1 + zlen l)) by lia.
      apply IH; lia.
Qed.

Lemma wires_length ls : zlen (wires ls) = total ls.
Proof.
  induction ls as [|l ls IH]; [done|]. change (wires (l :: ls)) with (wire l ++ wires ls).
  rewrite zlen_app, IH. unfold wire. rewrite zlen_cons. simpl. lia.
Qed.

Lemma copy_wires alloc pre ls rest last :
  let buf := pre ++ wires ls ++ 0 :: rest in
  Forall is_u_char buf -> Forall label_ok ls -> ls <> [] -> (length ls < POINTERS)%nat ->
  zlen pre + total ls < last < zlen buf -> alloc (total ls - 1) = true ->
  ngx_resolver_copy alloc true buf (zlen pre) last = Some (Some (mk_copied (total ls - 1) (dotted ls false))).
Proof.
  intros buf Hbuf Hls Hne Hk Hlast Ha. pose proof (zlen_nonneg pre) as H0.
  assert (Hat : name_at buf last POINTERS (zlen pre) ls false).
  { apply name_at_wires; [done| |done]. rewrite wires_length. lia. }
  assert (Hl : last < zlen buf) by lia.
  unfold ngx_resolver_copy. rewrite (name_length_complete buf last Hbuf Hl _ _ (-1) _ _ H0 Hat).
  rewrite bind_ok. cbn [negb].
  assert (0 < total ls) by (destruct ls as [|l ls]; [done|]; simpl; pose proof (zlen_nonneg l); pose proof (labels_nonneg ls); lia).
  destruct (Z.eqb_spec (-1 + total ls) (-1)) as [?|_]; [lia|].
  replace (-1 + total ls) with (total ls - 1) by lia. rewrite Ha. cbn [negb].
  pose proof (labels_nonneg ls).
  destruct (rd_at buf Hbuf (zlen pre)) as (n & Hrd & _); [lia|]. rewrite Hrd, bind_access.
  rewrite (name_copy_spec buf last Hbuf Hl _ _ n ls false); [done|done|done|done|].
  intros ->. by destruct (name_at_zero _ _ _ _ _ _ Hat Hrd).
Qed.

(** C18: a query names what it asks about, and the answer to it is understood: for a name of
    labels of 1 to 63 bytes the query is the header, the labels with their lengths and the
    type, in the memory that is allocated for it; and from every message with the same bytes
    after the header, [ngx_resolver_copy] returns the name. *)
Theorem name_query_roundtrip ident type ls :
  let nm := dotted ls false in
  Forall label_ok ls -> Forall (Forall is_u_char) ls -> ls <> [] -> (length ls < POINTERS)%nat ->
  exists q, ngx_resolver_create_name_query true ident type nm = inl (query_header ident ++ q) /\
    zlen q = (1 + zlen nm + 1) + QS_SIZE /\
    forall alloc header rest last,
      zlen header = QUERY_SIZE -> Forall is_u_char (header ++ rest) -> alloc (zlen nm) = true ->
      zlen header + zlen q <= last -> last < zlen (header ++ q ++ rest) ->
      ngx_resolver_copy alloc true (header ++ q ++ rest) QUERY_SIZE last = Some (Some (mk_copied (zlen nm) nm)).
Proof.
  intros nm Hls Hch Hne Hk. destruct (name_loop_labels ls [0] Hne Hls) as (len & p & E & Ep).
  assert (Hnm : zlen nm = total ls - 1) by (unfold nm; rewrite dotted_length by done; lia).
  unfold ngx_resolver_create_name_query. fold nm in E. rewrite E. cbn [negb].
  rewrite decide_False.
  2:{ intros H. rewrite H in Hnm. destruct ls as [|l ls]; [done|]. apply Forall_cons in Hls as [[Hl _] _].
      simpl in Hnm. pose proof (labels_nonneg ls). change (zlen (@nil Z)) with 0 in Hnm. lia. }
  eexists. split; [by rewrite app_comm_cons|]. rewrite Ep, <- (assoc_L (++)). split.
  { rewrite !zlen_app, wires_length, Hnm. unfold QS_SIZE. change (zlen [0]) with 1. change (zlen [_; _; _; _]) with 4. lia. }
  intros alloc header rest last Hh Hr Ha H1 H2. rewrite <- Hh, Hnm in *.
  rewrite <- !(assoc_L (++)) in *. simpl in *. apply Forall_app in Hr as [Hr1 Hr2].
  rewrite !zlen_app, wires_length in H1. rewrite zlen_cons in H1.
  apply copy_wires; [|done|done|done| |done].
  - apply Forall_app. split; [done|]. apply Forall_app. split.
    + clear -Hls Hch. induction Hls as [|l ls [Hl _] Hls IH]; [constructor|].
      apply Forall_cons in Hch as [Hc Hch]. apply Forall_app. split; [|by apply IH].
      constructor; [unfold is_u_char; lia|done].
    + repeat (constructor; [first [apply u8_range | unfold is_u_char; lia]|]). done.
  - autorewrite with zlen in H1. split; [lia|exact H2].
Qed.

(** ** Responses *)

Lemma bind_inv {A B} (m : attempt A) (k : A -> attempt B) b :
  (m ≫= k) = Some (Some b) -> exists a, m = Some (Some a) /\ k a = Some (Some b).
Proof. destruct m as [[a|]|]; [|done|done]. intros H. by exists a. Qed.

Lemma guard_inv c (u : unit) : guard_ c = Some (Some u) -> c = true.
Proof. by destruct c. Qed.

(** Steps through an attempt that has a result. *)
Ltac inv_attempt :=
  repeat match goal with
  | H : (_ ≫= _) = Some (Some _) |- _ => apply bind_inv in H as (? & ? & H)
  | H : guard_ _ = Some (Some _) |- _ => apply guard_inv in H
  | H : (if ?b then _ else _) = Some (Some _) |- _ => destruct b eqn:?; try done
  | H : (let '(_, _) := ?p in _) = Some (Some _) |- _ => destruct p
  | H : mret _ = Some (Some _) |- _ => injection H as H; subst
  end.

Definition node_of (r : reaction) : rnode :=
  match r with Fails rn _ | Resolves rn _ | Aliases rn _ | Names rn _ => rn end.

Section Authentic.
Context (alloc : Z -> bool) (lookup_name : bytes -> option rnode) (lookup_addr : Z -> option rnode).

Lemma node_ident_inv rn r ident :
  node_ident rn = Some (Some (r, ident)) ->
  rn = Some r /\ exists query, rn_query r = Some query /\ word query 0 = Some (Some ident).
Proof.
  unfold node_ident. destruct rn as [rn|]; [|done]. destruct (rn_query rn) as [query|] eqn:Eq; [|done].
  intros H. inv_attempt. split; [done|]. by exists query.
Qed.

(** What a node was asked for, and the identifier of its query. *)
Definition asked (buf : bytes) (last ident : Z) (rn : rnode) : Prop :=
  (exists query, rn_query rn = Some query /\ word query 0 = Some (Some ident)) /\
  ((exists c, ngx_resolver_copy alloc true buf QUERY_SIZE last = Some (Some c) /\ lookup_name (name c) = Some rn) \/
   (exists addr i, ptr_loop [0; 8; 16; 24] buf QUERY_SIZE 0 = Some (Some (addr, i)) /\
      strcmp_at buf i in_addr_arpa = Some (Some true) /\ lookup_addr addr = Some rn)).

Lemma asked_name buf last ident rn c z :
  ngx_resolver_copy alloc true buf QUERY_SIZE last = Some (Some c) ->
  node_ident (lookup_name (name c)) = Some (Some (rn, z)) -> (ident =? z) = true -> asked buf last ident rn.
Proof. intros Hc [Hn Hq]%node_ident_inv Hz%Z.eqb_eq. subst z. split; [done|left]. by exists c. Qed.

Lemma asked_addr buf last ident rn addr i z :
  ptr_loop [0; 8; 16; 24] buf QUERY_SIZE 0 = Some (Some (addr, i)) ->
  strcmp_at buf i in_addr_arpa = Some (Some true) ->
  node_ident (lookup_addr addr) = Some (Some (rn, z)) -> (ident =? z) = true -> asked buf last ident rn.
Proof. intros Hp He [Hn Hq]%node_ident_inv Hz%Z.eqb_eq. subst z. split; [done|right]. by exists addr, i. Qed.

Lemma process_a_asked buf last ident code nan ans r :
  ngx_resolver_process_a alloc lookup_name buf last ident code nan ans = Some (Some r) ->
  asked buf last ident (node_of r).
Proof.
  unfold ngx_resolver_process_a. intros H. inv_attempt; try (by eapply asked_name).
  destruct (cname _); [|done]. inv_attempt. by eapply asked_name.
Qed.

Lemma process_ptr_asked buf last ident code nan r :
  ngx_resolver_process_ptr alloc lookup_addr buf last ident code nan = Some (Some r) ->
  asked buf last ident (node_of r).
Proof. unfold ngx_resolver_process_ptr. intros H. inv_attempt; subst; by eapply asked_addr. Qed.

Lemma formerr_changes_nothing queue ident r : formerr_loop queue ident <> Some (Some r).
Proof.
  induction queue as [|rn queue IH]; cbn [formerr_loop]; [done|]. intros H. by inv_attempt.
Qed.

(** C16: only the answer to a query changes anything: a response that touches a node is one
    (with the flag of responses), has one question of the class of the Internet, the
    identifier of the query that the node has sent, and the name or the address that the
    node is for; every other message is logged or ignored. *)
Theorem response_authentic queue buf n r :
  ngx_resolver_process_response alloc lookup_name lookup_addr queue buf n = Some (Some r) ->
  exists ident flags, word buf 0 = Some (Some ident) /\ word buf 2 = Some (Some flags) /\
    Z.land flags 32768 <> 0 /\ word buf 4 = Some (Some 1) /\ asked buf n ident (node_of r).
Proof.
  unfold ngx_resolver_process_response. intros H. inv_attempt.
  { by apply formerr_changes_nothing in H. }
  all: repeat match goal with E : negb _ = false |- _ => apply negb_false_iff, Z.eqb_eq in E; subst end.
  all: do 2 eexists; split_and!; [done|done|by apply Z.eqb_neq|done|].
  - by eapply process_a_asked.
  - by eapply process_ptr_asked.
Qed.
End Authentic.

(** *** The answers of a response *)

(** The name of an answer: a pointer, or labels. *)
Inductive owner := Pointer (hi lo : Z) | Labels (ls : list bytes).
Inductive rdata := Address (a b c d : Z) | Canonical (data : bytes) | Delegated (data : bytes).
Record rr := mk_rr { rr_owner : owner; rr_class : Z * Z; rr_ttl : Z * Z * Z * Z; rr_data : rdata }.

Definition owner_bytes (o : owner) : bytes :=
  match o with Pointer hi lo => [hi; lo] | Labels ls => wires ls ++ [0] end.
Definition rr_type (d : rdata) : Z :=
  match d with Address _ _ _ _ => NGX_RESOLVE_A | Canonical _ => NGX_RESOLVE_CNAME | Delegated _ => NGX_RESOLVE_DNAME end.
Definition data_bytes (d : rdata) : bytes :=
  match d with Address a b c d => [a; b; c; d] | Canonical l | Delegated l => l end.
Definition rr_fixed (r : rr) : bytes :=
  let '(c1, c2) := rr_class r in
  let '(t1, t2, t3, t4) := rr_ttl r in
  let len := zlen (data_bytes (rr_data r)) in
  [0; rr_type (rr_data r); c1; c2; t1; t2; t3; t4; Z.shiftr len 8; Z.land len 255].
Definition rr_bytes (r : rr) : bytes := owner_bytes (rr_owner r) ++ rr_fixed r ++ data_bytes (rr_data r).

Definition owner_ok (o : owner) : Prop :=
  match o with Pointer hi _ => compressed hi = true | Labels ls => Forall label_ok ls /\ ls <> [] end.
Definition rr_ok (r : rr) : Prop := owner_ok (rr_owner r) /\ 1 <= zlen (data_bytes (rr_data r)) < 65536.

#[export] Instance owner_ok_dec o : Decision (owner_ok o).
Proof. destruct o; unfold owner_ok; apply _. Defined.
#[export] Instance rr_ok_dec r : Decision (rr_ok r).
Proof. unfold rr_ok. apply _. Defined.

(** The addresses that are announced. *)
Definition in_addr (a b c d : Z) : Z := htonl (u32 (Z.shiftl a 24 + Z.shiftl b 16 + Z.shiftl c 8 + d)).
Definition address_of (r : rr) : option Z :=
  match rr_data r with Address a b c d => Some (in_addr a b c d) | _ => None end.
Definition addresses (rrs : list rr) : list Z := omap address_of rrs.

Lemma rd_inside pre l post k : 0 <= k < zlen l -> rd (pre ++ l ++ post) (zlen pre + k) = rd l k.
Proof.
  intros Hk. rewrite rd_app_r by lia. unfold rd, zlen in *. case_match; [|done]. apply lookup_app_l. lia.
Qed.

Lemma word_at buf i hi lo : rd buf i = Some hi -> rd buf (i + 1) = Some lo -> word buf i = Some (Some (Z.shiftl hi 8 + lo)).
Proof. intros H1 H2. unfold word. by rewrite H1, bind_access, H2, bind_access. Qed.

Lemma len_word n : 0 <= n < 65536 -> Z.shiftl (Z.shiftr n 8) 8 + Z.land n 255 = n.
Proof.
  intros Hn. change 255 with (Z.ones 8). rewrite Z.land_ones, Z.shiftl_mul_pow2, Z.shiftr_div_pow2 by lia.
  change (2 ^ 8) with 256. dlia.
Qed.

(** Both loops over a name end behind it. *)
Lemma skip_wires fuel pre ls rest last start :
  Forall label_ok ls -> zlen pre + total ls < last -> (length ls < fuel)%nat ->
  2 <= zlen pre + total ls + 1 - start ->
  skip_name fuel (pre ++ wires ls ++ 0 :: rest) last start (zlen pre) = Some (Some (zlen pre + total ls + 1)) /\
  pass_name fuel (pre ++ wires ls ++ 0 :: rest) (zlen pre) = Some (Some (zlen pre + total ls + 1)).
Proof.
  revert pre fuel. induction ls as [|l ls IH]; intros pre [|fuel] Hok Hlast Hk Hs; simpl in Hk; [lia| |lia|];
    cbn [skip_name pass_name].
  - simpl in Hlast, Hs |- *. replace (zlen pre <? last) with true by lia. cbn [negb].
    rewrite rd_app_mid, !bind_access. rewrite compressed_0. cbn [Z.eqb].
    replace (zlen pre + 1 - start <? 2) with false by lia. rewrite Z.add_0_r. done.
  - apply Forall_cons in Hok as [Hl Hls]. pose proof (compressed_label l Hl) as Hc. destruct Hl as [Hl _].
    change (wires (l :: ls)) with (wire l ++ wires ls). unfold wire. cbn [total foldr] in *. fold (total ls) in *.
    pose proof (labels_nonneg ls). replace (zlen pre <? last) with true by lia. cbn [negb].
    rewrite <- (assoc_L (++)). cbn [app]. rewrite rd_app_mid, !bind_access, Hc.
    replace (zlen l =? 0) with false by lia.
    specialize (IH (pre ++ zlen l :: l) fuel Hls). rewrite zlen_app, zlen_cons in IH.
    rewrite <- !(assoc_L (++)) in IH. cbn [app] in IH.
    replace (zlen pre + 1 + zlen l) with (zlen pre + (1 + zlen l)) by lia.
    replace (zlen pre + (1 + zlen l + total ls) + 1) with (zlen pre + (1 + zlen l) + total ls + 1) by lia.
    apply IH; lia.
Qed.

Lemma skip_owner pre o rest last fuel :
  owner_ok o -> zlen pre + zlen (owner_bytes o) <= last -> (length (pre ++ owner_bytes o ++ rest) < fuel)%nat ->
  skip_name fuel (pre ++ owner_bytes o ++ rest) last (zlen pre) (zlen pre) = Some (Some (zlen pre + zlen (owner_bytes o))) /\
  pass_name fuel (pre ++ owner_bytes o ++ rest) (zlen pre) = Some (Some (zlen pre + zlen (owner_bytes o))).
Proof.
  destruct o as [hi lo|ls]; simpl owner_bytes; intros Ho Hl Hf.
  - destruct fuel as [|fuel]; [lia|]. cbn [skip_name pass_name app]. change (zlen [hi; lo]) with 2 in *.
    replace (zlen pre <? last) with true by lia. cbn [negb]. rewrite rd_app_mid, !bind_access.
    simpl in Ho. by rewrite Ho.
  - destruct Ho as [Hls Hne]. rewrite zlen_app, wires_length in *. change (zlen [0]) with 1 in *.
    rewrite <- (assoc_L (++)) in *. cbn [app] in *. rewrite (Z.add_assoc (zlen pre)).
    assert (Hw : (length ls <= length (wires ls))%nat).
    { clear. induction ls as [|l ls IH]; [done|]. change (wires (l :: ls)) with (wire l ++ wires ls).
      rewrite length_app. simpl. lia. }
    rewrite !length_app in Hf. simpl in Hf.
    apply skip_wires; [done|lia|lia|]. destruct ls as [|l ls]; [done|]. apply Forall_cons in Hls as [[H1 _] _].
    simpl. pose proof (labels_nonneg ls). lia.
Qed.

(** The fixed part of an answer. *)
Lemma fixed_words pre r post :
  rr_ok r ->
  word (pre ++ rr_fixed r ++ post) (zlen pre) = Some (Some (rr_type (rr_data r))) /\
  word (pre ++ rr_fixed r ++ post) (zlen pre + 8) = Some (Some (zlen (data_bytes (rr_data r)))) /\
  zlen (rr_fixed r) = AN_SIZE.
Proof.
  intros [_ Hd]. unfold rr_fixed. destruct (rr_class r) as [c1 c2], (rr_ttl r) as [[[t1 t2] t3] t4].
  set (l := [0; _; _; _; _; _; _; _; _; _]). split_and!; [| |done].
  - apply (word_at _ _ 0).
    + rewrite <- (Z.add_0_r (zlen pre)). by apply (rd_inside pre l post 0).
    + by apply (rd_inside pre l post 1).
  - rewrite <- (len_word (zlen (data_bytes (rr_data r)))) by lia. apply word_at.
    + by apply (rd_inside pre l post 8).
    + rewrite <- Z.add_assoc. by apply (rd_inside pre l post (8 + 1)).
Qed.

Lemma addr_at_bytes pre a b c d post :
  addr_at (pre ++ [a; b; c; d] ++ post) (zlen pre) = Some (Some (in_addr a b c d)).
Proof.
  unfold addr_at, in_addr. pose proof (rd_inside pre [a; b; c; d] post 0 ltac:(done)) as H0.
  rewrite Z.add_0_r in H0. by rewrite H0, !(rd_inside pre [a; b; c; d] post) by done.
Qed.

(** The answer as it lies in the buffer. *)
Lemma rr_split pre r post :
  pre ++ rr_bytes r ++ post =
  (pre ++ owner_bytes (rr_owner r)) ++ rr_fixed r ++ data_bytes (rr_data r) ++ post.
Proof. unfold rr_bytes. by rewrite <- !(assoc_L (++)). Qed.

Lemma rr_length r : rr_ok r -> zlen (rr_bytes r) = zlen (owner_bytes (rr_owner r)) + AN_SIZE + zlen (data_bytes (rr_data r)).
Proof.
  intros Hr. destruct (fixed_words [] r [] Hr) as (_ & _ & Hf). unfold rr_bytes. rewrite !zlen_app, Hf. lia.
Qed.

Lemma address_at pre r post a b c d :
  rr_data r = Address a b c d -> rr_ok r ->
  addr_at (pre ++ rr_bytes r ++ post) (zlen pre + zlen (owner_bytes (rr_owner r)) + AN_SIZE)
  = Some (Some (in_addr a b c d)).
Proof.
  intros Hr Hok. destruct (fixed_words [] r [] Hok) as (_ & _ & Hf).
  rewrite rr_split, Hr, (assoc_L (++)). rewrite <- Hf, <- !zlen_app. apply addr_at_bytes.
Qed.

(** What an answer does to the variables. *)
Definition after_answer (r : rr) (v : answers) : answers :=
  let i := an_i v + zlen (rr_bytes r) in
  match rr_data r with
  | Address a b c d => mk_answers i (naddrs v + 1) (in_addr a b c d) (cname v)
  | Canonical _ => mk_answers i (naddrs v) (an_addr v) (Some (an_i v + zlen (owner_bytes (rr_owner r)) + AN_SIZE))
  | Delegated _ => mk_answers i (naddrs v) (an_addr v) (cname v)
  end.

Lemma answer_step_spec pre r post v :
  rr_ok r -> an_i v = zlen pre ->
  let buf := pre ++ rr_bytes r ++ post in
  answer_step buf (zlen buf) v = Some (Some (after_answer r v)).
Proof.
  intros Hr Hi buf. pose proof Hr as [Ho Hd]. unfold answer_step. rewrite Hi.
  pose proof (rr_length r Hr) as Hlen. pose proof (zlen_nonneg post).
  assert (Hb : zlen buf = zlen pre + zlen (rr_bytes r) + zlen post) by (unfold buf; rewrite !zlen_app; lia).
  destruct (skip_owner pre (rr_owner r) (rr_fixed r ++ data_bytes (rr_data r) ++ post) (zlen buf) (S (length buf)) Ho) as [E _].
  { unfold AN_SIZE in Hlen. lia. }
  { unfold buf, rr_bytes. rewrite <- !(assoc_L (++)). lia. }
  assert (Hbuf : buf = pre ++ owner_bytes (rr_owner r) ++ rr_fixed r ++ data_bytes (rr_data r) ++ post).
  { unfold buf, rr_bytes. by rewrite <- !(assoc_L (++)). }
  rewrite <- Hbuf in E. rewrite E. rewrite bind_ok.
  destruct (Z.leb_spec (zlen buf) (zlen pre + zlen (owner_bytes (rr_owner r)) + AN_SIZE)); [lia|].
  destruct (fixed_words (pre ++ owner_bytes (rr_owner r)) r (data_bytes (rr_data r) ++ post) Hr) as (Ht & Hl & _).
  rewrite <- rr_split, zlen_app in Ht, Hl. fold buf in Ht, Hl. rewrite Ht. rewrite bind_ok.
  rewrite Hl. rewrite bind_ok. unfold after_answer. rewrite Hi, Hlen.
  destruct (rr_data r) as [a b c d|l|l] eqn:Er; cbn [rr_type].
  - cbn [Z.eqb NGX_RESOLVE_A Pos.eqb]. destruct (Z.ltb_spec (zlen buf) (zlen pre + zlen (owner_bytes (rr_owner r)) + AN_SIZE + zlen (data_bytes (Address a b c d)))).
    { simpl in *. lia. }
    pose proof (address_at pre r post a b c d Er Hr) as Ea. fold buf in Ea. rewrite Ea.
    rewrite bind_ok. unfold mret, attempt_ret. do 3 f_equal. lia.
  - cbn. unfold mret, attempt_ret. do 3 f_equal. simpl in Hlen. lia.
  - cbn. unfold mret, attempt_ret. do 3 f_equal. simpl in Hlen. lia.
Qed.

Definition rrs_bytes (rrs : list rr) : bytes := concat (rr_bytes <$> rrs).

Lemma rrs_cons r rrs : rrs_bytes (r :: rrs) = rr_bytes r ++ rrs_bytes rrs.
Proof. done. Qed.

Lemma answer_loop_spec pre rrs v :
  Forall rr_ok rrs -> an_i v = zlen pre ->
  let buf := pre ++ rrs_bytes rrs in
  answer_loop (length rrs) buf (zlen buf) v = Some (Some (fold_left (flip after_answer) rrs v)).
Proof.
  intros H. revert pre v. induction H as [|r rrs Hr H IH]; intros pre v Hi buf; [done|].
  cbn [length answer_loop]. subst buf. rewrite rrs_cons.
  pose proof (answer_step_spec pre r (rrs_bytes rrs) v Hr Hi) as E. simpl in E. rewrite E.
  rewrite bind_ok.
  rewrite (assoc_L (++)). apply IH. rewrite zlen_app, <- Hi. unfold after_answer. by destruct (rr_data r).
Qed.

Lemma addresses_cons r rrs :
  addresses (r :: rrs) = match address_of r with Some a => a :: addresses rrs | None => addresses rrs end.
Proof. done. Qed.

Lemma fold_answers rrs v :
  let v' := fold_left (flip after_answer) rrs v in
  naddrs v' = naddrs v + zlen (addresses rrs) /\ Some (an_addr v') = list.last (an_addr v :: addresses rrs).
Proof.
  revert v. induction rrs as [|r rrs IH]; intros v; [simpl; split; [unfold zlen; simpl; lia|done]|].
  cbn [fold_left]. destruct (IH (flip after_answer v r)) as [H1 H2]. rewrite addresses_cons. unfold flip in *.
  split.
  - rewrite H1. unfold after_answer, address_of. destruct (rr_data r); simpl; rewrite ?zlen_cons; lia.
  - rewrite H2. unfold after_answer, address_of. by destruct (rr_data r).
Qed.

Lemma pass_rr pre r post :
  rr_ok r -> let buf := pre ++ rr_bytes r ++ post in
  pass_name (S (length buf)) buf (zlen pre) = Some (Some (zlen pre + zlen (owner_bytes (rr_owner r)))).
Proof.
  intros Hr buf. pose proof (rr_length r Hr) as Hlen. destruct Hr as [Ho Hd].
  assert (Hbuf : buf = pre ++ owner_bytes (rr_owner r) ++ rr_fixed r ++ data_bytes (rr_data r) ++ post).
  { unfold buf, rr_bytes. by rewrite <- !(assoc_L (++)). }
  destruct (skip_owner pre (rr_owner r) (rr_fixed r ++ data_bytes (rr_data r) ++ post) (zlen buf) (S (length buf)) Ho) as [_ E].
  { unfold buf. rewrite !zlen_app. pose proof (zlen_nonneg post). unfold AN_SIZE in Hlen. lia. }
  { rewrite <- Hbuf. lia. }
  by rewrite <- Hbuf in E.
Qed.

Lemma collect_spec pre rrs :
  Forall rr_ok rrs -> addresses rrs <> [] ->
  collect (length rrs) (pre ++ rrs_bytes rrs) (zlen pre) (length (addresses rrs)) = Some (Some (addresses rrs)).
Proof.
  intros H. revert pre. induction H as [|r rrs Hr H IH]; intros pre Hne; [done|].
  cbn [length collect]. set (buf := pre ++ rrs_bytes (r :: rrs)).
  assert (Hbuf : buf = pre ++ rr_bytes r ++ rrs_bytes rrs) by done.
  rewrite Hbuf, pass_rr by done. rewrite bind_ok.
  destruct (fixed_words (pre ++ owner_bytes (rr_owner r)) r (data_bytes (rr_data r) ++ rrs_bytes rrs) Hr) as (Ht & Hl & _).
  rewrite <- rr_split, zlen_app in Ht, Hl. rewrite Ht. rewrite bind_ok.
  rewrite Hl. rewrite bind_ok.
  rewrite addresses_cons in *. pose proof (rr_length r Hr) as Hlen.
  specialize (IH (pre ++ rr_bytes r)). rewrite zlen_app, <- (assoc_L (++)), Hlen in IH.
  replace (zlen pre + (zlen (owner_bytes (rr_owner r)) + AN_SIZE + zlen (data_bytes (rr_data r))))
    with (zlen pre + zlen (owner_bytes (rr_owner r)) + AN_SIZE + zlen (data_bytes (rr_data r))) in IH by lia.
  destruct (rr_data r) as [a b c d|l|l] eqn:Er; unfold address_of in *; rewrite Er in *; cbn [rr_type].
  - cbn [Z.eqb NGX_RESOLVE_A Pos.eqb]. rewrite (address_at pre r (rrs_bytes rrs) a b c d Er Hr).
    rewrite bind_ok. cbn [length].
    destruct (addresses rrs) as [|x xs] eqn:Ea; [done|]. cbn [length] in *. rewrite IH by done. done.
  - cbn [Z.eqb NGX_RESOLVE_A NGX_RESOLVE_CNAME Pos.eqb]. by apply IH.
  - cbn [Z.eqb NGX_RESOLVE_A NGX_RESOLVE_DNAME Pos.eqb]. by apply IH.
Qed.

(** C17: the answers are understood: from a response to the query of a node whose answers
    are addresses, canonical names and delegations, the node has all the addresses in
    the order of the answers, whatever pointers or labels their names are. *)
Theorem answers_resolved alloc lookup_name pre rrs ident c rn query :
  let buf := pre ++ rrs_bytes rrs in
  Forall rr_ok rrs -> addresses rrs <> [] -> (forall n, alloc n = true) ->
  ngx_resolver_copy alloc true buf QUERY_SIZE (zlen buf) = Some (Some c) ->
  lookup_name (name c) = Some rn -> rn_query rn = Some query -> word query 0 = Some (Some ident) ->
  ngx_resolver_process_a alloc lookup_name buf (zlen buf) ident 0 (zlen rrs) (zlen pre)
  = Some (Some (Resolves rn (addresses rrs))).
Proof.
  intros buf Hrrs Hne Ha Hc Hn Hq Hi. unfold ngx_resolver_process_a. unfold QUERY_SIZE in Hc. rewrite Hc.
  rewrite bind_ok, Hn. unfold node_ident. rewrite Hq, Hi, bind_ok.
  change (mret (rn, ident)) with (Some (Some (rn, ident))). rewrite bind_ok. cbv beta iota. rewrite Z.eqb_refl.
  rewrite bind_guard.
  assert (Hz : zlen rrs <> 0) by (destruct rrs; [done|]; rewrite zlen_cons; pose proof (zlen_nonneg rrs); lia).
  unfold code_of. replace (zlen rrs =? 0) with false by lia. cbn [andb Z.eqb negb].
  assert (Hl : Z.to_nat (zlen rrs) = length rrs) by (unfold zlen; lia).
  rewrite Hl. unfold buf. rewrite answer_loop_spec by done.
  rewrite bind_ok.
  set (v := fold_left _ _ _). destruct (fold_answers rrs (mk_answers (zlen pre) 0 0 None)) as [H1 H2].
  fold v in H1, H2. simpl naddrs in H1. simpl an_addr in H2. rewrite H1, Z.add_0_l.
  destruct (addresses rrs) as [|x xs] eqn:Ea; [done|].
  replace (zlen (x :: xs) =? 0) with false by (rewrite zlen_cons; pose proof (zlen_nonneg xs); lia). cbn [negb].
  destruct xs as [|y ys].
  - simpl. injection H2 as ->. done.
  - replace (zlen (x :: y :: ys) =? 1) with false by (rewrite !zlen_cons; pose proof (zlen_nonneg ys); lia).
    rewrite !Ha, bind_guard, <- Ea.
    replace (Z.to_nat (zlen (addresses rrs))) with (length (addresses rrs)) by (unfold zlen; lia).
    by rewrite collect_spec by (done || congruence).
Qed.

(** ** Concrete messages *)

Definition sample_node : rnode := mk_rnode (Some [1; 2]) [].
Definition sample_lookup (nm : bytes) : option rnode := if bytes_eqb nm (bs "a.b") then Some sample_node else None.
(** The header of a response with [nan] answers, and a question. *)
Definition sample_head (nan : Z) : bytes := [1; 2; 128; 0; 0; 1; 0; nan; 0; 0; 0; 0].
Definition sample_question : bytes := wires [bs "a"; bs "b"] ++ [0; 0; 1; 0; 1].
Definition an_address (a b c d : Z) : rr := mk_rr (Pointer 192 12) (0, 1) (0, 0, 0, 60) (Address a b c d).
Definition a_name (l : bytes) : rr := mk_rr (Labels [bs "c"; bs "d"]) (0, 1) (0, 0, 0, 60) (Canonical l).
Definition sample_answers : list rr := [a_name [192; 12]; an_address 1 2 3 4; an_address 5 6 7 8].
Definition sample_response (rrs : list rr) : bytes :=
  sample_head (zlen rrs) ++ sample_question ++ rrs_bytes rrs.
Definition any (n : Z) : bool := true.

Example sample_resolves :
  ngx_resolver_process_response any sample_lookup (fun _ => None) [] (sample_response sample_answers)
    (zlen (sample_response sample_answers)) = Some (Some (Resolves sample_node [67305985; 134678021])).
Proof. vm_compute. reflexivity. Qed.


Lemma name_query_roundtrip_witness :
  exists q, ngx_resolver_create_name_query true 258 1 (bs "www.example.com") = inl (query_header 258 ++ q).
Proof.
  destruct (name_query_roundtrip 258 1 [bs "www"; bs "example"; bs "com"]) as (q & E & _).
  - by_decide.
  - by_decide.
  - done.
  - unfold POINTERS. simpl. lia.
  - exists q. exact E.
Defined.

Lemma response_authentic_witness :
  exists ident, word (sample_response sample_answers) 0 = Some (Some ident) /\
    asked any sample_lookup (fun _ => None) (sample_response sample_answers)
      (zlen (sample_response sample_answers)) ident sample_node.
Proof.
  destruct (response_authentic any sample_lookup (fun _ => None) [] (sample_response sample_answers)
    (zlen (sample_response sample_answers)) (Resolves sample_node [67305985; 134678021]))
    as (ident & flags & Hi & _ & _ & _ & Ha).
  - vm_compute. reflexivity.
  - exists ident. split; [exact Hi|exact Ha].
Defined.

Lemma answers_resolved_witness :
  ngx_resolver_process_a any sample_lookup (sample_response sample_answers) (zlen (sample_response sample_answers))
    258 0 3 21 = Some (Some (Resolves sample_node (addresses sample_answers))).
Proof.
  apply (answers_resolved any sample_lookup (sample_head 3 ++ sample_question) sample_answers 258
    (mk_copied 3 (bs "a.b")) sample_node [1; 2]).
  - by_decide.
  - by vm_compute.
  - done.
  - vm_compute. reflexivity.
  - done.
  - done.
  - vm_compute. reflexivity.
Defined.

(** *** Messages that break what the code means to do *)

(** A pointer to the root behind the last label: two bytes are written to the one that is
    allocated. *)
Example name_overflow :
  ngx_resolver_copy any true ([1] ++ bs "a" ++ [192; 4; 0; 0]) 0 5 = Some (Some (mk_copied 1 (bs "a."))).
Proof. vm_compute. reflexivity. Qed.

(** An answer of a type that is not expected is not skipped by the first loop, which reads
    an address inside of it; the second loop skips it by its length, without a bound. *)
Example second_loop_over_read :
  let strange := [192; 12; 192; 0; 0; 1; 0; 0; 0; 60; 255; 255; 0; 4; 1; 2; 3; 4] in
  let buf := sample_head 3 ++ sample_question ++ strange ++ rrs_bytes [an_address 5 6 7 8; an_address 5 6 7 8] in
  ngx_resolver_process_response any sample_lookup (fun _ => None) [] buf (zlen buf) = None.
Proof. vm_compute. reflexivity. Qed.

(** A format error for a query that is not in the queue: the head of the queue is taken for
    a node. *)
Example format_error_over_read :
  let buf := [9; 9; 128; 1; 0; 1; 0; 0; 0; 0; 0; 0] in
  ngx_resolver_process_response any sample_lookup (fun _ => None) [sample_node] buf (zlen buf) = None.
Proof. vm_compute. reflexivity. Qed.

(** An empty label at the front of a name is sent, although other empty labels are refused. *)
Example leading_dot_sent :
  ngx_resolver_create_name_query true 258 1 (bs ".com") =
    inl (query_header 258 ++ 0 :: wire (bs "com") ++ [0; 0; 1; 0; 1]) /\
  ngx_resolver_create_name_query true 258 1 (bs "a..com") = inr NGX_DECLINED.
Proof. split; vm_compute; reflexivity. Qed.

(** The length of a label is not checked: 64 bytes make a pointer of it. *)
Example long_label_sent :
  exists q, ngx_resolver_create_name_query true 258 1 (replicate 64 "a") = inl (query_header 258 ++ 64 :: q) /\
    compressed 64 = true.
Proof. eexists. split; vm_compute; reflexivity. Qed.
