(* ===== verification/Inet.v ===== *)
(** Addresses: src/core/ngx_inet.c without the URLs, in the build with NGX_HAVE_INET6. *)
From S2P Require Import Prelude CString Numbers Bytes Sprintf.

(** ** Text of IPv4 addresses *)

Definition INADDR_NONE : Z := 2 ^ 32 - 1.

Fixpoint inet_addr_loop (text : bytes) (addr octet n : Z) : option (Z * Z * Z) :=
  match text with
  | [] => Some (addr, octet, n)
  | c :: text =>
      if ("0" <=? c) && (c <=? "9") then inet_addr_loop text addr (u64 (octet * 10 + (c - "0"))) n
      else if (c =? ".") && (octet <? 256) then
        inet_addr_loop text (u32 (Z.shiftl addr 8 + octet)) 0 (n + 1)
      else None
  end.

Definition ngx_inet_addr (text : bytes) : Z :=
  match inet_addr_loop text 0 0 0 with
  | Some (addr, octet, n) =>
      if negb (n =? 3) then INADDR_NONE
      else if octet <? 256 then htonl (u32 (Z.shiftl addr 8 + octet))
      else INADDR_NONE
  | None => INADDR_NONE
  end.

(** ** Text of IPv6 addresses *)

(** The variables of the loop: [addr] is what is written, [zero] a place in it, [digit] the
    text from that pointer to the end. *)
Record inet6_vars := mk_inet6 {
  i6_addr : bytes; i6_n : Z; i6_nibbles : Z; i6_word : Z; i6_zero : option nat; i6_digit : option bytes
}.

(** [*addr++ = (u_char) (word >> 8); *addr++ = (u_char) (word & 0xff);] *)
Definition put_word (addr : bytes) (word : Z) : bytes :=
  addr ++ [u8 (Z.shiftr word 8); Z.land word 255].

(** [None] is NGX_ERROR. *)
Fixpoint inet6_loop (text : bytes) (v : inet6_vars) : option inet6_vars :=
  match text with
  | [] => Some v
  | c :: text =>
      let '(mk_inet6 addr n nibbles word zero digit) := v in
      if c =? ":" then
        if negb (nibbles =? 0) then
          if negb (n - 1 =? 0) then
            inet6_loop text (mk_inet6 (put_word addr word) (n - 1) 0 0 zero (Some text))
          else None
        else
          match zero with
          | None => inet6_loop text (mk_inet6 addr n nibbles word (Some (length addr)) (Some text))
          | Some _ => None
          end
      else if (c =? ".") && negb (nibbles =? 0) then
        match digit with
        | None => None
        | Some digit =>
            if n <? 2 then None
            else
              let word := ngx_inet_addr digit in
              if word =? INADDR_NONE then None
              else
                let word := htonl word in
                Some (mk_inet6 (addr ++ [Z.land (Z.shiftr word 24) 255; Z.land (Z.shiftr word 16) 255])
                        (n - 1) nibbles word zero (Some digit))
        end
      else if 4 <? nibbles + 1 then None
      else
        let put digit_ := inet6_loop text (mk_inet6 addr n (nibbles + 1) (word * 16 + digit_) zero digit) in
        if ("0" <=? c) && (c <=? "9") then put (c - "0")
        else
          let c := Z.lor c 32 in
          if ("a" <=? c) && (c <=? "f") then put (c - "a" + 10) else None
  end.

(** Behind the loop.  The last loop moves what was written from [zero] on to the end of the
    16 bytes, backwards, and clears the place. *)
Definition inet6_end (v : inet6_vars) : option bytes :=
  let '(mk_inet6 addr n nibbles word zero _) := v in
  match zero with
  | None =>
      if nibbles =? 0 then None
      else if negb (n - 1 =? 0) then None
      else Some (put_word addr word)
  | Some z =>
      let addr := put_word addr word in
      if negb (n - 1 =? 0) then
        Some (take z addr ++ replicate (Z.to_nat ((n - 1) * 2)) 0 ++ drop z addr)
      else None
  end.

(** The bytes of the address, or [None]: NGX_ERROR. *)
Definition ngx_inet6_addr (p : bytes) : option bytes :=
  match p with
  | [] => None
  | c :: p' =>
      v ← inet6_loop (if c =? ":" then p' else p) (mk_inet6 [] 8 0 0 None None);
      inet6_end v
  end.

(** The first loop of [ngx_inet6_ntop] over the words: the longest run of zeros. *)
Record zero_run := mk_run { zr_zero : Z; zr_last : Z; zr_max : Z; zr_n : Z }.
Definition close_run (v : zero_run) : zero_run :=
  if zr_max v <? zr_n v then mk_run (zr_last v) (zr_last v) (zr_n v) (zr_n v) else v.
Fixpoint zero_loop (p : bytes) (i : Z) (v : zero_run) : zero_run :=
  match p with
  | hi :: lo :: p =>
      if negb (hi =? 0) || negb (lo =? 0) then
        let v := close_run v in zero_loop p (i + 2) (mk_run (zr_zero v) (zr_last v) (zr_max v) 0)
      else zero_loop p (i + 2) (mk_run (zr_zero v) (if zr_n v =? 0 then i else zr_last v) (zr_max v) (zr_n v + 1))
  | _ => v
  end.

Definition NGX_INET6_ADDRSTRLEN : Z := 45.

(** [ngx_sprintf] far from the end of the address space. *)
Definition sprintf (fmt : bytes) (args : list arg) : option bytes := ngx_vslprintf (2 ^ 63) fmt args.

Definition dotted_args (p : bytes) (i : Z) : list arg :=
  (fun k => A_int (at_ p (i + k))) <$> [0; 1; 2; 3].

(** The loop over the words; eight turns are enough. *)
Fixpoint ntop_loop (fuel : nat) (p : bytes) (n zero max i : Z) : option bytes :=
  match fuel with
  | O => if i <? n then None else Some []
  | S fuel =>
      if negb (i <? n) then Some []
      else if i =? zero then
        rest ← ntop_loop fuel p n zero max (i + (max - 1) * 2 + 2);
        Some (":" :: rest)
      else
        w ← sprintf (bs "%uxi") [A_int (at_ p i * 256 + at_ p (i + 1))];
        rest ← ntop_loop fuel p n zero max (i + 2);
        Some (w ++ (if i <? 14 then [":"%chr] else []) ++ rest)
  end.

(** [p] is the 16 bytes. *)
Definition ngx_inet6_ntop (p : bytes) (len : Z) : option bytes :=
  if len <? NGX_INET6_ADDRSTRLEN then Some []
  else
    let v := close_run (zero_loop p 0 (mk_run (-1) (-1) 1 0)) in
    let zero := zr_zero v in
    let max := zr_max v in
    let mapped := ((max =? 5) && (at_ p 10 =? 255) && (at_ p 11 =? 255)) || (max =? 6)
                  || ((max =? 7) && negb (at_ p 14 =? 0) && negb (at_ p 15 =? 1)) in
    let n := if (zero =? 0) && mapped then 12 else 16 in
    words ← ntop_loop 8 p n zero max 0;
    quad ← (if n =? 12 then sprintf (bs "%ud.%ud.%ud.%ud") (dotted_args p 12) else Some []);
    Some ((if zero =? 0 then [":"%chr] else []) ++ words ++ quad).

(** ** Socket addresses *)

(** [struct sockaddr] by family: the bytes of the address and the port in network order;
    a path; another family. *)
Inductive sockaddr :=
  | AF_INET (addr : bytes) (port : Z)
  | AF_INET6 (addr : bytes) (port : Z)
  | AF_UNIX (path : bytes)
  | AF_other.

Definition ntohs (p : Z) : Z := of_le (reverse (le 2 p)).

Definition ngx_sock_ntop (sa : sockaddr) (len : Z) (port : bool) : option bytes :=
  match sa with
  | AF_INET p prt =>
      if port then ngx_vslprintf len (bs "%ud.%ud.%ud.%ud:%d") (dotted_args p 0 ++ [A_int (ntohs prt)])
      else ngx_vslprintf len (bs "%ud.%ud.%ud.%ud") (dotted_args p 0)
  | AF_INET6 p prt =>
      if port then
        text ← ngx_inet6_ntop p len;
        rest ← sprintf (bs "]:%d") [A_int (ntohs prt)];
        Some ("[" :: text ++ rest)
      else ngx_inet6_ntop p len
  | AF_UNIX path =>
      text ← ngx_vslprintf len (bs "unix:%s%Z") [A_ptr path];
      Some (take (length text - 1) text)
  | AF_other => Some []
  end.

(** [ngx_inet_ntop]: for [AF_INET] the four bytes, for [AF_INET6] the sixteen. *)
Definition ngx_inet_ntop (inet6 : bool) (p : bytes) (len : Z) : option bytes :=
  if inet6 then ngx_inet6_ntop p len else ngx_vslprintf len (bs "%ud.%ud.%ud.%ud") (dotted_args p 0).

(** ** Networks *)

(** [ngx_cidr_t]: a family and the member of the union that it selects; an IPv4 address is
    in network order. *)
Inductive cidr := In_cidr (addr mask : Z) | In6_cidr (addr mask : bytes).

Definition in_mask (shift : Z) : Z :=
  if negb (shift =? 0) then htonl (u32 (- s32 (Z.shiftl 1 ((32 - shift) mod 32)))) else 0.

(** The masks of the bytes of an IPv6 address. *)
Fixpoint in6_mask (n : nat) (shift : Z) : bytes :=
  match n with
  | O => []
  | S n =>
      let s := if 8 <? shift then 8 else shift in
      u8 (- Z.shiftl 1 (8 - s)) :: in6_mask n (shift - s)
  end.

(** The return code and the network; NGX_DONE: bits behind the mask were set, and cleared. *)
Definition ngx_ptocidr (text : bytes) : Z * cidr :=
  let mask := ngx_strlchr text (length text) "/" in
  let host := match mask with Some m => take (length text - length m) text | None => text end in
  let addr := ngx_inet_addr host in
  if negb (addr =? INADDR_NONE) then
    match mask with
    | None => (NGX_OK, In_cidr addr (2 ^ 32 - 1))
    | Some m =>
        let shift := ngx_atoi (drop 1 m) in
        if shift =? NGX_ERROR then (NGX_ERROR, In_cidr addr 0)
        else
          let mask := in_mask shift in
          if addr =? Z.land addr mask then (NGX_OK, In_cidr addr mask)
          else (NGX_DONE, In_cidr (Z.land addr mask) mask)
    end
  else
    match ngx_inet6_addr host with
    | None => (NGX_ERROR, In_cidr addr 0)
    | Some addr =>
        match mask with
        | None => (NGX_OK, In6_cidr addr (replicate 16 255))
        | Some m =>
            let shift := ngx_atoi (drop 1 m) in
            if shift =? NGX_ERROR then (NGX_ERROR, In6_cidr addr [])
            else
              let mask := in6_mask 16 shift in
              let low := zip_with Z.land addr mask in
              (if bytes_eqb addr low then NGX_OK else NGX_DONE, In6_cidr low mask)
        end
    end.

(** [ngx_parse_addr]: the return code, and the address with no port. *)
Definition ngx_parse_addr (alloc_ok : bool) (text : bytes) : Z * sockaddr :=
  let inaddr := ngx_inet_addr text in
  if negb (inaddr =? INADDR_NONE) then
    if alloc_ok then (NGX_OK, AF_INET (le 4 inaddr) 0) else (NGX_ERROR, AF_other)
  else
    match ngx_inet6_addr text with
    | Some addr => if alloc_ok then (NGX_OK, AF_INET6 addr 0) else (NGX_ERROR, AF_other)
    | None => (NGX_DECLINED, AF_other)
    end.
