(* ===== verification/InetSpec.v ===== *)
(** Addresses as text: what [ngx_inet_ntop] writes is read back, and what the text of a
    network means. *)
From S2P Require Import Prelude CString Numbers Bytes Sprintf TimesText Inet.

(** ** IPv4 *)

(** The decimal text of an octet. *)
Definition octet (n : Z) : bytes :=
  if n <? 10 then ["0" + n] else if n <? 100 then ["0" + n / 10; "0" + n mod 10]
  else ["0" + n / 100; "0" + n / 10 mod 10; "0" + n mod 10].

Lemma octet_length n : 1 <= zlen (octet n) <= 3.
Proof. unfold octet. repeat case_match; unfold zlen; simpl; lia. Qed.

Lemma directive_ud room fmt n args :
  3 <= room -> 0 <= n < 256 -> directive room ("u" :: "d" :: fmt) (A_int n :: args) = Some (octet n, fmt, args).
Proof.
  intros Hr Hn. unfold directive. cbn -[convert]. unfold convert. cbn -[put_number s32 u32].
  unfold put_number. cbn [sign]. do 3 f_equal. unfold u32. rewrite Z.mod_small by lia.
  pose proof (octet_length n). apply sprintf_num_room; [lia|lia|]. cbn [zero hex width]. revert n Hn H.
  intros n Hn _. revert n Hn. apply (number_table (fun n => ngx_sprintf_num 64 n 32 0 0) octet 256). by vm_compute.
Qed.

(** The text of four octets. *)
Definition quad (a b c d : Z) : bytes := octet a ++ "." :: octet b ++ "." :: octet c ++ "." :: octet d.

Lemma quad_length a b c d : 7 <= zlen (quad a b c d) <= 15.
Proof.
  unfold quad. autorewrite with zlen. pose proof (octet_length a). pose proof (octet_length b).
  pose proof (octet_length c). pose proof (octet_length d). lia.
Qed.

Lemma sprintf_quad room a b c d :
  15 <= room -> is_u_char a -> is_u_char b -> is_u_char c -> is_u_char d ->
  ngx_vslprintf room (bs "%ud.%ud.%ud.%ud") [A_int a; A_int b; A_int c; A_int d] = Some (quad a b c d).
Proof.
  unfold is_u_char. intros Hr Ha Hb Hc Hd. pose proof (octet_length a). pose proof (octet_length b).
  pose proof (octet_length c). pose proof (octet_length d). unfold ngx_vslprintf, quad.
  change (bs "%ud.%ud.%ud.%ud") with
    ("%" :: "u" :: "d" :: "." :: "%" :: "u" :: "d" :: "." :: "%" :: "u" :: "d" :: "." :: "%" :: "u" :: ["d"%chr]).
  cbn [length].
  eapply vslprintf_directive; [lia|by apply directive_ud; lia|done|].
  eapply vslprintf_char; [done|done|lia|].
  eapply vslprintf_directive; [lia|by apply directive_ud; lia|done|].
  eapply vslprintf_char; [done|done|lia|].
  eapply vslprintf_directive; [lia|by apply directive_ud; lia|done|].
  eapply vslprintf_char; [done|done|lia|].
  rewrite <- (app_nil_r (octet d)) at 1.
  eapply vslprintf_directive; [lia|by apply directive_ud; lia|done|]. done.
Qed.

Lemma inet_addr_octet n text addr k :
  0 <= n < 256 -> inet_addr_loop (octet n ++ text) addr 0 k = inet_addr_loop text addr n k.
Proof.
  intros Hn. unfold octet. assert (H : forall d, 0 <= d < 10 -> (48 <=? 48 + d) && (48 + d <=? 57) = true) by lia.
  repeat case_match; cbn [app inet_addr_loop]; rewrite !H by dlia; f_equal; unfold u64; dlia.
Qed.

Lemma inet_addr_dot text addr n k :
  0 <= n < 256 -> inet_addr_loop ("." :: text) addr n k = inet_addr_loop text (u32 (addr * 256 + n)) 0 (k + 1).
Proof.
  intros Hn. cbn [inet_addr_loop]. change ("0" <=? ".") with false. change ("." =? ".") with true.
  rewrite (proj2 (Z.ltb_lt n 256)) by lia. by rewrite Z.shiftl_mul_pow2 by lia.
Qed.

(** A number of [n] bytes, the most significant first. *)
Definition be (l : bytes) : Z := foldl (fun v c => v * 256 + c) 0 l.

Lemma le_of_le l : Forall is_u_char l -> le (length l) (of_le l) = l.
Proof.
  induction 1 as [|c l Hc Hl IH]; [done|]. cbn [length le of_le]. unfold is_u_char in Hc.
  replace ((c + 256 * of_le l) / 256) with (of_le l) by dlia. rewrite IH. f_equal. dlia.
Qed.

Lemma be_of_le l : be l = of_le (reverse l).
Proof.
  induction l as [|c l IH] using rev_ind; [done|]. unfold be in *. rewrite foldl_app, reverse_app. cbn. rewrite IH. lia.
Qed.

Lemma htonl_be l : length l = 4%nat -> Forall is_u_char l -> htonl (be l) = of_le l.
Proof.
  intros Hl H. rewrite be_of_le. unfold htonl.
  replace 4%nat with (length (reverse l)) by by rewrite length_reverse.
  rewrite le_of_le by by apply Forall_reverse. by rewrite reverse_involutive.
Qed.

Lemma quad_read a b c d :
  is_u_char a -> is_u_char b -> is_u_char c -> is_u_char d ->
  ngx_inet_addr (quad a b c d) = of_le [a; b; c; d].
Proof.
  intros Ha Hb Hc Hd. rewrite <- htonl_be by auto. unfold is_u_char in *. unfold ngx_inet_addr, quad.
  do 3 rewrite inet_addr_octet, inet_addr_dot by done.
  rewrite <- (app_nil_r (octet d)), inet_addr_octet by done. cbn [inet_addr_loop].
  change (0 + 1 + 1 + 1 =? 3) with true. cbn [negb]. rewrite (proj2 (Z.ltb_lt d 256)) by lia.
  rewrite Z.shiftl_mul_pow2 by lia. f_equal. unfold be, u32. cbn [foldl].
  rewrite (Z.mod_small (0 * 256 + a)), (Z.mod_small (_ * 256 + b)), (Z.mod_small (_ * 256 + c)), Z.mod_small by lia. lia.
Qed.


(** ** Words of IPv6 addresses *)

Definition hexd (d : Z) : Z := at_ hex_lower d.

(** The text of a word. *)
Definition hexw (w : Z) : bytes :=
  if w <? 16 then [hexd w] else if w <? 256 then [hexd (w / 16); hexd (w mod 16)]
  else if w <? 4096 then [hexd (w / 256); hexd (w / 16 mod 16); hexd (w mod 16)]
  else [hexd (w / 4096); hexd (w / 256 mod 16); hexd (w / 16 mod 16); hexd (w mod 16)].

Lemma hexw_length w : 1 <= zlen (hexw w) <= 4.
Proof. unfold hexw. repeat case_match; unfold zlen; simpl; lia. Qed.

(** The values of a hex digit. *)
Ltac hex_cases d :=
  assert (d = 0 \/ d = 1 \/ d = 2 \/ d = 3 \/ d = 4 \/ d = 5 \/ d = 6 \/ d = 7 \/
    d = 8 \/ d = 9 \/ d = 10 \/ d = 11 \/ d = 12 \/ d = 13 \/ d = 14 \/ d = 15) by lia; destruct_or!; subst.

Lemma hexd_colon d : 0 <= d < 16 -> hexd d <> ":".
Proof. intros Hd. by hex_cases d. Qed.

Lemma hexw_colon w rest : 0 <= w < 65536 -> List.hd 0 (hexw w ++ rest) <> ":".
Proof. intros Hw. unfold hexw. repeat case_match; apply hexd_colon; dlia. Qed.

Lemma hex_loop_step n ui p : 0 <= ui ->
  hex_loop hex_lower (S n) ui p =
  if ui <? 16 then hexd ui :: p else hex_loop hex_lower n (ui / 16) (hexd (ui mod 16) :: p).
Proof.
  intros H. cbn [hex_loop]. change 15 with (Z.ones 4). rewrite Z.land_ones, Z.shiftr_div_pow2 by lia.
  change (2 ^ 4) with 16. unfold u32. rewrite (Z.mod_small (ui mod 16)) by dlia. unfold hexd.
  destruct (Z.ltb_spec ui 16) as [Hl|Hl].
  - rewrite Z.div_small, Z.mod_small by lia. done.
  - destruct (Z.eqb_spec (ui / 16) 0); [dlia|done].
Qed.

Lemma num_digits_hexw w : 0 <= w < 65536 -> num_digits w 1 = hexw w.
Proof.
  intros Hw. unfold num_digits, NGX_INT64_LEN. change (1 =? 0) with false. change (1 =? 1) with true. cbv iota.
  unfold hexw. do 4 rewrite hex_loop_step by dlia.
  replace (w / 16 / 16) with (w / 256) by dlia. replace (w / 256 / 16) with (w / 4096) by dlia.
  destruct (Z.ltb_spec w 16); [done|].
  destruct (Z.ltb_spec w 256), (Z.ltb_spec (w / 16) 16); [done|dlia|dlia|].
  destruct (Z.ltb_spec w 4096), (Z.ltb_spec (w / 256) 16); [done|dlia|dlia|].
  by rewrite (proj2 (Z.ltb_lt (w / 4096) 16)) by dlia.
Qed.

Lemma sprintf_word w : 0 <= w < 65536 -> sprintf (bs "%uxi") [A_int w] = Some (hexw w).
Proof.
  intros Hw. unfold sprintf, ngx_vslprintf. change (bs "%uxi") with ("%" :: "u" :: "x" :: ["i"%chr]). cbn [length].
  pose proof (hexw_length w).
  rewrite <- (app_nil_r (hexw w)).
  eapply (vslprintf_directive _ _ _ _ []); [done| |done|done].
  unfold directive. cbn -[convert]. unfold convert. cbn -[put_number s64 u64]. unfold put_number. cbn [sign].
  do 3 f_equal. rewrite u64_id by lia. apply sprintf_num_room; [lia|lia|]. cbn [zero hex width].
  rewrite sprintf_num_take, num_digits_hexw by lia. rewrite (Z2Nat.nonpos (0 - _)) by lia.
  unfold zlen in *. apply take_ge. cbn [replicate app]. lia.
Qed.

Lemma inet6_hex d text addr n nibbles word zero digit :
  0 <= d < 16 -> nibbles < 4 ->
  inet6_loop (hexd d :: text) (mk_inet6 addr n nibbles word zero digit) =
  inet6_loop text (mk_inet6 addr n (nibbles + 1) (word * 16 + d) zero digit).
Proof.
  intros Hd Hn. cbn [inet6_loop]. rewrite (proj2 (Z.ltb_ge 4 (nibbles + 1))) by lia.
  by hex_cases d.
Qed.

Lemma inet6_word w text addr n zero digit :
  0 <= w < 65536 ->
  inet6_loop (hexw w ++ text) (mk_inet6 addr n 0 0 zero digit) =
  inet6_loop text (mk_inet6 addr n (zlen (hexw w)) w zero digit).
Proof.
  intros Hw. unfold hexw. repeat case_match; cbn [app]; rewrite !inet6_hex by dlia; f_equal; f_equal; dlia.
Qed.

Lemma put_word_bytes addr hi lo :
  is_u_char hi -> is_u_char lo -> put_word addr (hi * 256 + lo) = addr ++ [hi; lo].
Proof.
  unfold is_u_char, put_word. intros Hh Hl. change 255 with (Z.ones 8).
  rewrite Z.land_ones, Z.shiftr_div_pow2 by lia. unfold u8. f_equal. f_equal; [|f_equal]; change (2 ^ 8) with 256; dlia.
Qed.

(** ** Runs of zeros *)

(** A run of [m] zero words from the byte [z] on, before the byte [i]. *)
Definition zeros (p : bytes) (z m i : Z) : Prop :=
  0 <= z /\ z mod 2 = 0 /\ 0 <= m /\ z + 2 * m <= i /\ forall k, z <= k < z + 2 * m -> at_ p k = 0.

(** The run chosen so far, if any, has at least two words; the current one ends at [i]. *)
Definition runs_ok (p : bytes) (i : Z) (v : zero_run) : Prop :=
  i mod 2 = 0 /\ 0 <= zr_n v /\
  ((zr_zero v = -1 /\ zr_max v = 1) \/ (2 <= zr_max v /\ zeros p (zr_zero v) (zr_max v) i)) /\
  (0 < zr_n v -> zr_last v = i - 2 * zr_n v /\ zeros p (zr_last v) (zr_n v) i).

Lemma zeros_mono p z m i j : i <= j -> zeros p z m i -> zeros p z m j.
Proof. unfold zeros. naive_solver lia. Qed.

Lemma close_run_ok p i v : runs_ok p i v -> runs_ok p i (close_run v).
Proof.
  unfold close_run. destruct (Z.ltb_spec (zr_max v) (zr_n v)) as [H|H]; [|done].
  intros (Hi & Hn & Hz & Hl). split_and!; [done|done| |done]. right. cbn.
  assert (1 <= zr_max v) by (destruct Hz as [[_ ->]|[? _]]; lia). split; [lia|]. apply Hl. lia.
Qed.

Lemma zero_loop_ok p m q i v :
  zlen q = 2 * Z.of_nat m -> (forall k, 0 <= k -> at_ q k = at_ p (i + k)) -> 0 <= i ->
  runs_ok p i v -> runs_ok p (i + zlen q) (zero_loop q i v).
Proof.
  revert q i v. induction m as [|m IH]; intros q i v Hl Hq Hi Hv.
  { destruct q as [|? q]; [|autorewrite with zlen in Hl; pose proof (zlen_nonneg q); lia]. by rewrite Z.add_0_r. }
  destruct q as [|hi [|lo q]]; [unfold zlen in Hl; cbn in Hl; lia..|].
  autorewrite with zlen in *. replace (i + _) with (i + 2 + zlen q) by lia.
  assert (Hhi : at_ p i = hi) by (specialize (Hq 0); rewrite Z.add_0_r in Hq; by rewrite <- Hq).
  assert (Hlo : at_ p (i + 1) = lo) by by rewrite <- Hq.
  assert (Hq' : forall k, 0 <= k -> at_ q k = at_ p (i + 2 + k)).
  { intros k Hk. rewrite <- Z.add_assoc, <- Hq by lia. unfold at_, rd.
    rewrite (proj2 (Z.leb_le 0 k)), (proj2 (Z.leb_le 0 (2 + k))) by lia.
    by replace (Z.to_nat (2 + k)) with (S (S (Z.to_nat k))) by lia. }
  cbn [zero_loop]. destruct (Z.eqb_spec hi 0) as [Eh|]; [destruct (Z.eqb_spec lo 0) as [El|]|]; cbn [negb orb];
    apply IH; try done; try lia.
  - destruct Hv as (H2 & Hn & Hz & Hc). split_and!; cbn; [dlia|lia| |].
    + destruct Hz as [?|[? Hz]]; [by left|right]. split; [done|]. by apply (zeros_mono _ _ _ i); [lia|].
    + intros _. destruct (Z.eqb_spec (zr_n v) 0) as [E|E].
      * rewrite E. split; [lia|]. split_and!; [lia|dlia|lia|lia|].
        intros k Hk. assert (k = i \/ k = i + 1) as [-> | ->] by lia; congruence.
      * destruct Hc as (E' & ? & ? & ? & ? & Hall); [lia|]. split; [lia|]. split_and!; [lia|done|lia|lia|].
        intros k Hk. destruct (decide (k < i)); [apply Hall; lia|].
        assert (k = i \/ k = i + 1) as [-> | ->] by lia; congruence.
  - apply close_run_ok in Hv as (H2 & _ & Hz & _). split_and!; cbn; [dlia|lia| |lia].
    destruct Hz as [?|[? Hz]]; [by left|right]. split; [done|]. by apply (zeros_mono _ _ _ i); [lia|].
  - apply close_run_ok in Hv as (H2 & _ & Hz & _). split_and!; cbn; [dlia|lia| |lia].
    destruct Hz as [?|[? Hz]]; [by left|right]. split; [done|]. by apply (zeros_mono _ _ _ i); [lia|].
Qed.

(** What the first loop finds. *)
Lemma zero_run_ok p :
  length p = 16%nat ->
  let v := close_run (zero_loop p 0 (mk_run (-1) (-1) 1 0)) in
  (zr_zero v = -1 /\ zr_max v = 1) \/ (2 <= zr_max v /\ zeros p (zr_zero v) (zr_max v) 16).
Proof.
  intros Hl. assert (E : zlen p = 16) by (unfold zlen; lia).
  pose proof (zero_loop_ok p 8 p 0 (mk_run (-1) (-1) 1 0)) as H. rewrite E in H.
  apply (close_run_ok p 16), H; [done|done|done|]. split_and!; cbn; [done|done|by left|lia].
Qed.

(** ** The words of an address are read back *)

Lemma inet6_addr_eq text : List.hd 0 text <> ":" ->
  ngx_inet6_addr text = inet6_loop text (mk_inet6 [] 8 0 0 None None) ≫= inet6_end.
Proof. intros H. destruct text as [|c text]; [done|]. cbn in H. unfold ngx_inet6_addr. by rewrite (proj2 (Z.eqb_neq _ _) H). Qed.

Section Words.

Context (p : bytes) (zero max : Z).
Hypotheses (Hlen : length p = 16%nat) (Hbytes : Forall is_u_char p).
Hypothesis Hrun : (zero = -1 /\ max = 1) \/ (2 <= max /\ zeros p zero max 16).

(** What has been written, and [zero], when the words before the byte [i] are read. *)
Definition seen (i : Z) : bool := (0 <=? zero) && (zero <? i).
Definition written (i : Z) : bytes :=
  if seen i then slice p 0 zero ++ slice p (zero + 2 * max) i else slice p 0 i.
Definition state_at (i : Z) : option bytes -> inet6_vars :=
  mk_inet6 (written i) (8 - zlen (written i) / 2) 0 0 (if seen i then Some (Z.to_nat zero) else None).

(** [i] is the place of a word, and not within the run. *)
Definition word_at (i : Z) : Prop :=
  i mod 2 = 0 /\ 0 <= i <= 16 /\ (0 <= zero < i -> zero + 2 * max <= i).

Lemma zlen_p : zlen p = 16.
Proof. unfold zlen. lia. Qed.

Lemma run_max : 0 <= zero -> 2 <= max /\ zero mod 2 = 0 /\ zero + 2 * max <= 16.
Proof. unfold zeros in Hrun. lia. Qed.

Lemma written_length i : word_at i -> zlen (written i) = if seen i then i - 2 * max else i.
Proof.
  intros (_ & Hi & Hs). pose proof zlen_p. unfold written, seen. destruct (Z.leb_spec 0 zero), (Z.ltb_spec zero i); cbn [andb].
  all: rewrite ?zlen_app, !zlen_slice by (unfold zeros in Hrun; lia); lia.
Qed.

Lemma at_in i : 0 <= i < 16 -> rd p i = Some (at_ p i).
Proof. intros Hi. destruct (rd_is_Some p i) as [c Hc]; [by rewrite zlen_p|]. by rewrite (at_rd _ _ _ Hc). Qed.

Lemma slice_word a i : 0 <= a <= i -> i + 2 <= 16 -> slice p a (i + 2) = slice p a i ++ [at_ p i; at_ p (i + 1)].
Proof.
  intros Ha Hi. replace (i + 2) with (i + 1 + 1) by lia.
  rewrite (slice_snoc _ _ (i + 1) (at_ p (i + 1))), (slice_snoc _ _ i (at_ p i)) by (lia || (apply at_in; lia)).
  by rewrite <- app_assoc.
Qed.

Lemma written_word i :
  word_at i -> i < 16 -> i <> zero -> written (i + 2) = written i ++ [at_ p i; at_ p (i + 1)] /\ word_at (i + 2) /\ seen (i + 2) = seen i.
Proof.
  intros (H2 & Hi & Hs) Hlt Hne.
  assert (Hz2 : 0 <= zero -> zero mod 2 = 0) by (unfold zeros in Hrun; lia).
  assert (E : seen (i + 2) = seen i).
  { unfold seen. destruct (Z.leb_spec 0 zero), (Z.ltb_spec zero (i + 2)), (Z.ltb_spec zero i); cbn; try done; dlia. }
  unfold word_at. split_and!; [|dlia|dlia|dlia| |done].
  - unfold written. rewrite E. destruct (seen i) eqn:Es.
    + unfold seen in Es. rewrite slice_word by (unfold zeros in Hrun; dlia). by rewrite app_assoc.
    + by rewrite slice_word by dlia.
  - intros Hs'. assert (0 <= zero < i) by (unfold seen in E; lia). lia.
Qed.

(** The run in the middle. *)
Lemma whole : 0 <= zero ->
  slice p 0 zero ++ replicate (Z.to_nat (2 * max)) 0 ++ slice p (zero + 2 * max) 16 = p.
Proof.
  intros H0. destruct Hrun as [|[Hm (_ & _ & _ & Hle & Hall)]]; [lia|].
  assert (E : slice p zero (zero + 2 * max) = replicate (Z.to_nat (2 * max)) 0).
  { pose proof zlen_p. apply list_eq. intros k. destruct (decide (k < Z.to_nat (2 * max))%nat) as [Hk|Hk].
    - rewrite lookup_replicate_2 by done. unfold slice. rewrite lookup_take_lt, lookup_drop by lia.
      pose proof (at_in (zero + Z.of_nat k) ltac:(lia)) as Hat. rewrite Hall in Hat by lia. unfold rd in Hat.
      rewrite (proj2 (Z.leb_le _ _)) in Hat by lia. rewrite <- Hat. f_equal. lia.
    - rewrite !lookup_ge_None_2; [done| |]; [rewrite length_replicate; lia|].
      pose proof (zlen_slice p zero (zero + 2 * max)). unfold zlen in *. lia. }
  rewrite <- E, <- !slice_split by lia. unfold slice. rewrite drop_0. apply take_ge. cbn. lia.
Qed.

(** The loop of [ngx_inet6_ntop] from a place on, and the loop of [ngx_inet6_addr] on what
    it writes. *)
Definition reads_back (i : Z) (text : bytes) : Prop :=
  forall digit, inet6_loop text (state_at i digit) ≫= inet6_end = Some p.

Lemma word_range i : 0 <= i < 15 -> is_u_char (at_ p i) /\ is_u_char (at_ p (i + 1)) /\
  0 <= at_ p i * 256 + at_ p (i + 1) < 65536.
Proof.
  intros Hi. assert (H : is_u_char (at_ p i) /\ is_u_char (at_ p (i + 1))) by (split; by apply at_u_char).
  unfold is_u_char in *. lia.
Qed.

(** Behind the run, when it is at the end. *)
Lemma read_end : 0 <= zero -> zero + 2 * max = 16 -> reads_back 16 [].
Proof.
  intros H0 Hm digit. destruct (run_max H0) as (H2 & He & _). pose proof (whole H0) as Hw. rewrite Hm, (slice_nil _ 16), app_nil_r in Hw by lia.
  assert (Hs : seen 16 = true) by (unfold seen; lia).
  assert (Hz : zlen (slice p 0 zero) = zero) by (pose proof zlen_p; rewrite zlen_slice; lia).
  cbn [inet6_loop mbind option_bind]. unfold inet6_end, state_at, written. rewrite Hs, Hm, (slice_nil _ 16), app_nil_r, Hz by lia.
  destruct (Z.eqb_spec (8 - zero / 2 - 1) 0); [dlia|]. cbn [negb]. change (put_word _ 0) with (slice p 0 zero ++ [0; 0]).
  unfold zlen in Hz. rewrite take_app_length', drop_app_length' by lia. f_equal. etrans; [|exact Hw]. f_equal.
  replace (Z.to_nat (2 * max)) with (Z.to_nat ((8 - zero / 2 - 1) * 2) + 2)%nat by dlia.
  by rewrite replicate_add.
Qed.

(** The last word. *)
Lemma read_last : word_at 14 -> zero <> 14 -> reads_back 14 (hexw (at_ p 14 * 256 + at_ p 15)).
Proof.
  intros Hp Hz digit. destruct (word_range 14 ltac:(lia)) as (Hh & Hl & Hw).
  destruct (written_word 14 Hp ltac:(lia) ltac:(lia)) as (E & Hp' & Es). pose proof (written_length 14 Hp) as Hwl.
  rewrite <- (app_nil_r (hexw _)). unfold state_at. rewrite inet6_word by done. cbn [inet6_loop mbind option_bind].
  pose proof (hexw_length (at_ p 14 * 256 + at_ p 15)) as Hn. unfold inet6_end.
  change (14 + 1) with 15 in *. change (14 + 2) with 16 in *.
  rewrite put_word_bytes, <- E by done. rewrite Hwl, <- Es. unfold written.
  destruct (seen 16) eqn:Hs.
  - assert (H0 : 0 <= zero < 16) by (unfold seen in Hs; lia). destruct (run_max (proj1 H0)) as (Hm & He & _).
    destruct (Z.eqb_spec (8 - (14 - 2 * max) / 2 - 1) 0); [dlia|]. cbn [negb].
    assert (Hzl : zlen (slice p 0 zero) = zero) by (pose proof zlen_p; rewrite zlen_slice; lia). unfold zlen in Hzl.
    rewrite take_app_length', drop_app_length' by lia. f_equal. etrans; [|exact (whole (proj1 H0))]. do 3 f_equal. dlia.
  - rewrite (proj2 (Z.eqb_neq (zlen _) 0)) by lia. change (8 - 14 / 2 - 1) with 0. cbn [negb Z.eqb].
    f_equal. unfold slice. apply take_ge. cbn. lia.
Qed.

(** The run. *)
Lemma read_run text : word_at zero -> reads_back (zero + 2 * max) text -> reads_back zero (":"%chr :: text).
Proof.
  intros Hp Hr digit. pose proof Hp as (_ & H0 & _). destruct (run_max (proj1 H0)) as (Hm & _ & Hle).
  assert (seen zero = false) as Es by (unfold seen; lia). unfold state_at. rewrite Es.
  cbn [inet6_loop Z.eqb Pos.eqb negb]. rewrite <- (Hr (Some text)). do 2 f_equal. unfold state_at.
  assert (seen (zero + 2 * max) = true) as Es' by (unfold seen; lia). rewrite Es'.
  assert (written (zero + 2 * max) = written zero) as ->.
  { unfold written. rewrite Es, Es', (slice_nil _ (zero + 2 * max)) by lia. apply app_nil_r. }
  do 3 f_equal. pose proof (written_length zero Hp) as Hwl. rewrite Es in Hwl. unfold zlen in Hwl. lia.
Qed.

(** A word before the last. *)
Lemma read_word i text :
  word_at i -> i < 14 -> i <> zero -> reads_back (i + 2) text ->
  reads_back i (hexw (at_ p i * 256 + at_ p (i + 1)) ++ ":"%chr :: text).
Proof.
  intros Hp Hlt Ez Hr digit. pose proof Hp as (H2 & Hi & Hs).
  destruct (word_range i ltac:(lia)) as (Hh & Hlo & Hw).
  destruct (written_word i Hp ltac:(lia) Ez) as (E & Hp' & Es). rewrite <- (Hr (Some text)). f_equal.
  pose proof (hexw_length (at_ p i * 256 + at_ p (i + 1))) as Hhl. unfold state_at. rewrite inet6_word by done.
  cbn [inet6_loop Z.eqb Pos.eqb]. rewrite (proj2 (Z.eqb_neq (zlen _) 0)) by lia. cbn [negb].
  rewrite E, Es, put_word_bytes by done. rewrite zlen_app. change (zlen [_; _]) with 2.
  pose proof (written_length i Hp) as Hwl. assert (Hwl' : 0 <= zlen (written i) < 14).
  { pose proof (zlen_nonneg (written i)). unfold zeros in Hrun. destruct (seen i); lia. }
  destruct (Z.eqb_spec (8 - zlen (written i) / 2 - 1) 0); [dlia|]. cbn [negb]. do 2 f_equal. dlia.
Qed.

Lemma words_read fuel i :
  word_at i -> 16 - i <= 2 * Z.of_nat fuel -> (i = 16 -> seen 16 = true /\ zero + 2 * max = 16) ->
  exists text, ntop_loop fuel p 16 zero max i = Some text /\ 2 * zlen text <= 5 * (16 - i) /\
    (i <> zero -> List.hd 0 text <> ":") /\ (i < 14 -> ":"%chr ∈ text) /\ reads_back i text.
Proof.
  revert i. induction fuel as [|fuel IH]; intros i Hp Hf H16; pose proof Hp as (H2 & Hi & Hs).
  { assert (i = 16) as -> by lia. destruct (H16 eq_refl) as [Hs' Hm]. exists []. split_and!; try done.
    apply read_end; [unfold seen in Hs'; lia|done]. }
  destruct (decide (i = 16)) as [->|Hne].
  { destruct (H16 eq_refl) as [Hs' Hm]. exists []. split_and!; try done. apply read_end; [unfold seen in Hs'; lia|done]. }
  cbn [ntop_loop]. rewrite (proj2 (Z.ltb_lt i 16)) by lia. cbn [negb].
  destruct (Z.eqb_spec i zero) as [->|Ez].
  - destruct (run_max (proj1 Hi)) as (Hm & He & Hle).
    replace (zero + (max - 1) * 2 + 2) with (zero + 2 * max) by lia.
    destruct (IH (zero + 2 * max)) as (text & -> & Hl & _ & _ & Hr); [unfold word_at; dlia|lia|intros; unfold seen; lia|].
    exists (":"%chr :: text). split_and!; [done|rewrite zlen_cons; lia|done|by left|by apply read_run].
  - destruct (word_range i ltac:(dlia)) as (_ & _ & Hw). rewrite sprintf_word by done.
    pose proof (hexw_length (at_ p i * 256 + at_ p (i + 1))) as Hhl. cbn [mbind option_bind].
    destruct (Z.ltb_spec i 14) as [Hlt|Hge].
    + destruct (written_word i Hp ltac:(lia) Ez) as (_ & Hp' & _).
      destruct (IH (i + 2)) as (text & -> & Hl & _ & _ & Hr); [done|lia|lia|]. eexists. split; [done|].
      split_and!; [rewrite !zlen_app; change (zlen [_]) with 1; lia|intros _; by apply hexw_colon|set_solver|].
      by apply read_word.
    + assert (i = 14) as -> by dlia. replace (ntop_loop fuel p 16 zero max (14 + 2)) with (Some (@nil Z)) by by destruct fuel.
      eexists. split; [done|]. cbn [app].
      split_and!; [rewrite app_nil_r; lia|intros _; by apply hexw_colon|lia|rewrite app_nil_r; by apply read_last].
Qed.

End Words.

(** ** The dotted form *)

Lemma htonl_of_le l : length l = 4%nat -> Forall is_u_char l -> htonl (of_le l) = be l.
Proof. intros Hl H. unfold htonl. rewrite <- Hl at 1. by rewrite le_of_le, be_of_le. Qed.

Lemma inet6_octet a rest addr n zero q :
  is_u_char a -> exists w, inet6_loop (octet a ++ rest) (mk_inet6 addr n 0 0 zero q) =
    inet6_loop rest (mk_inet6 addr n (zlen (octet a)) w zero q).
Proof.
  unfold is_u_char. intros Ha. assert (H : forall d, 0 <= d < 10 -> 48 + d = hexd d).
  { intros d Hd. hex_cases d; done || lia. }
  unfold octet. repeat case_match; cbn [app]; rewrite !H, !inet6_hex by dlia; by eexists.
Qed.

Lemma inet6_quad a b c d addr n zero :
  is_u_char a -> is_u_char b -> is_u_char c -> is_u_char d -> [a; b; c; d] <> replicate 4 255 -> 2 <= n ->
  exists k w, inet6_loop (quad a b c d) (mk_inet6 addr n 0 0 zero (Some (quad a b c d))) =
      Some (mk_inet6 (addr ++ [a; b]) (n - 1) k w zero (Some (quad a b c d))) /\
    k <> 0 /\ forall addr, put_word addr w = addr ++ [c; d].
Proof.
  intros Ha Hb Hc Hd Hne Hn. pose proof (quad_read a b c d Ha Hb Hc Hd) as E. set (q := quad a b c d) in *.
  unfold q at 1. unfold quad. set (rest := octet b ++ _). pose proof (octet_length a).
  destruct (inet6_octet a ("." :: rest) addr n zero (Some q) Ha) as [w ->].
  exists (zlen (octet a)), (be [a; b; c; d]). split_and!; [|lia|].
  - cbn [inet6_loop Z.eqb Pos.eqb]. rewrite (proj2 (Z.eqb_neq (zlen _) 0)) by lia. cbn [andb negb].
    rewrite (proj2 (Z.ltb_ge n 2)) by lia. rewrite E.
    assert (Hnone : of_le [a; b; c; d] <> INADDR_NONE).
    { unfold is_u_char, INADDR_NONE in *. cbn [of_le]. intros Hf. apply Hne. cbn. repeat f_equal; lia. }
    rewrite (proj2 (Z.eqb_neq _ _) Hnone), htonl_of_le by auto. change 255 with (Z.ones 8).
    rewrite !Z.land_ones, !Z.shiftr_div_pow2 by lia. unfold is_u_char, be in *. cbn [foldl].
    change (2 ^ 24) with 16777216. change (2 ^ 16) with 65536. change (2 ^ 8) with 256.
    do 4 f_equal; [dlia|f_equal; dlia].
  - intros x. unfold put_word. change 255 with (Z.ones 8). rewrite Z.land_ones, Z.shiftr_div_pow2 by lia.
    unfold is_u_char, be, u8 in *. cbn [foldl]. change (2 ^ 8) with 256. f_equal. f_equal; [dlia|f_equal; dlia].
Qed.

(** The forms of a dotted address. *)
Lemma dotted_read a b c d :
  is_u_char a -> is_u_char b -> is_u_char c -> is_u_char d -> [a; b; c; d] <> replicate 4 255 ->
  ngx_inet6_addr (bs "::" ++ quad a b c d) = Some (replicate 12 0 ++ [a; b; c; d]) /\
  ngx_inet6_addr (bs "::ffff:" ++ quad a b c d) = Some (replicate 10 0 ++ [255; 255; a; b; c; d]).
Proof.
  intros Ha Hb Hc Hd Hne. change (bs "::") with [":"%chr; ":"%chr].
  change (bs "::ffff:") with ([":"%chr; ":"%chr] ++ hexw 65535 ++ [":"%chr]). unfold ngx_inet6_addr. cbn [app Z.eqb Pos.eqb].
  split.
  - cbn [inet6_loop Z.eqb Pos.eqb negb length].
    destruct (inet6_quad a b c d [] 8 (Some 0%nat) Ha Hb Hc Hd Hne ltac:(lia)) as (k & w & -> & Hk & Hw).
    cbn [mbind option_bind inet6_end]. by rewrite Hw.
  - cbn [inet6_loop Z.eqb Pos.eqb negb length]. rewrite <- app_assoc, inet6_word by lia. cbn [app].
    cbn [inet6_loop Z.eqb Pos.eqb]. change (zlen (hexw 65535) =? 0) with false. change (8 - 1 =? 0) with false.
    change (put_word [] 65535) with [255; 255]. cbn [negb].
    destruct (inet6_quad a b c d [255; 255] (8 - 1) (Some 0%nat) Ha Hb Hc Hd Hne ltac:(lia)) as (k & w & -> & Hk & Hw).
    cbn [mbind option_bind inet6_end]. by rewrite Hw.
Qed.

(** An address whose text is dotted, and the text. *)
Lemma dotted_ntop p max :
  length p = 16%nat -> zeros p 0 max 16 ->
  (max = 5 /\ at_ p 10 = 255 /\ at_ p 11 = 255) \/ max = 6 \/ max = 7 ->
  exists a b c d words, drop 12 p = [a; b; c; d] /\ dotted_args p 12 = [A_int a; A_int b; A_int c; A_int d] /\
    ntop_loop 8 p 12 0 max 0 = Some words /\
    ((":"%chr :: words = bs "::" /\ p = replicate 12 0 ++ [a; b; c; d]) \/
     (":"%chr :: words = bs "::ffff:" /\ p = replicate 10 0 ++ [255; 255; a; b; c; d])).
Proof.
  intros Hl Hz Hm. assert (H2 : 2 <= max) by lia.
  pose proof (whole p 0 max Hl (or_intror (conj H2 Hz)) (Z.le_refl 0)) as Hw.
  assert (Hq : zlen (slice p (0 + 2 * max) 16) = 16 - 2 * max) by (rewrite zlen_slice; unfold zlen; lia).
  unfold zlen in Hq. set (q := slice p (0 + 2 * max) 16) in *. clearbody q.
  change (slice p 0 0) with (@nil Z) in Hw. clear Hz H2.
  destruct Hm as [(-> & H10 & H11)|[-> | ->]]; destruct q as [|? [|? [|? [|? [|? [|? [|]]]]]]]; cbn in Hq; try lia; subst p.
  - vm_compute in H10, H11. subst. do 4 eexists. exists (bs ":ffff:"). do 2 (split; [done|]). split; [|by right].
    transitivity (w ← sprintf (bs "%uxi") [A_int 65535]; rest ← Some (w ++ [":"%chr] ++ []); Some (":"%chr :: rest));
      [reflexivity|by rewrite sprintf_word].
  - do 4 eexists. exists (bs ":"). do 3 (split; [done|]). by left.
  - do 4 eexists. exists (bs ":"). do 3 (split; [done|]). by left.
Qed.

(** ** What is written is read back *)

Lemma inet_addr_colon text : ":"%chr ∈ text -> ngx_inet_addr text = INADDR_NONE.
Proof.
  intros H. assert (E : forall addr octet n, inet_addr_loop text addr octet n = None); [|by unfold ngx_inet_addr; rewrite E].
  induction text as [|c text IH]; intros addr octet n; [set_solver|]. cbn [inet_addr_loop].
  apply elem_of_cons in H as [<-|H]; [done|]. by repeat case_match; rewrite ?IH.
Qed.

Lemma inet6_read p len :
  Forall is_u_char p -> length p = 16%nat -> NGX_INET6_ADDRSTRLEN <= len -> drop 12 p <> replicate 4 255 ->
  exists text, ngx_inet6_ntop p len = Some text /\ zlen text <= len /\ ":"%chr ∈ text /\ ngx_inet6_addr text = Some p.
Proof.
  intros Hb Hl Hlen Hne. unfold ngx_inet6_ntop. rewrite (proj2 (Z.ltb_ge _ _) Hlen). unfold NGX_INET6_ADDRSTRLEN in Hlen.
  pose proof (zero_run_ok p Hl) as Hrun. set (v := close_run _) in *. clearbody v. cbv zeta in *.
  destruct v as [zero last max n]. cbn [zr_zero zr_max] in *. set (mapped := _ || _ || _).
  destruct ((zero =? 0) && mapped) eqn:E.
  - apply andb_true_iff in E as [Hz E]. apply Z.eqb_eq in Hz as ->. destruct Hrun as [[? _]|[_ Hz]]; [done|].
    destruct (dotted_ntop p max Hl Hz) as (a & b & c & d & words & Hd & -> & -> & Hcase); [unfold mapped in E; lia|].
    assert (Hu : Forall is_u_char [a; b; c; d]) by (rewrite <- Hd; by apply Forall_drop).
    rewrite !Forall_cons in Hu. destruct Hu as (Ha & Hb' & Hc & Hd' & _). rewrite Hd in Hne.
    cbn [mbind option_bind Z.eqb Pos.eqb]. unfold sprintf. rewrite sprintf_quad by done. eexists. split; [done|].
    pose proof (quad_length a b c d) as Hq. destruct (dotted_read a b c d Ha Hb' Hc Hd' Hne) as [R1 R2].
    cbn [app]. change (?x :: words ++ ?q) with ((x :: words) ++ q).
    split_and!; [|by left|]; destruct Hcase as [[-> ->]|[-> ->]]; try done; rewrite zlen_app;
      [change (zlen (bs "::")) with 2|change (zlen (bs "::ffff:")) with 7]; lia.
  - change (16 =? 12) with false.
    destruct (words_read p zero max Hl Hb Hrun 8 0) as (text & -> & Hlt & Hhd & Hc & Hr); [|done..|].
    { unfold word_at. split_and!; [done|lia..]. }
    assert (Hw : written p zero max 0 = []) by (unfold written, seen; destruct (Z.leb_spec 0 zero), (Z.ltb_spec zero 0); try lia; done).
    specialize (Hr None). unfold state_at in Hr. rewrite Hw in Hr.
    replace (seen zero 0) with false in Hr by (unfold seen; lia).
    cbn [mbind option_bind]. rewrite app_nil_r. eexists. split; [done|]. destruct (Z.eqb_spec zero 0) as [->|Hz]; cbn [app].
    + split_and!; [rewrite zlen_cons; lia|by left|]. exact Hr.
    + split_and!; [lia|by apply Hc|]. rewrite inet6_addr_eq by by apply Hhd. exact Hr.
Qed.

(** C22: an address survives its text: [ngx_parse_addr] reads the text that [ngx_inet_ntop]
    writes back as the same family and the same bytes, for every IPv4 address and, with the
    longest run of zeros elided and the dotted form of the embedded addresses, for every
    IPv6 address, and the text fits in the buffer; only the addresses that end with
    255.255.255.255, which the parser confuses with INADDR_NONE, are left out. *)
Theorem inet_roundtrip (inet6 : bool) (p : bytes) (len : Z) :
  Forall is_u_char p -> length p = (if inet6 then 16 else 4)%nat ->
  (if inet6 then NGX_INET6_ADDRSTRLEN else 15) <= len ->
  drop (length p - 4) p <> replicate 4 255 ->
  exists text, ngx_inet_ntop inet6 p len = Some text /\ zlen text <= len /\
    ngx_parse_addr true text = (NGX_OK, if inet6 then AF_INET6 p 0 else AF_INET p 0).
Proof.
  intros Hb Hl Hlen Hne. rewrite Hl in Hne. unfold ngx_inet_ntop. destruct inet6; cbn in Hl.
  - destruct (inet6_read p len Hb Hl Hlen Hne) as (text & -> & Ht & Hc & Hr). exists text. split_and!; [done..|].
    unfold ngx_parse_addr. by rewrite inet_addr_colon, Hr.
  - destruct p as [|a [|b [|c [|d [|]]]]]; try done. rewrite !Forall_cons in Hb. destruct Hb as (Ha & Hb & Hc & Hd & _).
    change (dotted_args _ 0) with [A_int a; A_int b; A_int c; A_int d]. rewrite sprintf_quad by done.
    pose proof (quad_length a b c d). eexists. split_and!; [done|lia|]. unfold ngx_parse_addr. rewrite quad_read by done.
    rewrite (proj2 (Z.eqb_neq _ _)); [cbn [negb]; change 4%nat with (length [a; b; c; d]); by rewrite le_of_le by auto|].
    unfold is_u_char, INADDR_NONE in *. cbn [of_le]. intros Hf. apply Hne. cbn. repeat f_equal; lia.
Qed.

Lemma inet_roundtrip_witness :
  exists text, ngx_inet_ntop true [32; 1; 13; 184; 0; 0; 0; 0; 0; 1; 0; 0; 0; 0; 0; 1] 45 = Some text /\
    ngx_parse_addr true text = (NGX_OK, AF_INET6 [32; 1; 13; 184; 0; 0; 0; 0; 0; 1; 0; 0; 0; 0; 0; 1] 0).
Proof.
  destruct (inet_roundtrip true [32; 1; 13; 184; 0; 0; 0; 0; 0; 1; 0; 0; 0; 0; 0; 1] 45) as (text & H1 & _ & H2);
    [by repeat constructor|done|done|done|]. by exists text.
Defined.

(** The addresses left out: the limited broadcast address is refused. *)
Lemma broadcast_refused :
  ngx_parse_addr true (bs "255.255.255.255") = (NGX_DECLINED, AF_other) /\
  ngx_parse_addr true (bs "::ffff:255.255.255.255") = (NGX_DECLINED, AF_other).
Proof. by vm_compute. Qed.

(** Numbers of the octets may be left out, and wrap around. *)
Lemma octets_lax :
  ngx_parse_addr true (bs "...") = (NGX_OK, AF_INET [0; 0; 0; 0] 0) /\
  ngx_parse_addr true (bs "18446744073709551617.0.0.1") = (NGX_OK, AF_INET [1; 0; 0; 1] 0).
Proof. by vm_compute. Qed.
