(* ===== verification/NetworkSpec.v ===== *)
(** Networks: what the address and the mask that [ngx_ptocidr] makes of a text match. *)
From S2P Require Import Prelude CString Numbers Bytes Inet InetSpec.

(** ** Bits of addresses *)

(** The bit [k] of an address, the most significant bit of its first byte is the bit 0. *)
Definition addr_bit (l : bytes) (k : Z) : bool := Z.testbit (at_ l (k / 8)) (7 - k mod 8).

(** The first [n] bits agree. *)
Definition agree_on (n : Z) (l1 l2 : bytes) : bool :=
  forallb (fun k => Bool.eqb (addr_bit l1 (Z.of_nat k)) (addr_bit l2 (Z.of_nat k))) (seq 0 (Z.to_nat n)).

Lemma agree_on_spec n l1 l2 :
  agree_on n l1 l2 = true <-> forall k, 0 <= k < n -> addr_bit l1 k = addr_bit l2 k.
Proof.
  unfold agree_on. rewrite forallb_forall. split.
  - intros H k Hk. specialize (H (Z.to_nat k)). rewrite Z2Nat.id in H by lia. apply eqb_prop, H, in_seq. lia.
  - intros H k Hk%in_seq. apply eqb_true_iff, H. lia.
Qed.

Lemma addr_bit_hd c l k : 0 <= k < 8 -> addr_bit (c :: l) k = Z.testbit c (7 - k).
Proof. intros Hk. unfold addr_bit. by rewrite Z.div_small, Z.mod_small by lia. Qed.

Lemma addr_bit_tl c l k : 8 <= k -> addr_bit (c :: l) k = addr_bit l (k - 8).
Proof.
  intros Hk. unfold addr_bit. replace (k mod 8) with ((k - 8) mod 8) by dlia. f_equal.
  replace (k / 8) with (Z.succ ((k - 8) / 8)) by dlia. unfold at_, rd.
  rewrite !(proj2 (Z.leb_le 0 _)) by dlia. by rewrite Z2Nat.inj_succ by dlia.
Qed.

Lemma agree_on_cons n c1 c2 l1 l2 :
  agree_on n (c1 :: l1) (c2 :: l2) = true <->
  (forall k, 0 <= k < Z.min n 8 -> Z.testbit c1 (7 - k) = Z.testbit c2 (7 - k)) /\ agree_on (n - 8) l1 l2 = true.
Proof.
  rewrite !agree_on_spec. split.
  - intros H. split; intros k Hk.
    + specialize (H k). rewrite !addr_bit_hd in H by lia. apply H. lia.
    + specialize (H (k + 8)). rewrite !addr_bit_tl in H by lia. replace (k + 8 - 8) with k in H by lia. apply H. lia.
  - intros [H1 H2] k Hk. destruct (Z.lt_ge_cases k 8).
    + rewrite !addr_bit_hd by lia. apply H1. lia.
    + rewrite !addr_bit_tl by lia. apply H2. lia.
Qed.

(** ** Masks *)

Lemma byte_mask s j : 0 <= s <= 8 -> 0 <= j -> Z.testbit (u8 (- Z.shiftl 1 (8 - s))) j = (8 - s <=? j) && (j <? 8).
Proof.
  intros Hs Hj. rewrite Z.shiftl_mul_pow2, Z.mul_1_l by lia. unfold u8. change 256 with (2 ^ 8).
  destruct (Z.ltb_spec j 8); rewrite ?andb_false_r, ?andb_true_r; [|by rewrite Z.mod_pow2_bits_high by lia].
  rewrite Z.mod_pow2_bits_low by lia. replace (- 2 ^ (8 - s)) with (Z.shiftl (-1) (8 - s)) by (rewrite Z.shiftl_mul_pow2; lia).
  destruct (Z.leb_spec (8 - s) j); [|by apply Z.shiftl_spec_low; lia].
  rewrite Z.shiftl_spec_high by lia. by rewrite Z.bits_m1 by lia.
Qed.

Lemma byte_covers s c1 c2 :
  0 <= s <= 8 -> is_u_char c1 -> is_u_char c2 ->
  Z.land c1 (u8 (- Z.shiftl 1 (8 - s))) = Z.land c2 (u8 (- Z.shiftl 1 (8 - s))) <->
  forall k, 0 <= k < s -> Z.testbit c1 (7 - k) = Z.testbit c2 (7 - k).
Proof.
  intros Hs H1 H2. split.
  - intros H k Hk. apply (f_equal (fun v => Z.testbit v (7 - k))) in H. rewrite !Z.land_spec, !byte_mask in H by lia.
    rewrite (proj2 (Z.leb_le _ _)), (proj2 (Z.ltb_lt _ 8)), !andb_true_r in H by lia. done.
  - intros H. apply Z.bits_inj'. intros j Hj. rewrite !Z.land_spec, byte_mask by lia.
    destruct (Z.leb_spec (8 - s) j), (Z.ltb_spec j 8); rewrite ?andb_false_r, ?andb_true_r; try done.
    specialize (H (7 - j)). replace (7 - (7 - j)) with j in H by lia. apply H. lia.
Qed.

(** The masked bytes agree when the first bits do. *)
Lemma mask_covers m n l1 l2 :
  0 <= n -> length l1 = m -> length l2 = m -> Forall is_u_char l1 -> Forall is_u_char l2 ->
  n <= 8 * Z.of_nat m ->
  zip_with Z.land l1 (in6_mask m n) = zip_with Z.land l2 (in6_mask m n) <-> agree_on n l1 l2 = true.
Proof.
  revert n l1 l2. induction m as [|m IH]; intros n l1 l2 Hn E1 E2 H1 H2 Hle.
  { apply nil_length_inv in E1, E2. subst. assert (n = 0) as -> by lia. done. }
  destruct l1 as [|c1 l1], l2 as [|c2 l2]; try done. injection E1 as E1. injection E2 as E2.
  apply Forall_cons in H1 as [Hc1 H1], H2 as [Hc2 H2]. cbn [in6_mask zip_with]. set (s := if 8 <? n then 8 else n).
  assert (Hs : s = Z.min n 8) by (unfold s; destruct (Z.ltb_spec 8 n); lia). rewrite agree_on_cons, <- Hs.
  assert (Hr : agree_on (n - 8) l1 l2 = agree_on (n - s) l1 l2).
  { destruct (Z.ltb_spec 8 n); unfold s; [done|]. unfold agree_on. do 2 f_equal. rewrite Z.sub_diag. lia. }
  rewrite Hr, <- IH, <- byte_covers by (done || lia). split; [by intros [= -> ->]|by intros [-> ->]].
Qed.

(** [in_mask] in the bytes of the address. *)
Lemma in_mask_bytes n : 0 <= n <= 32 -> in_mask n = of_le (in6_mask 4 n).
Proof.
  intros Hn. assert (H : forallb (fun k => in_mask (Z.of_nat k) =? of_le (in6_mask 4 (Z.of_nat k))) (seq 0 33) = true).
  { by vm_compute. }
  rewrite forallb_forall in H. specialize (H (Z.to_nat n)). rewrite Z2Nat.id in H by lia. apply Z.eqb_eq, H, in_seq. lia.
Qed.

Lemma in6_mask_bytes m n : length (in6_mask m n) = m /\ Forall is_u_char (in6_mask m n).
Proof.
  revert n. induction m as [|m IH]; intros n; [done|]. cbn [in6_mask length]. destruct (IH (n - (if 8 <? n then 8 else n))) as [-> H].
  split; [done|]. constructor; [apply u8_range|done].
Qed.

Lemma land_u_char c1 c2 : is_u_char c2 -> is_u_char (Z.land c1 c2).
Proof.
  intros H. assert (E : Z.land c1 c2 = Z.land c1 c2 mod 2 ^ 8); [|rewrite E; apply (Z.mod_pos_bound _ (2 ^ 8)); lia].
  rewrite <- Z.land_ones, <- Z.land_assoc, (Z.land_ones c2) by lia. f_equal. unfold is_u_char in H. by rewrite Z.mod_small by lia.
Qed.

Lemma zip_land_u_char l1 l2 : Forall is_u_char l2 -> Forall is_u_char (zip_with Z.land l1 l2).
Proof. intros H. revert l1. induction H as [|c2 l2 Hc H IH]; intros [|c1 l1]; cbn; constructor; [by apply land_u_char|done]. Qed.

Lemma land_of_le l1 l2 : length l1 = length l2 -> Forall is_u_char l1 -> Forall is_u_char l2 ->
  Z.land (of_le l1) (of_le l2) = of_le (zip_with Z.land l1 l2).
Proof.
  revert l2. induction l1 as [|c1 l1 IH]; intros [|c2 l2] El H1 H2; try done. injection El as El.
  apply Forall_cons in H1 as [Hc1 H1], H2 as [Hc2 H2]. cbn [of_le zip_with]. rewrite <- IH by done.
  assert (Hsum : forall c v, is_u_char c -> c + 256 * v = Z.lor (Z.shiftl v 8) c).
  { intros c v Hc. unfold is_u_char in Hc. rewrite lor_shiftl_add by lia. change (2 ^ 8) with 256. lia. }
  rewrite !Hsum by (done || by apply land_u_char). apply Z.bits_inj'. intros j Hj.
  rewrite !Z.land_spec, !Z.lor_spec, Z.land_spec. destruct (Z.lt_ge_cases j 8) as [Hlt|Hge].
  - by rewrite !Z.shiftl_spec_low by lia.
  - assert (Hhigh : forall c, is_u_char c -> Z.testbit c j = false).
    { intros c Hc. unfold is_u_char in Hc. rewrite <- (Z.mod_small c (2 ^ 8)) by lia. by apply Z.mod_pow2_bits_high. }
    rewrite !(Hhigh c1), !(Hhigh c2) by done. cbn [andb]. rewrite !orb_false_r. by rewrite !Z.shiftl_spec_high, Z.land_spec by lia.
Qed.

Lemma of_le_inj l1 l2 : length l1 = length l2 -> Forall is_u_char l1 -> Forall is_u_char l2 -> of_le l1 = of_le l2 -> l1 = l2.
Proof. intros El H1 H2 E. rewrite <- (le_of_le l1), <- (le_of_le l2), E, El by done. done. Qed.

(** ** Networks *)

(** The addresses a network matches, as the access module tests it: an IPv4 address by
    its bytes. *)
Definition cidr_matches (c : cidr) (p : bytes) : bool :=
  match c with
  | In_cidr addr mask => Z.land (of_le p) mask =? addr
  | In6_cidr addr mask => bytes_eqb (zip_with Z.land p mask) addr
  end.

Definition is_in6 (c : cidr) : bool := match c with In6_cidr _ _ => true | In_cidr _ _ => false end.

(** What a text means: an address, or an address and a length. *)
Inductive names : bytes -> bool -> bytes -> Z -> Prop :=
  | names_host host (inet6 : bool) a :
      ngx_parse_addr true host = (NGX_OK, if inet6 then AF_INET6 a 0 else AF_INET a 0) ->
      "/" ∉ host -> names host inet6 a (if inet6 then 128 else 32)
  | names_net host (inet6 : bool) a digits n :
      ngx_parse_addr true host = (NGX_OK, if inet6 then AF_INET6 a 0 else AF_INET a 0) ->
      "/" ∉ host -> ngx_atoi digits = n -> 0 <= n <= (if inet6 then 128 else 32) ->
      names (host ++ "/"%chr :: digits) inet6 a n.

(** ** What the parsers return *)

Lemma le_u_char n v : Forall is_u_char (le n v).
Proof. revert v. induction n as [|n IH]; intros v; cbn; constructor; [unfold is_u_char; dlia|done]. Qed.

Lemma of_le_range l : Forall is_u_char l -> 0 <= of_le l < 256 ^ zlen l.
Proof.
  induction 1 as [|c l Hc _ IH]; [done|]. cbn [of_le]. rewrite zlen_cons, Z.pow_add_r by (pose proof (zlen_nonneg l); lia).
  unfold is_u_char in Hc. lia.
Qed.

Lemma inet_addr_range text : 0 <= ngx_inet_addr text < 2 ^ 32.
Proof.
  unfold ngx_inet_addr. repeat case_match; try done. unfold htonl.
  pose proof (of_le_range (reverse (le 4 (u32 (z0 ≪ 8 + z1))))) as H'.
  unfold zlen in H'. rewrite length_reverse, le_length in H'. apply H'. apply Forall_reverse, le_u_char.
Qed.

(** The place in the 16 bytes and the count of words to come agree. *)
Definition inet6_inv (v : inet6_vars) : Prop :=
  1 <= i6_n v /\ zlen (i6_addr v) + 2 * i6_n v = 16 /\ Forall is_u_char (i6_addr v) /\
  (forall z, i6_zero v = Some z -> (z <= length (i6_addr v))%nat).

Lemma put_word_zlen addr w : Forall is_u_char addr ->
  zlen (put_word addr w) = zlen addr + 2 /\ Forall is_u_char (put_word addr w).
Proof.
  intros H. unfold put_word. rewrite zlen_app. split; [done|]. apply Forall_app. split; [done|].
  constructor; [apply u8_range|constructor; [by apply land_u_char|done]].
Qed.

Lemma inet6_loop_inv text v v' : inet6_inv v -> inet6_loop text v = Some v' -> inet6_inv v'.
Proof.
  revert v. induction text as [|c text IH]; intros v Hv H; [by injection H as <-|].
  destruct v as [addr n nibbles word zero digit]. destruct Hv as (Hn & Hl & Hu & Hz). cbn in Hn, Hl, Hu, Hz.
  destruct (put_word_zlen addr word Hu) as [Hl' Hu'].
  cbn [inet6_loop] in H. repeat case_match; try done.
  all: first [apply IH in H; [done|] | injection H as <-]; clear IH.
  all: split_and!; cbn; try done; try lia.
  all: try (intros z Ez; first [specialize (Hz _ Ez) | injection Ez as <-]; unfold zlen in *; rewrite ?length_app; lia).
  - rewrite zlen_app. change (zlen [_; _]) with 2. lia.
  - apply Forall_app. split; [done|]. repeat constructor; by apply land_u_char.
Qed.

(** The 16 bytes are written, no more and no less. *)
Lemma inet6_addr_length text a : ngx_inet6_addr text = Some a -> length a = 16%nat /\ Forall is_u_char a.
Proof.
  unfold ngx_inet6_addr. destruct text as [|c text]; [done|]. destruct (inet6_loop _ _) as [v|] eqn:E; [|done].
  cbn [mbind option_bind]. apply inet6_loop_inv in E; [|split_and!; cbn; try done; constructor].
  destruct v as [addr n nibbles word zero digit], E as (Hn & Hl & Hu & Hz). cbn in Hn, Hl, Hu, Hz.
  destruct (put_word_zlen addr word Hu) as [Hl' Hu']. unfold inet6_end.
  destruct zero as [z|]; repeat case_match; try done; intros [= <-].
  - specialize (Hz z eq_refl). rewrite !length_app, length_replicate, length_take, length_drop. unfold zlen in *.
    split; [lia|]. rewrite !Forall_app. split_and!; [by apply Forall_take|by apply Forall_replicate|by apply Forall_drop].
  - unfold zlen in *. split; [lia|done].
Qed.

Lemma parse_addr_bytes host (inet6 : bool) a :
  ngx_parse_addr true host = (NGX_OK, if inet6 then AF_INET6 a 0 else AF_INET a 0) ->
  length a = (if inet6 then 16 else 4)%nat /\ Forall is_u_char a /\
  (if inet6 then ngx_inet_addr host = INADDR_NONE /\ ngx_inet6_addr host = Some a
   else ngx_inet_addr host <> INADDR_NONE /\ ngx_inet_addr host = of_le a).
Proof.
  unfold ngx_parse_addr. destruct (Z.eqb_spec (ngx_inet_addr host) INADDR_NONE) as [E|E]; cbn [negb].
  - destruct (ngx_inet6_addr host) as [a'|] eqn:E6; [|by destruct inet6]. destruct inet6; [|done]. intros [= ->].
    destruct (inet6_addr_length _ _ E6). done.
  - destruct inet6; [done|]. pose proof (le_length 4 (ngx_inet_addr host)) as Hl. pose proof (le_u_char 4 (ngx_inet_addr host)) as Hu.
    pose proof (of_le_le 4 (ngx_inet_addr host) (inet_addr_range host)) as Hv. destruct (le 4 _) eqn:El; [done|].
    rewrite <- El in *. clear El. intros H. assert (le 4 (ngx_inet_addr host) = a) as <- by congruence. done.
Qed.

(** ** The network of a text *)

(** Cleared low bits do not change what the first bits are. *)
Lemma masked_bytes m n a : length a = m -> length (zip_with Z.land a (in6_mask m n)) = m.
Proof. intros E. rewrite length_zip_with, E, (proj1 (in6_mask_bytes m n)). lia. Qed.

Lemma in_cidr_matches n a p :
  0 <= n <= 32 -> length a = 4%nat -> length p = 4%nat -> Forall is_u_char a -> Forall is_u_char p ->
  cidr_matches (In_cidr (Z.land (of_le a) (in_mask n)) (in_mask n)) p = agree_on n p a.
Proof.
  intros Hn La Lp Ha Hp. destruct (in6_mask_bytes 4 n) as [Lm Hm]. cbn [cidr_matches]. rewrite in_mask_bytes by done.
  rewrite !land_of_le by (done || congruence). apply eq_true_iff_eq. rewrite <- (mask_covers 4), Z.eqb_eq by (done || lia). split; [|by intros ->].
  apply of_le_inj; [by rewrite !masked_bytes|by apply zip_land_u_char..].
Qed.

Lemma in6_cidr_matches n a p :
  0 <= n <= 128 -> length a = 16%nat -> length p = 16%nat -> Forall is_u_char a -> Forall is_u_char p ->
  cidr_matches (In6_cidr (zip_with Z.land a (in6_mask 16 n)) (in6_mask 16 n)) p = agree_on n p a.
Proof.
  intros Hn La Lp Ha Hp. cbn [cidr_matches]. apply eq_true_iff_eq. by rewrite bytes_eqb_eq, (mask_covers 16) by (done || lia).
Qed.

Lemma land_full l : Forall is_u_char l -> zip_with Z.land l (replicate (length l) 255) = l.
Proof.
  induction 1 as [|c l Hc H IH]; [done|]. cbn. rewrite IH. f_equal. change 255 with (Z.ones 8).
  rewrite Z.land_ones by lia. unfold is_u_char in Hc. by rewrite Z.mod_small by lia.
Qed.

(** The network of a text. *)
Lemma ptocidr_names text inet6 a n :
  names text inet6 a n ->
  exists rc c, ngx_ptocidr text = (rc, c) /\ rc <> NGX_ERROR /\ is_in6 c = inet6 /\
    (if c is In6_cidr addr mask then length addr = 16%nat /\ length mask = 16%nat else True) /\
    forall p, length p = (if inet6 then 16 else 4)%nat -> Forall is_u_char p -> cidr_matches c p = agree_on n p a.
Proof.
  intros H. destruct H as [host inet6 a Hp Hs|host inet6 a digits n Hp Hs Hd Hn];
    destruct (parse_addr_bytes host inet6 a Hp) as (La & Ha & Hr); unfold ngx_ptocidr.
  - rewrite strlchr_none by (done || by rewrite take_ge). destruct inet6; destruct Hr as [E1 E2].
    + rewrite E1, E2. do 2 eexists. split_and!; [done|done|done|by split|]. intros p Lp Hp'.
      rewrite <- in6_cidr_matches by (done || lia). change (in6_mask 16 128) with (replicate 16 255).
      rewrite <- (land_full a Ha) at 1. by rewrite La.
    + rewrite (proj2 (Z.eqb_neq _ _) E1), E2. do 2 eexists. split_and!; [done|done|done|done|]. intros p Lp Hp'.
      rewrite <- in_cidr_matches by (done || lia). change (in_mask 32) with (Z.ones 32).
      rewrite (Z.land_ones (of_le a)), Z.mod_small by (done || (pose proof (of_le_range a Ha); unfold zlen in *; rewrite La in *; done)). done.
  - rewrite strlchr_found by (done || rewrite length_app; cbn; lia). replace (length (host ++ _) - length ("/"%chr :: digits))%nat with (length host) by (rewrite length_app; lia).
    rewrite take_app_length. assert (Hne : n <> NGX_ERROR) by (unfold NGX_ERROR; lia). change (drop 1 _) with digits. rewrite Hd.
    destruct inet6; destruct Hr as [E1 E2].
    + rewrite E1, E2. cbn [negb Z.eqb Pos.eqb]. rewrite (proj2 (Z.eqb_neq _ _) Hne). do 2 eexists. split_and!; [done|by case_match|done| |].
      { split; [by apply masked_bytes|by destruct (in6_mask_bytes 16 n)]. }
      intros p Lp Hp'. by apply in6_cidr_matches.
    + rewrite (proj2 (Z.eqb_neq _ _) E1), E2. cbn [negb]. rewrite (proj2 (Z.eqb_neq _ _) Hne).
      destruct (Z.eqb_spec (of_le a) (Z.land (of_le a) (in_mask n))) as [E|E]; do 2 eexists; (split_and!; [done|done|done|done|]); intros p Lp Hp';
        rewrite <- in_cidr_matches by done; [by rewrite <- E|done].
Qed.
