(* ===== verification/Access.v ===== *)
(** Control of access by address: src/http/modules/ngx_http_access_module.c, in the build
    with NGX_HAVE_INET6, and what a configuration decides about a client. *)
From S2P Require Import Prelude Bytes Inet InetSpec NetworkSpec.

(** ** The module *)

Record ngx_http_access_rule_t := mk_rule { rule_mask : Z; rule_addr : Z; rule_deny : bool }.
Record ngx_http_access_rule6_t := mk_rule6 { rule6_addr : bytes; rule6_mask : bytes; rule6_deny : bool }.

(** [None] is NULL: no array. *)
Record ngx_http_access_loc_conf_t := mk_conf {
  rules : option (list ngx_http_access_rule_t); rules6 : option (list ngx_http_access_rule6_t)
}.

Definition ngx_http_access_found (deny : bool) : Z := if deny then NGX_HTTP_FORBIDDEN else NGX_OK.

(** [ngx_http_access_inet] from the rule [i] on. *)
Fixpoint ngx_http_access_inet (rule : list ngx_http_access_rule_t) (addr : Z) : Z :=
  match rule with
  | [] => NGX_DECLINED
  | r :: rule =>
      if Z.land addr (rule_mask r) =? rule_addr r then ngx_http_access_found (rule_deny r)
      else ngx_http_access_inet rule addr
  end.

(** The loop over the bytes. *)
Fixpoint inet6_same (p mask addr : bytes) : bool :=
  match p, mask, addr with
  | c :: p, m :: mask, a :: addr => if negb (Z.land c m =? a) then false else inet6_same p mask addr
  | _, _, _ => true
  end.

Fixpoint ngx_http_access_inet6 (rule6 : list ngx_http_access_rule6_t) (p : bytes) : Z :=
  match rule6 with
  | [] => NGX_DECLINED
  | r :: rule6 =>
      if inet6_same p (rule6_mask r) (rule6_addr r) then ngx_http_access_found (rule6_deny r)
      else ngx_http_access_inet6 rule6 p
  end.

(** The macro of the C library. *)
Definition IN6_IS_ADDR_V4MAPPED (p : bytes) : bool := bytes_eqb (take 12 p) (replicate 10 0 ++ [255; 255]).

Definition mapped_addr (p : bytes) : Z :=
  let addr := u32 (Z.shiftl (at_ p 12) 24) in
  let addr := u32 (addr + Z.shiftl (at_ p 13) 16) in
  let addr := u32 (addr + Z.shiftl (at_ p 14) 8) in
  let addr := u32 (addr + at_ p 15) in
  htonl addr.

Definition ngx_http_access_handler (alcf : ngx_http_access_loc_conf_t) (sa : sockaddr) : Z :=
  match sa with
  | AF_INET addr _ =>
      match rules alcf with Some r => ngx_http_access_inet r (of_le addr) | None => NGX_DECLINED end
  | AF_INET6 p _ =>
      match rules alcf, IN6_IS_ADDR_V4MAPPED p, rules6 alcf with
      | Some r, true, _ => ngx_http_access_inet r (mapped_addr p)
      | _, _, Some r => ngx_http_access_inet6 r p
      | _, _, None => NGX_DECLINED
      end
  | _ => NGX_DECLINED
  end.

(** A rule is put at the end of an array, which is created for the first. *)
Definition push_rule (alloc_ok : bool) (r : ngx_http_access_rule_t) (conf : ngx_http_access_loc_conf_t) :=
  if alloc_ok then Some (mk_conf (Some (default [] (rules conf) ++ [r])) (rules6 conf)) else None.
Definition push_rule6 (alloc_ok : bool) (r : ngx_http_access_rule6_t) (conf : ngx_http_access_loc_conf_t) :=
  if alloc_ok then Some (mk_conf (rules conf) (Some (default [] (rules6 conf) ++ [r]))) else None.

(** The directives [allow] and [deny]: [name] and [value] are [value[0]] and [value[1]];
    [None] is NGX_CONF_ERROR.  For "all" the network is the one that [ngx_memzero] made. *)
Definition ngx_http_access_rule (alloc_ok alloc6_ok : bool) (name value : bytes) (alcf : ngx_http_access_loc_conf_t) :
    option ngx_http_access_loc_conf_t :=
  let deny := at_ name 0 =? "d" in
  if bytes_eqb value (bs "all") then
    alcf ← push_rule6 alloc6_ok (mk_rule6 (replicate 16 0) (replicate 16 0) deny) alcf;
    push_rule alloc_ok (mk_rule 0 0 deny) alcf
  else
    let '(rc, cidr) := ngx_ptocidr value in
    if rc =? NGX_ERROR then None
    else
      match cidr with
      | In6_cidr addr mask => push_rule6 alloc6_ok (mk_rule6 addr mask deny) alcf
      | In_cidr addr mask => push_rule alloc_ok (mk_rule mask addr deny) alcf
      end.

Definition ngx_http_access_create_loc_conf : ngx_http_access_loc_conf_t := mk_conf None None.

Definition ngx_http_access_merge_loc_conf (prev conf : ngx_http_access_loc_conf_t) : ngx_http_access_loc_conf_t :=
  mk_conf (match rules conf with None => rules prev | r => r end)
    (match rules6 conf with None => rules6 prev | r => r end).

(** The directives of one level of the configuration, in order. *)
Definition configure (ds : list (bool * bytes)) : option ngx_http_access_loc_conf_t :=
  foldl (fun alcf d => alcf ← alcf; ngx_http_access_rule true true (if d.1 : bool then bs "deny" else bs "allow") d.2 alcf)
    (Some ngx_http_access_create_loc_conf) ds.

(** ** What the directives mean *)

Inductive network := All | Net (inet6 : bool) (a : bytes) (n : Z).

Inductive means : bytes -> network -> Prop :=
  | means_all : means (bs "all") All
  | means_net text inet6 a n : names text inet6 a n -> means text (Net inet6 a n).

(** A directive is about the addresses of a family, and covers an address. *)
Definition concerns (inet6 : bool) (d : bool * network) : bool :=
  match d.2 with All => true | Net f _ _ => Bool.eqb f inet6 end.
Definition covers (inet6 : bool) (p : bytes) (w : network) : bool :=
  match w with All => true | Net f a n => Bool.eqb f inet6 && agree_on n p a end.

(** The first directive that covers the address. *)
Definition verdict (inet6 : bool) (p : bytes) (ds : list (bool * network)) : Z :=
  match List.find (fun d => covers inet6 p d.2) ds with
  | Some d => if d.1 : bool then NGX_HTTP_FORBIDDEN else NGX_OK
  | None => NGX_DECLINED
  end.

(** The directives of the outer level count for a family that the inner ones are not about. *)
Definition applied (inet6 : bool) (outer inner : list (bool * network)) : list (bool * network) :=
  if existsb (concerns inet6) inner then inner else outer.

Definition decide_access (outer inner : list (bool * network)) (sa : sockaddr) : Z :=
  match sa with
  | AF_INET p _ => verdict false p (applied false outer inner)
  | AF_INET6 p _ =>
      if IN6_IS_ADDR_V4MAPPED p && existsb (concerns false) (applied false outer inner)
      then verdict false (drop 12 p) (applied false outer inner)
      else verdict true p (applied true outer inner)
  | _ => NGX_DECLINED
  end.

(** An address as the kernel gives it. *)
Definition sockaddr_ok (sa : sockaddr) : Prop :=
  match sa with
  | AF_INET p _ => length p = 4%nat /\ Forall is_u_char p
  | AF_INET6 p _ => length p = 16%nat /\ Forall is_u_char p
  | _ => True
  end.

(** ** The arrays hold what the directives mean *)

Lemma inet_snoc rs r addr :
  ngx_http_access_inet (rs ++ [r]) addr =
  if ngx_http_access_inet rs addr =? NGX_DECLINED then ngx_http_access_inet [r] addr else ngx_http_access_inet rs addr.
Proof. induction rs as [|r' rs IH]; [done|]. cbn [app ngx_http_access_inet]. destruct (Z.land addr (rule_mask r') =? rule_addr r'); [by destruct (rule_deny r')|exact IH]. Qed.

Lemma inet6_snoc rs r p :
  ngx_http_access_inet6 (rs ++ [r]) p =
  if ngx_http_access_inet6 rs p =? NGX_DECLINED then ngx_http_access_inet6 [r] p else ngx_http_access_inet6 rs p.
Proof. induction rs as [|r' rs IH]; [done|]. cbn [app ngx_http_access_inet6]. destruct (inet6_same p (rule6_mask r') (rule6_addr r')); [by destruct (rule6_deny r')|exact IH]. Qed.

Lemma verdict_snoc inet6 p ds d :
  verdict inet6 p (ds ++ [d]) =
  if verdict inet6 p ds =? NGX_DECLINED then verdict inet6 p [d] else verdict inet6 p ds.
Proof.
  unfold verdict. induction ds as [|d' ds IH]; [done|]. cbn [app List.find]. destruct (covers inet6 p d'.2); [by destruct (d'.1)|exact IH].
Qed.

Lemma inet6_same_zip p mask addr :
  length mask = length p -> length addr = length p -> inet6_same p mask addr = bytes_eqb (zip_with Z.land p mask) addr.
Proof.
  revert mask addr. induction p as [|c p IH]; intros [|m mask] [|a addr] Lm La; try done. cbn [inet6_same zip_with].
  injection Lm as Lm. injection La as La. rewrite IH by done. apply eq_true_iff_eq. rewrite bytes_eqb_eq.
  destruct (Z.eqb_spec (Z.land c m) a) as [->|Hne]; cbn [negb]; [rewrite bytes_eqb_eq; naive_solver|naive_solver].
Qed.

(** The arrays of a configuration decide as its directives. *)
Record holds (conf : ngx_http_access_loc_conf_t) (ds : list (bool * network)) : Prop := {
  holds_rules : existsb (concerns false) ds = match rules conf with Some _ => true | None => false end;
  holds_rules6 : existsb (concerns true) ds = match rules6 conf with Some _ => true | None => false end;
  holds_inet p : length p = 4%nat -> Forall is_u_char p ->
    ngx_http_access_inet (default [] (rules conf)) (of_le p) = verdict false p ds;
  holds_inet6 p : length p = 16%nat -> Forall is_u_char p ->
    ngx_http_access_inet6 (default [] (rules6 conf)) p = verdict true p ds
}.

Lemma verdict_one inet6 p deny w :
  verdict inet6 p [(deny, w)] = if covers inet6 p w then ngx_http_access_found deny else NGX_DECLINED.
Proof. unfold verdict. cbn. by destruct (covers inet6 p w), deny. Qed.

(** A directive about no address of the family changes nothing. *)
Lemma verdict_other inet6 p ds deny f a n : f <> inet6 -> verdict inet6 p (ds ++ [(deny, Net f a n)]) = verdict inet6 p ds.
Proof.
  intros Hf. rewrite verdict_snoc, verdict_one. cbn [covers]. rewrite (proj2 (eqb_false_iff f inet6)) by done. cbn [andb].
  destruct (Z.eqb_spec (verdict inet6 p ds) NGX_DECLINED) as [->|]; done.
Qed.

Lemma rule_deny_name (deny : bool) : (at_ (if deny then bs "deny" else bs "allow") 0 =? "d") = deny.
Proof. by destruct deny. Qed.

Lemma zeros_match (p : bytes) : length p = 16%nat -> inet6_same p (replicate 16 0) (replicate 16 0) = true.
Proof.
  intros H. rewrite <- H. clear H. induction p as [|c p IH]; [done|]. cbn [length replicate inet6_same]. by rewrite Z.land_0_r.
Qed.

Lemma names_not_all text inet6 a n : names text inet6 a n -> text <> bs "all".
Proof.
  intros [host f a' Hp _|host f a' digits m _ _ _ _] E.
  - subst host. by destruct f.
  - assert ("/"%chr ∈ bs "all") as H by (rewrite <- E; set_solver). cbn in H. set_solver.
Qed.

Lemma holds_step conf ds (deny : bool) text w :
  holds conf ds -> means text w ->
  exists conf', ngx_http_access_rule true true (if deny then bs "deny" else bs "allow") text conf = Some conf' /\
    holds conf' (ds ++ [(deny, w)]).
Proof.
  intros [H4 H6 I4 I6] Hw. unfold ngx_http_access_rule. rewrite rule_deny_name. destruct Hw as [|text inet6 a n Hn].
  - rewrite (proj2 (bytes_eqb_eq _ _) eq_refl). eexists. split; [done|]. split; cbn; rewrite ?existsb_app, ?orb_true_r; try done.
    + intros p Lp Hp. rewrite inet_snoc, verdict_snoc, I4, verdict_one by done. cbn. by rewrite Z.land_0_r.
    + intros p Lp Hp. rewrite inet6_snoc, verdict_snoc, I6, verdict_one by done. cbn. by rewrite zeros_match.
  - destruct (ptocidr_names text inet6 a n Hn) as (rc & c & -> & Hrc & Hf & Hlen & Hm).
    rewrite (proj2 (Z.eqb_neq _ _) Hrc). 
    destruct (bytes_eqb text (bs "all")) eqn:Et; [apply bytes_eqb_eq in Et; by apply names_not_all in Hn|].
    destruct c as [addr mask|addr mask]; cbn in Hf; subst inet6; eexists; (split; [done|]); split; cbn [rules rules6 default from_option id];
      rewrite ?existsb_app; cbn [existsb concerns snd Bool.eqb]; rewrite ?orb_true_r, ?orb_false_r; try done.
    + intros p Lp Hp. rewrite inet_snoc, verdict_snoc, I4, verdict_one by done. cbn [covers Bool.eqb andb].
      by rewrite <- Hm.
    + intros p Lp Hp. rewrite verdict_other by done. by apply I6.
    + intros p Lp Hp. rewrite verdict_other by done. by apply I4.
    + intros p Lp Hp. rewrite inet6_snoc, verdict_snoc, I6, verdict_one by done. cbn [covers Bool.eqb andb].
      rewrite <- Hm by done. destruct Hlen. cbn [ngx_http_access_inet6 rule6_mask rule6_addr rule6_deny].
      by rewrite inet6_same_zip by congruence.
Qed.

Lemma holds_configure ds ws :
  Forall2 (fun d w => d.1 = w.1 /\ means d.2 w.2) ds ws -> exists conf, configure ds = Some conf /\ holds conf ws.
Proof.
  unfold configure. revert ws. induction ds as [|d ds IH] using rev_ind; intros ws H.
  { apply Forall2_nil_inv_l in H as ->. eexists. split; [done|]. by split. }
  apply Forall2_app_inv_l in H as (ws1 & ws2 & H1 & H2 & ->). destruct (IH ws1 H1) as (conf & E & Hc).
  inversion H2 as [|? w ? ws3 [Hd Hw] H3]; subst. apply Forall2_nil_inv_l in H3 as ->.
  rewrite foldl_app, E. destruct d as [deny text], w as [deny' w]. cbn in *. subst deny'. by apply holds_step.
Qed.

(** ** The handler *)

(** A client that comes over IPv4 to an IPv6 socket. *)
Lemma mapped_addr_eq p : length p = 16%nat -> Forall is_u_char p -> mapped_addr p = of_le (drop 12 p).
Proof.
  intros Hl Hp. do 16 (destruct p as [|? p]; [done|]). destruct p; [|done]. cbn [drop].
  rewrite !Forall_cons in Hp. destruct_and!. rewrite <- htonl_be by auto. unfold mapped_addr. f_equal.
  rewrite !Z.shiftl_mul_pow2 by lia. unfold be, u32, is_u_char in *. cbn [foldl].
  repeat match goal with |- context [at_ ?l ?k] => let v := eval vm_compute in (at_ l k) in change (at_ l k) with v end.
  rewrite !Zplus_mod_idemp_l. change (2 ^ 24) with 16777216. change (2 ^ 16) with 65536. change (2 ^ 8) with 256.
  rewrite (Z.mod_small (_ * _ + _)), Z.mod_small by lia. lia.
Qed.


Lemma v4_range p : length p = 16%nat -> Forall is_u_char p -> length (drop 12 p) = 4%nat /\ Forall is_u_char (drop 12 p).
Proof. intros Hl Hp. rewrite length_drop, Hl. split; [done|by apply Forall_drop]. Qed.

(** Without a directive about the family, no directive covers an address of it. *)
Lemma verdict_none inet6 p ds : existsb (concerns inet6) ds = false -> verdict inet6 p ds = NGX_DECLINED.
Proof.
  unfold verdict. induction ds as [|[deny w] ds IH]; [done|]. cbn [existsb List.find snd]. intros [H1 H2]%orb_false_iff.
  destruct w as [|f a n]; [done|]. cbn [covers] in *. cbn in H1. rewrite H1. cbn [andb]. by apply IH.
Qed.

(** The arrays after the merge are those of the directives that apply. *)
Lemma holds_merge prev conf outer inner :
  holds prev outer -> holds conf inner ->
  let m := ngx_http_access_merge_loc_conf prev conf in
  (exists x, holds x (applied false outer inner) /\ rules x = rules m) /\
  (exists x, holds x (applied true outer inner) /\ rules6 x = rules6 m).
Proof.
  intros Hp Hc m. pose proof (holds_rules _ _ Hc) as E4. pose proof (holds_rules6 _ _ Hc) as E6. unfold m, applied. cbn.
  split; [rewrite E4; destruct (rules conf) eqn:E|rewrite E6; destruct (rules6 conf) eqn:E]; eauto.
Qed.

(** C21: the first directive that covers the client decides.  The directives [allow] and
    [deny] of a level and of the level around it, each with "all", an address or an address
    and the length of a prefix, are all accepted, and the handler then answers with the
    first of the directives that apply to the client's family whose network has the
    client's address in it, bit for bit: NGX_HTTP_FORBIDDEN when it is a [deny], NGX_OK when
    it is an [allow], NGX_DECLINED when there is none; a client that comes over IPv4 to an
    IPv6 socket is held to the IPv4 directives, if there are any. *)
Theorem access_decides (outer inner : list (bool * bytes)) (nets nets' : list (bool * network)) (sa : sockaddr) :
  Forall2 (fun d w => d.1 = w.1 /\ means d.2 w.2) outer nets ->
  Forall2 (fun d w => d.1 = w.1 /\ means d.2 w.2) inner nets' -> sockaddr_ok sa ->
  exists prev conf, configure outer = Some prev /\ configure inner = Some conf /\
    ngx_http_access_handler (ngx_http_access_merge_loc_conf prev conf) sa = decide_access nets nets' sa.
Proof.
  intros Ho Hi Hsa. destruct (holds_configure _ _ Ho) as (prev & E1 & Hp), (holds_configure _ _ Hi) as (conf & E2 & Hc).
  exists prev, conf. split; [done|]. split; [done|].
  destruct (holds_merge _ _ _ _ Hp Hc) as [(x4 & [R4 _ I4 _] & X4) (x6 & [_ R6 _ I6] & X6)].
  unfold ngx_http_access_handler, decide_access. destruct sa as [p port|p port|path|]; [| |done..]; destruct Hsa as [Lp Up]; rewrite <- X4.
  - rewrite <- I4 by done. by destruct (rules x4).
  - rewrite <- X6, R4. destruct (rules x4) as [r|] eqn:E; rewrite ?andb_false_r, ?andb_true_r.
    + destruct (IN6_IS_ADDR_V4MAPPED p).
      * destruct (v4_range p Lp Up). by rewrite mapped_addr_eq, <- I4 by done.
      * rewrite <- I6 by done. by destruct (rules6 x6).
    + rewrite <- I6 by done. by destruct (rules6 x6), (IN6_IS_ADDR_V4MAPPED p).
Qed.

Definition sample_directives : list (bool * bytes) :=
  [(true, bs "192.168.1.1"); (false, bs "192.168.0.0/16"); (false, bs "2001:db8::/32"); (true, bs "all")].

Lemma access_decides_witness :
  exists prev conf, configure [] = Some prev /\ configure sample_directives = Some conf /\
    let handler := ngx_http_access_handler (ngx_http_access_merge_loc_conf prev conf) in
    handler (AF_INET [192; 168; 7; 9] 80) = NGX_OK.
Proof.
  destruct (access_decides [] sample_directives []
    [(true, Net false [192; 168; 1; 1] 32); (false, Net false [192; 168; 0; 0] 16);
     (false, Net true [32; 1; 13; 184; 0; 0; 0; 0; 0; 0; 0; 0; 0; 0; 0; 0] 32); (true, All)]
    (AF_INET [192; 168; 7; 9] 80)) as (prev & conf & E1 & E2 & H); [constructor| | |].
  - repeat (apply Forall2_cons; split; [split; [done|]|]); [..|by constructor]; try apply means_net.
    + apply (names_host (bs "192.168.1.1") false); [by vm_compute|by apply (bool_decide_unpack _)].
    + by apply (names_net (bs "192.168.0.0") false _ (bs "16")); [vm_compute|apply (bool_decide_unpack _)|..].
    + by apply (names_net (bs "2001:db8::") true _ (bs "32")); [vm_compute|apply (bool_decide_unpack _)|..].
    + apply means_all.
  - by repeat constructor.
  - exists prev, conf. split; [exact E1|]. split; [exact E2|]. cbv zeta. rewrite H. by vm_compute.
Defined.

(** A length that is too large wraps around: the network with the prefix of 33 bits has the
    mask of the prefix of one bit. *)
Lemma prefix_wraps : ngx_ptocidr (bs "10.0.0.0/33") = (NGX_DONE, In_cidr 0 128).
Proof. by vm_compute. Qed.
