(* ===== verification/Range.v ===== *)
(** Byte ranges of a response: src/http/modules/ngx_http_range_filter_module.c, the parsing
    of the header, the header filter and the body filter, with the buffers of
    src/core/ngx_buf.h. *)
From S2P Require Import Prelude CString Numbers Sprintf Times.

(** ** The header [Range] *)

Definition NGX_HTTP_RANGE_NOT_SATISFIABLE : Z := 416.

Record ngx_http_range_t := mk_range { r_start : Z; r_end : Z; r_content_range : bytes }.

(** [while ( *p == ' ') { p++; }] *)
Fixpoint spaces (p : bytes) : bytes :=
  match p with c :: p' => if c =? " " then spaces p' else p | [] => [] end.

(** [while ( *p >= '0' && *p <= '9') v = v * 10 + *p++ - '0';] *)
Fixpoint number (v : Z) (p : bytes) : Z * bytes :=
  match p with
  | c :: p' => if ("0" <=? c) && (c <=? "9") then number (s64 (v * 10 + c - "0")) p' else (v, p)
  | [] => (v, [])
  end.

Definition digit_at (p : bytes) : bool := ("0" <=? ch_ p) && (ch_ p <=? "9").
Definition ends_at (p : bytes) : bool := (ch_ p =? ",") || (ch_ p =? 0).

(** From the digits of the end to the label [found]. *)
Definition range_end (content_length : Z) (suffix : bool) (start : Z) (p : bytes) : option (Z * Z * bytes) :=
  if negb (digit_at p) then None
  else
    let '(last, p) := number 0 p in
    let p := spaces p in
    if negb (ends_at p) then None
    else
      let '(start, last) := if suffix then (s64 (content_length - last), s64 (content_length - 1)) else (start, last) in
      Some (start, if content_length <=? last then content_length else s64 (last + 1), p).

(** A turn of the loop up to the label: [start], [end] and [p]; [None] is
    NGX_HTTP_RANGE_NOT_SATISFIABLE. *)
Definition range_turn (content_length : Z) (p : bytes) : option (Z * Z * bytes) :=
  let p := spaces p in
  if negb (ch_ p =? "-") then
    if negb (digit_at p) then None
    else
      let '(start, p) := number 0 p in
      let p := spaces p in
      if negb (ch_ p =? "-") then None
      else
        let p := spaces (next_ p) in
        if ends_at p then Some (start, content_length, p)
        else range_end content_length false start p
  else range_end content_length true 0 (next_ p).

Section Parse.
(** [alloc k] says whether the range with the number [k] gets its place in the array. *)
Context (content_length : Z) (alloc : nat -> bool).

Definition parse_done (rs : list ngx_http_range_t) (size : Z) : Z :=
  if bool_decide (rs = []) then NGX_HTTP_RANGE_NOT_SATISFIABLE
  else if content_length <? size then NGX_DECLINED else NGX_OK.

(** The return code and the array; [None]: not enough fuel. *)
Fixpoint parse_loop (fuel : nat) (p : bytes) (rs : list ngx_http_range_t) (size ranges : Z) :
    option (Z * list ngx_http_range_t) :=
  match fuel with
  | O => None
  | S fuel =>
      match range_turn content_length p with
      | None => Some (NGX_HTTP_RANGE_NOT_SATISFIABLE, rs)
      | Some (start, last, p) =>
          let next rs size ranges :=
            if ch_ p =? "," then parse_loop fuel (next_ p) rs size ranges
            else Some (parse_done rs size, rs) in
          if start <? last then
            if negb (alloc (length rs)) then Some (NGX_ERROR, rs)
            else
              let rs := rs ++ [mk_range start last []] in
              let size := s64 (size + s64 (last - start)) in
              if ranges =? 0 then Some (NGX_DECLINED, rs) else next rs size (ranges - 1)
          else next rs size ranges
      end
  end.

(** [value] is the value of the header, behind it is a null byte; every turn reads a
    character. *)
Definition ngx_http_range_parse (value : bytes) (ranges : Z) : option (Z * list ngx_http_range_t) :=
  let p := drop 6 value in parse_loop (S (length p)) p [] 0 ranges.
End Parse.

(** ** The header filter *)

Definition NGX_HTTP_OK : Z := 200.
Definition NGX_HTTP_PARTIAL_CONTENT : Z := 206.
Definition NGX_OFF_T_LEN : Z := 20.

(** What the filter uses of the request: the members of [headers_in] and [headers_out] that
    are pointers to header lines are their values, [None] is NULL. *)
Record request := mk_request {
  http_version : Z; main : bool; allow_ranges : bool; in_range : option bytes; in_if_range : option bytes;
  status : Z; status_line : bytes; content_length_n : Z; last_modified_time : Z; content_length : option bytes;
  content_type : bytes; content_type_len : Z; content_type_lowcase : option bytes; charset : bytes;
  content_range : option bytes; accept_ranges : option bytes
}.
#[export] Instance rebuild_request : Rebuild request :=
  fun r => mk_request (http_version r) (main r) (allow_ranges r) (in_range r) (in_if_range r) (status r) (status_line r)
    (content_length_n r) (last_modified_time r) (content_length r) (content_type r) (content_type_len r)
    (content_type_lowcase r) (charset r) (content_range r) (accept_ranges r).

Record ngx_http_range_filter_ctx_t := mk_ctx {
  offset : Z; boundary_header : bytes; ranges : list ngx_http_range_t
}.

(** The call of the next filter with the context that was set, or a return code. *)
Inductive filtered :=
  | Next_header (r : request) (ctx : option ngx_http_range_filter_ctx_t)
  | Return (code : Z) (r : request).

(** [ngx_sprintf] to a memory of [len] bytes; [None]: it writes behind it. *)
Definition sprintf_to (len : Z) (fmt : bytes) (args : list arg) : option bytes :=
  text ← ngx_vslprintf (2 ^ 63) fmt args;
  if zlen text <=? len then Some text else None.

Definition CRLF : bytes := [CR; LF].

Section Header.
(** The allocations succeed, or the first one fails. *)
Context (alloc_ok : bool) (alloc : nat -> bool).

Definition ngx_http_range_singlepart_header (r : request) (ctx : ngx_http_range_filter_ctx_t) : option filtered :=
  if negb alloc_ok then Some (Return NGX_ERROR r)
  else
    match ranges ctx with
    | [] => None
    | range :: _ =>
        value ← sprintf_to (zlen (bs "bytes -/") + 3 * NGX_OFF_T_LEN) (bs "bytes %O-%O/%O")
          [A_int (r_start range); A_int (s64 (r_end range - 1)); A_int (content_length_n r)];
        Some (Next_header (r <| content_range := Some value |>
          <| content_length_n := s64 (r_end range - r_start range) |> <| content_length := None |>) (Some ctx))
    end.

(** The loop over the ranges: their texts and [len]. *)
Fixpoint multipart_ranges (total : Z) (blen : Z) (rs : list ngx_http_range_t) (len : Z) :
    option (list ngx_http_range_t * Z) :=
  match rs with
  | [] => Some ([], len)
  | r :: rs =>
      text ← sprintf_to (3 * NGX_OFF_T_LEN + 2 + 4) (bs "%O-%O/%O" ++ CRLF ++ CRLF)
        [A_int (r_start r); A_int (s64 (r_end r - 1)); A_int total];
      '(rs, len) ← multipart_ranges total blen rs (u64 (len + blen + zlen text + u64 (r_end r - r_start r)));
      Some (mk_range (r_start r) (r_end r) text :: rs, len)
  end.

(** [boundary] is the result of [ngx_next_temp_number]. *)
Definition ngx_http_range_multipart_header (boundary : Z) (r : request) (ctx : ngx_http_range_filter_ctx_t) : option filtered :=
  if negb alloc_ok then Some (Return NGX_ERROR r)
  else
    let len := zlen (CRLF ++ bs "--") + NGX_ATOMIC_T_LEN + zlen (CRLF ++ bs "Content-Type: ")
               + zlen (content_type r) + zlen (CRLF ++ bs "Content-Range: bytes ") in
    let len := if negb (zlen (charset r) =? 0) then len + zlen (bs "; charset=") + zlen (charset r) else len in
    header ←
      (if negb (zlen (charset r) =? 0) then
         sprintf_to len (CRLF ++ bs "--%0muA" ++ CRLF ++ bs "Content-Type: %V; charset=%V" ++ CRLF
                         ++ bs "Content-Range: bytes ")
           [A_int boundary; A_str (content_type r); A_str (charset r)]
       else if negb (zlen (content_type r) =? 0) then
         sprintf_to len (CRLF ++ bs "--%0muA" ++ CRLF ++ bs "Content-Type: %V" ++ CRLF ++ bs "Content-Range: bytes ")
           [A_int boundary; A_str (content_type r)]
       else sprintf_to len (CRLF ++ bs "--%0muA" ++ CRLF ++ bs "Content-Range: bytes ") [A_int boundary]);
    let r := if negb (zlen (charset r) =? 0) then r <| charset := [] |> else r in
    type ← sprintf_to (zlen (bs "Content-Type: multipart/byteranges; boundary=") + NGX_ATOMIC_T_LEN)
      (bs "multipart/byteranges; boundary=%0muA") [A_int boundary];
    let r := r <| content_type := type |> <| content_type_lowcase := None |> <| content_type_len := zlen type |> in
    let len := zlen (CRLF ++ bs "--") + NGX_ATOMIC_T_LEN + zlen (bs "--" ++ CRLF) in
    '(rs, len) ← multipart_ranges (content_length_n r) (zlen header) (ranges ctx) len;
    Some (Next_header (r <| content_length_n := s64 len |> <| content_length := None |>)
            (Some (mk_ctx (offset ctx) header rs))).

Definition ngx_http_range_not_satisfiable (r : request) : option filtered :=
  let r := r <| status := NGX_HTTP_RANGE_NOT_SATISFIABLE |> in
  if negb alloc_ok then Some (Return NGX_ERROR r)
  else
    value ← sprintf_to (zlen (bs "bytes */") + NGX_OFF_T_LEN) (bs "bytes */%O") [A_int (content_length_n r)];
    Some (Return NGX_HTTP_RANGE_NOT_SATISFIABLE
            (r <| content_range := Some value |> <| content_length_n := -1 |> <| content_length := None |>)).

(** The label [next_filter]. *)
Definition next_filter (r : request) : option filtered :=
  if negb alloc_ok then Some (Return NGX_ERROR r)
  else Some (Next_header (r <| accept_ranges := Some (bs "bytes") |>) None).

Definition ngx_http_range_header_filter (max_ranges boundary : Z) (r : request) : option filtered :=
  if (http_version r <? NGX_HTTP_VERSION_10) || negb (status r =? NGX_HTTP_OK) || negb (main r)
     || (content_length_n r =? -1) || negb (allow_ranges r)
  then Some (Next_header r None)
  else if max_ranges =? 0 then Some (Next_header r None)
  else
    match in_range r with
    | None => next_filter r
    | Some value =>
        if (zlen value <? 7) || negb (ngx_strncasecmp value (bs "bytes=") 6 =? 0) then next_filter r
        else
          stale ← (match in_if_range r with
                   | Some date =>
                       if negb (last_modified_time r =? -1) then
                         if_range ← ngx_http_parse_time date; Some (negb (if_range =? last_modified_time r))
                       else Some false
                   | None => Some false
                   end);
          if stale : bool then next_filter r
          else if negb alloc_ok then Some (Return NGX_ERROR r)
          else
            '(rc, rs) ← ngx_http_range_parse (content_length_n r) alloc value max_ranges;
            let ctx := mk_ctx 0 [] rs in
            if rc =? NGX_OK then
              let r := r <| status := NGX_HTTP_PARTIAL_CONTENT |> <| status_line := [] |> in
              if (length rs =? 1)%nat then ngx_http_range_singlepart_header r ctx
              else ngx_http_range_multipart_header boundary r ctx
            else if rc =? NGX_HTTP_RANGE_NOT_SATISFIABLE then ngx_http_range_not_satisfiable r
            else if rc =? NGX_ERROR then Some (Return NGX_ERROR r)
            else next_filter r
    end.
End Header.

(** ** The body filter *)

(** A buffer: [pos] and [last] are places in [mem], the memory that they point into,
    [file_pos] and [file_last] are places in [file]. *)
Record ngx_buf_t := mk_buf {
  pos : Z; last : Z; mem : bytes; file_pos : Z; file_last : Z; file : bytes;
  temporary : bool; memory : bool; mmap : bool; in_file : bool; flush : bool; sync : bool; last_buf : bool
}.
#[export] Instance rebuild_buf : Rebuild ngx_buf_t :=
  fun b => mk_buf (pos b) (last b) (mem b) (file_pos b) (file_last b) (file b) (temporary b) (memory b) (mmap b)
    (in_file b) (flush b) (sync b) (last_buf b).

Definition ngx_buf_in_memory (b : ngx_buf_t) : bool := temporary b || memory b || mmap b.
Definition ngx_buf_special (b : ngx_buf_t) : bool :=
  (flush b || last_buf b || sync b) && negb (ngx_buf_in_memory b) && negb (in_file b).
Definition ngx_buf_size (b : ngx_buf_t) : Z :=
  if ngx_buf_in_memory b then last b - pos b else file_last b - file_pos b.

(** A buffer behind the range or before it. *)
Definition skip_buf (b : ngx_buf_t) : ngx_buf_t :=
  let b := if in_file b then b <| file_pos := file_last b |> else b in
  b <| pos := last b |> <| sync := true |>.

(** A buffer in which the range starts: [n] is [range->start - start]. *)
Definition cut_front (n : Z) (b : ngx_buf_t) : ngx_buf_t :=
  let b := if in_file b then b <| file_pos := file_pos b + n |> else b in
  if ngx_buf_in_memory b then b <| pos := pos b + n |> else b.

(** A buffer in which it ends: [n] is [last - range->end]. *)
Definition cut_back (n : Z) (b : ngx_buf_t) : ngx_buf_t :=
  let b := if in_file b then b <| file_last := file_last b - n |> else b in
  let b := if ngx_buf_in_memory b then b <| last := last b - n |> else b in
  b <| last_buf := true |>.

Section Body.
Context (range_start range_end : Z).

(** The loop over the chain.  [out] is what has been linked and [skipped] the links behind
    the last of them, to which its [next] still points; the result is [ctx->offset] and the
    chain for the next filter. *)
Fixpoint singlepart_loop (cl : list ngx_buf_t) (off : Z) (out skipped : list ngx_buf_t) : Z * list ngx_buf_t :=
  match cl with
  | [] => (off, if bool_decide (out = []) then [] else out ++ skipped)
  | buf :: cl =>
      let start := off in
      let last := off + ngx_buf_size buf in
      if ngx_buf_special buf then singlepart_loop cl last (out ++ [buf]) []
      else if (range_end <=? start) || (last <=? range_start) then
        singlepart_loop cl last out (skipped ++ [skip_buf buf])
      else
        let buf := if start <? range_start then cut_front (range_start - start) buf else buf in
        if range_end <=? last then (last, out ++ [cut_back (last - range_end) buf])
        else singlepart_loop cl last (out ++ [buf]) []
  end.
End Body.

(** The next filter is called with a chain, or not at all, with a return code. *)
Inductive body := Next_body (out : list ngx_buf_t) | Return_body (code : Z).

Definition ngx_http_range_singlepart_body (ctx : ngx_http_range_filter_ctx_t) (inp : list ngx_buf_t) :
    option (ngx_http_range_filter_ctx_t * body) :=
  match ranges ctx with
  | [] => None
  | range :: _ =>
      let '(off, out) := singlepart_loop (r_start range) (r_end range) inp (offset ctx) [] [] in
      Some (mk_ctx off (boundary_header ctx) (ranges ctx), if bool_decide (out = []) then Return_body NGX_OK else Next_body out)
  end.

(** The context, or [None]: NGX_ERROR. *)
Definition ngx_http_range_test_overlapped (ctx : ngx_http_range_filter_ctx_t) (buf : ngx_buf_t) :
    option ngx_http_range_filter_ctx_t :=
  if negb (offset ctx =? 0) then None
  else
    let last := offset ctx + ngx_buf_size buf in
    if negb (last_buf buf) && existsb (fun r => (r_start r <? offset ctx) || (last <? r_end r)) (ranges ctx) then None
    else Some (mk_ctx (ngx_buf_size buf) (boundary_header ctx) (ranges ctx)).

(** A new buffer of zeros over [text]. *)
Definition text_buf (text : bytes) (tmp lst : bool) : ngx_buf_t :=
  mk_buf 0 (zlen text) text 0 0 [] tmp (negb tmp) false false false false lst.

(** The range of the only buffer of the body. *)
Definition range_buf (buf : ngx_buf_t) (range : ngx_http_range_t) : ngx_buf_t :=
  let inf := in_file buf in
  let inm := ngx_buf_in_memory buf in
  mk_buf (if inm then pos buf + u64 (r_start range) else 0) (if inm then pos buf + u64 (r_end range) else 0) (mem buf)
    (if inf then file_pos buf + r_start range else 0) (if inf then file_pos buf + r_end range else 0) (file buf)
    (temporary buf) (memory buf) (mmap buf) inf false false false.

(** Three buffers for each range and one for the last boundary, which copies the beginning of
    the boundary header. *)
Definition ngx_http_range_multipart_body (alloc_ok : bool) (ctx : ngx_http_range_filter_ctx_t) (buf : ngx_buf_t) : body :=
  if negb alloc_ok then Return_body NGX_ERROR
  else
    let part range := [text_buf (boundary_header ctx) false false; text_buf (r_content_range range) true false;
                       range_buf buf range] in
    let n := Z.to_nat (zlen (CRLF ++ bs "--") + NGX_ATOMIC_T_LEN) in
    Next_body (concat (part <$> ranges ctx) ++ [text_buf (take n (boundary_header ctx) ++ bs "--" ++ CRLF) true true]).

Definition ngx_http_range_body_filter (alloc_ok : bool) (ctx : option ngx_http_range_filter_ctx_t) (inp : list ngx_buf_t) :
    option (option ngx_http_range_filter_ctx_t * body) :=
  match inp, ctx with
  | [], _ | _, None => Some (ctx, Next_body inp)
  | buf :: _, Some ctx =>
      if (length (ranges ctx) =? 1)%nat then
        '(ctx, res) ← ngx_http_range_singlepart_body ctx inp; Some (Some ctx, res)
      else if ngx_buf_special buf then Some (Some ctx, Next_body inp)
      else
        match ngx_http_range_test_overlapped ctx buf with
        | None => Some (Some ctx, Return_body NGX_ERROR)
        | Some ctx => Some (Some ctx, ngx_http_range_multipart_body alloc_ok ctx buf)
        end
  end.
