(* ===== verification/RangeSpec.v ===== *)
(** Byte ranges: what a header asks for, and when the parser grants it. *)
From S2P Require Import Prelude CString Numbers Sprintf Range.

(** ** The header *)

(** From a byte on, from a byte to another, the last bytes. *)
Inductive range_spec := From (first : Z) | Between (first last : Z) | Suffix (n : Z).

Definition all_spaces (s : bytes) : Prop := Forall (fun c => c = " "%chr) s.

(** The texts of a range: digits with spaces around them, but none behind the dash of a
    suffix. *)
Inductive spells : range_spec -> bytes -> Prop :=
  | spells_from s1 d s2 s3 : all_spaces s1 -> all_spaces s2 -> all_spaces s3 -> is_digits d -> d <> [] ->
      spells (From (digits_val 0 d)) (s1 ++ d ++ s2 ++ "-"%chr :: s3)
  | spells_between s1 d s2 s3 d' s4 : all_spaces s1 -> all_spaces s2 -> all_spaces s3 -> all_spaces s4 ->
      is_digits d -> d <> [] -> is_digits d' -> d' <> [] ->
      spells (Between (digits_val 0 d) (digits_val 0 d')) (s1 ++ d ++ s2 ++ "-"%chr :: s3 ++ d' ++ s4)
  | spells_suffix s1 d s2 : all_spaces s1 -> all_spaces s2 -> is_digits d -> d <> [] ->
      spells (Suffix (digits_val 0 d)) (s1 ++ "-"%chr :: d ++ s2).

(** The numbers of a range fit 63 bits. *)
Definition spec_fits (w : range_spec) : Prop :=
  match w with From a => 0 <= a < 2 ^ 63 | Between a b => 0 <= a < 2 ^ 63 /\ 0 <= b < 2 ^ 63 | Suffix n => 0 <= n < 2 ^ 63 end.

(** The bytes of a body of [cl] bytes that it names: from the first to the one before the
    second. *)
Definition resolve (cl : Z) (w : range_spec) : Z * Z :=
  match w with
  | From a => (a, cl)
  | Between a b => (a, Z.min cl (b + 1))
  | Suffix n => (cl - n, cl)
  end.

(** The ranges that are not empty, and their size. *)
Definition selected (cl : Z) (ws : list range_spec) : list (Z * Z) :=
  filter (fun r => r.1 < r.2) (resolve cl <$> ws).
Definition total_size (rs : list (Z * Z)) : Z := foldr (fun r v => r.2 - r.1 + v) 0 rs.

(** What the parser answers: too many ranges, none, more bytes than the body has. *)
Definition range_verdict (cl max : Z) (rs : list (Z * Z)) : Z :=
  if max <? zlen rs then NGX_DECLINED
  else if bool_decide (rs = []) then NGX_HTTP_RANGE_NOT_SATISFIABLE
  else if cl <? total_size rs then NGX_DECLINED else NGX_OK.

Definition as_range (r : Z * Z) : ngx_http_range_t := mk_range r.1 r.2 [].

(** The texts with commas between them. *)
Fixpoint join_commas (l : list bytes) : bytes :=
  match l with
  | [] => []
  | [t] => t
  | t :: l => t ++ ","%chr :: join_commas l
  end.

(** ** The parser on a text *)

Lemma spaces_app s p : all_spaces s -> spaces (s ++ p) = spaces p.
Proof. induction 1 as [|c s -> _ IH]; [done|]. cbn [app spaces]. by rewrite Z.eqb_refl. Qed.

Lemma spaces_stop p : ch_ p <> " " -> spaces p = p.
Proof. destruct p as [|c p]; [done|]. cbn. intros H. by rewrite (proj2 (Z.eqb_neq _ _) H). Qed.

(** What follows a range: the end or a comma. *)
Definition is_rest (p : bytes) : Prop := p = [] \/ exists q, p = ","%chr :: q.

Lemma rest_facts p : is_rest p -> ends_at p = true /\ digit_at p = false /\ spaces p = p.
Proof. intros [-> | [q ->]]; done. Qed.

Lemma digits_head d p : is_digits d -> d <> [] -> digit_at (d ++ p) = true /\ spaces (d ++ p) = d ++ p /\
  (ch_ (d ++ p) =? "-") = false.
Proof.
  intros Hd Hne. destruct d as [|c d]; [done|]. apply Forall_cons in Hd as [Hc _]. unfold is_digit in Hc. cbn.
  split_and!; [done| |lia]. by rewrite (proj2 (Z.eqb_neq c 32)) by lia.
Qed.

Lemma number_digits v d p : 0 <= v -> is_digits d -> digit_at p = false -> digits_val v d < 2 ^ 63 ->
  number v (d ++ p) = (digits_val v d, p).
Proof.
  intros Hv Hd Hp. revert v Hv. induction Hd as [|c d Hc Hd IH]; intros v Hv Hlt; cbn [app].
  - destruct p as [|c p]; [done|]. unfold digit_at in Hp. cbn in *. by rewrite Hp.
  - unfold is_digit in Hc. cbn [number]. rewrite Hc. change (digits_val v (c :: d)) with (digits_val (v * 10 + (c - "0")) d) in *.
    pose proof (digits_val_ge (v * 10 + (c - "0")) d ltac:(lia) Hd) as Hge.
    replace (v * 10 + c - "0") with (v * 10 + (c - "0")) by lia. rewrite s64_id by lia. apply IH; [lia|done].
Qed.

Lemma digits_val_nonneg d : is_digits d -> 0 <= digits_val 0 d.
Proof. intros H. by apply (digits_val_ge 0 d). Qed.

Section Turn.
Context (cl : Z).
Hypothesis Hcl : 0 <= cl < 2 ^ 63.

(** From the digits of the end on. *)
Lemma range_end_digits suffix start d s p :
  is_digits d -> d <> [] -> all_spaces s -> is_rest p -> digits_val 0 d < 2 ^ 63 ->
  range_end cl suffix start (d ++ s ++ p) =
  Some (if suffix then cl - digits_val 0 d else start, if suffix then cl else Z.min cl (digits_val 0 d + 1), p).
Proof.
  intros Hd Hne Hs Hp Hlt. destruct (rest_facts p Hp) as (He & Hdp & Hsp). pose proof (digits_val_nonneg d Hd) as H0.
  unfold range_end. destruct (digits_head d (s ++ p) Hd Hne) as (-> & _). cbn [negb].
  assert (Hds : digit_at (s ++ p) = false) by (destruct Hs as [|c s -> _]; done).
  rewrite number_digits, spaces_app, Hsp, He by done. cbn [negb]. destruct suffix.
  - rewrite !s64_id by lia. rewrite (proj2 (Z.leb_gt cl (cl - 1))) by lia. do 3 f_equal. lia.
  - destruct (Z.leb_spec cl (digits_val 0 d)); [by rewrite Z.min_l by lia|]. by rewrite s64_id, Z.min_r by lia.
Qed.

Lemma range_turn_spells w t p :
  spells w t -> spec_fits w -> is_rest p -> range_turn cl (t ++ p) = Some ((resolve cl w).1, (resolve cl w).2, p).
Proof.
  intros Hw Hf Hp. destruct (rest_facts p Hp) as (He & Hdp & Hsp). unfold range_turn.
  destruct Hw as [s1 d s2 s3 H1 H2 H3 Hd Hne|s1 d s2 s3 d' s4 H1 H2 H3 H4 Hd Hne Hd' Hne'|s1 d s2 H1 H2 Hd Hne];
    cbn [spec_fits resolve fst snd] in *; rewrite <- app_assoc, spaces_app by done.
  - destruct (digits_head d ((s2 ++ "-"%chr :: s3) ++ p) Hd Hne) as (E1 & E2 & E3). rewrite <- app_assoc, E2, E3, E1. cbn [negb].
    rewrite <- app_assoc, number_digits, spaces_app by (done || lia || by destruct H2 as [|c s -> _]). cbn [app].
    rewrite spaces_stop by done. cbn [ch_ List.hd next_ List.tl Z.eqb Pos.eqb negb]. by rewrite spaces_app, Hsp, He.
  - destruct Hf as [Hf Hf'].
    destruct (digits_head d ((s2 ++ "-"%chr :: s3 ++ d' ++ s4) ++ p) Hd Hne) as (E1 & E2 & E3). rewrite <- app_assoc, E2, E3, E1. cbn [negb].
    rewrite <- app_assoc, number_digits, spaces_app by (done || lia || by destruct H2 as [|c s -> _]). cbn [app].
    rewrite spaces_stop by done. cbn [ch_ List.hd next_ List.tl Z.eqb Pos.eqb negb]. rewrite <- !app_assoc, spaces_app by done.
    destruct (digits_head d' (s4 ++ p) Hd' Hne') as (D1 & D2 & _). rewrite D2.
    assert (ends_at (d' ++ s4 ++ p) = false) as ->.
    { destruct d' as [|c d']; [done|]. unfold ends_at, digit_at in *. cbn in D1 |- *. lia. }
    by rewrite range_end_digits by (done || lia).
  - cbn [app]. rewrite spaces_stop by done. cbn [ch_ List.hd next_ List.tl Z.eqb Pos.eqb negb].
    rewrite <- app_assoc. by rewrite range_end_digits by (done || lia).
Qed.

End Turn.

(** ** The parser on a header *)

Lemma total_size_nonneg cl ws : 0 <= total_size (selected cl ws).
Proof.
  unfold selected. induction ws as [|w ws IH]; [done|]. rewrite fmap_cons, filter_cons. case_decide; [|done].
  unfold total_size in *. cbn [foldr]. lia.
Qed.

Lemma join_commas_cons t ts : exists p, join_commas (t :: ts) = t ++ p /\
  ((ts = [] /\ p = []) \/ (ts <> [] /\ p = ","%chr :: join_commas ts)).
Proof. destruct ts as [|t' ts]; [exists []; rewrite app_nil_r; auto|]. eexists. split; [done|]. by right. Qed.

Section Loop.
Context (cl : Z).
Hypothesis Hcl : 0 <= cl < 2 ^ 63.

Lemma parse_loop_spells ws ts fuel rs size max :
  Forall2 spells ws ts -> Forall spec_fits ws -> ws <> [] -> (length ws <= fuel)%nat -> 0 <= max ->
  0 <= size -> size + total_size (selected cl ws) < 2 ^ 63 ->
  let sel := as_range <$> selected cl ws in
  parse_loop cl (fun _ => true) fuel (join_commas ts) rs size max =
  Some (if max <? zlen sel then (NGX_DECLINED, rs ++ take (Z.to_nat max + 1) sel)
        else (parse_done cl (rs ++ sel) (size + total_size (selected cl ws)), rs ++ sel)).
Proof.
  intros Hw. revert fuel rs size max. induction Hw as [|w t ws ts Hwt Hw IH]; [done|].
  intros fuel rs size max Hf _ Hfuel Hmax Hsize Htot. cbv zeta. apply Forall_cons in Hf as [Hf1 Hf].
  destruct fuel as [|fuel]; [cbn in Hfuel; lia|]. cbn in Hfuel.
  destruct (join_commas_cons t ts) as (p & -> & Hp). cbn [parse_loop].
  assert (Hr : is_rest p) by (destruct Hp as [[_ ->]|[_ ->]]; [by left|right; eauto]).
  rewrite (range_turn_spells cl Hcl w t p Hwt Hf1 Hr). destruct (resolve cl w) as [a b] eqn:Ew. cbn [fst snd].
  pose proof (total_size_nonneg cl ws) as Hge.
  assert (Hsel : selected cl (w :: ws) = if decide (a < b) then (a, b) :: selected cl ws else selected cl ws).
  { unfold selected. rewrite fmap_cons, filter_cons, Ew. done. }
  rewrite Hsel in *.
  assert (Hnext : forall rs size max, 0 <= max -> 0 <= size -> size + total_size (selected cl ws) < 2 ^ 63 ->
    (if ch_ p =? "," then parse_loop cl (fun _ => true) fuel (next_ p) rs size max else Some (parse_done cl rs size, rs)) =
    Some (if max <? zlen (as_range <$> selected cl ws) then (NGX_DECLINED, rs ++ take (Z.to_nat max + 1) (as_range <$> selected cl ws))
          else (parse_done cl (rs ++ (as_range <$> selected cl ws)) (size + total_size (selected cl ws)), rs ++ (as_range <$> selected cl ws)))).
  { intros rs' size' max' Hm Hs Ht. destruct Hp as [[-> ->]|[Hne ->]].
    - apply Forall2_nil_inv_r in Hw as ->. rewrite (proj2 (Z.ltb_ge max' _)) by (unfold zlen; cbn; lia).
      cbn. by rewrite app_nil_r, Z.add_0_r.
    - cbn [ch_ List.hd next_ List.tl Z.eqb Pos.eqb]. apply IH; try done. intros ->. by apply Forall2_nil_inv_l in Hw as ->. lia. }
  destruct (Z.ltb_spec a b) as [Hab|Hab]; [rewrite decide_True in * by done|rewrite decide_False in * by lia; by apply Hnext].
  cbn [negb total_size foldr fst snd] in *. change (foldr _ 0 (selected cl ws)) with (total_size (selected cl ws)) in *.
  rewrite (s64_id (b - a)), s64_id by lia. rewrite fmap_cons, zlen_cons.
  destruct (Z.eqb_spec max 0) as [->|Hm0].
  - rewrite (proj2 (Z.ltb_lt 0 _)) by (pose proof (zlen_nonneg (as_range <$> selected cl ws)); lia). done.
  - rewrite Hnext by lia. replace (max - 1 <? zlen (as_range <$> selected cl ws)) with (max <? 1 + zlen (as_range <$> selected cl ws)) by lia.
    rewrite <- !app_assoc. cbn [app]. replace (Z.to_nat max + 1)%nat with (S (Z.to_nat (max - 1) + 1)) by lia. cbn [take].
    change (as_range (a, b)) with (mk_range a b []). by rewrite Z.add_assoc.
Qed.

End Loop.

(** What is not larger than the body is within it. *)
Lemma selected_inside cl ws :
  0 <= cl -> Forall spec_fits ws -> total_size (selected cl ws) <= cl ->
  Forall (fun r => 0 <= r.1 < r.2 /\ r.2 <= cl) (selected cl ws).
Proof.
  intros Hcl Hf. induction Hf as [|w ws Hw Hf IH]; [done|]. pose proof (total_size_nonneg cl ws) as Hge.
  unfold selected in *. rewrite fmap_cons, filter_cons. case_decide as Hlt; [|done]. intros Ht.
  unfold total_size in *. cbn [foldr] in Ht. constructor; [|apply IH; lia].
  destruct w; cbn in *; lia.
Qed.

(** The parser of the header [Range] grants what it asks for.  For every list of ranges
    in the form "first-", "first-last" or "-suffix" with spaces where they are allowed, whose
    numbers and whose total size fit 63 bits, the ranges are the non-empty ones in their
    order, cut to the body; they are granted with NGX_OK when there is one, they are not more
    than [max_ranges] and not larger than the body together, and each of them is then within
    the body; otherwise the answer is NGX_HTTP_RANGE_NOT_SATISFIABLE when none is left, and
    NGX_DECLINED, the whole body, when they are too many or too large. *)
Lemma range_parse_spec (cl max : Z) (prefix : bytes) (ws : list range_spec) (ts : list bytes) :
  0 <= cl < 2 ^ 63 -> 0 <= max -> length prefix = 6%nat ->
  Forall2 spells ws ts -> Forall spec_fits ws -> ws <> [] -> total_size (selected cl ws) < 2 ^ 63 ->
  exists rs, ngx_http_range_parse cl (fun _ => true) (prefix ++ join_commas ts) max =
      Some (range_verdict cl max (selected cl ws), rs) /\
    (zlen (selected cl ws) <= max -> rs = as_range <$> selected cl ws) /\
    (range_verdict cl max (selected cl ws) = NGX_OK ->
     Forall (fun r => 0 <= r.1 < r.2 /\ r.2 <= cl) (selected cl ws)).
Proof.
  intros Hcl Hmax Hpre Hw Hf Hne Hsize. unfold ngx_http_range_parse. rewrite <- Hpre, drop_app_length.
  assert (Hfuel : forall ts ws, Forall2 spells ws ts -> (length ws <= S (length (join_commas ts)))%nat).
  { clear. induction ts as [|t ts IH]; intros ws H; [apply Forall2_nil_inv_r in H as ->; cbn; lia|].
    apply Forall2_cons_inv_r in H as (w & ws' & _ & H & ->). specialize (IH _ H).
    destruct (join_commas_cons t ts) as (p & -> & [[-> ->]|[_ ->]]); rewrite length_app; [|cbn in *; lia].
    apply Forall2_nil_inv_r in H as ->. cbn. lia. }
  rewrite (parse_loop_spells cl Hcl ws ts) by (done || lia || by apply Hfuel). rewrite Z.add_0_l. cbn [app]. unfold range_verdict, zlen.
  rewrite length_fmap. destruct (Z.ltb_spec max (Z.of_nat (length (selected cl ws)))) as [Hlt|Hge].
  { eexists. split; [done|]. split; [lia|done]. }
  exists (as_range <$> selected cl ws).
  split; [by destruct (selected cl ws)|].
  split; [done|]. unfold parse_done. intros H. apply selected_inside; [lia|done|].
  destruct (selected cl ws); [done|]. cbn [fmap list_fmap] in H. case_bool_decide; [done|]. destruct (Z.ltb_spec cl (total_size (p :: l))); done.
Qed.
