(* ===== verification/RangeBody.v ===== *)
(** Byte ranges: the bytes that the body filter lets through. *)
From S2P Require Import Prelude Sprintf Range.

(** ** Buffers and their bytes *)

Definition buf_bytes (b : ngx_buf_t) : bytes :=
  if ngx_buf_in_memory b then slice (mem b) (pos b) (last b)
  else if in_file b then slice (file b) (file_pos b) (file_last b) else [].

(** The pointers of a buffer are within its memory and its file, and a buffer that is in
    both holds the same bytes. *)
Record buf_ok (b : ngx_buf_t) : Prop := {
  ok_mem : ngx_buf_in_memory b = true -> 0 <= pos b <= last b /\ last b <= zlen (mem b);
  ok_file : in_file b = true -> 0 <= file_pos b <= file_last b /\ file_last b <= zlen (file b);
  ok_both : ngx_buf_in_memory b = true -> in_file b = true ->
    slice (mem b) (pos b) (last b) = slice (file b) (file_pos b) (file_last b);
  ok_none : ngx_buf_in_memory b = false -> in_file b = false -> file_pos b = file_last b
}.

Lemma slice_drop l p n e : 0 <= p -> 0 <= n -> slice l (p + n) e = drop (Z.to_nat n) (slice l p e).
Proof.
  intros Hp Hn. unfold slice. rewrite skipn_firstn_comm, drop_drop. f_equal; [|f_equal]; lia.
Qed.

Lemma slice_take l p e n : p <= n <= e -> slice l p n = take (Z.to_nat (n - p)) (slice l p e).
Proof. intros H. unfold slice. rewrite take_take. f_equal. lia. Qed.

Lemma buf_size b : buf_ok b -> ngx_buf_size b = zlen (buf_bytes b).
Proof.
  intros [Hm Hf _ Hn]. unfold ngx_buf_size, buf_bytes. destruct (ngx_buf_in_memory b) eqn:Em.
  - destruct (Hm eq_refl). by rewrite zlen_slice by lia.
  - destruct (in_file b) eqn:Ef; [destruct (Hf eq_refl); by rewrite zlen_slice by lia|]. rewrite Hn by done. change (zlen _) with 0. lia.
Qed.

Lemma special_bytes b : ngx_buf_special b = true -> buf_bytes b = [].
Proof. unfold ngx_buf_special, buf_bytes. by destruct (ngx_buf_in_memory b), (in_file b); rewrite ?andb_false_r. Qed.

Lemma skip_bytes b : buf_bytes (skip_buf b) = [].
Proof.
  unfold skip_buf, buf_bytes. destruct b; cbn. destruct in_file; cbn; case_match; try done; by rewrite slice_nil by lia.
Qed.

(** Two buffers with the same memory, file and kinds of storage. *)
Definition same_store (b b' : ngx_buf_t) : Prop :=
  ngx_buf_in_memory b' = ngx_buf_in_memory b /\ in_file b' = in_file b /\ mem b' = mem b /\ file b' = file b.

Lemma cut_front_fields n b :
  same_store b (cut_front n b) /\ last (cut_front n b) = last b /\ file_last (cut_front n b) = file_last b /\
  pos (cut_front n b) = (if ngx_buf_in_memory b then pos b + n else pos b) /\
  file_pos (cut_front n b) = (if in_file b then file_pos b + n else file_pos b).
Proof. by destruct b as [? ? ? ? ? ? [] [] [] [] ? ? ?]. Qed.

Lemma cut_back_fields n b :
  same_store b (cut_back n b) /\ pos (cut_back n b) = pos b /\ file_pos (cut_back n b) = file_pos b /\
  last (cut_back n b) = (if ngx_buf_in_memory b then last b - n else last b) /\
  file_last (cut_back n b) = (if in_file b then file_last b - n else file_last b).
Proof. by destruct b as [? ? ? ? ? ? [] [] [] [] ? ? ?]. Qed.

Lemma cut_front_spec n b :
  buf_ok b -> 0 <= n <= ngx_buf_size b ->
  buf_ok (cut_front n b) /\ buf_bytes (cut_front n b) = drop (Z.to_nat n) (buf_bytes b).
Proof.
  intros Hok Hn. destruct (cut_front_fields n b) as ((Em & Ef & M & F) & El & Efl & Ep & Efp).
  pose proof (buf_size b Hok) as Hs. destruct Hok as [Hm Hf Hb Hx]. unfold ngx_buf_size, buf_bytes in *.
  rewrite !Em, !Ef, M, F, El, Efl, Ep, Efp. destruct (ngx_buf_in_memory b) eqn:E1, (in_file b) eqn:E2.
  - specialize (Hm eq_refl). specialize (Hf eq_refl). specialize (Hb eq_refl eq_refl).
    assert (Hl : file_last b - file_pos b = last b - pos b) by (rewrite Hs, Hb, zlen_slice; lia).
    split; [|apply slice_drop; lia]. split; rewrite ?Em, ?Ef, ?M, ?F, ?El, ?Efl, ?Ep, ?Efp; try done; try lia.
    intros _ _. rewrite !slice_drop, Hb by lia. done.
  - specialize (Hm eq_refl). split; [|apply slice_drop; lia].
    split; rewrite ?Em, ?Ef, ?M, ?F, ?El, ?Efl, ?Ep, ?Efp; done || lia.
  - specialize (Hf eq_refl). split; [|apply slice_drop; lia].
    split; rewrite ?Em, ?Ef, ?M, ?F, ?El, ?Efl, ?Ep, ?Efp; done || lia.
  - split; [|by rewrite drop_nil]. split; rewrite ?Em, ?Ef, ?M, ?F, ?El, ?Efl, ?Ep, ?Efp; by try done.
Qed.

Lemma cut_back_spec n b :
  buf_ok b -> 0 <= n <= ngx_buf_size b ->
  buf_ok (cut_back n b) /\ buf_bytes (cut_back n b) = take (Z.to_nat (zlen (buf_bytes b) - n)) (buf_bytes b).
Proof.
  intros Hok Hn. destruct (cut_back_fields n b) as ((Em & Ef & M & F) & Ep & Efp & El & Efl).
  pose proof (buf_size b Hok) as Hs. rewrite <- Hs. destruct Hok as [Hm Hf Hb Hx]. unfold ngx_buf_size, buf_bytes in *.
  rewrite !Em, !Ef, M, F, El, Efl, Ep, Efp. destruct (ngx_buf_in_memory b) eqn:E1, (in_file b) eqn:E2.
  - specialize (Hm eq_refl). specialize (Hf eq_refl). specialize (Hb eq_refl eq_refl).
    assert (Hl : file_last b - file_pos b = last b - pos b) by (rewrite Hs, Hb, zlen_slice; lia).
    split; [|rewrite (slice_take _ _ (last b)) by lia; do 2 f_equal; lia].
    split; rewrite ?Em, ?Ef, ?M, ?F, ?El, ?Efl, ?Ep, ?Efp; try done; try lia.
    intros _ _. rewrite (slice_take (mem b) _ (last b)), (slice_take (file b) _ (file_last b)), Hb by lia. do 2 f_equal. lia.
  - specialize (Hm eq_refl). split; [|rewrite (slice_take _ _ (last b)) by lia; do 2 f_equal; lia].
    split; rewrite ?Em, ?Ef, ?M, ?F, ?El, ?Efl, ?Ep, ?Efp; done || lia.
  - specialize (Hf eq_refl). split; [|rewrite (slice_take _ _ (file_last b)) by lia; do 2 f_equal; lia].
    split; rewrite ?Em, ?Ef, ?M, ?F, ?El, ?Efl, ?Ep, ?Efp; done || lia.
  - split; [|by rewrite take_nil]. split; rewrite ?Em, ?Ef, ?M, ?F, ?El, ?Efl, ?Ep, ?Efp; by try done.
Qed.

(** ** One range *)

Section Single.
Context (s e : Z).
Hypothesis Hse : 0 <= s < e.

(** The part of the range in the bytes that start at [k]. *)
Definition window (k : Z) (d : bytes) : bytes := drop (Z.to_nat (s - k)) (take (Z.to_nat (e - k)) d).

Lemma window_app k d d' : 0 <= k -> window k (d ++ d') = window k d ++ window (k + zlen d) d'.
Proof.
  intros Hk. unfold window, zlen. rewrite take_app, skipn_app. f_equal. rewrite length_take. f_equal; [lia|]. f_equal. lia.
Qed.

Lemma window_behind k d : e <= k -> window k d = [].
Proof. intros H. unfold window. by rewrite (Z2Nat.nonpos (e - k)), take_0, drop_nil by lia. Qed.

Lemma window_before k d : k + zlen d <= s -> window k d = [].
Proof. intros H. unfold window, zlen in *. apply drop_ge. rewrite length_take. lia. Qed.

Lemma window_nil k : window k [] = [].
Proof. unfold window. by rewrite take_nil, drop_nil. Qed.

(** The bytes of a chain. *)
Definition chain_bytes (cl : list ngx_buf_t) : bytes := concat (buf_bytes <$> cl).

Lemma chain_bytes_app c c' : chain_bytes (c ++ c') = chain_bytes c ++ chain_bytes c'.
Proof. unfold chain_bytes. by rewrite fmap_app, concat_app. Qed.

(** What is left of a buffer in which the range is, and whether it ends there. *)
Lemma cut_window k b :
  buf_ok b -> 0 <= k -> k < e -> s < k + ngx_buf_size b ->
  let b' := if k <? s then cut_front (s - k) b else b in
  let n := k + ngx_buf_size b - e in
  (e <= k + ngx_buf_size b -> buf_bytes (cut_back n b') = window k (buf_bytes b)) /\
  (k + ngx_buf_size b < e -> buf_bytes b' = window k (buf_bytes b)).
Proof.
  intros Hb Hk Hke Hs b' n. pose proof (buf_size b Hb) as Hsz.
  assert (H : buf_ok b' /\ buf_bytes b' = drop (Z.to_nat (s - k)) (buf_bytes b)).
  { unfold b'. destruct (Z.ltb_spec k s); [apply cut_front_spec; [done|lia]|].
    split; [done|]. by rewrite (Z2Nat.nonpos (s - k)) by lia. }
  destruct H as [Hb' E]. assert (Hz : zlen (buf_bytes b') = k + ngx_buf_size b - Z.max k s).
  { rewrite E, Hsz. unfold zlen in *. rewrite length_drop. lia. }
  unfold window. split; intros H.
  - destruct (cut_back_spec n b' Hb') as [_ ->]; [rewrite (buf_size b' Hb'); unfold n; lia|].
    rewrite Hz, E, skipn_firstn_comm. f_equal. unfold n. lia.
  - rewrite E. f_equal. symmetry. apply take_ge. unfold zlen in *. lia.
Qed.

(** The chain that goes on, and the place behind it, unless the range has ended before. *)
Definition passes (k : Z) (D out : bytes) (res : Z * list ngx_buf_t) : Prop :=
  chain_bytes res.2 = out ++ window k D /\ k <= res.1 <= k + zlen D /\ (res.1 = k + zlen D \/ e <= res.1).

Lemma passes_cons k d D out res :
  0 <= k -> passes (k + zlen d) D (out ++ window k d) res -> passes k (d ++ D) out res.
Proof.
  intros Hk (H1 & H2 & H3). unfold passes. pose proof (zlen_nonneg d). rewrite H1, window_app, <- app_assoc, zlen_app by done.
  split; [done|]. lia.
Qed.

Lemma singlepart_loop_spec cl k out skipped :
  0 <= k -> Forall buf_ok cl -> chain_bytes skipped = [] ->
  passes k (chain_bytes cl) (chain_bytes out) (singlepart_loop s e cl k out skipped).
Proof.
  intros Hk Hok. revert k out skipped Hk. induction Hok as [|b cl Hb _ IH]; intros k out skipped Hk Hsk.
  { unfold passes. cbn [singlepart_loop fst snd]. change (chain_bytes []) with (@nil Z). rewrite window_nil, app_nil_r. split; [|change (zlen _) with 0; lia]. case_bool_decide as E; [by rewrite E|].
    by rewrite chain_bytes_app, Hsk, app_nil_r. }
  change (chain_bytes (b :: cl)) with (buf_bytes b ++ chain_bytes cl). pose proof (zlen_nonneg (buf_bytes b)) as Hn.
  pose proof (buf_size b Hb) as Hsz. cbn [singlepart_loop].
  assert (Hlink : forall b', buf_bytes b' = window k (buf_bytes b) ->
    passes k (buf_bytes b ++ chain_bytes cl) (chain_bytes out) (singlepart_loop s e cl (k + ngx_buf_size b) (out ++ [b']) [])).
  { intros b' E. apply passes_cons; [done|]. rewrite <- E, Hsz. replace (chain_bytes out ++ buf_bytes b') with (chain_bytes (out ++ [b'])).
    - apply IH; [lia|done].
    - rewrite chain_bytes_app. f_equal. apply app_nil_r. }
  destruct (ngx_buf_special b) eqn:Esp; [apply Hlink; by rewrite (special_bytes b Esp), window_nil|].
  destruct (Z.leb_spec e k) as [H1|H1]; [|destruct (Z.leb_spec (k + ngx_buf_size b) s) as [H2|H2]]; cbn [orb].
  1, 2: apply passes_cons; [done|]; rewrite Hsz.
  1: rewrite window_behind by lia. 2: rewrite window_before by lia.
  1, 2: rewrite app_nil_r; apply IH; [lia|]; by rewrite chain_bytes_app, Hsk, <- (skip_bytes b); cbn; rewrite skip_bytes.
  destruct (cut_window k b Hb Hk H1 H2) as [C1 C2]. destruct (Z.leb_spec e (k + ngx_buf_size b)) as [H3|H3]; [|by apply Hlink, C2].
  apply passes_cons; [done|]. unfold passes. cbn [fst snd]. rewrite chain_bytes_app, (window_behind _ (chain_bytes cl)), app_nil_r by lia.
  pose proof (zlen_nonneg (chain_bytes cl)). split; [|lia]. f_equal. rewrite <- C1 by done. apply app_nil_r.
Qed.

(** The calls of the body filter one after the other: [q] bytes have been passed to it. *)
Fixpoint send (ctx : option ngx_http_range_filter_ctx_t) (calls : list (list ngx_buf_t)) : option bytes :=
  match calls with
  | [] => Some []
  | inp :: calls =>
      '(ctx, res) ← ngx_http_range_body_filter true ctx inp;
      rest ← send ctx calls;
      match res with
      | Next_body out => Some (chain_bytes out ++ rest)
      | Return_body code => if code =? NGX_OK then Some rest else None
      end
  end.

Lemma window_agree off q d : (off = q \/ e <= off) -> off <= q -> window off d = window q d.
Proof. intros [->|H] Hq; [done|]. by rewrite !window_behind by lia. Qed.

Lemma send_single calls ctx range q :
  ranges ctx = [range] -> r_start range = s -> r_end range = e ->
  0 <= offset ctx <= q -> (offset ctx = q \/ e <= offset ctx) -> Forall (Forall buf_ok) calls ->
  send (Some ctx) calls = Some (window q (chain_bytes (concat calls))).
Proof.
  intros Hr Es Ee Hq Ho Hok. revert ctx q Hr Hq Ho. induction Hok as [|inp calls Hinp _ IH]; intros ctx q Hr Hq Ho.
  { cbn. by rewrite window_nil. }
  cbn [send concat]. rewrite chain_bytes_app, window_app by lia. pose proof (zlen_nonneg (chain_bytes inp)).
  destruct inp as [|b inp]; cbn [ngx_http_range_body_filter mbind option_bind].
  { rewrite (IH ctx q) by done. cbn [mbind option_bind]. change (chain_bytes []) with (@nil Z). rewrite window_nil.
    change (zlen []) with 0. by rewrite Z.add_0_r. }
  rewrite Hr. cbn [length Nat.eqb]. unfold ngx_http_range_singlepart_body. rewrite Hr, Es, Ee.
  pose proof (singlepart_loop_spec (b :: inp) (offset ctx) [] [] ltac:(lia) Hinp eq_refl) as (P1 & P2 & P3).
  destruct (singlepart_loop _ _ _ _ _ _) as [off out]. cbn [fst snd] in *. cbn [mbind option_bind].
  rewrite (IH (mk_ctx off (boundary_header ctx) [range]) (q + zlen (chain_bytes (b :: inp)))); cbn [ranges offset]; [|done|lia|lia].
  cbn [mbind option_bind]. rewrite <- (window_agree (offset ctx) q) by lia. change (chain_bytes []) with (@nil Z) in P1. cbn [app] in P1.
  rewrite <- P1. case_bool_decide as E; [by rewrite E|done].
Qed.

End Single.

Lemma window_slice s e d : 0 <= s <= e -> window s e 0 d = slice d s e.
Proof. intros H. unfold window, slice. rewrite skipn_firstn_comm, !Z.sub_0_r. f_equal. lia. Qed.

(** ** Several ranges *)

(** The text for a range. *)
Definition part_bytes (header content : bytes) (r : ngx_http_range_t) : bytes :=
  header ++ r_content_range r ++ slice content (r_start r) (r_end r).

Lemma text_bytes text tmp lst : buf_bytes (text_buf text tmp lst) = text.
Proof.
  unfold buf_bytes, text_buf. destruct tmp; cbn; unfold slice; rewrite Z.sub_0_r, drop_0; apply take_ge; unfold zlen; lia.
Qed.

Lemma slice_slice l p q a b : 0 <= p -> 0 <= a -> b <= q - p -> slice l (p + a) (p + b) = slice (slice l p q) a b.
Proof.
  intros Hp Ha Hb. unfold slice. rewrite skipn_firstn_comm, drop_drop, take_take. f_equal; [lia|]. f_equal. lia.
Qed.

Lemma range_bytes b r :
  buf_ok b -> 0 <= r_start r < r_end r -> r_end r <= zlen (buf_bytes b) -> zlen (buf_bytes b) < 2 ^ 63 ->
  buf_bytes (range_buf b r) = slice (buf_bytes b) (r_start r) (r_end r).
Proof.
  intros Hb Hr Hle Hlt. pose proof (buf_size b Hb) as Hs. destruct Hb as [Hm Hf _ _].
  unfold buf_bytes, ngx_buf_size in *. change (ngx_buf_in_memory (range_buf b r)) with (ngx_buf_in_memory b).
  change (in_file (range_buf b r)) with (in_file b). unfold range_buf. rewrite !u64_id by lia.
  destruct (ngx_buf_in_memory b) eqn:E1; [apply slice_slice; destruct (Hm eq_refl); lia|].
  destruct (in_file b) eqn:E2; [apply slice_slice; destruct (Hf eq_refl); lia|].
  change (zlen []) with 0 in Hle. lia.
Qed.

Lemma send_multi ctx b rest :
  buf_ok b -> zlen (buf_bytes b) < 2 ^ 63 -> (2 <= length (ranges ctx))%nat -> offset ctx = 0 ->
  Forall (fun r => 0 <= r_start r < r_end r /\ r_end r <= zlen (buf_bytes b)) (ranges ctx) ->
  send (Some ctx) [b :: rest] =
  Some (concat (part_bytes (boundary_header ctx) (buf_bytes b) <$> ranges ctx) ++
        take 24 (boundary_header ctx) ++ bs "--" ++ CRLF).
Proof.
  intros Hb Hlt H2 Ho Hin. pose proof (buf_size b Hb) as Hs. cbn [send ngx_http_range_body_filter].
  destruct (Nat.eqb_spec (length (ranges ctx)) 1) as [?|_]; [lia|].
  destruct (ngx_buf_special b) eqn:Esp.
  { apply special_bytes in Esp. rewrite Esp in Hin. destruct (ranges ctx); [cbn in H2; lia|].
    apply Forall_cons in Hin as [Hin _]. change (zlen []) with 0 in Hin. lia. }
  unfold ngx_http_range_test_overlapped. rewrite Ho. cbn [negb Z.eqb].
  replace (existsb _ (ranges ctx)) with false.
  2: { symmetry. apply not_true_iff_false. rewrite existsb_exists. intros (r & Hr & H). rewrite Forall_forall in Hin.
       apply list_elem_of_In in Hr. specialize (Hin r Hr). lia. }
  rewrite andb_false_r. cbn [mbind option_bind]. unfold ngx_http_range_multipart_body. cbn [negb boundary_header ranges].
  rewrite app_nil_r, chain_bytes_app. do 2 f_equal.
  - clear H2. induction Hin as [|r rs [Hr Hle] _ IH]; [done|]. cbn [fmap list_fmap concat]. rewrite chain_bytes_app, IH. f_equal.
    unfold chain_bytes, part_bytes. cbn [fmap list_fmap concat]. by rewrite !text_bytes, range_bytes, app_nil_r by lia || done.
  - unfold chain_bytes. cbn [fmap list_fmap concat]. by rewrite text_bytes, app_nil_r.
Qed.
