(* ===== verification/RangeFilter.v ===== *)
(** Byte ranges: from the header of the request to the bytes of the response. *)
From S2P Require Import Prelude HashKey CString Numbers Sprintf TimesText Times Range RangeSpec RangeBody.

(** ** Texts *)

(** A number in decimal, and with zeros in front up to 20 digits. *)
Definition dec (n : Z) : bytes := num_digits n 0.
Definition dec20 (n : Z) : bytes := replicate (Z.to_nat (20 - zlen (dec n))) "0" ++ dec n.

Lemma dec_length n : 0 <= n < 2 ^ 64 -> 0 <= zlen (dec n) <= 20.
Proof.
  intros H. destruct (num_digits_dec n H) as (ds & E & _ & Hl). unfold dec. rewrite E. unfold zlen. lia.
Qed.

Lemma dec20_length n : 0 <= n < 2 ^ 64 -> zlen (dec20 n) = 20.
Proof.
  intros H. pose proof (dec_length n H). unfold dec20, zlen in *. rewrite length_app, length_replicate. lia.
Qed.

Lemma directive_O room fmt n args :
  20 <= room -> 0 <= n < 2 ^ 63 -> directive room ("O" :: fmt) (A_int n :: args) = Some (dec n, fmt, args).
Proof.
  intros Hr Hn. unfold directive. cbn -[convert]. unfold convert. cbn -[put_number s64 u64]. unfold put_number. cbn [sign].
  rewrite s64_id, (proj2 (Z.ltb_ge n 0)), u64_id by lia. cbn [zero hex width].
  pose proof (dec_length n ltac:(lia)). rewrite sprintf_num_take by lia. fold (dec n).
  rewrite (Z2Nat.nonpos (0 - _)) by lia. cbn [replicate app]. rewrite take_ge by (unfold zlen in *; lia). done.
Qed.

Lemma directive_0muA room fmt n args :
  20 <= room -> 0 <= n < 2 ^ 64 ->
  directive room ("0" :: "m" :: "u" :: "A" :: fmt) (A_int n :: args) = Some (dec20 n, fmt, args).
Proof.
  intros Hr Hn. unfold directive. cbn -[convert]. unfold convert. cbn -[put_number s64 u64]. unfold put_number. cbn [sign].
  rewrite u64_id by lia. cbn [zero hex width]. unfold NGX_ATOMIC_T_LEN.
  pose proof (dec20_length n Hn) as Hl. rewrite sprintf_num_take by lia. fold (dec n). fold (dec20 n).
  rewrite take_ge by (unfold zlen in *; lia). done.
Qed.

Lemma directive_V room fmt s args :
  zlen s <= room -> directive room ("V" :: fmt) (A_str s :: args) = Some (s, fmt, args).
Proof.
  intros Hr. unfold directive. cbn -[Z.min zlen]. do 3 f_equal. apply take_ge. unfold zlen in *. lia.
Qed.

(** The characters and the directives of a format, one after the other; the lengths of the
    numbers are among the hypotheses. *)
Ltac compute_texts := repeat match goal with |- context [bs ?s] => let v := eval vm_compute in (bs s) in change (bs s) with v end.
Ltac sprintf_step :=
  lazymatch goal with
  | |- vslprintf _ _ (37 :: 79 :: _) _ = _ => eapply vslprintf_directive; [lia|apply directive_O; lia|reflexivity|]
  | |- vslprintf _ _ (37 :: 48 :: 109 :: _) _ = _ =>
      eapply vslprintf_directive; [lia|apply directive_0muA; lia|reflexivity|]
  | |- vslprintf _ _ (37 :: 86 :: _) _ = _ => eapply vslprintf_directive; [lia|apply directive_V; lia|reflexivity|]
  | |- vslprintf _ _ (_ :: _) _ = _ => apply vslprintf_char; [done|done|lia|]
  | |- vslprintf _ _ [] _ = _ => reflexivity
  end.
Ltac sprintf_text := unfold ngx_vslprintf, CRLF, LF, CR; compute_texts; cbn [length app]; repeat sprintf_step.

Lemma number_text room a b c :
  70 <= room -> 0 <= a < 2 ^ 63 -> 0 <= b < 2 ^ 63 -> 0 <= c < 2 ^ 63 ->
  ngx_vslprintf room (bs "%O-%O/%O" ++ CRLF ++ CRLF) [A_int a; A_int b; A_int c] =
  Some (dec a ++ "-"%chr :: dec b ++ "/"%chr :: dec c ++ CRLF ++ CRLF).
Proof.
  intros Hr Ha Hb Hc. pose proof (dec_length a ltac:(lia)). pose proof (dec_length b ltac:(lia)).
  pose proof (dec_length c ltac:(lia)). sprintf_text.
Qed.

Lemma single_text room a b c :
  70 <= room -> 0 <= a < 2 ^ 63 -> 0 <= b < 2 ^ 63 -> 0 <= c < 2 ^ 63 ->
  ngx_vslprintf room (bs "bytes %O-%O/%O") [A_int a; A_int b; A_int c] =
  Some (bs "bytes " ++ dec a ++ "-"%chr :: dec b ++ "/"%chr :: dec c).
Proof.
  intros Hr Ha Hb Hc. pose proof (dec_length a ltac:(lia)). pose proof (dec_length b ltac:(lia)).
  pose proof (dec_length c ltac:(lia)). rewrite <- (app_nil_r (dec c)) at 1. sprintf_text.
Qed.

Lemma unsatisfiable_text room c :
  70 <= room -> 0 <= c < 2 ^ 63 -> ngx_vslprintf room (bs "bytes */%O") [A_int c] = Some (bs "bytes */" ++ dec c).
Proof.
  intros Hr Hc. pose proof (dec_length c ltac:(lia)). rewrite <- (app_nil_r (dec c)) at 1. sprintf_text.
Qed.

(** The texts of the boundaries, and the lines of a part in front of its numbers. *)
Definition boundary_text (b : Z) : bytes := CRLF ++ bs "--" ++ dec20 b.
Lemma boundary_text_length b : 0 <= b < 2 ^ 64 -> zlen (boundary_text b) = 24.
Proof. intros Hb. unfold boundary_text. by rewrite !zlen_app, (dec20_length b Hb). Qed.

Definition type_line (type charset : bytes) : bytes :=
  if negb (zlen charset =? 0) then CRLF ++ bs "Content-Type: " ++ type ++ bs "; charset=" ++ charset
  else if negb (zlen type =? 0) then CRLF ++ bs "Content-Type: " ++ type else [].
Definition header_text (b : Z) (type charset : bytes) : bytes :=
  boundary_text b ++ type_line type charset ++ CRLF ++ bs "Content-Range: bytes ".

Lemma charset_text room b type charset :
  100 + zlen type + zlen charset <= room -> 0 <= b < 2 ^ 64 ->
  ngx_vslprintf room (CRLF ++ bs "--%0muA" ++ CRLF ++ bs "Content-Type: %V; charset=%V" ++ CRLF ++ bs "Content-Range: bytes ")
    [A_int b; A_str type; A_str charset] =
  Some (boundary_text b ++ (CRLF ++ bs "Content-Type: " ++ type ++ bs "; charset=" ++ charset) ++ CRLF ++ bs "Content-Range: bytes ").
Proof.
  intros Hr Hb. pose proof (dec20_length b Hb). pose proof (zlen_nonneg type). pose proof (zlen_nonneg charset).
  unfold boundary_text. rewrite <- !app_assoc. sprintf_text.
Qed.

Lemma type_text room b type :
  100 + zlen type <= room -> 0 <= b < 2 ^ 64 ->
  ngx_vslprintf room (CRLF ++ bs "--%0muA" ++ CRLF ++ bs "Content-Type: %V" ++ CRLF ++ bs "Content-Range: bytes ")
    [A_int b; A_str type] =
  Some (boundary_text b ++ (CRLF ++ bs "Content-Type: " ++ type) ++ CRLF ++ bs "Content-Range: bytes ").
Proof.
  intros Hr Hb. pose proof (dec20_length b Hb). pose proof (zlen_nonneg type).
  unfold boundary_text. rewrite <- !app_assoc. sprintf_text.
Qed.

Lemma plain_text room b :
  100 <= room -> 0 <= b < 2 ^ 64 ->
  ngx_vslprintf room (CRLF ++ bs "--%0muA" ++ CRLF ++ bs "Content-Range: bytes ") [A_int b] =
  Some (boundary_text b ++ [] ++ CRLF ++ bs "Content-Range: bytes ").
Proof.
  intros Hr Hb. pose proof (dec20_length b Hb). unfold boundary_text. rewrite <- !app_assoc. sprintf_text.
Qed.

Lemma multipart_type_text room b :
  100 <= room -> 0 <= b < 2 ^ 64 ->
  ngx_vslprintf room (bs "multipart/byteranges; boundary=%0muA") [A_int b] =
  Some (bs "multipart/byteranges; boundary=" ++ dec20 b).
Proof.
  intros Hr Hb. pose proof (dec20_length b Hb). rewrite <- (app_nil_r (dec20 b)) at 1. sprintf_text.
Qed.

(** ** The request *)

(** A request whose header [Range] asks for the ranges [ws]. *)
Record asks_ranges (r : request) (max : Z) (ws : list range_spec) : Prop := {
  asks_version : NGX_HTTP_VERSION_10 <= http_version r;
  asks_main : main r = true;
  asks_allowed : allow_ranges r = true /\ 0 < max;
  asks_ok : status r = NGX_HTTP_OK;
  asks_length : 0 <= content_length_n r < 2 ^ 63;
  asks_header : exists prefix ts, in_range r = Some (prefix ++ join_commas ts) /\
    ngx_tolower <$> prefix = bs "bytes=" /\ Forall2 spells ws ts /\ ws <> [];
  asks_fit : Forall spec_fits ws /\ total_size (selected (content_length_n r) ws) < 2 ^ 63;
  (** the body is the one that the client has a part of *)
  asks_fresh : in_if_range r = None \/ last_modified_time r = -1 \/
    exists date, in_if_range r = Some date /\ ngx_http_parse_time date = Some (last_modified_time r)
}.

Lemma spells_length w t : spells w t -> (1 <= length t)%nat.
Proof. intros [s1 d s2 s3|s1 d s2 s3 d' s4|s1 d s2]; rewrite ?length_app; cbn; rewrite ?length_app; cbn; lia. Qed.

Lemma bytes_prefix prefix rest :
  ngx_tolower <$> prefix = bs "bytes=" -> length prefix = 6%nat /\ ngx_strncasecmp (prefix ++ rest) (bs "bytes=") 6 = 0.
Proof.
  intros H. pose proof (f_equal length H) as Hl. rewrite length_fmap in Hl. cbn in Hl. split; [done|].
  do 6 (destruct prefix as [|? prefix]; [done|]). destruct prefix; [|done]. injection H as H1 H2 H3 H4 H5 H6.
  cbn -[ngx_tolower]. by rewrite H1, H2, H3, H4, H5, H6.
Qed.

(** What the header filter does with what the parser answers. *)
Lemma header_filter_parsed r max ws boundary :
  asks_ranges r max ws ->
  let cl := content_length_n r in
  let rc := range_verdict cl max (selected cl ws) in
  exists rs, (zlen (selected cl ws) <= max -> rs = as_range <$> selected cl ws) /\
    (rc = NGX_OK -> Forall (fun x => 0 <= x.1 < x.2 /\ x.2 <= cl) (selected cl ws)) /\
    ngx_http_range_header_filter true (fun _ => true) max boundary r =
    let ctx := mk_ctx 0 [] rs in
    if rc =? NGX_OK then
      let r := r <| status := NGX_HTTP_PARTIAL_CONTENT |> <| status_line := [] |> in
      if (length rs =? 1)%nat then ngx_http_range_singlepart_header true r ctx
      else ngx_http_range_multipart_header true boundary r ctx
    else if rc =? NGX_HTTP_RANGE_NOT_SATISFIABLE then ngx_http_range_not_satisfiable true r
    else next_filter true r.
Proof.
  intros [Hv Hm [Ha Hmax] Hok Hcl (prefix & ts & Hr & Hpre & Hw & Hne) [Hf Ht] Hfresh] cl rc.
  destruct (bytes_prefix prefix (join_commas ts) Hpre) as [Hl Hcmp].
  destruct (range_parse_spec cl max prefix ws ts) as (rs & Hparse & Hrs & Hin); [done|lia|done..|].
  exists rs. split; [done|]. split; [done|]. unfold ngx_http_range_header_filter.
  rewrite (proj2 (Z.ltb_ge _ _) Hv), Hm, Ha, Hok, Hr. fold cl. rewrite (proj2 (Z.eqb_neq cl (-1))), (proj2 (Z.eqb_neq max 0)) by lia.
  cbn [negb orb Z.eqb Pos.eqb]. assert (Hlen : 7 <= zlen (prefix ++ join_commas ts)).
  { destruct Hw as [|w t ws ts Hwt Hw]; [done|]. destruct (join_commas_cons t ts) as (q & -> & _).
    pose proof (spells_length w t Hwt). unfold zlen. rewrite !length_app. lia. }
  rewrite (proj2 (Z.ltb_ge _ _) Hlen), Hcmp. cbn [negb orb Z.eqb].
  assert (Hst : (match in_if_range r with
                 | Some date => if negb (last_modified_time r =? -1) then
                     if_range ← ngx_http_parse_time date; Some (negb (if_range =? last_modified_time r)) else Some false
                 | None => Some false end) = Some false).
  { destruct Hfresh as [->|[->|(date & -> & Hd)]]; [done|by destruct (in_if_range r)|]. rewrite Hd.
    cbn [mbind option_bind]. rewrite Z.eqb_refl. by case_match. }
  rewrite Hst. cbn [mbind option_bind]. rewrite Hparse. cbn [mbind option_bind]. fold rc.
  destruct (rc =? NGX_OK); [done|]. destruct (rc =? NGX_HTTP_RANGE_NOT_SATISFIABLE); [done|].
  assert (rc =? NGX_ERROR = false) as ->; [|done]. unfold rc, range_verdict. by repeat case_match.
Qed.

(** ** One range, none, or the whole body *)

Lemma fits_text len fmt args text :
  ngx_vslprintf (2 ^ 63) fmt args = Some text -> zlen text <= len -> sprintf_to len fmt args = Some text.
Proof. intros E Hl. unfold sprintf_to. rewrite E. cbn [mbind option_bind]. by rewrite (proj2 (Z.leb_le _ _) Hl). Qed.

Definition range_text (s e cl : Z) : bytes := dec s ++ "-"%chr :: dec (e - 1) ++ "/"%chr :: dec cl.

Lemma range_text_length s e cl : 0 <= s < e -> e <= cl -> cl < 2 ^ 63 -> 0 <= zlen (range_text s e cl) <= 62.
Proof.
  intros Hs He Hc. pose proof (dec_length s ltac:(lia)). pose proof (dec_length (e - 1) ltac:(lia)).
  pose proof (dec_length cl ltac:(lia)). unfold range_text. autorewrite with zlen. lia.
Qed.

Lemma singlepart_header_ok r ctx s e txt :
  ranges ctx = [mk_range s e txt] -> 0 <= s < e -> e <= content_length_n r -> content_length_n r < 2 ^ 63 ->
  ngx_http_range_singlepart_header true r ctx =
  Some (Next_header (r <| content_range := Some (bs "bytes " ++ range_text s e (content_length_n r)) |>
    <| content_length_n := e - s |> <| content_length := None |>) (Some ctx)).
Proof.
  intros Hc Hs He Hl. unfold ngx_http_range_singlepart_header. rewrite Hc. cbn [negb r_start r_end].
  rewrite !s64_id by lia. pose proof (range_text_length s e _ Hs He Hl).
  rewrite (fits_text _ _ _ _ (single_text (2 ^ 63) s (e - 1) (content_length_n r) ltac:(lia) ltac:(lia) ltac:(lia) ltac:(lia))); [done|].
  rewrite zlen_app. change (zlen (bs "bytes -/")) with 8. change (zlen (bs "bytes ")) with 6.
  unfold NGX_OFF_T_LEN. fold (range_text s e (content_length_n r)). lia.
Qed.


(** ** Several ranges *)

Section Multipart.
Context (b : Z) (type charset : bytes) (cl : Z).

(** The numbers of a part, the part, the body of the response and its length. *)
Definition numbers_text (x : Z * Z) : bytes := range_text x.1 x.2 cl ++ CRLF ++ CRLF.
Definition part_text (content : bytes) (x : Z * Z) : bytes :=
  header_text b type charset ++ numbers_text x ++ slice content x.1 x.2.
Definition multipart_text (content : bytes) (sel : list (Z * Z)) : bytes :=
  concat (part_text content <$> sel) ++ boundary_text b ++ bs "--" ++ CRLF.
Definition multipart_length (sel : list (Z * Z)) : Z :=
  foldr (fun x v => zlen (header_text b type charset) + zlen (numbers_text x) + (x.2 - x.1) + v)
    (zlen (boundary_text b) + 4) sel.

Definition inside (x : Z * Z) : Prop := 0 <= x.1 < x.2 /\ x.2 <= cl.
Hypothesis Hb : 0 <= b < 2 ^ 64.
Hypothesis Hcl : 0 <= cl < 2 ^ 63.

Lemma multipart_text_length content sel :
  zlen content = cl -> Forall inside sel -> zlen (multipart_text content sel) = multipart_length sel.
Proof.
  intros Hc H. unfold multipart_text, multipart_length. rewrite zlen_app.
  induction H as [|x sel [Hx Hle] H IH]; cbn [fmap list_fmap concat foldr].
  - rewrite zlen_app. change (zlen []) with 0. change (zlen (bs "--" ++ CRLF)) with 4. lia.
  - rewrite zlen_app. unfold part_text at 1. rewrite !zlen_app, zlen_slice in * by lia. lia.
Qed.

Lemma numbers_length x : inside x -> 0 <= zlen (numbers_text x) <= 66.
Proof.
  intros [Hx Hle]. pose proof (range_text_length x.1 x.2 cl Hx Hle ltac:(lia)). unfold numbers_text.
  rewrite zlen_app. change (zlen (CRLF ++ CRLF)) with 4. lia.
Qed.

Lemma multipart_length_pos sel : Forall inside sel -> zlen (boundary_text b) + 4 <= multipart_length sel.
Proof.
  intros H. unfold multipart_length. pose proof (zlen_nonneg (header_text b type charset)). pose proof (zlen_nonneg (boundary_text b)).
  induction H as [|x sel Hx H IH]; cbn [foldr]; [lia|]. pose proof (numbers_length x Hx). destruct Hx. lia.
Qed.

Definition with_text (x : Z * Z) : ngx_http_range_t := mk_range x.1 x.2 (numbers_text x).

Lemma multipart_ranges_ok sel n :
  Forall inside sel -> 0 <= n -> n + multipart_length sel - zlen (boundary_text b) - 4 < 2 ^ 63 ->
  multipart_ranges cl (zlen (header_text b type charset)) (as_range <$> sel) n =
  Some (with_text <$> sel, n + multipart_length sel - zlen (boundary_text b) - 4).
Proof.
  intros H. revert n. induction H as [|x sel Hx H IH]; intros n Hn Hlt.
  { cbn. do 2 f_equal. lia. }
  pose proof (multipart_length_pos sel H) as Hpos. pose proof (numbers_length x Hx) as Hnum. pose proof Hx as [Hx1 Hx2].
  pose proof (zlen_nonneg (header_text b type charset)) as Hh. pose proof (zlen_nonneg (boundary_text b)) as Hbt.
  cbn [fmap list_fmap multipart_ranges r_start r_end as_range]. rewrite s64_id by lia.
  rewrite (fits_text _ _ _ (numbers_text x)).
  - cbn [mbind option_bind]. cbn [multipart_length foldr] in *. fold (multipart_length sel) in *.
    rewrite (u64_id (x.2 - x.1)), u64_id by lia. change (list_fmap _ _ as_range sel) with (as_range <$> sel).
    rewrite IH by lia. cbn [mbind option_bind]. do 2 f_equal. lia.
  - unfold numbers_text, range_text. rewrite <- !app_assoc. cbn [app]. rewrite <- !app_assoc. apply number_text; lia.
  - unfold NGX_OFF_T_LEN. lia.
Qed.

(** The boundary header fits the memory allocated for it. *)
Lemma header_text_ok :
  zlen type + zlen charset < 2 ^ 62 ->
  let len := zlen (CRLF ++ bs "--") + NGX_ATOMIC_T_LEN + zlen (CRLF ++ bs "Content-Type: ")
             + zlen type + zlen (CRLF ++ bs "Content-Range: bytes ") in
  let len := if negb (zlen charset =? 0) then len + zlen (bs "; charset=") + zlen charset else len in
  (if negb (zlen charset =? 0) then
     sprintf_to len (CRLF ++ bs "--%0muA" ++ CRLF ++ bs "Content-Type: %V; charset=%V" ++ CRLF ++ bs "Content-Range: bytes ")
       [A_int b; A_str type; A_str charset]
   else if negb (zlen type =? 0) then
     sprintf_to len (CRLF ++ bs "--%0muA" ++ CRLF ++ bs "Content-Type: %V" ++ CRLF ++ bs "Content-Range: bytes ")
       [A_int b; A_str type]
   else sprintf_to len (CRLF ++ bs "--%0muA" ++ CRLF ++ bs "Content-Range: bytes ") [A_int b]) =
  Some (header_text b type charset).
Proof.
  intros Hlt. pose proof (zlen_nonneg type). pose proof (zlen_nonneg charset). pose proof (dec20_length b Hb) as Hd.
  cbv zeta. change (zlen (CRLF ++ bs "--")) with 4. change (zlen (CRLF ++ bs "Content-Type: ")) with 16.
  change (zlen (CRLF ++ bs "Content-Range: bytes ")) with 23. change (zlen (bs "; charset=")) with 10. unfold NGX_ATOMIC_T_LEN.
  pose proof (boundary_text_length b Hb) as Hbt.
  unfold header_text, type_line. destruct (Z.eqb_spec (zlen charset) 0); [destruct (Z.eqb_spec (zlen type) 0)|]; cbn [negb].
  - apply fits_text; [apply plain_text; lia|]. rewrite !zlen_app, Hbt. change (zlen CRLF + _) with 23. change (zlen []) with 0. lia.
  - apply fits_text; [apply type_text; lia|]. rewrite !zlen_app, Hbt. change (zlen CRLF) with 2.
    change (zlen (bs "Content-Type: ")) with 14. change (zlen (bs "Content-Range: bytes ")) with 21. lia.
  - apply fits_text; [apply charset_text; lia|]. rewrite !zlen_app, Hbt. change (zlen CRLF) with 2.
    change (zlen (bs "Content-Type: ")) with 14. change (zlen (bs "Content-Range: bytes ")) with 21.
    change (zlen (bs "; charset=")) with 10. lia.
Qed.

Lemma multipart_header_ok r sel :
  content_type r = type -> Range.charset r = charset -> zlen type + zlen charset < 2 ^ 62 -> content_length_n r = cl ->
  Forall inside sel -> multipart_length sel < 2 ^ 63 ->
  exists r', ngx_http_range_multipart_header true b r (mk_ctx 0 [] (as_range <$> sel)) =
      Some (Next_header r' (Some (mk_ctx 0 (header_text b type charset) (with_text <$> sel)))) /\
    status r' = status r /\ content_length_n r' = multipart_length sel /\
    content_type r' = bs "multipart/byteranges; boundary=" ++ dec20 b.
Proof.
  intros Et Ec Hlt El Hin Hm. unfold ngx_http_range_multipart_header. cbn [negb]. rewrite Ec, Et.
  rewrite header_text_ok by done.
  cbn [mbind option_bind]. set (r1 := if negb (zlen charset =? 0) then r <| Range.charset := [] |> else r).
  assert (E1 : status r1 = status r /\ content_length_n r1 = cl) by (unfold r1; by case_match).
  pose proof (dec20_length b Hb) as Hd. rewrite (fits_text _ _ _ _ (multipart_type_text (2 ^ 63) b ltac:(lia) Hb)).
  2: { rewrite zlen_app, Hd. change (zlen (bs "multipart/byteranges; boundary=")) with 31.
       change (zlen (bs "Content-Type: multipart/byteranges; boundary=")) with 45. unfold NGX_ATOMIC_T_LEN. lia. }
  cbn [mbind option_bind]. clearbody r1. destruct E1 as [E1 E2].
  change (zlen (CRLF ++ bs "--") + NGX_ATOMIC_T_LEN + zlen (bs "--" ++ CRLF)) with 28.
  pose proof (boundary_text_length b Hb) as Hbt.
  match goal with |- context [multipart_ranges ?c _ _ _] => change c with (content_length_n r1) end.
  cbn [ranges boundary_header offset]. rewrite E2, multipart_ranges_ok by (done || lia). cbn [mbind option_bind].
  pose proof (multipart_length_pos sel Hin). rewrite Hbt in *. replace (28 + multipart_length sel - 24 - 4) with (multipart_length sel) by lia.
  rewrite s64_id by lia. eexists. split; [done|].
  split_and!; [exact E1|cbn; lia|done].
Qed.

End Multipart.


(** ** Runs *)

Definition sample_request (value : bytes) : request :=
  mk_request 1001 true true (Some value) None NGX_HTTP_OK (bs "200 OK") 11 (-1) (Some (bs "11")) (bs "text/plain") 10 None []
    None None.

(** "Hello world", the first half in memory, the second in a file. *)
Definition sample_chain : list ngx_buf_t :=
  [mk_buf 3 8 (bs "ab Hello") 0 0 [] true false false false false false false;
   mk_buf 0 0 [] 1 7 (bs "x worldx") false false false true false false true].
Definition sample_buf : ngx_buf_t := mk_buf 0 11 (bs "Hello world") 0 0 [] false true false false false false true.

Lemma sample_asks value ts ws :
  value = bs "bytes=" ++ join_commas ts -> Forall2 spells ws ts -> ws <> [] -> Forall spec_fits ws ->
  total_size (selected 11 ws) < 2 ^ 63 -> asks_ranges (sample_request value) 4 ws.
Proof. intros -> Hw Hne Hf Ht. split; cbn; try done; try (by exists (bs "bytes="), ts); try by left. Qed.


Lemma sample_buf_ok : buf_ok sample_buf.
Proof. split; by vm_compute. Qed.


(** Two suffixes whose sizes add up to more than 63 bits are granted, and start before the
    body. *)
Lemma range_overflow :
  ngx_http_range_parse 100 (fun _ => true) (bs "bytes=-9223372036854775807,-9223372036854775807") 2 =
  Some (NGX_OK, [mk_range (-9223372036854775707) 100 []; mk_range (-9223372036854775707) 100 []]).
Proof. by vm_compute. Qed.

(** The digits of a first byte wrap around to the front. *)
Lemma range_first_wraps :
  ngx_http_range_parse 100 (fun _ => true) (bs "bytes=9223372036854775808-") 1 =
  Some (NGX_OK, [mk_range (- 2 ^ 63) 100 []]).
Proof. by vm_compute. Qed.
